(* ===== verification/_CoqProject ===== *)
-Q . S2P
Prelude.v
Fifo.v
Messages.v
Ring.v
RingTest.v
RingConcurrent.v
LinkedList.v
SpeThread.v
HostFifo.v
HostQueue.v
HostCalls.v
HostSpec.v
HostApi.v
HostRefines.v
TaskIface.v
Example1.v
Example2.v
Dma.v
TaskManager.v
TaskPipeline.v
TaskLoop.v
Machine.v
SpuExamples.v
TaskSpec.v
System.v
Live.v
LiveHost.v
LiveInvariant.v
LiveRun.v
LiveSpec.v
LiveFrame.v
LiveFault.v
LiveMany.v
