(* ===== verification/Prelude.v ===== *)
(** * speutils: a verification library

    speutils runs tasks on the synergistic processors (SPEs) of a Cell
    processor.  The host writes tasks of 128 bytes to a queue in main memory, one
    queue per SPE; a program on the SPE fetches them by DMA, executes them in a
    pipeline and writes an acknowledgement of 16 bytes for each; a monitoring
    thread of the host frees the slots that were acknowledged.  This library
    translates the C code of both sides and proves what it guarantees, and where
    it does not.

    ** The files

    - Prelude: conversions to C integers, outcomes (result, fault, out of fuel),
      the state monad [M], loops ([loop], [spin], [for_loop]), pointers, arrays,
      what a computation [keeps], tactics, the rewriting database [speu] and the
      hints [keeps].
    - Fifo: the interface of a bounded queue of slots ([Fifo], [FifoLaws]) and
      the theorem that a user who tests first sees a bounded queue.
    - Messages: include/speutils/messages.h, speutils.h and the structures both
      processors share (spefifo.h, shared/pic.h), with the sizes and offsets a
      compiler gives them.
    - Ring: shared/ring.c, all operations, an instance of [FifoLaws].
      RingConcurrent: two threads over one ring, one of which tests the ring and
      the other the acknowledgements of an SPE, interleaved by statement and by
      call.  RingTest: tst/ring_test.c, with what it prints.
    - LinkedList: shared/linkedlist.c over a heap of nodes, freed ones marked.
    - SpeThread: src/spethread.c and src/spemessage.c.  libspe2, epoll, the pipe
      and the thread library are the class [Os]: each call is logged, its answer
      is an arbitrary function of the log.
    - HostFifo: src/spefifo.c, in the order of the file.  HostQueue: one queue
      as a value ([queue], [queue_wf]) and what the steps of a task do to it.
      HostCalls: the same through the arrays of all queues ([host_wf],
      [changed]).  HostSpec: the properties, and a concrete host.  HostApi: any
      sequence of the calls of spefifo.h ([api]), and where it faults.
      HostRefines: an abstract host without memory, the [board], and the relation
      [on_board] that every call keeps.  TaskIface: tst/task_iface.c, a client of
      the queues.
    - Dma: include/speutils/spu_dmalib.h and spu_message.h over a log of the
      intrinsics (class [Mfc]); [flights] says which buffers a transfer may still
      be using.
    - TaskManager: spu/src/spu_taskmanager.c, .h and spu_taskpipe.c, .h.
      TaskPipeline: the invariant [piped] of the pipeline between two cycles and
      what each stage does to it and to the log.  TaskLoop: what the buffers hold
      in a run ([copies], [holding]) and that the loop ends.  TaskSpec: the
      properties, and a concrete SPE.
    - Machine: an instance of [Mfc] in which local store and main memory are
      memories, transfers copy, and the host writes main memory between events.
    - System: a host's queue and the SPE that serves it, through the memory of
      Machine.
    - Live: the same machine when nothing waits for anything: the submitting
      thread, the monitoring thread and the DMA engine take steps in any order
      between the events of the SPE, as a schedule says, and a transfer takes
      effect at any time before the tag status that covers it.  LiveHost: the
      calls of HostFifo as sequences of such steps.  LiveInvariant: the invariant
      of the memories ([sound]), of the transfers that have not taken effect and
      the buffers they use ([busy]), step by step and event by event.  LiveRun:
      the invariant of a cycle of the pipeline ([running]).  LiveSpec: the
      properties, from [fifoInit] and the start of the task program on, and a
      concrete run.  LiveFrame: what a queue and its SPE leave alone in main
      memory.  LiveFault: the run up to a task that is not an addition.  LiveMany:
      any number of queues and SPEs in one main memory, each of which is a run of
      Live beside the others ([all_together]).
    - Example1, Example2, SpuExamples: the four programs of example/, and
      spu/src/pic_test.c.  Example1
      (host) runs on SpeThread, SpuExamples on Dma and Machine; Example2 is a
      step relation of the two host threads and the SPE, with a pipe of [room]
      answers between the threads.

    ** How the code is translated

    A C function is a definition of the same name, in the monad [M] over the
    static state its file keeps ([host], [spu], [tstate], [lstate], a log);
    threads that interleave are step relations (RingConcurrent, Example2) or
    steps that a schedule orders (Live).  A
    statement that the C standard does not define is a [Fault] with its reason,
    never a value; an uninitialised variable is an argument ([junk]), and one
    that every call of a function has anew is a sequence of them: [indet k] is
    what [res] holds in the [k]-th call of [stage3] that adds.
    An [int] that leaves its range is a fault, an unsigned integer wraps.  What
    the outside answers (libraries, intrinsics, allocation, the contents of
    local store) is a class of functions over which everything is quantified;
    each class has a concrete instance, on which the witnesses run.

    A loop of C takes fuel, or a list of what happens between its rounds.  The
    theorems say how much is enough: [4 d + 1] cycles of the pipeline for [d]
    tasks, [N + 2] cycles for a queue of [N] slots whatever is published
    meanwhile, one round more than the queue has slots for a pass of the monitoring
    thread, one round of the queues for [selectfifo], ten tries for
    [recieve_message_int].  Where a loop waits for another processor the theorem
    says what that must do.

    ** The groups of theorems

    - Bounded queues: [ring_bounded_queue] and [ring_invariant] (a ring of [n]
      slots is a queue of [n - 1]); [fifo_task_submitted],
      [fifothread_pass_releases], [fifoWait_drained], [fifoIsEmpty_exact],
      [waiting_loops_agree] and [fifoRegisterProgram_queues] (the queue of tasks
      behind it: pushing, releasing, waiting); [selectfifo_first_free] and
      [selectfifo_waits] (the choice of a queue); [fifoInit_ready].
      [host_refines_board]: any sequence of calls, passes and answers is answered
      as the board of bounded boxes answers it, and tasks leave a queue in the
      order they entered it.
    - Safety: [host_faults_only_unbegun] for any sequence of host calls;
      [pipeline_in_order] and [dma_wait_settles] for buffers and transfers;
      [ring_threads_safe] and [ring_threads_progress] for two threads;
      [fifothread_runs] for the monitoring thread, which never ends.
    - The SPE's pipeline: [main_starts_idle], [pipeline_completes],
      [stage3_addition].  End to end: [description_reaches_spe] (the structure
      the host lays out is the one the SPE reads), [submission_in_step] and
      [tasks_round_trip] (from the tasks in memory to their results in memory
      and the slots given back).  Under any schedule of additions that do
      not overflow: [live_tasks_answered] (in order, whole and with the right
      result), [live_tasks_latency] (in [N + 2] cycles), [live_main_runs] (for
      ever, without a fault), and
      [host_calls_are_steps], which ties the steps to the calls of HostFifo.
      Other queues and other code may write main memory outside of the queue at
      any time (the step [Elsewhere]); [live_leaves_alone] is the other half:
      the queue and its SPE write nothing there.  [live_many_answered] puts the
      two together, for any number of queues.
    - The programs that use the library: [ring_test_output],
      [task_iface_submits], [task_iface_never_faults]; [example1_conversation],
      [spu_example1_counts], [spu_example2_counts], [example2_counts_answers],
      [example2_spurious_wakeups].
    - The thread protocol: [spu_loop_thread_protocol] (what a thread that returns
      has done, and where one that does not is), [loop_thread_lifecycle],
      [start_spu_thread_outcome], [recieve_message_int_retries],
      [send_message_waits].
    - Lists: [list_roundtrip], [listAddEntry_appends],
      [listRemoveEntry_removes], [listRemoveEntry_absent].
    - What the code does not guarantee: [first_task_not_executed],
      [double_begin_overruns], [fifoInit_too_many], [ring_statement_race],
      [listRemoveEntry_successor], [run_thread_stop_faults],
      [live_bad_task_faults], [stage2_other_commands], [main_never_returns],
      [send_message_sends_address], [dma_list_sizes];
      [example1_never_returns], [example2_lost_wakeup].

    ** What is assumed

    - The queues of a host are disjoint memory, as [memalign] makes them; an
      allocation that fails is a NULL pointer.
    - Between the rounds of a waiting host loop, other threads and the SPE keep
      the queues well formed ([benign] where a property needs that no free slot
      disappears).  Host calls themselves are steps that nothing interleaves;
      RingConcurrent shows what is lost when a ring call is not.  In HostApi
      [fifoInit] was called first, and once, for one to sixteen queues, and
      [fifoAdd] and [fifoKick] name a queue there is.
    - In RingConcurrent the SPE acknowledges published slots, in their order.
    - The buffers of an SPE program are distinct, and while its pipeline runs the
      description of its queue stays in local store ([buffers_ok]) and transfers
      copy ([copies]); Machine and Live prove the first, Machine the second, of a
      memory laid out without overlap ([layout]).  In System the host leaves the
      queue alone during a run ([steady]) and a transfer takes effect when it is
      issued; in Live neither is assumed.
    - In Live the stores of the host reach memory in program order; a store, a
      test of memory, a call of shared/ring.c and the copy of a whole transfer
      are indivisible ([announce_one_store] for the two stores of [send_front],
      whose conditional store succeeds); [mfc_getllar] and [mfc_putlluc] copy when they are issued.  Every task
      published, and what the last slot holds at first, is an addition whose sums
      do not overflow from what [res] holds in the call that executes it ([good]):
      any other command stops the program ([live_bad_task_faults]).  The monitoring thread may find an acknowledgement
      before [fifoKick] has moved the front of the ring.  Everything but the queue
      and its SPE may write anything outside of the queue, except the
      description of the queue ([minds]).
    - In LiveMany the queues and their descriptions do not overlap ([separate]);
      the steps at each queue are those of its own threads: one host thread that
      serves all queues takes its steps at one after the other, which is one of
      the orders allowed.
    - The first word of an acknowledgement in local store, which the SPE program
      never writes, is not ACK_CLEAR ([tasks_round_trip], [prepared]): otherwise
      the host would not see the acknowledgement.
    - In HostRefines a host call is not interleaved with others and waits alone;
      SPEs acknowledge pending slots only, and [fifoRegisterProgram] is called
      when no queue is full.
    - In Example2 a thread that sleeps on the condition variable is woken by a
      broadcast only, but in [example2_spurious_wakeups]; the pipe holds at least
      one answer, and a write waits for room in it.

    ** What is not modelled

    Printing ([printf], [perror]) and [usleep], but for the message of a missing
    program, the output of the ring test and the values the SPE examples show;
    what the programs an SPE loads and calls do to the SPE: a call through
    [prog->LS] is an event of the log; in Machine and Live, transfer lists and
    conditional puts, which the pipeline does not use.  Build files and packaging.  RUN and RDY, which the first example uses and nothing
    defines, are a parameter of Example1 and without effect in SpuExamples. *)
From stdpp Require Import base list option gmap.
From Stdlib Require Import ZArith Lia.

#[global] Open Scope Z_scope.

(** * Machine integers

    A C integer is a [Z]; [u32], [u64] and [s32] are the conversions to
    [uint32_t], [uint64_t] and (two's complement) [int]. *)

Definition u32 (z : Z) : Z := z mod 2 ^ 32.
Definition u64 (z : Z) : Z := z mod 2 ^ 64.
Definition s32 (z : Z) : Z := (z + 2 ^ 31) mod 2 ^ 32 - 2 ^ 31.

(** * Outcomes

    What the C standard leaves undefined is a [Fault] with its reason; a loop
    that used up its fuel is [OutOfFuel].  Both are distinct from every
    ordinary result, error codes and NULL included. *)

Inductive fault : Type :=
| NullDeref          (* dereference of a null pointer *)
| DanglingDeref      (* access to storage that was freed or never allocated *)
| InvalidFree        (* free of something that is not allocated *)
| OutOfBounds        (* access outside an object *)
| SignedOverflow     (* arithmetic on int leaves its range *)
| BadShift           (* a shift the standard does not define *)
| DmaRace.           (* access to local store a transfer is using *)

Inductive res (A : Type) : Type :=
| Ok (a : A)
| Fault (f : fault)
| OutOfFuel.
Arguments Ok {A} a.
Arguments Fault {A} f.
Arguments OutOfFuel {A}.

#[export] Instance fault_eq_dec : EqDecision fault.
Proof. solve_decision. Defined.

#[export] Instance res_ret : MRet res := @Ok.
#[export] Instance res_bind : MBind res := fun A B k m =>
  match m with
  | Ok a => k a
  | Fault f => Fault f
  | OutOfFuel => OutOfFuel
  end.

(** Arithmetic on [int]: leaving the range is undefined. *)
Definition int_in_range (z : Z) : bool := (- 2 ^ 31 <=? z) && (z <? 2 ^ 31).
Definition to_int (z : Z) : res Z :=
  if int_in_range z then Ok z else Fault SignedOverflow.

(** A pointer that owns one object: NULL, storage that was freed, or the
    object itself. *)
Inductive ptr (A : Type) : Type :=
| Null
| Freed
| Valid (a : A).
Arguments Null {A}.
Arguments Freed {A}.
Arguments Valid {A} a.

Definition deref {A : Type} (p : ptr A) : res A :=
  match p with
  | Null => Fault NullDeref
  | Freed => Fault DanglingDeref
  | Valid a => Ok a
  end.

(** [free(p)]. *)
Definition free {A : Type} (p : ptr A) : res (ptr A) :=
  match p with
  | Null => Ok Null
  | Freed => Fault InvalidFree
  | Valid _ => Ok Freed
  end.

(** The object [malloc] or [memalign] returned, initialised to [a]: the code
    never tests the result, so a failed allocation is a null dereference. *)
Definition alloc_init {A : Type} (malloc_ok : bool) (a : A) : res (ptr A) :=
  if malloc_ok then Ok (Valid a) else Fault NullDeref.

(** * Arrays: a list indexed by a C integer *)

Definition aget {A : Type} (l : list A) (i : Z) : res A :=
  if i <? 0 then Fault OutOfBounds
  else match l !! Z.to_nat i with Some a => Ok a | None => Fault OutOfBounds end.

Definition aset {A : Type} (l : list A) (i : Z) (a : A) : res (list A) :=
  if (0 <=? i) && (i <? Z.of_nat (length l))
  then Ok (<[Z.to_nat i := a]> l) else Fault OutOfBounds.

(** * Stateful code

    [M S A]: a computation over the state [S] that returns an [A], faults, or
    runs out of fuel. *)

Definition M (S A : Type) : Type := S -> res (A * S).

#[export] Instance M_ret S : MRet (M S) := fun A a s => Ok (a, s).
#[export] Instance M_bind S : MBind (M S) := fun A B k m s =>
  match m s with
  | Ok (a, s') => k a s'
  | Fault f => Fault f
  | OutOfFuel => OutOfFuel
  end.

Section ops.
Context {S : Type}.

Definition gets {A : Type} (f : S -> A) : M S A := fun s => Ok (f s, s).
Definition modify (f : S -> S) : M S unit := fun s => Ok (tt, f s).
Definition lift {A : Type} (r : res A) : M S A := fun s =>
  match r with
  | Ok a => Ok (a, s)
  | Fault f => Fault f
  | OutOfFuel => OutOfFuel
  end.
Definition fail {A : Type} (f : fault) : M S A := fun _ => Fault f.

(** A loop left by [break], [return] or its condition: the body answers
    [None] to go round again and [Some a] to leave with [a]. *)
Fixpoint loop {A : Type} (fuel : nat) (body : M S (option A)) : M S A :=
  match fuel with
  | O => fun _ => OutOfFuel
  | Datatypes.S fuel' =>
      fun s => match body s with
               | Ok (None, s') => loop fuel' body s'
               | Ok (Some a, s') => Ok (a, s')
               | Fault f => Fault f
               | OutOfFuel => OutOfFuel
               end
  end.

(** [for (i = i0; n more times; i++) body]. *)
Fixpoint for_loop (i0 : Z) (n : nat) (body : Z -> M S unit) : M S unit :=
  match n with
  | O => fun s => Ok (tt, s)
  | Datatypes.S n' =>
      fun s => match body i0 s with
               | Ok (_, s') => for_loop (i0 + 1) n' body s'
               | Fault f => Fault f
               | OutOfFuel => OutOfFuel
               end
  end.

(** A loop that waits for other threads: [env] lists what they do between one
    round and the next, and the loop runs as many rounds as [env] has entries
    (then it is out of fuel). *)
Fixpoint spin {A : Type} (env : list (M S unit)) (body : M S (option A)) : M S A :=
  match env with
  | [] => fun _ => OutOfFuel
  | others :: env =>
      fun s => match body s with
               | Ok (Some a, s') => Ok (a, s')
               | Ok (None, s') =>
                   match others s' with
                   | Ok (_, s'') => spin env body s''
                   | Fault f => Fault f
                   | OutOfFuel => OutOfFuel
                   end
               | Fault f => Fault f
               | OutOfFuel => OutOfFuel
               end
  end.
End ops.

(** ** Automation *)

(** Case analysis on the integer comparisons of the goal or of a hypothesis,
    innermost tests first, each leaving the fact it decides. *)
Ltac zcase_on a b spec :=
  lazymatch a with context [if _ then _ else _] => fail | _ => idtac end;
  lazymatch b with context [if _ then _ else _] => fail | _ => idtac end;
  destruct (spec a b).

Ltac zcases1 :=
  match goal with
  | |- context [?a <=? ?b] => zcase_on a b Z.leb_spec
  | |- context [?a <? ?b] => zcase_on a b Z.ltb_spec
  | |- context [?a =? ?b] => zcase_on a b Z.eqb_spec
  | _ : context [?a <=? ?b] |- _ => zcase_on a b Z.leb_spec
  | _ : context [?a <? ?b] |- _ => zcase_on a b Z.ltb_spec
  | _ : context [?a =? ?b] |- _ => zcase_on a b Z.eqb_spec
  end.
Ltac zcases :=
  repeat (zcases1; cbn [andb orb negb] in *; cbv iota; try done; try lia).

(** ** Lemmas: machine integers *)

Lemma u32_range z : 0 <= u32 z < 2 ^ 32.
Proof. apply Z.mod_pos_bound. lia. Qed.

Lemma u32_small z : 0 <= z < 2 ^ 32 -> u32 z = z.
Proof. apply Z.mod_small. Qed.

Lemma u64_small z : 0 <= z < 2 ^ 64 -> u64 z = z.
Proof. apply Z.mod_small. Qed.

Lemma s32_range z : - 2 ^ 31 <= s32 z < 2 ^ 31.
Proof. unfold s32. pose proof (Z.mod_pos_bound (z + 2 ^ 31) (2 ^ 32)). lia. Qed.

Lemma s32_small z : - 2 ^ 31 <= z < 2 ^ 31 -> s32 z = z.
Proof. intros. unfold s32. rewrite Z.mod_small; lia. Qed.

(** Converting to [int] and back to [uint32_t] loses nothing. *)
Lemma u32_s32 z : u32 (s32 z) = u32 z.
Proof.
  unfold u32, s32.
  rewrite (Z.mod_eq (z + 2 ^ 31) (2 ^ 32)) by lia.
  replace (z + 2 ^ 31 - 2 ^ 32 * ((z + 2 ^ 31) / 2 ^ 32) - 2 ^ 31)
    with (z + (- ((z + 2 ^ 31) / 2 ^ 32)) * 2 ^ 32) by lia.
  apply Z.mod_add. lia.
Qed.

Lemma s32_u32 z : s32 (u32 z) = s32 z.
Proof. unfold s32, u32. rewrite Zplus_mod_idemp_l. reflexivity. Qed.

Lemma u32_u32 z : u32 (u32 z) = u32 z.
Proof. apply u32_small, u32_range. Qed.

Lemma to_int_ok z : - 2 ^ 31 <= z < 2 ^ 31 -> to_int z = Ok z.
Proof.
  intros. unfold to_int, int_in_range.
  rewrite (proj2 (Z.leb_le _ _)) by lia.
  rewrite (proj2 (Z.ltb_lt _ _)) by lia. done.
Qed.

Create Rewrite HintDb speu.
#[export] Hint Rewrite u32_s32 s32_u32 u32_u32 : speu.

(** ** Lemmas: running stateful code

    The database [run] holds, for each operation, the equation that says what it
    returns; [mstep] runs the next operation of a computation with it. *)

Create HintDb run discriminated.
#[export] Hint Constants Opaque : run.
#[export] Hint Variables Opaque : run.

Section running.
Context {S : Type}.
Implicit Types (s : S).

Lemma M_bind_ok {A B : Type} (m : M S A) (k : A -> M S B) s a s' :
  m s = Ok (a, s') -> (m ≫= k) s = k a s'.
Proof. intros H. unfold mbind, M_bind. by rewrite H. Qed.

Lemma M_bind_fault {A B : Type} (m : M S A) (k : A -> M S B) s f :
  m s = Fault f -> (m ≫= k) s = Fault f.
Proof. intros H. unfold mbind, M_bind. by rewrite H. Qed.

Lemma M_bind_assoc {A B C : Type} (m : M S A) (f : A -> M S B) (g : B -> M S C) s :
  ((m ≫= f) ≫= g) s = (m ≫= (fun a => f a ≫= g)) s.
Proof. unfold mbind, M_bind. by destruct (m s) as [[a s'] | |]. Qed.

Lemma M_bind_ext {A B : Type} (m : M S A) (k k' : A -> M S B) s :
  (forall a s, k a s = k' a s) -> (m ≫= k) s = (m ≫= k') s.
Proof. intros H. unfold mbind, M_bind. by destruct (m s) as [[a s'] | |]. Qed.

(** A computation that returned did so through each of its parts. *)
Lemma M_bind_inv {A B : Type} (m : M S A) (k : A -> M S B) s b s'' :
  (m ≫= k) s = Ok (b, s'') -> exists a s', m s = Ok (a, s') /\ k a s' = Ok (b, s'').
Proof.
  unfold mbind, M_bind. destruct (m s) as [[a s'] | |]; [| done..]. by eauto.
Qed.

Lemma run_ret {A : Type} (a : A) s : (mret a : M S A) s = Ok (a, s).
Proof. done. Qed.
Lemma run_gets {A : Type} (f : S -> A) s : gets f s = Ok (f s, s).
Proof. done. Qed.
Lemma run_modify (f : S -> S) s : modify f s = Ok (tt, f s).
Proof. done. Qed.
Lemma run_lift {A : Type} (a : A) s : lift (Ok a) s = Ok (a, s).
Proof. done. Qed.
Lemma run_fail {A : Type} (f : fault) s : (fail f : M S A) s = Fault f.
Proof. done. Qed.
Lemma run_lift_fault {A : Type} (f : fault) s : lift (Fault f : res A) s = Fault f.
Proof. done. Qed.
End running.

#[export] Hint Resolve run_ret run_gets run_modify run_lift run_fail run_lift_fault : run.

Ltac mstep :=
  first
    [ erewrite M_bind_ok; [| solve [eauto with run nocore]]
    | erewrite M_bind_fault; [| solve [eauto with run nocore]]
    | rewrite M_bind_assoc ];
  cbv beta.
Ltac mrun := repeat mstep.
Ltac mstep_in H :=
  first
    [ erewrite M_bind_ok in H; [| solve [eauto with run nocore]]
    | erewrite M_bind_fault in H; [| solve [eauto with run nocore]]
    | rewrite M_bind_assoc in H ];
  cbv beta in H.
Ltac mrun_in H := repeat mstep_in H.

(** ** Lemmas: arrays *)

Section arrays.
Context {A : Type}.
Implicit Types (l : list A) (i j : Z) (a b : A).

Lemma aget_lookup l i a :
  aget l i = Ok a <-> 0 <= i /\ l !! Z.to_nat i = Some a.
Proof.
  unfold aget. destruct (Z.ltb_spec i 0).
  - split; [done | lia].
  - destruct (l !! Z.to_nat i) as [x |].
    + split; [intros [= ->]; by split | intros [_ [= ->]]; done].
    + split; [done | by intros [_ ?]].
Qed.

Lemma aget_bound l i a : aget l i = Ok a -> 0 <= i < Z.of_nat (length l).
Proof. rewrite aget_lookup. intros [? H]. apply lookup_lt_Some in H. lia. Qed.

Lemma aget_ok l i : 0 <= i < Z.of_nat (length l) -> exists a, aget l i = Ok a.
Proof.
  intros Hi. destruct (lookup_lt_is_Some_2 l (Z.to_nat i)) as [a Ha]; [lia |].
  exists a. apply aget_lookup. split; [lia | done].
Qed.

Lemma aget_oob l i : ~ 0 <= i < Z.of_nat (length l) -> aget l i = Fault OutOfBounds.
Proof.
  intros Hi. unfold aget. destruct (Z.ltb_spec i 0); [done |].
  rewrite lookup_ge_None_2; [done | lia].
Qed.

Lemma aset_ok l i a :
  0 <= i < Z.of_nat (length l) -> aset l i a = Ok (<[Z.to_nat i := a]> l).
Proof.
  intros Hi. unfold aset.
  rewrite (proj2 (Z.leb_le _ _)), (proj2 (Z.ltb_lt _ _)) by lia. done.
Qed.

Lemma aset_oob l i a :
  ~ 0 <= i < Z.of_nat (length l) -> aset l i a = Fault OutOfBounds.
Proof.
  intros Hi. unfold aset.
  destruct (Z.leb_spec 0 i), (Z.ltb_spec i (Z.of_nat (length l))); (done || lia).
Qed.

Lemma aset_inv l i a l' :
  aset l i a = Ok l' ->
  0 <= i < Z.of_nat (length l) /\ l' = <[Z.to_nat i := a]> l.
Proof.
  unfold aset.
  destruct (Z.leb_spec 0 i), (Z.ltb_spec i (Z.of_nat (length l))); naive_solver.
Qed.

Lemma aget_insert_eq l i a :
  0 <= i < Z.of_nat (length l) -> aget (<[Z.to_nat i := a]> l) i = Ok a.
Proof.
  intros Hi. apply aget_lookup. split; [lia |].
  apply list_lookup_insert_eq. lia.
Qed.

Lemma aget_insert_ne l i j a :
  0 <= i -> i <> j -> aget (<[Z.to_nat i := a]> l) j = aget l j.
Proof.
  intros Hi Hne. unfold aget. destruct (Z.ltb_spec j 0); [done |].
  rewrite list_lookup_insert_ne by lia. done.
Qed.
End arrays.

(** ** Lemmas: loops *)

Section loops.
Context {S : Type}.

(** A loop whose body establishes [Q] when it leaves, and otherwise keeps the
    invariant and decreases a measure, returns with any fuel above it. *)
Lemma loop_measure {A : Type} (body : M S (option A)) (I : S -> Prop)
    (Q : A -> S -> Prop) (m : S -> nat) :
  (forall s, I s -> exists o s', body s = Ok (o, s') /\
    match o with None => I s' /\ (m s' < m s)%nat | Some a => Q a s' end) ->
  forall fuel s, I s -> (m s < fuel)%nat ->
  exists a s', loop fuel body s = Ok (a, s') /\ Q a s'.
Proof.
  intros Hbody. induction fuel as [| fuel IH]; intros s HI Hm; [lia |].
  destruct (Hbody s HI) as (o & s' & Hs & Ho). cbn [loop]. rewrite Hs.
  destruct o as [a |]; [by eauto |].
  destruct Ho as [HI' Hlt]. apply IH; [done | lia].
Qed.

(** What every round keeps, a loop keeps. *)
Lemma loop_keeps {A : Type} (body : M S (option A)) (P : S -> Prop) :
  (forall s o s', P s -> body s = Ok (o, s') -> P s') ->
  forall fuel s a s', P s -> loop fuel body s = Ok (a, s') -> P s'.
Proof.
  intros Hbody. induction fuel as [| fuel IH]; intros s a s' HP Hr; cbn [loop] in Hr; [done |].
  destruct (body s) as [[[b |] s1] | |] eqn:Hb; [| | done..].
  - injection Hr as <- <-. by eapply Hbody.
  - eapply IH; [| exact Hr]. by eapply Hbody.
Qed.

(** More fuel does not change the result of a loop that returned. *)
Lemma loop_more_fuel {A : Type} (body : M S (option A)) fuel fuel' s r :
  (fuel <= fuel')%nat ->
  loop fuel body s = Ok r -> loop fuel' body s = Ok r.
Proof.
  revert fuel' s. induction fuel as [| fuel IH]; intros fuel' s Hle Hr; [done |].
  destruct fuel' as [| fuel']; [lia |]. cbn [loop] in *.
  destruct (body s) as [[[] s']| |]; [done | | done..]. apply IH; [lia | done].
Qed.

Lemma for_loop_inv (body : Z -> M S unit) (I : Z -> S -> Prop) :
  forall n i0 s, I i0 s ->
  (forall i s, i0 <= i < i0 + Z.of_nat n -> I i s ->
     exists s', body i s = Ok (tt, s') /\ I (i + 1) s') ->
  exists s', for_loop i0 n body s = Ok (tt, s') /\ I (i0 + Z.of_nat n) s'.
Proof.
  induction n as [| n IH]; intros i0 s HI Hbody; cbn [for_loop].
  - exists s. by rewrite Z.add_0_r.
  - destruct (Hbody i0 s) as (s' & -> & HI'); [lia | done |].
    destruct (IH (i0 + 1) s' HI') as (s'' & Hs & HI'').
    { intros i t Hi. apply Hbody. lia. }
    exists s''. split; [done |]. by replace (i0 + Z.of_nat (Datatypes.S n))
      with (i0 + 1 + Z.of_nat n) by lia.
Qed.
End loops.

(** ** What a computation keeps

    [keeps P m]: when [m] returns, [P] holds of the new state if it did of the old
    one.  [leaves P m]: it does in any case. *)
Definition keeps {S A : Type} (P : S -> Prop) (m : M S A) : Prop :=
  forall s a s', m s = Ok (a, s') -> P s -> P s'.
Definition leaves {S A : Type} (P : S -> Prop) (m : M S A) : Prop :=
  forall s a s', m s = Ok (a, s') -> P s'.

Section keeps.
Context {S : Type} (P : S -> Prop).

Lemma keeps_bind {A B : Type} (m : M S A) (k : A -> M S B) :
  keeps P m -> (forall a, keeps P (k a)) -> keeps P (m ≫= k).
Proof.
  intros Hm Hk s b s'' Hr HP. apply M_bind_inv in Hr as (a & s' & H1 & H2). by eapply Hk, Hm.
Qed.
Lemma keeps_read {A : Type} (f : S -> res A) : keeps P (fun s => lift (f s) s).
Proof. intros s a s' Hr. unfold lift in Hr. by destruct (f s); simplify_eq. Qed.
Lemma keeps_lift {A : Type} (r : res A) : keeps P (lift r).
Proof. apply keeps_read. Qed.
Lemma keeps_gets {A : Type} (f : S -> A) : keeps P (gets f).
Proof. by intros s a s' [= <- <-]. Qed.
Lemma keeps_ret {A : Type} (a : A) : keeps P (mret a).
Proof. by intros s b s' [= <- <-]. Qed.
Lemma keeps_fail {A : Type} f : keeps P (fail f : M S A).
Proof. done. Qed.
Lemma keeps_modify (f : S -> S) : (forall s, P s -> P (f s)) -> keeps P (modify f).
Proof. intros Hf s a s' [= <- <-]. apply Hf. Qed.
Lemma keeps_loop {A : Type} fuel (body : M S (option A)) :
  keeps P body -> keeps P (loop fuel body).
Proof.
  intros Hb s a s' Hr HP. eapply (loop_keeps body P); [| exact HP | exact Hr].
  intros s1 o s2 H1 H2. by eapply Hb.
Qed.

Lemma leaves_keeps {A : Type} (m : M S A) : leaves P m -> keeps P m.
Proof. intros Hm s a s' Hr _. by eapply Hm. Qed.
Lemma leaves_last {A B : Type} (m : M S A) (k : A -> M S B) :
  (forall a, leaves P (k a)) -> leaves P (m ≫= k).
Proof. intros Hk s b s'' Hr. apply M_bind_inv in Hr as (a & s' & _ & H2). by eapply Hk. Qed.
Lemma leaves_then {A B : Type} (m : M S A) (k : A -> M S B) :
  leaves P m -> (forall a, keeps P (k a)) -> leaves P (m ≫= k).
Proof.
  intros Hm Hk s b s'' Hr. apply M_bind_inv in Hr as (a & s' & H1 & H2).
  eapply Hk; [exact H2 |]. by eapply Hm.
Qed.
End keeps.

Create HintDb keeps discriminated.
#[export] Hint Constants Opaque : keeps.
#[export] Hint Resolve keeps_bind keeps_ret keeps_gets keeps_read keeps_lift keeps_fail keeps_loop : keeps.
#[export] Hint Extern 1 (keeps _ (modify _)) => apply keeps_modify; done : keeps.
#[export] Hint Extern 2 (keeps _ (if ?b then _ else _)) => destruct b : keeps.

(** The longest prefix of [n] positions on which a decidable property holds. *)
Lemma longest_prefix (P : Z -> Prop) `{forall i, Decision (P i)} (n : nat) :
  exists k, 0 <= k <= Z.of_nat n /\ (forall j, 0 <= j < k -> P j) /\
    (k < Z.of_nat n -> ~ P k).
Proof.
  induction n as [| n (k & Hk & Hall & Hstop)].
  - exists 0. split_and!; [lia | lia | intros; lia | lia].
  - destruct (decide (k < Z.of_nat n)) as [Hlt |].
    + exists k. split_and!; [lia | lia | done |]. intros _. by apply Hstop.
    + replace k with (Z.of_nat n) in * by lia. destruct (decide (P (Z.of_nat n))).
      * exists (Z.of_nat n + 1). split_and!; [lia | lia | | lia].
        intros j Hj. destruct (decide (j = Z.of_nat n)) as [-> |]; [done |].
        apply Hall. lia.
      * exists (Z.of_nat n). split_and!; [lia | lia | done | done].
Qed.
