(* ===== verification/Fifo.v ===== *)
(** What a cyclic index promises to the code that stores its entries in the
    slots it names: the interface between the ring of shared/ring.c and its
    clients.  A ring holds no data; it says which slots are pending and which
    slot comes next. *)
From stdpp Require Import base list.
From Stdlib Require Import ZArith Lia.
From S2P Require Import Prelude.

(** The operations of an index. *)
Class Fifo (R : Type) := {
  fifo_free : R -> bool;      (* a slot may be claimed *)
  fifo_some : R -> bool;      (* a slot is pending *)
  fifo_push : R -> R;         (* the slot at the front becomes pending *)
  fifo_pop : R -> R;          (* the oldest pending slot is released *)
  fifo_front : R -> Z;
  fifo_back : R -> Z;
  fifo_wf : R -> Prop;
  fifo_cap : R -> Z;          (* most slots that can be pending *)
  fifo_pending : R -> list Z  (* the pending slots, oldest first *)
}.

(** What they promise. *)
Class FifoLaws (R : Type) `{Fifo R} := {
  pending_cap r : fifo_wf r -> Z.of_nat (length (fifo_pending r)) <= fifo_cap r;
  pending_slot r i : fifo_wf r -> i ∈ fifo_pending r -> 0 <= i <= fifo_cap r;
  front_slot r : fifo_wf r -> 0 <= fifo_front r <= fifo_cap r;
  front_fresh r : fifo_wf r -> fifo_front r ∉ fifo_pending r;
  free_spec r : fifo_wf r ->
    fifo_free r = bool_decide (Z.of_nat (length (fifo_pending r)) < fifo_cap r);
  some_spec r : fifo_wf r -> fifo_some r = bool_decide (fifo_pending r <> []);
  push_wf r : fifo_wf r -> fifo_wf (fifo_push r);
  pop_wf r : fifo_wf r -> fifo_wf (fifo_pop r);
  push_cap r : fifo_cap (fifo_push r) = fifo_cap r;
  pop_cap r : fifo_cap (fifo_pop r) = fifo_cap r;
  push_pending r : fifo_wf r -> fifo_free r = true ->
    fifo_pending (fifo_push r) = fifo_pending r ++ [fifo_front r];
  pop_pending r : fifo_wf r -> fifo_some r = true ->
    fifo_pending r = fifo_back r :: fifo_pending (fifo_pop r)
}.

(** ** The abstract queue: a list of at most [cap] entries *)

Inductive request (A : Type) : Type := Put (a : A) | Get.
Inductive reply (A : Type) : Type := Accepted | Rejected | Got (a : A) | Empty | Garbage.
Arguments Put {A} a.
Arguments Get {A}.
Arguments Accepted {A}.
Arguments Rejected {A}.
Arguments Got {A} a.
Arguments Empty {A}.
Arguments Garbage {A}.

Definition queue_serve {A : Type} (cap : Z) (o : request A) (q : list A) :
    reply A * list A :=
  match o with
  | Put a => if Z.of_nat (length q) <? cap then (Accepted, q ++ [a]) else (Rejected, q)
  | Get => match q with [] => (Empty, []) | a :: q => (Got a, q) end
  end.

Fixpoint queue_serve_all {A : Type} (cap : Z) (os : list (request A)) (q : list A) :
    list (reply A) :=
  match os with
  | [] => []
  | o :: os => (queue_serve cap o q).1 :: queue_serve_all cap os (queue_serve cap o q).2
  end.

(** A client that keeps one entry per slot. *)
Section client.
Context {R A : Type} `{FifoLaws R}.
Implicit Types (slots : list A) (r : R).

(** The entries of the pending slots, oldest first. *)
Definition contents slots r : list A :=
  omap (fun i => slots !! Z.to_nat i) (fifo_pending r).

(** Store an entry in the front slot and publish it; release the oldest. *)
Definition enqueue (a : A) (q : list A * R) : list A * R :=
  (<[Z.to_nat (fifo_front q.2) := a]> q.1, fifo_push q.2).
Definition dequeue (q : list A * R) : list A * R := (q.1, fifo_pop q.2).

Definition slots_wf (q : list A * R) : Prop :=
  fifo_wf q.2 /\ Z.of_nat (length q.1) = fifo_cap q.2 + 1.

(** What a guarded client sees of the queue. *)
Definition put (a : A) (q : list A * R) : reply A * (list A * R) :=
  if fifo_free q.2 then (Accepted, enqueue a q) else (Rejected, q).
Definition get (q : list A * R) : reply A * (list A * R) :=
  if fifo_some q.2 then
    (match q.1 !! Z.to_nat (fifo_back q.2) with Some a => Got a | None => Garbage end,
     dequeue q)
  else (Empty, q).
Definition serve (o : request A) : list A * R -> reply A * (list A * R) :=
  match o with Put a => put a | Get => get end.
Fixpoint serve_all (os : list (request A)) (q : list A * R) : list (reply A) :=
  match os with
  | [] => []
  | o :: os => (serve o q).1 :: serve_all os (serve o q).2
  end.

(** The loops a client writes around the two tests. *)
Fixpoint fill (fuel : nat) r : res R :=
  match fuel with
  | O => OutOfFuel
  | S fuel => if fifo_free r then fill fuel (fifo_push r) else Ok r
  end.
Fixpoint drain (fuel : nat) r : res R :=
  match fuel with
  | O => OutOfFuel
  | S fuel => if fifo_some r then drain fuel (fifo_pop r) else Ok r
  end.

Lemma omap_insert_fresh slots (js : list Z) (f : Z) (a : A) :
  (forall i, i ∈ js -> 0 <= i) -> 0 <= f -> f ∉ js ->
  omap (fun i => <[Z.to_nat f := a]> slots !! Z.to_nat i) js =
  omap (fun i => slots !! Z.to_nat i) js.
Proof.
  intros Hpos Hf. induction js as [| i js IH]; intros Hfr; [done |].
  apply not_elem_of_cons in Hfr as [Hne Hfr]. cbn.
  assert (0 <= i) by (apply Hpos; left).
  rewrite list_lookup_insert_ne by lia.
  rewrite IH; [done | | done]. intros j Hj. apply Hpos. by right.
Qed.

Lemma contents_insert_front slots r a :
  fifo_wf r -> contents (<[Z.to_nat (fifo_front r) := a]> slots) r = contents slots r.
Proof.
  intros Hwf. apply omap_insert_fresh.
  - intros i Hi. apply pending_slot in Hi; [lia | done].
  - by apply front_slot.
  - by apply front_fresh.
Qed.

Lemma enqueue_wf a q : slots_wf q -> slots_wf (enqueue a q).
Proof.
  intros [Hwf Hlen]. split; cbn.
  - by apply push_wf.
  - by rewrite length_insert, push_cap.
Qed.

Lemma dequeue_wf q : slots_wf q -> slots_wf (dequeue q).
Proof. intros [Hwf Hlen]. split; cbn; [by apply pop_wf | by rewrite pop_cap]. Qed.

Lemma contents_enqueue a q :
  slots_wf q -> fifo_free q.2 = true ->
  contents (enqueue a q).1 (enqueue a q).2 = contents q.1 q.2 ++ [a].
Proof.
  intros [Hwf Hlen] Hfree. unfold enqueue, contents. cbn.
  rewrite push_pending by done. rewrite omap_app. cbn.
  pose proof (front_slot q.2 Hwf).
  rewrite list_lookup_insert_eq by lia. cbn. f_equal.
  by apply contents_insert_front.
Qed.

Lemma contents_dequeue q :
  slots_wf q -> fifo_some q.2 = true ->
  exists a, q.1 !! Z.to_nat (fifo_back q.2) = Some a /\
    contents q.1 q.2 = a :: contents (dequeue q).1 (dequeue q).2.
Proof.
  intros [Hwf Hlen] Hsome. unfold contents, dequeue. cbn.
  pose proof (pop_pending _ Hwf Hsome) as Hp.
  assert (0 <= fifo_back q.2 <= fifo_cap q.2) as Hb.
  { apply pending_slot; [done |]. rewrite Hp. left. }
  destruct (lookup_lt_is_Some_2 q.1 (Z.to_nat (fifo_back q.2))) as [a Ha]; [lia |].
  exists a. split; [done |]. rewrite Hp at 1. cbn. by rewrite Ha.
Qed.

Lemma omap_slots_length slots r :
  fifo_wf r -> Z.of_nat (length slots) = fifo_cap r + 1 ->
  length (contents slots r) = length (fifo_pending r).
Proof.
  intros Hwf Hlen. unfold contents.
  assert (forall i, i ∈ fifo_pending r -> 0 <= i < Z.of_nat (length slots)) as Hr.
  { intros i Hi. apply pending_slot in Hi; [lia | done]. }
  induction (fifo_pending r) as [| i js IH]; [done |]. cbn.
  destruct (lookup_lt_is_Some_2 slots (Z.to_nat i)) as [a ->].
  { specialize (Hr i ltac:(left)). lia. }
  cbn. f_equal. apply IH. intros j Hj. apply Hr. by right.
Qed.

(** One request: the slots answer as the abstract queue does, and keep
    representing it. *)
Lemma serve_refines o q :
  slots_wf q ->
  let '(a, q') := serve o q in
  let '(a', l') := queue_serve (fifo_cap q.2) o (contents q.1 q.2) in
  a = a' /\ l' = contents q'.1 q'.2 /\ slots_wf q' /\ fifo_cap q'.2 = fifo_cap q.2.
Proof.
  intros Hq. destruct o as [a |]; cbn -[contents].
  - unfold put. rewrite omap_slots_length by apply Hq.
    destruct (fifo_free q.2) eqn:Hf.
    + pose proof Hf as Hlt. rewrite free_spec in Hlt by apply Hq.
      apply bool_decide_eq_true, Z.ltb_lt in Hlt. rewrite Hlt.
      rewrite contents_enqueue by done. split_and!; [done | done | by apply enqueue_wf |].
      apply push_cap.
    + rewrite free_spec in Hf by apply Hq.
      apply bool_decide_eq_false in Hf. destruct (Z.ltb_spec (Z.of_nat (length (fifo_pending q.2))) (fifo_cap q.2)); [done |]. by split_and!.
  - unfold get. destruct (fifo_some q.2) eqn:Hs.
    + destruct (contents_dequeue q Hq Hs) as (a & -> & ->).
      split_and!; [done | done | by apply dequeue_wf |]. apply pop_cap.
    + rewrite some_spec in Hs by apply Hq. apply bool_decide_eq_false, dec_stable in Hs.
      unfold contents. rewrite Hs. by split_and!.
Qed.

Lemma serve_all_refines os q :
  slots_wf q ->
  serve_all os q = queue_serve_all (fifo_cap q.2) os (contents q.1 q.2).
Proof.
  revert q. induction os as [| o os IH]; intros q Hq; [done |].
  pose proof (serve_refines o q Hq) as Href. cbn [serve_all queue_serve_all].
  destruct (serve o q) as [a q'], (queue_serve _ o _) as [a' l'].
  destruct Href as (-> & -> & Hq' & Hcap). cbn [fst snd]. f_equal.
  rewrite IH by done. by rewrite Hcap.
Qed.

Lemma fill_spec fuel r :
  fifo_wf r ->
  (Z.to_nat (fifo_cap r) - length (fifo_pending r) < fuel)%nat ->
  exists r', fill fuel r = Ok r' /\ fifo_wf r' /\ fifo_free r' = false /\
    fifo_cap r' = fifo_cap r /\ fifo_pending r `prefix_of` fifo_pending r'.
Proof.
  revert r. induction fuel as [| fuel IH]; intros r Hwf Hfuel; [lia |]. cbn.
  destruct (fifo_free r) eqn:Hf; [| by eauto 10].
  pose proof (push_pending r Hwf Hf) as Hp.
  rewrite free_spec in Hf by done. apply bool_decide_eq_true in Hf.
  destruct (IH (fifo_push r)) as (r' & Hr & Hwf' & Hf' & Hc & Hpre).
  { by apply push_wf. }
  { rewrite push_cap, Hp, length_app. cbn. lia. }
  exists r'. rewrite push_cap in Hc. repeat split; try done.
  etrans; [| exact Hpre]. rewrite Hp. by eexists.
Qed.

Lemma drain_spec fuel r :
  fifo_wf r -> (length (fifo_pending r) < fuel)%nat ->
  exists r', drain fuel r = Ok r' /\ fifo_wf r' /\ fifo_pending r' = [] /\
    fifo_cap r' = fifo_cap r.
Proof.
  revert r. induction fuel as [| fuel IH]; intros r Hwf Hfuel; [lia |]. cbn.
  destruct (fifo_some r) eqn:Hs.
  - pose proof (pop_pending r Hwf Hs) as Hp. rewrite Hp in Hfuel. cbn in Hfuel.
    destruct (IH (fifo_pop r)) as (r' & Hr & Hwf' & He & Hc).
    { by apply pop_wf. } { lia. }
    exists r'. by rewrite pop_cap in Hc.
  - rewrite some_spec in Hs by done. apply bool_decide_eq_false in Hs.
    apply dec_stable in Hs. by eauto.
Qed.
End client.
