(* ===== verification/Messages.v ===== *)
(** The constants and structures the two processors share:
    include/speutils/messages.h, include/speutils/spefifo.h,
    include/speutils/speutils.h and shared/pic.h. *)
From stdpp Require Import base list.
From Stdlib Require Import ZArith Lia.
From S2P Require Import Prelude.

(** * messages.h *)

Definition NOOP : Z := 0x1337C0DE.
Definition ADD : Z := 0xC0DE0ADD.
Definition STOP : Z := 0xCAFEBABE.
Definition INVALID : Z := 0xDEADBEEF.
Definition SLEEP : Z := 0x51EE4555.
Definition REGISTER_PROGRAM : Z := 0x73215737.
Definition UNREGISTER_PROGRAM : Z := 0x77777777.
Definition READ_MBOX : Z := 1999.

(** * spefifo.h *)

Definition TASK_SIZE : Z := 128.
Definition ROUND_ROBIN : Z := 0.

(** The [uint64_t] members are effective addresses. *)
Record fifo_s := Fifo_s {
  task_fifo : Z; ack_fifo : Z; atomic : Z;
  max_entries : Z; active : Z; id : Z }.

(** The 120 unused bytes are left out: they only fill the cache line. *)
Record atomic_s := Atomic_s { at_count : Z; at_state : Z }.

Record ack_s := Ack_s { task_id : Z; retval : Z; callback : Z }.

(** * pic.h *)

Record program_s := Program_s { LS : Z; prog_id : Z; EA : Z; prog_size : Z }.

(** * speutils.h

    An [ea_t] holds the address of either a 32-bit or a 64-bit host, whose
    [unsigned long] has [w] bits. *)

Definition addr (w address : Z) : Z := u64 (address mod 2 ^ w).

(** * Layout

    The sizes a C compiler gives the structures: each member at the next
    multiple of its alignment, the whole rounded up to the largest alignment
    or to the one an attribute asks for.  A member is its size and alignment. *)

Definition round_up (n a : Z) : Z := (n + a - 1) / a * a.

Fixpoint offsets (at_ : Z) (members : list (Z * Z)) : list Z * Z :=
  match members with
  | [] => ([], at_)
  | (size, align) :: members =>
      let o := round_up at_ align in
      let '(os, e) := offsets (o + size) members in (o :: os, e)
  end.

Definition sizeof (align : Z) (members : list (Z * Z)) : Z :=
  round_up (offsets 0 members).2 (foldr (fun m a => Z.max m.2 a) align members).

Definition fifo_s_members : list (Z * Z) := [(8, 8); (8, 8); (8, 8); (4, 4); (4, 4); (2, 2)].
Definition atomic_s_members : list (Z * Z) := [(4, 4); (4, 4); (120, 1)].
Definition ack_s_members : list (Z * Z) := [(4, 4); (4, 4); (8, 8)].
(** On the SPU, where a pointer has 4 bytes. *)
Definition program_s_members : list (Z * Z) := [(4, 4); (4, 4); (8, 8); (4, 4)].

Definition sizeof_fifo_s : Z := sizeof 16 fifo_s_members.
Definition sizeof_atomic_s : Z := sizeof 128 atomic_s_members.
Definition sizeof_ack_s : Z := sizeof 16 ack_s_members.
Definition sizeof_program_s : Z := sizeof 1 program_s_members.

(** The structures as the 32-bit words a transfer moves, most significant
    first: both processors are big endian. *)
Definition hi32 (z : Z) : Z := u32 (Z.shiftr z 32).
Definition lo32 (z : Z) : Z := u32 z.
Definition of_words (hi lo : Z) : Z := u64 (Z.lor (Z.shiftl hi 32) lo).

Definition ack_words (a : ack_s) : list Z :=
  [task_id a; retval a; hi32 (callback a); lo32 (callback a)].

(** [m] holds the members, with the values [vs], of a structure at [a], the first
    of them from offset [at_] on: a 64-bit member in two words, a 32-bit one in a
    word, a 16-bit one in the first half of a word. *)
Definition member_words (size v : Z) : list Z :=
  if size =? 8 then [hi32 v; lo32 v]
  else if size =? 4 then [u32 v] else [Z.shiftl (v mod 2 ^ 16) 16].
Fixpoint laid_out (m : Z -> Z) (a at_ : Z) (members : list (Z * Z)) (vs : list Z) : Prop :=
  match members, vs with
  | (size, align) :: members, v :: vs =>
      let o := round_up at_ align in
      (forall j w, member_words size v !! j = Some w -> m (a + o + 4 * Z.of_nat j) = w) /\
      laid_out m a (o + size) members vs
  | _, _ => True
  end.
Definition fifo_s_values (f : fifo_s) : list Z :=
  [task_fifo f; ack_fifo f; atomic f; max_entries f; active f; id f].

(** * Lemmas *)

Lemma sizes_computed :
  sizeof_fifo_s = 48 /\ sizeof_atomic_s = 128 /\ sizeof_ack_s = 16 /\
  sizeof_program_s = 24.
Proof. by vm_compute. Qed.

(** An address sent as two words is the address read back from them. *)
Lemma of_words_split z : 0 <= z < 2 ^ 64 -> of_words (hi32 z) (lo32 z) = z.
Proof.
  intros Hz. unfold of_words, hi32, lo32, u32, u64.
  rewrite (Z.mod_small (Z.shiftr z 32)).
  2: { rewrite Z.shiftr_div_pow2 by lia.
       split; [apply Z.div_pos; lia | apply Z.div_lt_upper_bound; lia]. }
  enough (Z.lor (Z.shiftl (Z.shiftr z 32) 32) (z mod 2 ^ 32) = z) as ->
    by (by apply Z.mod_small).
  apply Z.bits_inj'. intros n Hn.
  rewrite Z.lor_spec, Z.shiftl_spec, <- Z.land_ones, Z.land_spec, Z.testbit_ones by lia.
  destruct (Z.ltb_spec n 32).
  - rewrite (Z.testbit_neg_r _ (n - 32)) by lia.
    rewrite (proj2 (Z.leb_le 0 n)) by lia. by rewrite andb_true_r.
  - rewrite Z.shiftr_spec by lia. rewrite Z.sub_add.
    rewrite andb_false_r. by rewrite andb_false_r, orb_false_r.
Qed.

(** [addr] keeps an address, and so do the two words of a task it is sent in. *)
Lemma addr_value w a : w = 32 \/ w = 64 -> 0 <= a < 2 ^ w -> addr w a = a.
Proof.
  intros Hw Ha. unfold addr. rewrite (Z.mod_small a) by done. apply Z.mod_small.
  destruct Hw as [-> | ->]; lia.
Qed.
Lemma addr_sent w a :
  w = 32 \/ w = 64 -> 0 <= a < 2 ^ w -> of_words (hi32 (addr w a)) (lo32 (addr w a)) = a.
Proof.
  intros Hw Ha. rewrite addr_value by done. apply of_words_split. destruct Hw as [-> | ->]; lia.
Qed.

Lemma hi32_range z : 0 <= hi32 z < 2 ^ 32.
Proof. apply u32_range. Qed.
Lemma lo32_range z : 0 <= lo32 z < 2 ^ 32.
Proof. apply u32_range. Qed.

(** The members of a [fifo_s], read back word by word. *)
Lemma laid_out_reads m a f :
  laid_out m a 0 fifo_s_members (fifo_s_values f) ->
  Forall (fun v => 0 <= v < 2 ^ 64) [task_fifo f; ack_fifo f; atomic f] ->
  0 <= max_entries f < 2 ^ 32 ->
  let w k := u32 (m (a + 4 * k)) in
  of_words (w 0) (w 1) = task_fifo f /\ of_words (w 2) (w 3) = ack_fifo f /\
  of_words (w 4) (w 5) = atomic f /\ w 6 = max_entries f.
Proof.
  intros Hl Hr Hm. apply Forall_cons in Hr as [R1 [R2 [R3 _]%Forall_cons]%Forall_cons].
  cbn [laid_out fifo_s_members fifo_s_values] in Hl. destruct Hl as (W0 & W1 & W2 & W3 & _).
  pose proof (W0 0%nat _ eq_refl) as E0. pose proof (W0 1%nat _ eq_refl) as E1.
  pose proof (W1 0%nat _ eq_refl) as E2. pose proof (W1 1%nat _ eq_refl) as E3.
  pose proof (W2 0%nat _ eq_refl) as E4. pose proof (W2 1%nat _ eq_refl) as E5.
  pose proof (W3 0%nat _ eq_refl) as E6.
  rewrite <- !Z.add_assoc in E0, E1, E2, E3, E4, E5, E6. cbv beta zeta.
  rewrite (E0 : m (a + 4 * 0) = _), (E1 : m (a + 4 * 1) = _), (E2 : m (a + 4 * 2) = _),
    (E3 : m (a + 4 * 3) = _), (E4 : m (a + 4 * 4) = _), (E5 : m (a + 4 * 5) = _),
    (E6 : m (a + 4 * 6) = _).
  unfold hi32, lo32. rewrite !u32_u32. fold (hi32 (task_fifo f)) (lo32 (task_fifo f))
    (hi32 (ack_fifo f)) (lo32 (ack_fifo f)) (hi32 (atomic f)) (lo32 (atomic f)).
  rewrite !of_words_split by done. by rewrite u32_small.
Qed.
