(* ===== verification/Ring.v ===== *)
(** shared/ring.c and shared/ring.h: the ring context, its operations on
    [uint32_t] fields, and the proof that it is a [Fifo] of the pending slots. *)
From stdpp Require Import base list.
From Stdlib Require Import ZArith Lia.
From S2P Require Import Prelude.
From S2P Require Import Fifo.

(** * The code *)

(** [struct ring_context_s]: three [uint32_t]. *)
Record ring_context_s := Ring_context { front : Z; back : Z; size : Z }.

Definition set_front (r : ring_context_s) (v : Z) : ring_context_s :=
  Ring_context v (back r) (size r).
Definition set_back (r : ring_context_s) (v : Z) : ring_context_s :=
  Ring_context (front r) v (size r).

(** The parameter is an [int]; storing it in the field makes it unsigned. *)
Definition ringInitContext (malloc_ok : bool) (size : Z) : res (ptr ring_context_s) :=
  if size =? 0 then Ok Null
  else alloc_init malloc_ok (Ring_context 0 0 (u32 size)).

Definition ringFreeContext (ctx : ptr ring_context_s) : res (ptr ring_context_s) :=
  free ctx.

(** [fplus] is an [int]: the sum is converted to it, and back to unsigned in
    the two comparisons. *)
Definition ringHasFree (ctx : ring_context_s) : Z :=
  let fplus := s32 (u32 (front ctx + 1)) in
  let fplus := if size ctx <=? u32 fplus then 0 else fplus in
  if u32 fplus =? back ctx then 0 else 1.

Definition ringHasRemaining (ctx : ring_context_s) : Z :=
  if front ctx =? back ctx then 0 else 1.

Definition ringIncFront (ctx : ring_context_s) : ring_context_s :=
  let ctx := set_front ctx (u32 (front ctx + 1)) in
  if size ctx <=? front ctx then set_front ctx 0 else ctx.

Definition ringIncBack (ctx : ring_context_s) : ring_context_s :=
  let ctx := set_back ctx (u32 (back ctx + 1)) in
  if size ctx <=? back ctx then set_back ctx 0 else ctx.

Definition ringGetFront (ctx : ring_context_s) : Z := front ctx.
Definition ringGetBack (ctx : ring_context_s) : Z := back ctx.
Definition ringReset (ctx : ring_context_s) : ring_context_s :=
  Ring_context 0 0 (size ctx).

(** * Specification *)

(** The invariant of an initialised context. *)
Definition ring_wf (r : ring_context_s) : Prop :=
  0 < size r < 2 ^ 32 /\ 0 <= front r < size r /\ 0 <= back r < size r.

(** The number of pending slots, and the slots themselves. *)
Definition count (r : ring_context_s) : Z := (front r - back r) mod size r.
Definition slot (r : ring_context_s) (k : Z) : Z := (back r + k) mod size r.
Definition pending (r : ring_context_s) : list Z :=
  map (fun k => slot r (Z.of_nat k)) (List.seq 0 (Z.to_nat (count r))).

#[export] Instance ring_fifo : Fifo ring_context_s := {|
  fifo_free r := negb (ringHasFree r =? 0);
  fifo_some r := negb (ringHasRemaining r =? 0);
  fifo_push := ringIncFront;
  fifo_pop := ringIncBack;
  fifo_front := ringGetFront;
  fifo_back := ringGetBack;
  fifo_wf := ring_wf;
  fifo_cap r := size r - 1;
  fifo_pending := pending
|}.

(** * Lemmas *)

(** One step round a cycle of [n] slots. *)
Lemma wrap_succ_mod n i :
  0 <= i < n -> (if n <=? i + 1 then 0 else i + 1) = (i + 1) mod n.
Proof.
  intros. destruct (Z.leb_spec n (i + 1)).
  - replace (i + 1) with n by lia. rewrite Z.mod_same; lia.
  - rewrite Z.mod_small; lia.
Qed.

(** [(a - b) mod n] without the [mod], for two slots. *)
Lemma sub_mod_cases n a b :
  0 <= a < n -> 0 <= b < n ->
  (a - b) mod n = if b <=? a then a - b else a - b + n.
Proof.
  intros. destruct (Z.leb_spec b a).
  - apply Z.mod_small. lia.
  - rewrite <- (Z.mod_add _ 1) by lia. rewrite Z.mul_1_l. apply Z.mod_small. lia.
Qed.

Lemma succ_mod_cases n i :
  0 <= i < n -> (i + 1) mod n = if n <=? i + 1 then 0 else i + 1.
Proof. intros. by rewrite wrap_succ_mod. Qed.

Section ring.
Implicit Types r : ring_context_s.

Lemma ringIncFront_eq r :
  ring_wf r -> ringIncFront r = set_front r ((front r + 1) mod size r).
Proof.
  intros (? & ? & ?). unfold ringIncFront, set_front. cbn.
  rewrite u32_small by lia. rewrite <- wrap_succ_mod by lia.
  destruct (Z.leb_spec (size r) (front r + 1)); done.
Qed.

Lemma ringIncBack_eq r :
  ring_wf r -> ringIncBack r = set_back r ((back r + 1) mod size r).
Proof.
  intros (? & ? & ?). unfold ringIncBack, set_back. cbn.
  rewrite u32_small by lia. rewrite <- wrap_succ_mod by lia.
  destruct (Z.leb_spec (size r) (back r + 1)); done.
Qed.

(** The trip of the sum through [int] is harmless, whatever the size. *)
Lemma ringHasFree_eq r :
  ring_wf r ->
  ringHasFree r = if (front r + 1) mod size r =? back r then 0 else 1.
Proof.
  intros (? & ? & ?). unfold ringHasFree.
  assert (u32 (s32 (u32 (front r + 1))) = front r + 1) as Hplus.
  { rewrite u32_s32, u32_u32. apply u32_small. lia. }
  rewrite Hplus, succ_mod_cases by lia.
  destruct (Z.leb_spec (size r) (front r + 1)); [done | by rewrite Hplus].
Qed.

Lemma count_range r : ring_wf r -> 0 <= count r < size r.
Proof. intros (? & ? & ?). apply Z.mod_pos_bound. lia. Qed.

Lemma ringIncFront_wf r : ring_wf r -> ring_wf (ringIncFront r).
Proof.
  intros Hwf. rewrite ringIncFront_eq by done. destruct Hwf as (? & ? & ?).
  repeat split; cbn; try lia; apply Z.mod_pos_bound; lia.
Qed.

Lemma ringIncBack_wf r : ring_wf r -> ring_wf (ringIncBack r).
Proof.
  intros Hwf. rewrite ringIncBack_eq by done. destruct Hwf as (? & ? & ?).
  repeat split; cbn; try lia; apply Z.mod_pos_bound; lia.
Qed.

Lemma ringReset_wf r : ring_wf r -> ring_wf (ringReset r).
Proof. intros (? & ? & ?). unfold ring_wf; cbn. lia. Qed.

Lemma ringIncFront_size r : size (ringIncFront r) = size r.
Proof. unfold ringIncFront. by case_match. Qed.

Lemma ringIncBack_size r : size (ringIncBack r) = size r.
Proof. unfold ringIncBack. by case_match. Qed.

Lemma ringHasFree_count r :
  ring_wf r -> ringHasFree r = if count r <? size r - 1 then 1 else 0.
Proof.
  intros Hwf. rewrite ringHasFree_eq by done. destruct Hwf as (? & ? & ?).
  unfold count. rewrite succ_mod_cases, sub_mod_cases by lia.
  zcases.
Qed.

Lemma ringHasRemaining_count r :
  ring_wf r -> ringHasRemaining r = if 0 <? count r then 1 else 0.
Proof.
  intros (? & ? & ?). unfold ringHasRemaining, count.
  rewrite sub_mod_cases by lia. zcases.
Qed.

Lemma count_IncFront r :
  ring_wf r -> count (ringIncFront r) = (count r + 1) mod size r.
Proof.
  intros Hwf. rewrite ringIncFront_eq by done. destruct Hwf as (? & ? & ?).
  unfold count. cbn. rewrite Zminus_mod_idemp_l, Zplus_mod_idemp_l.
  f_equal. lia.
Qed.

Lemma count_IncBack r :
  ring_wf r -> count (ringIncBack r) = (count r - 1) mod size r.
Proof.
  intros Hwf. rewrite ringIncBack_eq by done. destruct Hwf as (? & ? & ?).
  unfold count. cbn. rewrite Zminus_mod_idemp_r, Zminus_mod_idemp_l.
  f_equal. lia.
Qed.

Lemma slot_range r k : ring_wf r -> 0 <= slot r k < size r.
Proof. intros (? & ? & ?). apply Z.mod_pos_bound. lia. Qed.

Lemma slot_0 r : ring_wf r -> slot r 0 = back r.
Proof. intros (? & ? & ?). unfold slot. rewrite Z.add_0_r. by apply Z.mod_small. Qed.

Lemma slot_count r : ring_wf r -> slot r (count r) = front r.
Proof.
  intros (? & ? & ?). unfold slot, count. rewrite Zplus_mod_idemp_r.
  replace (back r + (front r - back r)) with (front r) by lia.
  by apply Z.mod_small.
Qed.

Lemma slot_inj r i j :
  ring_wf r -> 0 <= i < size r -> 0 <= j < size r -> slot r i = slot r j -> i = j.
Proof.
  intros (? & ? & ?) Hi Hj Heq. unfold slot in Heq.
  assert ((i - j) mod size r = 0) as Hmod.
  { replace (i - j) with ((back r + i) - (back r + j)) by lia.
    rewrite Zminus_mod, Heq, Z.sub_diag. apply Z.mod_0_l. lia. }
  rewrite sub_mod_cases in Hmod by lia. case_match; lia.
Qed.

Lemma slot_IncBack r k : ring_wf r -> slot (ringIncBack r) k = slot r (k + 1).
Proof.
  intros Hwf. rewrite ringIncBack_eq by done. unfold slot. cbn.
  rewrite Zplus_mod_idemp_l. f_equal. lia.
Qed.

Lemma slot_IncFront r k : ring_wf r -> slot (ringIncFront r) k = slot r k.
Proof. intros Hwf. by rewrite ringIncFront_eq. Qed.

Lemma pending_seqZ r :
  pending r = map (fun j => (back r + j) mod size r) (seqZ 0 (count r)).
Proof.
  unfold pending, seqZ. generalize (List.seq 0 (Z.to_nat (count r))). intros l.
  induction l as [| k l IH]; [done |]. cbn. f_equal; [| exact IH].
  unfold slot. do 2 f_equal. lia.
Qed.

Lemma length_pending r : ring_wf r -> Z.of_nat (length (pending r)) = count r.
Proof.
  intros Hwf. unfold pending. rewrite length_map, length_seq.
  pose proof (count_range r Hwf). lia.
Qed.

Lemma elem_of_pending r i :
  i ∈ pending r <-> exists k, 0 <= k < count r /\ i = slot r k.
Proof.
  unfold pending. rewrite list_elem_of_In, in_map_iff. setoid_rewrite in_seq.
  split.
  - intros (k & <- & ?). exists (Z.of_nat k). split; [lia | done].
  - intros (k & ? & ->). exists (Z.to_nat k). rewrite Z2Nat.id by lia.
    split; [done | lia].
Qed.

Lemma pending_IncFront r :
  ring_wf r -> count r < size r - 1 ->
  pending (ringIncFront r) = pending r ++ [front r].
Proof.
  intros Hwf Hc. pose proof (count_range r Hwf).
  unfold pending. rewrite count_IncFront by done.
  rewrite Z.mod_small by lia. rewrite Z2Nat.inj_add, Nat.add_1_r by lia.
  rewrite seq_S, map_app. cbn. f_equal.
  - apply map_ext. intros k. by apply slot_IncFront.
  - rewrite slot_IncFront, Z2Nat.id by (done || lia). by rewrite slot_count.
Qed.

Lemma pending_IncBack r :
  ring_wf r -> 0 < count r -> pending r = back r :: pending (ringIncBack r).
Proof.
  intros Hwf Hc. pose proof (count_range r Hwf).
  unfold pending. rewrite count_IncBack by done. rewrite Z.mod_small by lia.
  replace (Z.to_nat (count r)) with (S (Z.to_nat (count r - 1))) by lia.
  rewrite <- cons_seq, <- seq_shift. cbn. rewrite slot_0 by done. f_equal.
  rewrite map_map. apply map_ext. intros k.
  rewrite slot_IncBack by done. f_equal. lia.
Qed.

Lemma NoDup_pending r : ring_wf r -> NoDup (pending r).
Proof.
  intros Hwf. pose proof (count_range r Hwf). unfold pending.
  apply NoDup_fmap_2_strong; [| apply NoDup_seq].
  intros i j Hi Hj Heq. apply elem_of_seq in Hi, Hj.
  apply slot_inj in Heq; (done || lia).
Qed.
End ring.

#[export] Instance ring_fifo_laws : FifoLaws ring_context_s.
Proof.
  split; cbn.
  - intros r Hwf. rewrite length_pending by done. pose proof (count_range r Hwf). lia.
  - intros r i Hwf (k & Hk & ->)%elem_of_pending. pose proof (slot_range r k Hwf). lia.
  - intros r (? & ? & ?). unfold ringGetFront. lia.
  - intros r Hwf (k & Hk & Heq)%elem_of_pending. unfold ringGetFront in Heq.
    pose proof (count_range r Hwf). rewrite <- slot_count in Heq by done.
    apply slot_inj in Heq; (done || lia).
  - intros r Hwf. rewrite ringHasFree_count, length_pending by done.
    destruct (Z.ltb_spec (count r) (size r - 1)); cbn; symmetry;
      [apply bool_decide_eq_true | apply bool_decide_eq_false]; lia.
  - intros r Hwf. rewrite ringHasRemaining_count by done.
    pose proof (length_pending r Hwf). destruct (Z.ltb_spec 0 (count r)); cbn; symmetry;
      [apply bool_decide_eq_true | apply bool_decide_eq_false];
      destruct (pending r); cbn in *; (done || lia || naive_solver).
  - apply ringIncFront_wf.
  - apply ringIncBack_wf.
  - intros r. by rewrite ringIncFront_size.
  - intros r. by rewrite ringIncBack_size.
  - intros r Hwf Hf. apply pending_IncFront; [done |].
    rewrite ringHasFree_count in Hf by done.
    destruct (Z.ltb_spec (count r) (size r - 1)); done.
  - intros r Hwf Hs. apply pending_IncBack; [done |].
    rewrite ringHasRemaining_count in Hs by done.
    destruct (Z.ltb_spec 0 (count r)); done.
Qed.

(** * Reachable contexts *)

(** What a program can do with a context made for [n] slots. *)
Inductive ring_reachable (n : Z) : ring_context_s -> Prop :=
| reach_init r : ringInitContext true n = Ok (Valid r) -> ring_reachable n r
| reach_front r : ring_reachable n r -> ring_reachable n (ringIncFront r)
| reach_back r : ring_reachable n r -> ring_reachable n (ringIncBack r)
| reach_reset r : ring_reachable n r -> ring_reachable n (ringReset r).

Lemma ringInitContext_ok n r :
  - 2 ^ 31 <= n < 2 ^ 31 -> ringInitContext true n = Ok (Valid r) ->
  r = Ring_context 0 0 (u32 n) /\ n <> 0 /\ ring_wf r.
Proof.
  intros Hn. unfold ringInitContext. destruct (Z.eqb_spec n 0); [done |].
  intros [= <-]. split_and!; [done | done |].
  pose proof (u32_range n). unfold ring_wf; cbn.
  assert (u32 n <> 0); [| lia].
  unfold u32. intros Hz. apply Z.mod_divide in Hz as [k Hk]; lia.
Qed.

(** * Properties *)

(** C15: in the storage of [n] slots, a context fresh from [ringInitContext(n)]
    and used through the tests [ringHasFree] and [ringHasRemaining] is a FIFO
    queue of capacity [n - 1] (of [n] taken as unsigned, when negative): for
    every sequence of guarded puts and gets it gives the answers of a list
    bounded by that capacity. *)
Theorem ring_bounded_queue (A : Type) (n : Z) (r : ring_context_s)
    (slots : list A) (os : list (request A)) :
  - 2 ^ 31 <= n < 2 ^ 31 ->
  ringInitContext true n = Ok (Valid r) ->
  Z.of_nat (length slots) = u32 n ->
  serve_all os (slots, r) = queue_serve_all (u32 n - 1) os [].
Proof.
  intros Hn Hinit Hlen.
  destruct (ringInitContext_ok n r Hn Hinit) as (-> & Hne & Hwf).
  rewrite serve_all_refines; [done |]. split; [done |]. cbn. lia.
Qed.

Lemma ring_bounded_queue_witness :
  ringInitContext true 3 = Ok (Valid (Ring_context 0 0 3)) /\
  serve_all [Put 7; Put 8; Put 9; Get; Put 10; Get; Get; Get]
    ([0; 0; 0], Ring_context 0 0 3) =
  [Accepted; Accepted; Rejected; Got 7; Accepted; Got 8; Got 10; Empty].
Proof.
  split; [reflexivity |].
  rewrite (ring_bounded_queue Z 3 (Ring_context 0 0 3));
    [reflexivity | lia | reflexivity | reflexivity].
Defined.

(** C29: every context a program can reach from [ringInitContext(n)] by any
    sequence of [ringIncFront], [ringIncBack] and [ringReset], guarded or not,
    keeps its size and both indices inside it. *)
Theorem ring_invariant (n : Z) (r : ring_context_s) :
  - 2 ^ 31 <= n < 2 ^ 31 -> ring_reachable n r ->
  size r = u32 n /\ 0 <= front r < size r /\ 0 <= back r < size r.
Proof.
  intros Hn Hr. assert (ring_wf r /\ size r = u32 n) as [(? & ? & ?) ?]; [| done].
  induction Hr as [r Hi | r _ [IH <-] | r _ [IH <-] | r _ [IH <-]].
  - by destruct (ringInitContext_ok n r Hn Hi) as (-> & ? & ?).
  - split; [by apply ringIncFront_wf | apply ringIncFront_size].
  - split; [by apply ringIncBack_wf | apply ringIncBack_size].
  - split; [by apply ringReset_wf | done].
Qed.

Lemma ring_invariant_witness :
  ring_reachable 2 (ringIncBack (ringIncFront (Ring_context 0 0 2))) /\
  size (ringIncBack (ringIncFront (Ring_context 0 0 2))) = 2.
Proof.
  assert (ring_reachable 2 (ringIncBack (ringIncFront (Ring_context 0 0 2)))) as H.
  { apply reach_back, reach_front, reach_init. reflexivity. }
  split; [exact H |]. apply (ring_invariant 2 _ ltac:(lia) H).
Defined.

(** The two tests are exact: [ringHasFree] is 1 when fewer than [size - 1]
    slots are pending and 0 otherwise, for every size up to the largest
    [uint32_t] although its sum goes through an [int]; [ringHasRemaining] is 1
    when a slot is pending and 0 otherwise. *)
Theorem ring_tests_exact (r : ring_context_s) :
  ring_wf r ->
  ringHasFree r = (if count r <? size r - 1 then 1 else 0) /\
  ringHasRemaining r = (if 0 <? count r then 1 else 0).
Proof. intros. split; [by apply ringHasFree_count | by apply ringHasRemaining_count]. Qed.

Lemma ring_tests_exact_witness :
  ring_wf (Ring_context (2 ^ 32 - 2) 0 (2 ^ 32 - 1)) /\
  ringHasFree (Ring_context (2 ^ 32 - 2) 0 (2 ^ 32 - 1)) = 0.
Proof.
  assert (ring_wf (Ring_context (2 ^ 32 - 2) 0 (2 ^ 32 - 1))) as H
    by (unfold ring_wf; cbn; lia).
  split; [exact H |]. rewrite (proj1 (ring_tests_exact _ H)). reflexivity.
Defined.
