(* ===== verification/RingTest.v ===== *)
(** tst/ring_test.c: the test that fills a ring, rolls it and empties it,
    printing both indices before every step.  Its output is known in full. *)
From stdpp Require Import base list.
From Stdlib Require Import ZArith Lia.
From S2P Require Import Prelude.
From S2P Require Import Fifo.
From S2P Require Import Ring.

(** * The code *)

(** What is printed: a heading, or ["front %d, back %d"]. *)
Inductive line :=
| filling_fifo | rolling_fifo | emptying_fifo | final_status | freed
| indices (front back : Z).

(** [context], and the lines printed so far. *)
Record test := Test { context : ptr ring_context_s; printed : list line }.

Definition the_context : M test ring_context_s := fun s => lift (deref (context s)) s.
Definition upd_context (f : ring_context_s -> ring_context_s) : M test unit :=
  c ← the_context; modify (fun s => Test (Valid (f c)) (printed s)).
Definition print (l : line) : M test unit :=
  modify (fun s => Test (context s) (printed s ++ [l])).
(** [%d] prints the [uint32_t] as an [int]. *)
Definition print_indices : M test unit :=
  c ← the_context; print (indices (s32 (ringGetFront c)) (s32 (ringGetBack c))).

Definition fill_round : M test (option unit) :=
  c ← the_context;
  if ringHasFree c =? 0 then mret (Some tt) else
  print_indices;;
  upd_context ringIncFront;;
  mret None.
Definition roll_round : M test unit :=
  print_indices;;
  upd_context ringIncBack;;
  upd_context ringIncFront.
Definition empty_round : M test (option unit) :=
  c ← the_context;
  if ringHasRemaining c =? 0 then mret (Some tt) else
  print_indices;;
  upd_context ringIncBack;;
  mret None.

(** [fuel] bounds the two [while] loops. *)
Definition main (malloc_ok : bool) (fuel : nat) : M test unit :=
  c ← lift (ringInitContext malloc_ok 100);
  modify (fun s => Test c (printed s));;
  print filling_fifo;;
  loop fuel fill_round;;
  print rolling_fifo;;
  for_loop 0 100 (fun _ => roll_round);;
  print emptying_fifo;;
  loop fuel empty_round;;
  print final_status;;
  print_indices;;
  c ← gets context;
  c ← lift (ringFreeContext c);
  modify (fun s => Test c (printed s));;
  print freed.

(** * Lemmas *)

Section ring_test.
Implicit Types (r : ring_context_s) (out : list line).

Lemma run_the_context r out :
  the_context (Test (Valid r) out) = Ok (r, Test (Valid r) out).
Proof. done. Qed.
Lemma run_print_indices r out :
  print_indices (Test (Valid r) out) =
  Ok (tt, Test (Valid r) (out ++ [indices (s32 (front r)) (s32 (back r))])).
Proof. done. Qed.
Lemma run_upd_context f r out :
  upd_context f (Test (Valid r) out) = Ok (tt, Test (Valid (f r)) out).
Proof. done. Qed.
Lemma run_print l c out : print l (Test c out) = Ok (tt, Test c (out ++ [l])).
Proof. done. Qed.
End ring_test.
#[export] Hint Resolve run_the_context run_print_indices run_upd_context run_print : run.

(** What a loop prints while one index, or both, go from [F] or [b] on. *)
Definition fronts (size back F n : Z) : list line :=
  map (fun f => indices (s32 (f mod size)) (s32 back)) (seqZ F n).
Definition backs (size front b n : Z) : list line :=
  map (fun b => indices (s32 front) (s32 (b mod size))) (seqZ b n).
Definition turns (size d b n : Z) : list line :=
  map (fun b => indices (s32 ((b + d) mod size)) (s32 (b mod size))) (seqZ b n).

Section loops.
Implicit Types (r : ring_context_s) (out : list line).

Lemma set_front_same r : set_front r (front r) = r.
Proof. by destruct r. Qed.
Lemma set_back_same r : set_back r (back r) = r.
Proof. by destruct r. Qed.

Lemma run_fill fuel : forall F n r out,
  ring_wf r -> front r = F mod size r -> count r + n = size r - 1 -> 0 <= n < Z.of_nat fuel ->
  loop fuel fill_round (Test (Valid r) out) =
  Ok (tt, Test (Valid (set_front r ((F + n) mod size r))) (out ++ fronts (size r) (back r) F n)).
Proof.
  induction fuel as [| fuel IH]; intros F n r out Hr HF Hn Hf; [lia |].
  cbn [loop]. unfold fill_round at 1. mstep. rewrite ringHasFree_count by done.
  destruct (Z.ltb_spec (count r) (size r - 1)) as [Hlt | Hge]; cbn [Z.eqb].
  - mrun. rewrite run_ret. rewrite (IH (Z.succ F) (Z.pred n)); try lia.
    + unfold fronts. rewrite (seqZ_cons F n) by lia. cbn [map]. rewrite <- app_assoc, HF.
      rewrite ringIncFront_size, ringIncFront_eq by done. cbn [set_front size back app].
      do 4 f_equal. unfold set_front. cbn. do 2 f_equal. lia.
    + by apply ringIncFront_wf.
    + rewrite ringIncFront_size, ringIncFront_eq by done. cbn. rewrite HF.
      by rewrite Zplus_mod_idemp_l.
    + rewrite ringIncFront_size, count_IncFront by done.
      pose proof (count_range r Hr). rewrite Z.mod_small; lia.
  - replace n with 0 by lia. unfold fronts. cbn [seqZ map]. rewrite app_nil_r, Z.add_0_r, <- HF.
    by rewrite set_front_same.
Qed.

Lemma run_empty fuel : forall b r out,
  ring_wf r -> back r = b mod size r -> count r < Z.of_nat fuel ->
  loop fuel empty_round (Test (Valid r) out) =
  Ok (tt, Test (Valid (set_back r (front r))) (out ++ backs (size r) (front r) b (count r))).
Proof.
  induction fuel as [| fuel IH]; intros b r out Hr Hb Hf; pose proof (count_range r Hr); [lia |].
  cbn [loop]. unfold empty_round at 1. mstep. rewrite ringHasRemaining_count by done.
  destruct (Z.ltb_spec 0 (count r)) as [Hlt | Hge]; cbn [Z.eqb].
  - assert (count (ringIncBack r) = Z.pred (count r)) as Hc.
    { rewrite count_IncBack by done. rewrite Z.mod_small; lia. }
    mrun. rewrite run_ret. rewrite (IH (Z.succ b)); rewrite ?Hc; try lia.
    + unfold backs. rewrite (seqZ_cons b (count r)) by lia. cbn [map]. rewrite <- app_assoc, Hb.
      by rewrite ringIncBack_size, ringIncBack_eq by done.
    + by apply ringIncBack_wf.
    + rewrite ringIncBack_size, ringIncBack_eq by done. cbn. rewrite Hb.
      by rewrite Zplus_mod_idemp_l.
  - assert (count r = 0) as Hc by lia. rewrite Hc. unfold backs. cbn [seqZ map].
    rewrite app_nil_r. pose proof (slot_count r Hr) as Hs. rewrite Hc, slot_0 in Hs by done.
    by rewrite <- Hs, set_back_same.
Qed.

(** Rolling keeps the distance [d] between the indices. *)
Lemma run_roll n : forall i b d r out,
  ring_wf r -> back r = b mod size r -> front r = (b + d) mod size r ->
  for_loop i n (fun _ => roll_round) (Test (Valid r) out) =
  Ok (tt, Test (Valid (Ring_context ((b + Z.of_nat n + d) mod size r)
                         ((b + Z.of_nat n) mod size r) (size r)))
            (out ++ turns (size r) d b (Z.of_nat n))).
Proof.
  induction n as [| n IH]; intros i b d r out Hr Hb Hd; cbn [for_loop].
  - unfold turns. cbn [seqZ map]. rewrite app_nil_r, Z.add_0_r, <- Hb, <- Hd. by destruct r.
  - unfold roll_round at 1. mrun.
    assert (ring_wf (ringIncFront (ringIncBack r))) as Hr'
      by (by apply ringIncFront_wf, ringIncBack_wf).
    assert (back (ringIncFront (ringIncBack r)) = Z.succ b mod size r) as Hb'.
    { rewrite ringIncFront_eq, ringIncBack_eq by (done || by apply ringIncBack_wf).
      cbn. by rewrite Hb, Zplus_mod_idemp_l. }
    assert (front (ringIncFront (ringIncBack r)) = (Z.succ b + d) mod size r) as Hd'.
    { rewrite ringIncFront_eq, ringIncBack_eq by (done || by apply ringIncBack_wf).
      cbn. rewrite Hd, Zplus_mod_idemp_l. f_equal. lia. }
    assert (size (ringIncFront (ringIncBack r)) = size r) as Hs
      by (by rewrite ringIncFront_size, ringIncBack_size).
    rewrite run_upd_context, (IH (i + 1) (Z.succ b) d) by (rewrite ?Hs; done). rewrite Hs.
    unfold turns. rewrite (seqZ_cons b (Z.of_nat (S n))) by lia. cbn [map].
    rewrite <- app_assoc, Hb, Hd. cbn [app].
    replace (Z.pred (Z.of_nat (S n))) with (Z.of_nat n) by lia.
    by replace (Z.succ b + Z.of_nat n) with (b + Z.of_nat (S n)) by lia.
Qed.
End loops.

(** * Properties *)

(** C28: the ring test passes and says what it should.  With more fuel than the
    ring has slots, and storage for it, every loop ends and nothing faults.  The
    ring takes 99 entries, the front going from 0 to 98; rolled a hundred times,
    it stays full while both indices go round; it gives 99 entries back, the
    back going from 0 to 98; both indices are then 99, and the ring is freed. *)
Theorem ring_test_output (fuel : nat) (s : test) :
  100 <= Z.of_nat fuel ->
  main true fuel s =
  Ok (tt, Test Freed (printed s ++
    [filling_fifo] ++ map (fun i => indices i 0) (seqZ 0 99) ++
    [rolling_fifo] ++ map (fun i => indices ((i + 99) mod 100) i) (seqZ 0 100) ++
    [emptying_fifo] ++ map (fun i => indices 99 i) (seqZ 0 99) ++
    [final_status; indices 99 99; freed])).
Proof.
  intros Hf. unfold main.
  assert (ring_wf (Ring_context 0 0 100)) as Hr by (unfold ring_wf; cbn; lia).
  change (ringInitContext true 100) with (Ok (Valid (Ring_context 0 0 100))). mrun.
  erewrite M_bind_ok by (apply (run_fill fuel 0 99); [done | done | done | lia]). mrun.
  erewrite M_bind_ok by (by apply (run_roll 100 0 0 99)). mrun.
  set (r := Ring_context _ _ _). change r with (Ring_context 99 0 100). clear r.
  erewrite M_bind_ok by (apply (run_empty fuel 0); [by vm_compute | done |];
    change (count _) with 99; lia).
  mrun. cbn [context ringFreeContext free]. mrun.
  rewrite run_print. cbn [printed]. by rewrite <- !app_assoc.
Qed.

Lemma ring_test_output_witness :
  exists out, main true 100 (Test Null []) = Ok (tt, Test Freed out) /\ length out = 304%nat.
Proof.
  eexists. split; [apply (ring_test_output 100 (Test Null [])); lia | reflexivity].
Defined.
