(* ===== verification/RingConcurrent.v ===== *)
(** shared/ring.c between two threads of src/spefifo.c and an SPE.  The calling
    thread advances [front] (selectfifo, fifoKick), the monitoring thread advances
    [back] (fifothread), and no lock is held: the mutex calls of the source are
    commented out.  Between them is the SPE, which acknowledges what was
    published: the monitoring thread never looks at the ring before it moves
    [back], it looks at the acknowledgement of the slot at [back].  Two step
    relations describe the three.  In [astep] each call of a ring function is one
    step; in [step] each statement that stores to a shared field is one, so that
    the other thread sees an index between its increment and its wrap.  Memory is
    sequentially consistent in both. *)
From stdpp Require Import base relations list.
From Stdlib Require Import ZArith Lia.
From S2P Require Import Prelude.
From S2P Require Import Fifo.
From S2P Require Import Ring.

(** * The two statements of ringIncFront and of ringIncBack *)

Definition front_incr (r : ring_context_s) : ring_context_s :=
  set_front r (u32 (front r + 1)).
Definition front_wrap (r : ring_context_s) : ring_context_s :=
  if size r <=? front r then set_front r 0 else r.
Definition back_incr (r : ring_context_s) : ring_context_s :=
  set_back r (u32 (back r + 1)).
Definition back_wrap (r : ring_context_s) : ring_context_s :=
  if size r <=? back r then set_back r 0 else r.

(** * The two threads and the SPE *)

(** The caller: before its test of the ring, after it, after [send_front] has
    published the slot, and inside [ringIncFront].  The monitoring thread: before
    its test of the acknowledgement, after it has cleared it, and inside
    [ringIncBack]. *)
Inductive producer_pc := PTest | PClaimed | PPublished | PWrap.
Inductive consumer_pc := CTest | CTaken | CWrap.

(** [produced], [answered] and [consumed] count the slots published, acknowledged
    and released so far; [acks i] says that the word of slot [i] is not
    ACK_CLEAR. *)
Record shared := Shared {
  ring : ring_context_s; ppc : producer_pc; cpc : consumer_pc;
  produced : Z; answered : Z; consumed : Z; acks : Z -> bool }.

Definition shared_init (n : Z) : shared :=
  Shared (Ring_context 0 0 n) PTest CTest 0 0 0 (fun _ => false).

Definition set_ack (i : Z) (b : bool) (a : Z -> bool) : Z -> bool :=
  fun j => if j =? i then b else a j.

(** [while (!ringHasFree(r)); send_front(..); ringIncFront(r);] beside
    [while (ack[back] != ACK_CLEAR) { ack[back] = ACK_CLEAR; ringIncBack(r); }] and
    an SPE that acknowledges the published slots in order, one call a step. *)
Inductive astep : shared -> shared -> Prop :=
| a_spin r c p a q k : ringHasFree r = 0 ->
    astep (Shared r PTest c p a q k) (Shared r PTest c p a q k)
| a_test r c p a q k : ringHasFree r <> 0 ->
    astep (Shared r PTest c p a q k) (Shared r PClaimed c p a q k)
| a_publish r c p a q k :
    astep (Shared r PClaimed c p a q k) (Shared r PPublished c (p + 1) a q k)
| a_front r c p a q k :
    astep (Shared r PPublished c p a q k) (Shared (ringIncFront r) PTest c p a q k)
| a_ack r pc c p a q k : a < p ->
    astep (Shared r pc c p a q k) (Shared r pc c p (a + 1) q (set_ack (a mod size r) true k))
| a_wait r pc p a q k : k (ringGetBack r) = false ->
    astep (Shared r pc CTest p a q k) (Shared r pc CTest p a q k)
| a_clear r pc p a q k : k (ringGetBack r) = true ->
    astep (Shared r pc CTest p a q k) (Shared r pc CTaken p a q (set_ack (ringGetBack r) false k))
| a_back r pc p a q k :
    astep (Shared r pc CTaken p a q k) (Shared (ringIncBack r) pc CTest p a (q + 1) k).

(** The same, one statement a step. *)
Inductive step : shared -> shared -> Prop :=
| p_spin r c p a q k : ringHasFree r = 0 ->
    step (Shared r PTest c p a q k) (Shared r PTest c p a q k)
| p_test r c p a q k : ringHasFree r <> 0 ->
    step (Shared r PTest c p a q k) (Shared r PClaimed c p a q k)
| p_publish r c p a q k :
    step (Shared r PClaimed c p a q k) (Shared r PPublished c (p + 1) a q k)
| p_incr r c p a q k :
    step (Shared r PPublished c p a q k) (Shared (front_incr r) PWrap c p a q k)
| p_wrap r c p a q k :
    step (Shared r PWrap c p a q k) (Shared (front_wrap r) PTest c p a q k)
| s_ack r pc c p a q k : a < p ->
    step (Shared r pc c p a q k) (Shared r pc c p (a + 1) q (set_ack (a mod size r) true k))
| c_wait r pc p a q k : k (ringGetBack r) = false ->
    step (Shared r pc CTest p a q k) (Shared r pc CTest p a q k)
| c_clear r pc p a q k : k (ringGetBack r) = true ->
    step (Shared r pc CTest p a q k) (Shared r pc CTaken p a q (set_ack (ringGetBack r) false k))
| c_incr r pc p a q k :
    step (Shared r pc CTaken p a q k) (Shared (back_incr r) pc CWrap p a (q + 1) k)
| c_wrap r pc p a q k :
    step (Shared r pc CWrap p a q k) (Shared (back_wrap r) pc CTest p a q k).

(** The slots published and not released, oldest first. *)
Definition in_use (s : shared) : list Z :=
  map (fun j => j mod size (ring s)) (seqZ (consumed s) (produced s - consumed s)).
(** The ring as the caller leaves it: [ringIncFront] comes after [send_front]. *)
Definition settled (s : shared) : ring_context_s :=
  match ppc s with PPublished => ringIncFront (ring s) | _ => ring s end.

(** * Calls as steps: the invariant *)

(** Being released: acknowledged, and no longer marked so. *)
Definition taken (s : shared) : Z := match cpc s with CTaken => 1 | _ => 0 end.
Definition begun_to_publish (s : shared) : Z := match ppc s with PPublished => 1 | _ => 0 end.

Record inv (n : Z) (s : shared) : Prop := {
  inv_size : size (ring s) = n;
  inv_front : front (ring s) = (produced s - begun_to_publish s) mod n;
  inv_back : back (ring s) = consumed s mod n;
  inv_counts : consumed s + taken s <= answered s <= produced s;
  inv_used : 0 <= consumed s /\ produced s - consumed s <= n - 1;
  inv_claimed : ppc s = PClaimed -> produced s - consumed s < n - 1;
  inv_begun : ppc s = PPublished -> 0 < produced s;
  inv_acks i : 0 <= i < n ->
    acks s i = true <-> exists j, consumed s + taken s <= j < answered s /\ i = j mod n;
  inv_whole : ppc s <> PWrap /\ cpc s <> CWrap }.

Lemma mod_close n a b : 0 < n -> a mod n = b mod n -> - n < a - b < n -> a = b.
Proof.
  intros Hn Heq Hab. pose proof (Z.div_mod a n ltac:(lia)) as Ha.
  pose proof (Z.div_mod b n ltac:(lia)) as Hb. rewrite Heq in Ha.
  assert (a / n - b / n < 1) by nia. assert (-1 < a / n - b / n) by nia.
  assert (a / n = b / n) as Hq by lia. rewrite Hq in Ha. lia.
Qed.

Section invariant.
Context (n : Z) (Hn : 0 < n < 2 ^ 32).

Lemma inv_init : inv n (shared_init n).
Proof.
  split; cbn; try done; try (rewrite Z.mod_0_l; lia); try lia.
  intros i Hi. split; [done |]. intros (j & Hj & _). lia.
Qed.

Lemma inv_wf s : inv n s -> ring_wf (ring s).
Proof.
  intros [Hs Hf Hb _ _ _ _ _ _]. unfold ring_wf. rewrite Hs, Hf, Hb.
  pose proof (Z.mod_pos_bound (produced s - begun_to_publish s) n).
  pose proof (Z.mod_pos_bound (consumed s) n). lia.
Qed.

(** The ring counts the slots in use but for the one about to be counted. *)
Lemma inv_settled s :
  inv n s -> ring_wf (settled s) /\ size (settled s) = n /\
  front (settled s) = produced s mod n /\ back (settled s) = consumed s mod n /\
  count (settled s) = produced s - consumed s.
Proof.
  intros Hi. pose proof (inv_wf s Hi) as Hw. destruct Hi as [Hs Hf Hb Hcn Hu _ _ _ [Hp _]].
  assert (0 <= taken s) by (unfold taken; by destruct (cpc s)).
  assert (ring_wf (settled s) /\ size (settled s) = n /\
    front (settled s) = produced s mod n /\ back (settled s) = consumed s mod n)
    as (H1 & H2 & H3 & H4).
  { unfold settled, begun_to_publish in *. destruct (ppc s); [| | | done]; rewrite ?Z.sub_0_r in Hf; try done.
    rewrite ringIncFront_eq by done. split_and!; cbn; try done.
    - rewrite <- ringIncFront_eq by done. by apply ringIncFront_wf.
    - rewrite Hs, Hf, Zplus_mod_idemp_l. f_equal. lia. }
  split_and!; try done. unfold count. rewrite H2, H3, H4, <- Zminus_mod, Z.mod_small; lia.
Qed.

(** A marked slot at [back] is the oldest in use. *)
Lemma inv_oldest s :
  inv n s -> cpc s = CTest -> acks s (back (ring s)) = true -> consumed s < answered s.
Proof.
  intros [Hs Hf Hb Hc Hu _ _ Ha _] Hpc Hk. unfold taken in *. rewrite Hpc in *.
  apply Ha in Hk as (j & Hj & Heq); [lia |]. rewrite Hb. apply Z.mod_pos_bound. lia.
Qed.

Ltac inv_fields := split; unfold taken, begun_to_publish; cbn; try done; try lia.

Lemma astep_inv s s' : inv n s -> astep s s' -> inv n s'.
Proof.
  intros Hi Hstep. pose proof (inv_wf s Hi) as Hw.
  destruct (inv_settled s Hi) as (Hws & Hss & Hfs & Hbs & Hcs).
  pose proof (inv_oldest s Hi) as Hold.
  assert (0 <= taken s) as Htk by (unfold taken; by destruct (cpc s)).
  destruct Hi as [Hs Hf Hb Hc Hu Hcl Hbg Ha [Hpw Hcw]].
  destruct Hstep as [r c p a q k Ht | r c p a q k Ht | r c p a q k | r c p a q k
    | r pc c p a q k Ht | r pc p a q k Ht | r pc p a q k Ht | r pc p a q k];
    unfold taken, begun_to_publish, settled in *; cbn in *; try (by split).
  - rewrite ringHasFree_count in Ht by done. inv_fields. intros _.
    destruct (Z.ltb_spec (count r) (size r - 1)); [lia | done].
  - specialize (Hcl eq_refl). inv_fields. rewrite Hf. f_equal. lia.
  - inv_fields; rewrite ?Z.sub_0_r; try done; by rewrite ringIncFront_size.
  - inv_fields. intros i Hir. unfold set_ack.
    destruct (Z.eqb_spec i (a mod size r)) as [-> | Hne].
    + rewrite Hs. split; [| done]. intros _. exists a. split; [lia | done].
    + rewrite Ha by done. rewrite Hs in Hne. split; intros (j & Hj & ->); exists j; (split; [| done]); [lia |].
      destruct (decide (j = a)) as [-> |]; [done | lia].
  - specialize (Hold eq_refl Ht). inv_fields. intros i Hir. unfold set_ack, ringGetBack.
    destruct (Z.eqb_spec i (back r)) as [-> | Hne].
    + split; [done |]. intros (j & Hj & Heq). rewrite Hb in Heq.
      assert (q = j) by (apply (mod_close n); [lia | done | lia]). lia.
    + rewrite Ha by done. split; intros (j & Hj & ->); exists j; (split; [| done]); [| lia].
      destruct (decide (j = q)) as [-> |]; [by rewrite Hb in Hne | lia].
  - inv_fields.
    + by rewrite ringIncBack_size.
    + rewrite ringIncBack_eq by done. cbn. by rewrite Hf.
    + rewrite ringIncBack_eq by done. cbn. rewrite Hs, Hb, Zplus_mod_idemp_l. done.
    + intros i Hir. rewrite Ha, Z.add_0_r by done. done.
Qed.

Lemma asteps_inv s : rtc astep (shared_init n) s -> inv n s.
Proof.
  intros Hs. remember (shared_init n) as s0 eqn:E. assert (inv n s0) as Hi by (subst; apply inv_init).
  clear E. induction Hs; eauto using astep_inv.
Qed.
End invariant.

(** * Statements as steps: runs of one thread *)

Section runs.
Context (n : Z) (Hn : 1 < n < 2 ^ 32).

(** [ringHasFree] compares [back] with the next slot, and answers 1 for every
    other value of it, one past the last slot included. *)
Lemma has_free_other f b :
  0 <= f < n -> (f + 1) mod n <> b -> ringHasFree (Ring_context f b n) <> 0.
Proof.
  intros Hf Hne. unfold ringHasFree. cbn.
  assert (u32 (s32 (u32 (f + 1))) = f + 1) as Hplus.
  { rewrite u32_s32, u32_u32. apply u32_small. lia. }
  rewrite Hplus. rewrite succ_mod_cases in Hne by lia.
  change (u32 0) with 0. destruct (Z.leb_spec n (f + 1)); [| rewrite Hplus]; zcases.
Qed.

Lemma front_statements f b :
  0 <= f < n ->
  front_wrap (front_incr (Ring_context f b n)) = Ring_context ((f + 1) mod n) b n.
Proof.
  intros Hf. unfold front_wrap, front_incr, set_front. cbn.
  rewrite u32_small by lia. rewrite succ_mod_cases by lia. zcases.
Qed.

Lemma back_statements f b :
  0 <= b < n ->
  back_wrap (back_incr (Ring_context f b n)) = Ring_context f ((b + 1) mod n) n.
Proof.
  intros Hb. unfold back_wrap, back_incr, set_back. cbn.
  rewrite u32_small by lia. rewrite succ_mod_cases by lia. zcases.
Qed.

(** One task is published, while the others rest. *)
Lemma run_put f b c p a q k :
  0 <= f < n -> (f + 1) mod n <> b ->
  rtc step (Shared (Ring_context f b n) PTest c p a q k)
    (Shared (Ring_context ((f + 1) mod n) b n) PTest c (p + 1) a q k).
Proof.
  intros Hf Hne. eapply rtc_l; [by apply p_test, has_free_other |].
  eapply rtc_l; [apply p_publish |]. eapply rtc_l; [apply p_incr |].
  eapply rtc_l; [apply p_wrap |]. by rewrite front_statements.
Qed.

(** One acknowledgement, and the test that finds it. *)
Lemma run_answer f pc p a q k :
  a < p -> a mod n = q mod n ->
  exists k', rtc step (Shared (Ring_context f (q mod n) n) pc CTest p a q k)
    (Shared (Ring_context f (q mod n) n) pc CTaken p (a + 1) q k').
Proof.
  intros Ha Hm. eexists. eapply rtc_l; [by apply s_ack |].
  eapply rtc_l; [| apply rtc_refl]. apply c_clear. cbn. unfold set_ack. by rewrite Hm, Z.eqb_refl.
Qed.

(** One task from its publication to the release of its slot. *)
Lemma run_task p k :
  0 <= p -> exists k', rtc step
    (Shared (Ring_context (p mod n) (p mod n) n) PTest CTest p p p k)
    (Shared (Ring_context ((p + 1) mod n) ((p + 1) mod n) n) PTest CTest (p + 1) (p + 1) (p + 1) k').
Proof.
  intros Hp. pose proof (Z.mod_pos_bound p n ltac:(lia)) as Hr.
  assert ((p mod n + 1) mod n = (p + 1) mod n) as Hs by (by rewrite Zplus_mod_idemp_l).
  destruct (run_answer ((p + 1) mod n) PTest (p + 1) p p k ltac:(lia) eq_refl) as [k' Hk].
  exists k'. etrans; [apply run_put; [done |] |].
  { rewrite succ_mod_cases by lia. zcases. }
  rewrite Hs. etrans; [exact Hk |]. eapply rtc_l; [apply c_incr |].
  eapply rtc_l; [apply c_wrap |]. by rewrite back_statements, Hs.
Qed.

Lemma run_tasks (j : nat) : exists k, rtc step (shared_init n)
  (Shared (Ring_context (Z.of_nat j mod n) (Z.of_nat j mod n) n) PTest CTest
     (Z.of_nat j) (Z.of_nat j) (Z.of_nat j) k).
Proof.
  induction j as [| j [k IH]].
  - exists (fun _ => false). rewrite Z.mod_0_l by lia. apply rtc_refl.
  - destruct (run_task (Z.of_nat j) k ltac:(lia)) as [k' Hk]. exists k'.
    replace (Z.of_nat (S j)) with (Z.of_nat j + 1) by lia. by etrans.
Qed.

Lemma run_many_puts j f c p a q k :
  0 <= f -> f + Z.of_nat j < n ->
  rtc step (Shared (Ring_context f n n) PTest c p a q k)
    (Shared (Ring_context (f + Z.of_nat j) n n) PTest c (p + Z.of_nat j) a q k).
Proof.
  revert f p. induction j as [| j IH]; intros f p Hf Hk.
  - by rewrite !Z.add_0_r.
  - etrans.
    + apply run_put; [lia |]. rewrite Z.mod_small; lia.
    + rewrite Z.mod_small by lia.
      replace (f + Z.of_nat (S j)) with (f + 1 + Z.of_nat j) by lia.
      replace (p + Z.of_nat (S j)) with (p + 1 + Z.of_nat j) by lia.
      apply IH; lia.
Qed.

(** The run that overfills the ring: with [back] at the last slot the
    monitoring thread stops between [back++] and the wrap, the caller goes once
    round, and the wrap then makes [back] meet [front]. *)
Lemma run_overfill : exists k,
  rtc step (shared_init n)
    (Shared (Ring_context 0 0 n) PTest CTest (2 * n) n n k).
Proof.
  destruct (run_tasks (Z.to_nat (n - 1))) as [k Hk]. rewrite Z2Nat.id, Z.mod_small in Hk by lia.
  destruct (run_answer 0 PTest n (n - 1) (n - 1) k ltac:(lia) eq_refl) as [k' Ha].
  exists k'. etrans; [exact Hk |]. rewrite !Z.sub_add, (Z.mod_small (n - 1)) in Ha by lia.
  etrans.
  { apply run_put; [lia |]. rewrite Z.sub_add, Z.mod_same; lia. }
  rewrite Z.sub_add, Z.mod_same by lia. etrans; [exact Ha |].
  eapply rtc_l; [apply c_incr |]. unfold back_incr, set_back. cbn. rewrite u32_small by lia.
  rewrite !Z.sub_add. pose proof (run_many_puts (Z.to_nat (n - 1)) 0 CWrap n n n k') as Hround.
  rewrite Z2Nat.id, Z.add_0_l in Hround by lia. etrans; [apply Hround; lia |].
  etrans.
  { apply run_put; [lia |]. rewrite Z.sub_add, Z.mod_same; lia. }
  rewrite Z.sub_add, Z.mod_same by lia.
  eapply rtc_l; [apply c_wrap |]. unfold back_wrap, set_back. cbn.
  rewrite Z.leb_refl. replace (n + (n - 1) + 1) with (2 * n) by lia. done.
Qed.
End runs.

(** * Properties *)

(** C30: when each call of a ring function is indivisible, the two threads never
    overrun each other although only one of them tests the ring: in any
    interleaving of a caller that tests [ringHasFree], publishes and then calls
    [ringIncFront], an SPE that acknowledges what is published, and a monitoring
    thread that tests the acknowledgement at [back] alone, clears it and calls
    [ringIncBack] (before the [ringIncFront] of the same slot, perhaps), at most
    [n - 1] slots are published and not released, and they are those the ring
    counts, once the caller has moved [front] on; a slot that is being filled is
    none of them; and a slot that is being released is the oldest of them, and
    its task was acknowledged. *)
Theorem ring_threads_safe (n : Z) (s : shared) :
  0 < n < 2 ^ 32 -> rtc astep (shared_init n) s ->
  pending (settled s) = in_use s /\ Z.of_nat (length (in_use s)) <= n - 1 /\ NoDup (in_use s) /\
  consumed s <= answered s <= produced s /\
  (ppc s = PClaimed -> (front (ring s) ∉ in_use s) /\
     pending (ringIncFront (ring s)) = in_use s ++ [front (ring s)]) /\
  (cpc s = CTaken -> consumed s < answered s /\ exists rest, in_use s = back (ring s) :: rest).
Proof.
  intros Hn Hs. pose proof (asteps_inv n Hn s Hs) as Hi.
  destruct (inv_settled n Hn s Hi) as (Hw & Hsz & Hf & Hb & Hc).
  pose proof (inv_counts n s Hi) as Hcnt. pose proof (inv_used n s Hi) as Hu.
  assert (pending (settled s) = in_use s) as Hp.
  { rewrite pending_seqZ, Hb, Hsz, Hc. unfold in_use. rewrite (inv_size n s Hi).
    rewrite <- (Z.add_0_r (consumed s)) at 2. rewrite <- fmap_add_seqZ, map_map.
    apply map_ext. intros j. by rewrite Zplus_mod_idemp_l. }
  pose proof (length_pending _ Hw) as Hl. rewrite Hp, Hc in Hl. split_and!.
  - done.
  - lia.
  - rewrite <- Hp. by apply NoDup_pending.
  - unfold taken in Hcnt. destruct (cpc s); lia.
  - lia.
  - intros Hpc. pose proof (inv_claimed n s Hi Hpc). rewrite <- Hp.
    unfold settled in *. rewrite Hpc in *. split; [exact (front_fresh (ring s) Hw) |].
    apply pending_IncFront; [done | lia].
  - intros Hpc. unfold taken in Hcnt. rewrite Hpc in Hcnt. split; [lia |].
    rewrite <- Hp, pending_IncBack by (done || lia).
    rewrite Hb, <- (inv_back n s Hi). by eexists.
Qed.

(** The monitoring thread releases a slot before the caller has moved [front] on. *)
Lemma ring_threads_safe_witness :
  exists s, rtc astep (shared_init 2) s /\ ppc s = PPublished /\ cpc s = CTaken /\
    ring s = Ring_context 0 0 2 /\ in_use s = [0] /\ pending (settled s) = in_use s.
Proof.
  assert (rtc astep (shared_init 2) (Shared (Ring_context 0 0 2) PPublished CTaken 1 1 0
    (set_ack 0 false (set_ack 0 true (fun _ => false))))) as H.
  { eapply rtc_l; [apply a_test; vm_compute; congruence |].
    eapply rtc_l; [apply a_publish |]. eapply rtc_l; [apply a_ack; lia |].
    eapply rtc_l; [apply a_clear; reflexivity |]. apply rtc_refl. }
  eexists. split; [exact H |]. split; [reflexivity |]. split; [reflexivity |].
  split; [reflexivity |]. split; [reflexivity |].
  apply (ring_threads_safe 2 _ ltac:(lia) H).
Defined.

(** With indivisible calls and at least two slots the three cannot all be
    waiting: in every reachable state one of them can do something other than
    repeat its test. *)
Theorem ring_threads_progress (n : Z) (s : shared) :
  1 < n < 2 ^ 32 -> rtc astep (shared_init n) s ->
  exists s', astep s s' /\ s' <> s.
Proof.
  intros Hn Hs. pose proof (asteps_inv n ltac:(lia) s Hs) as Hi.
  pose proof (inv_wf n ltac:(lia) s Hi) as Hw.
  destruct (inv_settled n ltac:(lia) s Hi) as (_ & _ & _ & _ & Hc).
  destruct Hi as [Hsz Hf Hb Hcnt Hu _ _ Ha [Hpw Hcw]].
  destruct s as [r pc c p a q k]; unfold taken, settled in *; cbn in *.
  destruct (decide (a < p)).
  { eexists. split; [by apply a_ack |]. intros [=]. lia. }
  destruct pc; [| by eexists; split; [apply a_publish | intros [=]]
    | by eexists; split; [apply a_front | intros [=]] | done].
  destruct c; [| by eexists; split; [apply a_back | intros [=]; lia] | done].
  destruct (Z.eq_dec (ringHasFree r) 0) as [Hfree |];
    [| by eexists; split; [apply a_test | intros [=]]].
  rewrite ringHasFree_count in Hfree by done.
  assert (k (ringGetBack r) = true) as Hk.
  { apply Ha; [unfold ringGetBack; rewrite Hb; apply Z.mod_pos_bound; lia |].
    exists q. split; [| exact Hb].
    destruct (Z.ltb_spec (count r) (size r - 1)); [done | lia]. }
  eexists. split; [by apply a_clear | intros [=]].
Qed.

Lemma ring_threads_progress_witness :
  exists s', astep (shared_init 2) s' /\ s' <> shared_init 2.
Proof. apply (ring_threads_progress 2); [lia | apply rtc_refl]. Defined.

(** C31: with statements as steps the same two threads do overrun each other,
    on a ring of any size from 2 up: an interleaving in which the monitoring thread is
    suspended between [back++] and the wrap to 0 lets the caller pass
    [ringHasFree] on a full ring, and leaves [n] slots published and not released
    in a ring that holds [n - 1] and now tests as empty. *)
Theorem ring_statement_race (n : Z) :
  1 < n < 2 ^ 32 ->
  exists s, rtc step (shared_init n) s /\
    produced s - consumed s = n /\ ringHasRemaining (ring s) = 0 /\
    pending (ring s) = [].
Proof.
  intros Hn. destruct (run_overfill n Hn) as [k Hk]. eexists. split; [exact Hk |].
  split_and!; cbn; [lia | done | done].
Qed.

Lemma ring_statement_race_witness :
  exists s, rtc step (shared_init 128) s /\
    produced s - consumed s = 128 /\ ringHasRemaining (ring s) = 0 /\
    pending (ring s) = [].
Proof. apply (ring_statement_race 128). lia. Defined.
