(* ===== verification/LinkedList.v ===== *)
(** shared/linkedlist.c and shared/linkedlist.h: the doubly linked list, over a
    heap of nodes in which freed storage can be told from live storage. *)
From stdpp Require Import base list gmap fin_maps infinite.
From Stdlib Require Import ZArith Lia.
From S2P Require Import Prelude.

(** * The heap

    Addresses are integers and NULL is 0.  [malloc] is the C library's: all the
    code relies on is that it returns NULL or storage that is not in use. *)

Section heap.
Context {V : Type}.

Definition load (h : gmap Z V) (p : Z) : res V :=
  if p =? 0 then Fault NullDeref
  else match h !! p with Some v => Ok v | None => Fault DanglingDeref end.

Definition store (h : gmap Z V) (p : Z) (v : V) : res (gmap Z V) :=
  if p =? 0 then Fault NullDeref
  else match h !! p with Some _ => Ok (<[p := v]> h) | None => Fault DanglingDeref end.

Definition heap_free (h : gmap Z V) (p : Z) : res (gmap Z V) :=
  if p =? 0 then Ok h
  else match h !! p with Some _ => Ok (delete p h) | None => Fault InvalidFree end.
End heap.

Class Allocator (V : Type) := {
  malloc : gmap Z V -> Z;
  malloc_fresh h : malloc h <> 0 -> h !! malloc h = None
}.

(** An allocator that never fails: the least address not in use. *)
#[export] Instance least_allocator {V : Type} : Allocator V | 100.
Proof.
  refine {| malloc h := fresh ({[0]} ∪ dom h : gset Z) |}.
  intros h _. apply not_elem_of_dom.
  pose proof (is_fresh ({[0]} ∪ dom h : gset Z)). set_solver.
Defined.

(** * The code *)

Record list_entry_s := List_entry { previous : Z; next : Z; entry : Z }.
Record list_s := List { first : Z; last : Z; current : Z; entries : Z }.

Definition set_previous (v : Z) (n : list_entry_s) := List_entry v (next n) (entry n).
Definition set_next (v : Z) (n : list_entry_s) := List_entry (previous n) v (entry n).
Definition set_first (v : Z) (l : list_s) := List v (last l) (current l) (entries l).
Definition set_last (v : Z) (l : list_s) := List (first l) v (current l) (entries l).
Definition set_current (v : Z) (l : list_s) := List (first l) (last l) v (entries l).
Definition set_entries (v : Z) (l : list_s) := List (first l) (last l) (current l) v.

(** What the [list] argument points to, and the nodes. *)
Record lstate := Lstate { nodes : gmap Z list_entry_s; list_ptr : ptr list_s }.

Definition the_list : M lstate list_s := fun s => lift (deref (list_ptr s)) s.
Definition upd_list (f : list_s -> list_s) : M lstate unit :=
  l ← the_list; modify (fun s => Lstate (nodes s) (Valid (f l))).
Definition node (p : Z) : M lstate list_entry_s := fun s => lift (load (nodes s) p) s.
Definition upd_nodes (f : gmap Z list_entry_s -> res (gmap Z list_entry_s)) :
    M lstate unit := fun s =>
  match f (nodes s) with
  | Ok h => Ok (tt, Lstate h (list_ptr s))
  | Fault e => Fault e
  | OutOfFuel => OutOfFuel
  end.
Definition upd_node (p : Z) (f : list_entry_s -> list_entry_s) : M lstate unit :=
  n ← node p;
  upd_nodes (fun h => store h p (f n)).

(** The storage the list is put in replaces what [list] pointed to. *)
Definition listInit (malloc_ok : bool) : M lstate unit :=
  l ← lift (alloc_init malloc_ok (List 0 0 0 0));
  modify (fun s => Lstate (nodes s) l).

(** [malloc], then the two stores every path makes; [previous] is stored later,
    and holds the value [indet] until then. *)
Definition new_node (malloc_addr : Z) (indet e : Z) : M lstate unit :=
  if malloc_addr =? 0 then fail NullDeref
  else modify (fun s => Lstate (<[malloc_addr := List_entry indet 0 e]> (nodes s)) (list_ptr s)).

(** The function has no return statement: its [int] is not a result. *)
Definition listAddEntry `{Allocator list_entry_s} (indet e : Z) : M lstate unit :=
  listentry ← gets (fun s => malloc (nodes s));
  new_node listentry indet e;;
  l ← the_list;
  (if first l =? 0 then
     upd_list (set_first listentry);;
     upd_list (set_last listentry);;
     upd_node listentry (set_previous 0)
   else
     upd_node listentry (set_previous (last l));;
     upd_node (last l) (set_next listentry);;
     upd_list (set_last listentry));;
  l ← the_list;
  n ← lift (to_int (entries l + 1));
  upd_list (set_entries n).

(** One round of the search: [Some true] is the [break], [Some false] the
    [return -1]. *)
Definition search_round (e : Z) : M lstate (option bool) :=
  l ← the_list;
  c ← node (current l);
  if entry c =? e then mret (Some true)
  else if current l =? last l then mret (Some false)
  else upd_list (set_current (next c));; mret None.

(** A search that goes more than once through every node never ends, so the
    number of nodes bounds the rounds. *)
Definition search (e : Z) : M lstate bool :=
  fuel ← gets (fun s => S (size (nodes s)));
  loop fuel (search_round e).

Definition unlink : M lstate unit :=
  l ← the_list;
  c ← node (current l);
  (if negb (previous c =? 0) then upd_node (previous c) (set_next (next c))
   else mret tt);;
  l ← the_list;
  c ← node (current l);
  (if current l =? last l then upd_list (set_last (previous c)) else mret tt);;
  l ← the_list;
  (if current l =? first l then upd_list (set_first (next c)) else mret tt).

Definition listRemoveEntry (e : Z) : M lstate Z :=
  l ← the_list;
  upd_list (set_current (first l));;
  found ← search e;
  if found : bool then
    unlink;;
    l ← the_list;
    let lentry := current l in
    upd_list (set_current (first l));;
    n ← lift (to_int (entries l - 1));
    upd_list (set_entries n);;
    upd_nodes (fun h => heap_free h lentry);;
    mret 0
  else mret (-1).

Definition listEntries : M lstate Z := l ← the_list; mret (entries l).

Definition listFirstEntry : M lstate Z :=
  l ← the_list;
  upd_list (set_current (first l));;
  n ← node (first l);
  mret (entry n).

Definition listNextEntry : M lstate Z :=
  l ← the_list;
  n ← node (current l);
  upd_list (set_current (next n));;
  l ← the_list;
  if current l =? 0 then mret 0
  else n ← node (current l); mret (entry n).

(** * The list a heap holds

    [ps] lists the nodes in order, each with its address and its entry. *)

Definition head_addr (ps : list (Z * Z)) (q : Z) : Z :=
  match ps with [] => q | (a, _) :: _ => a end.
Fixpoint last_addr (pp : Z) (ps : list (Z * Z)) : Z :=
  match ps with [] => pp | (a, _) :: ps => last_addr a ps end.

(** The chain of [next] links from [p] to [q]. *)
Fixpoint fseg (h : gmap Z list_entry_s) (p : Z) (ps : list (Z * Z)) (q : Z) : Prop :=
  match ps with
  | [] => p = q
  | (a, x) :: ps => p = a /\ a <> 0 /\
      exists n, h !! a = Some n /\ entry n = x /\ fseg h (next n) ps q
  end.

(** Both chains: [pp] is the node before the segment and [q] the one after. *)
Fixpoint dseg (h : gmap Z list_entry_s) (pp : Z) (ps : list (Z * Z)) (q : Z) : Prop :=
  match ps with
  | [] => True
  | (a, x) :: ps => a <> 0 /\ h !! a = Some (List_entry pp (head_addr ps q) x) /\
      dseg h a ps q
  end.

(** The header of a list of the nodes [ps]; [last] is only used when there are
    nodes. *)
Record header (l : list_s) (ps : list (Z * Z)) : Prop := {
  header_first : first l = head_addr ps 0;
  header_last : ps <> [] -> last l = last_addr 0 ps;
  header_entries : entries l = Z.of_nat (length ps);
  header_range : Z.of_nat (length ps) < 2 ^ 31;
  header_nodup : NoDup (ps.*1) }.

Definition dlist (s : lstate) (ps : list (Z * Z)) : Prop :=
  exists l, list_ptr s = Valid l /\ header l ps /\ dseg (nodes s) 0 ps 0.

(** What a traversal relies on: the forward chain. *)
Definition flist (s : lstate) (ps : list (Z * Z)) : Prop :=
  exists l, list_ptr s = Valid l /\ header l ps /\ fseg (nodes s) (first l) ps 0.

(** ** Segments *)

Section segments.
Implicit Types (h : gmap Z list_entry_s) (ps : list (Z * Z)).

Lemma dseg_app h pp ps1 ps2 q :
  dseg h pp (ps1 ++ ps2) q <->
  dseg h pp ps1 (head_addr ps2 q) /\ dseg h (last_addr pp ps1) ps2 q.
Proof.
  revert pp. induction ps1 as [| [a x] ps1 IH]; intros pp; cbn; [tauto |].
  rewrite IH. assert (head_addr (ps1 ++ ps2) q = head_addr ps1 (head_addr ps2 q)) as ->.
  { by destruct ps1 as [| []]. }
  tauto.
Qed.

Lemma snoc_addr a x ps : a ∈ (ps ++ [(a, x)]).*1.
Proof. rewrite fmap_app. apply elem_of_app. right. left. Qed.

Lemma last_addr_app pp ps1 ps2 :
  last_addr pp (ps1 ++ ps2) = last_addr (last_addr pp ps1) ps2.
Proof. revert pp. induction ps1 as [| [a x] ps1 IH]; intros pp; cbn; done. Qed.

Lemma dseg_fseg h pp ps q : dseg h pp ps q -> fseg h (head_addr ps q) ps q.
Proof.
  revert pp. induction ps as [| [a x] ps IH]; intros pp; cbn; [done |].
  intros (Ha & Hn & Hd). split_and!; [done | done |].
  eexists. split_and!; [done | done |]. cbn. by eapply IH.
Qed.

Lemma fseg_app h p ps1 ps2 q :
  fseg h p (ps1 ++ ps2) q <-> exists m, fseg h p ps1 m /\ fseg h m ps2 q.
Proof.
  revert p. induction ps1 as [| [a x] ps1 IH]; intros p; cbn.
  - split; [intros ?; by exists p | by intros (m & -> & ?)].
  - setoid_rewrite IH. split.
    + intros (-> & ? & n & ? & ? & m & ? & ?). exists m. eauto 10.
    + intros (m & (-> & ? & n & ? & ? & ?) & ?). eauto 10.
Qed.

Lemma dseg_elem h pp ps q a : dseg h pp ps q -> a ∈ ps.*1 -> a <> 0 /\ is_Some (h !! a).
Proof.
  revert pp. induction ps as [| [b x] ps IH]; intros pp; cbn.
  - intros _ Ha. by apply elem_of_nil in Ha.
  - intros (Hb & Hn & Hd) [-> | Ha]%elem_of_cons; [by eauto | by eapply IH].
Qed.

Lemma fseg_elem h p ps q a : fseg h p ps q -> a ∈ ps.*1 -> a <> 0 /\ is_Some (h !! a).
Proof.
  revert p. induction ps as [| [b x] ps IH]; intros p; cbn.
  - intros _ Ha. by apply elem_of_nil in Ha.
  - intros (-> & Hb & n & Hn & _ & Hd) [-> | Ha]%elem_of_cons; [by eauto | by eapply IH].
Qed.

(** Nodes outside a segment can change. *)
Lemma dseg_insert h pp ps q a n : a ∉ ps.*1 -> dseg h pp ps q -> dseg (<[a := n]> h) pp ps q.
Proof.
  revert pp. induction ps as [| [b x] ps IH]; intros pp; cbn; [done |].
  intros [Hne Hni]%not_elem_of_cons (Hb & Hn & Hd).
  split_and!; [done | by rewrite lookup_insert_ne | by apply IH].
Qed.

Lemma dseg_delete h pp ps q a : a ∉ ps.*1 -> dseg h pp ps q -> dseg (delete a h) pp ps q.
Proof.
  revert pp. induction ps as [| [b x] ps IH]; intros pp; cbn; [done |].
  intros [Hne Hni]%not_elem_of_cons (Hb & Hn & Hd).
  split_and!; [done | by rewrite lookup_delete_ne | by apply IH].
Qed.

(** Redirecting the last node of a segment. *)
Lemma dseg_relink h pp ps a x q q' n :
  NoDup (ps.*1 ++ [a]) -> dseg h pp (ps ++ [(a, x)]) q ->
  n = List_entry (last_addr pp ps) q' x ->
  h !! a = Some (List_entry (last_addr pp ps) q x) /\
  dseg (<[a := n]> h) pp (ps ++ [(a, x)]) q'.
Proof.
  intros (Hnd & Hni & _)%NoDup_app (Hd & Ha & Hn & _)%dseg_app ->. split; [done |].
  apply dseg_app. split.
  - apply dseg_insert; [| done]. intros Hin. eapply Hni; [done | left].
  - cbn. by rewrite lookup_insert_eq.
Qed.

Lemma length_le_size h p ps q :
  fseg h p ps q -> NoDup (ps.*1) -> (length ps <= size h)%nat.
Proof.
  intros Hf Hnd. rewrite <- (length_fmap fst), <- size_dom.
  rewrite <- (size_list_to_set (C := gset Z)) by done.
  apply subseteq_size. intros a Ha%elem_of_list_to_set.
  apply elem_of_dom. by eapply fseg_elem.
Qed.

Lemma dlist_flist s ps : dlist s ps -> flist s ps.
Proof.
  intros (l & Hl & Hh & Hd). exists l. split_and!; [done | done |].
  rewrite (header_first _ _ Hh). by eapply dseg_fseg.
Qed.
End segments.

(** ** Running the operations *)

Section running.
Implicit Types (h : gmap Z list_entry_s) (l : list_s) (k : ptr list_s).

Lemma heap_insert_eq h p n : <[p := n]> h !! p = Some n.
Proof. apply lookup_insert_eq. Qed.

Lemma run_the_list h l : the_list (Lstate h (Valid l)) = Ok (l, Lstate h (Valid l)).
Proof. done. Qed.
Lemma run_upd_list h l f :
  upd_list f (Lstate h (Valid l)) = Ok (tt, Lstate h (Valid (f l))).
Proof. done. Qed.
Lemma run_node h p n k :
  p <> 0 -> h !! p = Some n -> node p (Lstate h k) = Ok (n, Lstate h k).
Proof.
  intros Hp Hn. unfold node, load. cbn [nodes].
  rewrite (proj2 (Z.eqb_neq _ _)) by done. by rewrite Hn.
Qed.
Lemma run_upd_node h p n k f :
  p <> 0 -> h !! p = Some n ->
  upd_node p f (Lstate h k) = Ok (tt, Lstate (<[p := f n]> h) k).
Proof.
  intros Hp Hn. unfold upd_node. erewrite M_bind_ok by (by apply run_node).
  unfold upd_nodes, store. cbn [nodes].
  rewrite (proj2 (Z.eqb_neq _ _)) by done. by rewrite Hn.
Qed.
Lemma run_new_node h a indet e k :
  a <> 0 ->
  new_node a indet e (Lstate h k) = Ok (tt, Lstate (<[a := List_entry indet 0 e]> h) k).
Proof. intros Ha. unfold new_node. by rewrite (proj2 (Z.eqb_neq _ _)). Qed.
Lemma run_node_null (s : lstate) : node 0 s = Fault NullDeref.
Proof. done. Qed.
Lemma run_node_dangling h p k :
  p <> 0 -> h !! p = None -> node p (Lstate h k) = Fault DanglingDeref.
Proof.
  intros Hp Hn. unfold node, load. cbn [nodes].
  rewrite (proj2 (Z.eqb_neq _ _)) by done. by rewrite Hn.
Qed.
Lemma run_free h p n k :
  p <> 0 -> h !! p = Some n ->
  upd_nodes (fun h => heap_free h p) (Lstate h k) = Ok (tt, Lstate (delete p h) k).
Proof.
  intros Hp Hn. unfold upd_nodes, heap_free. cbn [nodes].
  rewrite (proj2 (Z.eqb_neq _ _)) by done. by rewrite Hn.
Qed.
End running.

#[export] Hint Resolve run_the_list run_upd_list run_node run_upd_node run_node_null
  run_node_dangling run_free run_new_node heap_insert_eq : run.

(** ** listAddEntry *)

Section add.
Context `{Allocator list_entry_s}.
Implicit Types (ps : list (Z * Z)) (s : lstate).

Lemma header_snoc l ps a x :
  header l ps -> a ∉ ps.*1 -> Z.of_nat (length ps) < 2 ^ 31 - 1 ->
  header (List (head_addr (ps ++ [(a, x)]) 0) a (current l) (entries l + 1))
    (ps ++ [(a, x)]).
Proof.
  intros [Hf Hl He _ Hnd] Hni Hlen. split; cbn.
  - done.
  - intros _. by rewrite last_addr_app.
  - rewrite length_app. cbn. lia.
  - rewrite length_app. cbn. lia.
  - rewrite fmap_app. apply NoDup_app. split_and!; [done | | apply NoDup_singleton].
    intros b Hb ->%list_elem_of_singleton. done.
Qed.

Lemma listAddEntry_spec indet e s ps :
  dlist s ps -> malloc (nodes s) <> 0 -> Z.of_nat (length ps) < 2 ^ 31 - 1 ->
  exists s', listAddEntry indet e s = Ok (tt, s') /\
    dlist s' (ps ++ [(malloc (nodes s), e)]).
Proof.
  destruct s as [h k]. intros (l & Hk & Hh & Hd) Ha Hlen. cbn in *. subst k.
  pose proof (malloc_fresh h Ha) as Hfresh. set (a := malloc h) in *.
  assert (a ∉ ps.*1) as Hni.
  { intros Hin. destruct (dseg_elem _ _ _ _ _ Hd Hin) as [_ [n Hn]]. congruence. }
  pose proof (header_snoc _ _ _ e Hh Hni Hlen) as Hh'. destruct Hh as [Hf Hl He _ _].
  unfold listAddEntry. mstep. cbn [nodes]. fold a. mrun.
  destruct ps as [| [b y] ps _] using rev_ind.
  - cbn in Hf. rewrite Hf, Z.eqb_refl. mrun.
    rewrite to_int_ok by (cbn; lia). mrun. eexists. split; [apply run_upd_list |].
    eexists. split_and!; [done | exact Hh' |]. cbn. by rewrite lookup_insert_eq.
  - rewrite Hl, last_addr_app by (by destruct ps). cbn [last_addr].
    assert (first l <> 0) as Hf0.
    { rewrite Hf. destruct ps as [| [c z] ps]; cbn in *; tauto. }
    rewrite (proj2 (Z.eqb_neq _ 0)) by done. mrun. rewrite insert_insert_eq.
    apply (dseg_insert _ _ _ _ _ (set_previous b (List_entry indet 0 e)) Hni) in Hd.
    destruct (dseg_elem _ _ _ _ b Hd) as [Hb0 _]; [apply snoc_addr |].
    pose proof (header_nodup _ _ Hh') as Hnd.
    rewrite fmap_app in Hnd. apply NoDup_app in Hnd as (Hnd & _ & _).
    rewrite fmap_app in Hnd.
    destruct (dseg_relink _ 0 ps b y 0 a _ Hnd Hd eq_refl) as [Hb Hd'].
    mrun. rewrite to_int_ok by (cbn; lia). mrun.
    eexists. split; [apply run_upd_list |].
    assert (head_addr ((ps ++ [(b, y)]) ++ [(a, e)]) 0 = first l) as Hhd.
    { rewrite Hf. by destruct ps as [| []]. }
    rewrite Hhd in Hh'. eexists. split_and!; [done | exact Hh' |].
    apply dseg_app. split; [exact Hd' |]. rewrite last_addr_app. cbn.
    assert (a <> b) by (intros ->; apply Hni, snoc_addr).
    by rewrite lookup_insert_ne, lookup_insert_eq.
Qed.
End add.

(** ** The traversal *)

Section traversal.
Implicit Types (h : gmap Z list_entry_s) (ps : list (Z * Z)) (l : list_s).

(** Everything but the cursor is as it was. *)
Definition at_cursor (s : lstate) (c : Z) (s' : lstate) : Prop :=
  exists l, list_ptr s = Valid l /\ s' = Lstate (nodes s) (Valid (set_current c l)).

Lemma listFirstEntry_spec s a x ps :
  flist s ((a, x) :: ps) ->
  exists s', listFirstEntry s = Ok (x, s') /\ at_cursor s a s'.
Proof.
  destruct s as [h k]. intros (l & Hk & Hh & Hf). cbn in *. subst k.
  destruct Hf as (Hfa & Ha & n & Hn & <- & _). rewrite <- Hfa in Ha, Hn.
  unfold listFirstEntry. mrun. eexists. split; [done |].
  exists l. rewrite <- Hfa. by split.
Qed.

Lemma listFirstEntry_empty s : flist s [] -> listFirstEntry s = Fault NullDeref.
Proof.
  destruct s as [h k]. intros (l & Hk & Hh & Hf). cbn in *. subst k.
  unfold listFirstEntry. mrun. rewrite Hf. by mstep.
Qed.

(** The list itself may be missing. *)
Lemma listFirstEntry_null s : list_ptr s = Null -> listFirstEntry s = Fault NullDeref.
Proof. intros Hs. unfold listFirstEntry, the_list. apply M_bind_fault. by rewrite Hs. Qed.

(** A step of the cursor along the chain. *)
Lemma listNextEntry_step h l c x ps :
  fseg h (current l) ((c, x) :: ps) 0 ->
  listNextEntry (Lstate h (Valid l)) =
    Ok (match ps with [] => 0 | (_, y) :: _ => y end,
        Lstate h (Valid (set_current (head_addr ps 0) l))).
Proof.
  intros (<- & Hc & n & Hn & _ & Hf). unfold listNextEntry. mrun. cbn [current].
  destruct ps as [| [b y] ps]; cbn in Hf.
  - by rewrite Hf.
  - destruct Hf as (-> & Hb & m & Hm & <- & _).
    cbn [set_current current]. rewrite (proj2 (Z.eqb_neq b 0)) by done. by mrun.
Qed.

Lemma listNextEntry_null h l :
  current l = 0 -> listNextEntry (Lstate h (Valid l)) = Fault NullDeref.
Proof. intros Hc. unfold listNextEntry. mstep. rewrite Hc. by mstep. Qed.

(** [k] further calls after [listFirstEntry]. *)
Fixpoint next_entries (k : nat) : M lstate (list Z) :=
  match k with
  | O => mret []
  | S k => x ← listNextEntry; xs ← next_entries k; mret (x :: xs)
  end.

Lemma next_entries_S k s :
  next_entries (S k) s = (x ← listNextEntry; xs ← next_entries k; mret (x :: xs)) s.
Proof. done. Qed.

Lemma next_entries_spec h ps : forall l c x,
  fseg h (current l) ((c, x) :: ps) 0 ->
  next_entries (S (length ps)) (Lstate h (Valid l)) =
    Ok (ps.*2 ++ [0], Lstate h (Valid (set_current 0 l))).
Proof.
  induction ps as [| [b y] ps IH]; intros l c x Hf; rewrite next_entries_S;
    rewrite (M_bind_ok _ _ _ _ _ (listNextEntry_step _ _ _ _ _ Hf)).
  - done.
  - destruct Hf as (_ & _ & n & _ & _ & Hf). cbn [length].
    erewrite M_bind_ok; [| eapply IH]; [done |].
    destruct Hf as (-> & Hf). by split.
Qed.
End traversal.

(** ** The search *)

Section search.
Implicit Types (h : gmap Z list_entry_s) (ps : list (Z * Z)) (l : list_s).

Lemma search_found h e c : forall ps1 ps2 l fuel,
  fseg h (current l) (ps1 ++ (c, e) :: ps2) 0 ->
  e ∉ ps1.*2 -> last l ∉ ps1.*1 -> (length ps1 < fuel)%nat ->
  loop fuel (search_round e) (Lstate h (Valid l)) =
    Ok (true, Lstate h (Valid (set_current c l))).
Proof.
  induction ps1 as [| [a x] ps1 IH]; intros ps2 l fuel Hf He Hl Hfuel;
    (destruct fuel as [| fuel]; [cbn in Hfuel; lia |]); cbn [loop].
  - destruct Hf as (<- & Hc & n & Hn & <- & _). unfold search_round. mrun.
    rewrite Z.eqb_refl. mrun. by destruct l.
  - destruct Hf as (<- & Ha & n & Hn & <- & Hf).
    apply not_elem_of_cons in He as [He1 He2], Hl as [Hl1 Hl2]. cbn in *.
    unfold search_round at 1. mrun.
    rewrite (proj2 (Z.eqb_neq (entry n) e)) by done.
    rewrite (proj2 (Z.eqb_neq (current l) (last l))) by done.
    mrun. apply (IH ps2 (set_current (next n) l)); (done || lia).
Qed.

Lemma search_missing h e : forall ps l c x fuel,
  fseg h (current l) (ps ++ [(c, x)]) 0 ->
  e ∉ (ps ++ [(c, x)]).*2 -> last l = c -> c ∉ ps.*1 -> (length ps < fuel)%nat ->
  loop fuel (search_round e) (Lstate h (Valid l)) =
    Ok (false, Lstate h (Valid (set_current c l))).
Proof.
  induction ps as [| [a y] ps IH]; intros l c x fuel Hf He Hl Hc Hfuel;
    (destruct fuel as [| fuel]; [cbn in Hfuel; lia |]); cbn [loop].
  - destruct Hf as (<- & Hc0 & n & Hn & <- & _). cbn in He.
    apply not_elem_of_cons in He as [He _]. unfold search_round. mrun.
    rewrite (proj2 (Z.eqb_neq (entry n) e)) by done. rewrite Hl, Z.eqb_refl. mrun.
    by destruct l.
  - destruct Hf as (<- & Ha & n & Hn & <- & Hf).
    apply not_elem_of_cons in He as [He1 He2], Hc as [Hc1 Hc2]. cbn in *.
    unfold search_round at 1. mrun.
    rewrite (proj2 (Z.eqb_neq (entry n) e)) by done.
    rewrite (proj2 (Z.eqb_neq (current l) (last l))) by congruence.
    mrun. apply (IH (set_current (next n) l) c x); (done || lia).
Qed.
End search.

(** ** listRemoveEntry *)

(** The list [ps1 ++ ps2] after the node at [a] between the two parts was freed:
    the first node of [ps2] still names [a] as its predecessor. *)
Definition dlist_gap (s : lstate) (ps1 : list (Z * Z)) (a : Z) (ps2 : list (Z * Z)) : Prop :=
  exists l, list_ptr s = Valid l /\ header l (ps1 ++ ps2) /\
    dseg (nodes s) 0 ps1 (head_addr ps2 0) /\ dseg (nodes s) a ps2 0 /\
    a <> 0 /\ nodes s !! a = None.

Section remove.
Implicit Types (h : gmap Z list_entry_s) (ps : list (Z * Z)) (l : list_s).

Lemma head_addr_app ps1 ps2 q :
  head_addr (ps1 ++ ps2) q = head_addr ps1 (head_addr ps2 q).
Proof. by destruct ps1 as [| []]. Qed.

Lemma dlist_gap_nil s ps a : dlist_gap s ps a [] -> dlist s ps.
Proof.
  intros (l & Hl & Hh & Hd & _). rewrite app_nil_r in Hh. exists l. by split_and!.
Qed.

Lemma dlist_gap_flist s ps1 a ps2 : dlist_gap s ps1 a ps2 -> flist s (ps1 ++ ps2).
Proof.
  intros (l & Hl & Hh & Hd1 & Hd2 & _). exists l. split_and!; [done | done |].
  rewrite (header_first _ _ Hh), head_addr_app. apply fseg_app.
  exists (head_addr ps2 0). split; by eapply dseg_fseg.
Qed.

Lemma last_not_before ps1 a e ps2 :
  NoDup ((ps1 ++ (a, e) :: ps2).*1) -> last_addr 0 (ps1 ++ (a, e) :: ps2) ∉ ps1.*1.
Proof.
  rewrite last_addr_app, fmap_app. intros (_ & Hd & _)%NoDup_app Hin.
  apply (Hd _ Hin). cbn. clear. revert a. induction ps2 as [| [b x] ps2 IH]; intros a; cbn.
  - left.
  - right. apply (IH b).
Qed.

Lemma run_search_found h l ps1 a e ps2 :
  header l (ps1 ++ (a, e) :: ps2) -> current l = first l ->
  fseg h (first l) (ps1 ++ (a, e) :: ps2) 0 -> e ∉ ps1.*2 ->
  search e (Lstate h (Valid l)) = Ok (true, Lstate h (Valid (set_current a l))).
Proof.
  intros Hh Hc Hf He. unfold search. mstep. cbn [nodes].
  rewrite <- Hc in Hf. eapply search_found; [done | done | |].
  - rewrite (header_last _ _ Hh) by (by destruct ps1). apply last_not_before, Hh.
  - apply length_le_size in Hf; [| apply Hh]. rewrite length_app in Hf. cbn in Hf. lia.
Qed.

Lemma run_search_missing h l ps e :
  header l ps -> ps <> [] -> current l = first l ->
  fseg h (first l) ps 0 -> e ∉ ps.*2 ->
  search e (Lstate h (Valid l)) = Ok (false, Lstate h (Valid (set_current (last l) l))).
Proof.
  intros Hh Hne Hc Hf He. unfold search. mstep. cbn [nodes].
  rewrite <- Hc in Hf. pose proof (length_le_size _ _ _ _ Hf (header_nodup _ _ Hh)).
  pose proof (header_last _ _ Hh Hne) as Hl. pose proof (header_nodup _ _ Hh) as Hnd.
  destruct ps as [| [c x] ps _] using rev_ind; [done |].
  rewrite last_addr_app in Hl. rewrite Hl. rewrite fmap_app in Hnd.
  apply NoDup_app in Hnd as (_ & Hnd & _).
  eapply search_missing; [done | done | done | |].
  - intros Hin. apply (Hnd _ Hin). left.
  - rewrite length_app in *. cbn in *. lia.
Qed.

Lemma relink_previous h k ps1 a e ps2 :
  NoDup ((ps1 ++ (a, e) :: ps2).*1) -> dseg h 0 (ps1 ++ (a, e) :: ps2) 0 ->
  let c := List_entry (last_addr 0 ps1) (head_addr ps2 0) e in
  exists h',
    (if negb (previous c =? 0) then upd_node (previous c) (set_next (next c))
     else mret tt) (Lstate h k) = Ok (tt, Lstate h' k) /\
    dseg h' 0 ps1 (head_addr ps2 0) /\ dseg h' a ps2 0 /\ h' !! a = Some c.
Proof.
  rewrite fmap_app. intros (Hnd1 & Hsep & Hnd2)%NoDup_app Hd. cbn [previous next].
  apply dseg_app in Hd as [Hd1 Hd2]. cbn [head_addr dseg] in Hd1, Hd2.
  destruct Hd2 as (Ha & Hn & Hd2).
  destruct ps1 as [| [b y] ps1 _] using rev_ind.
  - exists h. by split_and!.
  - rewrite last_addr_app in Hn |- *. cbn [last_addr] in *.
    destruct (dseg_elem _ _ _ _ b Hd1) as [Hb _]; [apply snoc_addr |].
    rewrite (proj2 (Z.eqb_neq b 0)) by done. cbn [negb].
    rewrite fmap_app in Hnd1.
    destruct (dseg_relink h 0 ps1 b y a (head_addr ps2 0) _ Hnd1 Hd1 eq_refl) as [Hb' Hd'].
    exists (<[b := List_entry (last_addr 0 ps1) (head_addr ps2 0) y]> h).
    pose proof (Hsep b (snoc_addr b y ps1)) as Hni. cbn in Hni.
    apply not_elem_of_cons in Hni as [Hba Hni].
    split_and!; [by erewrite run_upd_node by done | done | by apply dseg_insert |].
    by rewrite lookup_insert_ne.
Qed.

Lemma is_last a ps2 :
  NoDup (((a, 0) :: ps2).*1) ->
  (a =? last_addr a ps2) = match ps2 with [] => true | _ => false end.
Proof.
  intros [Hni _]%NoDup_cons. destruct ps2 as [| [b x] ps2]; [apply Z.eqb_refl |].
  apply Z.eqb_neq. intros Heq. apply Hni. rewrite Heq.
  assert (last_addr b ps2 ∈ (b :: ps2.*1)) as Hin; [| exact Hin].
  clear. revert b. induction ps2 as [| [c x] ps2 IH]; intros b; cbn; [left |].
  right. apply IH.
Qed.

Lemma unlink_spec h l ps1 a e ps2 :
  header l (ps1 ++ (a, e) :: ps2) -> current l = a ->
  dseg h 0 (ps1 ++ (a, e) :: ps2) 0 ->
  exists h' l', unlink (Lstate h (Valid l)) = Ok (tt, Lstate h' (Valid l')) /\
    dseg h' 0 ps1 (head_addr ps2 0) /\ dseg h' a ps2 0 /\
    h' !! a = Some (List_entry (last_addr 0 ps1) (head_addr ps2 0) e) /\
    first l' = head_addr (ps1 ++ ps2) 0 /\
    (ps1 ++ ps2 <> [] -> last l' = last_addr 0 (ps1 ++ ps2)) /\
    entries l' = entries l /\ current l' = a.
Proof.
  intros Hh Hc Hd. pose proof (header_nodup _ _ Hh) as Hnd.
  destruct (relink_previous h (Valid l) ps1 a e ps2 Hnd Hd)
    as (h' & Hrun & Hd1 & Hd2 & Hn').
  apply dseg_app in Hd as [_ (Ha & Hn & _)].
  set (c := List_entry (last_addr 0 ps1) (head_addr ps2 0) e) in *.
  exists h'. unfold unlink. rewrite <- Hc in Ha, Hn, Hn'. mrun.
  rewrite Hc in Hn' |- *.
  rewrite (header_last _ _ Hh) by (by destruct ps1). rewrite last_addr_app. cbn [last_addr].
  rewrite (is_last a ps2); 
    [| rewrite fmap_app in Hnd; by apply NoDup_app in Hnd as (_ & _ & Hnd)].
  pose proof (header_first _ _ Hh) as Hfst. rewrite head_addr_app in Hfst. cbn in Hfst.
  assert (forall l2, first l2 = first l -> (a =? first l2) =
    match ps1 with [] => true | _ => false end) as His_first.
  { intros l2 ->. rewrite Hfst. destruct ps1 as [| [b y] ps1]; cbn; [apply Z.eqb_refl |].
    apply Z.eqb_neq. intros ->. cbn in Hnd. apply NoDup_cons in Hnd as [Hni _].
    apply Hni. rewrite fmap_app. apply elem_of_app. right. left. }
  rewrite head_addr_app, last_addr_app.
  destruct ps2 as [| p2 ps2]; mrun; rewrite ?Hc; cbn [current set_last first];
    rewrite ?Hc, (His_first l) by done; destruct ps1 as [| [b y] ps1];
    eexists; (split; [first [apply run_upd_list | apply run_ret] |]);
    refine (conj Hd1 (conj Hd2 (conj Hn' _))); cbn; split_and!; try done;
    intros _; rewrite (header_last _ _ Hh) by done; cbn;
    rewrite ?last_addr_app; by destruct p2.
Qed.

Lemma listRemoveEntry_hit s ps1 a e ps2 :
  dlist s (ps1 ++ (a, e) :: ps2) -> e ∉ ps1.*2 ->
  exists s', listRemoveEntry e s = Ok (0, s') /\ dlist_gap s' ps1 a ps2.
Proof.
  destruct s as [h k]. intros (l & Hk & Hh & Hd) He. cbn in Hk, Hd. subst k.
  pose proof (dseg_fseg _ _ _ _ Hd) as Hf. rewrite <- (header_first _ _ Hh) in Hf.
  assert (header (set_current (first l) l) (ps1 ++ (a, e) :: ps2)) as Hh1
    by (destruct Hh; by split).
  unfold listRemoveEntry. mrun.
  erewrite M_bind_ok by (by eapply run_search_found).
  assert (header (set_current a l) (ps1 ++ (a, e) :: ps2)) as Hh2
    by (destruct Hh; by split).
  destruct (unlink_spec h _ ps1 a e ps2 Hh2 eq_refl Hd)
    as (h' & l' & Hrun & Hd1 & Hd2 & Hn & Hfst & Hlst & Hent & Hcur).
  cbn [set_current] in Hrun |- *. mrun.
  destruct Hh as [_ _ He' Hr Hnd]. cbn [set_current entries] in Hent |- *.
  rewrite Hent, He'. rewrite length_app in *. cbn [length] in *.
  rewrite to_int_ok by lia. mrun.
  rewrite Hcur. assert (a <> 0) as Ha by (by apply dseg_app in Hd as [_ (? & _)]).
  mrun. rewrite run_ret. eexists. split; [done |].
  rewrite fmap_app in Hnd. apply NoDup_app in Hnd as (Hnd1 & Hsep & Hnd2).
  cbn in Hnd2. apply NoDup_cons in Hnd2 as [Hni2 Hnd2].
  assert (a ∉ ps1.*1) as Hni1 by (intros Hin; apply (Hsep _ Hin); left).
  eexists. split; [done |]. split_and!; [split; cbn | | | done |].
  - done.
  - done.
  - rewrite length_app. lia.
  - rewrite length_app. lia.
  - rewrite fmap_app. apply NoDup_app. split_and!; [done | | done].
    intros b Hb Hb2. apply (Hsep _ Hb). by right.
  - by apply dseg_delete.
  - by apply dseg_delete.
  - apply lookup_delete_eq.
Qed.

Lemma listRemoveEntry_miss s ps e :
  flist s ps -> ps <> [] -> e ∉ ps.*2 ->
  exists s', listRemoveEntry e s = Ok (-1, s') /\ at_cursor s (last_addr 0 ps) s'.
Proof.
  destruct s as [h k]. intros (l & Hk & Hh & Hf) Hne He. cbn in Hk, Hf. subst k.
  unfold listRemoveEntry. mrun.
  assert (header (set_current (first l) l) ps) as Hh1 by (destruct Hh; by split).
  erewrite M_bind_ok by (by eapply run_search_missing).
  cbn [set_current]. rewrite run_ret. eexists. split; [done |].
  exists l. split; [done |]. cbn. by rewrite (header_last _ _ Hh Hne).
Qed.

Lemma listRemoveEntry_empty s e : flist s [] -> listRemoveEntry e s = Fault NullDeref.
Proof.
  destruct s as [h k]. intros (l & Hk & Hh & Hf). cbn in Hk, Hf. subst k.
  unfold listRemoveEntry, search. mrun. cbn [nodes]. erewrite M_bind_fault; [done |].
  cbn [loop]. unfold search_round. mstep. cbn [set_current current]. rewrite Hf.
  by mstep.
Qed.

Lemma listRemoveEntry_gap s ps1 a b e ps2 :
  dlist_gap s ps1 a ((b, e) :: ps2) -> e ∉ ps1.*2 ->
  listRemoveEntry e s = Fault DanglingDeref.
Proof.
  intros Hg He. pose proof (dlist_gap_flist _ _ _ _ Hg) as (l & Hl & Hh & Hf).
  destruct Hg as (l2 & Hl2 & _ & _ & Hd2 & Ha & Hfree).
  destruct s as [h k]. cbn in *. simplify_eq.
  unfold listRemoveEntry. mrun.
  assert (header (set_current (first l) l) (ps1 ++ (b, e) :: ps2)) as Hh1
    by (destruct Hh; by split).
  erewrite M_bind_ok by (by eapply run_search_found).
  destruct Hd2 as (Hb & Hn & _). unfold unlink. mrun. cbn [set_current current]. mrun.
  cbn [previous]. rewrite (proj2 (Z.eqb_neq a 0)) by done. cbn [negb].
  erewrite M_bind_fault; [done |]. unfold upd_node. by mstep.
Qed.
End remove.

(** * Programs on a list *)

Section programs.
Context `{Allocator list_entry_s}.
Implicit Types (ps : list (Z * Z)) (xs : list Z).

Fixpoint add_all (indet : Z) xs : M lstate unit :=
  match xs with
  | [] => mret tt
  | x :: xs => listAddEntry indet x;; add_all indet xs
  end.

(** [listFirstEntry] and then [n] times [listNextEntry]. *)
Definition traverse (n : nat) : M lstate (list Z) :=
  x ← listFirstEntry; xs ← next_entries n; mret (x :: xs).

Lemma add_all_spec indet xs : forall s ps,
  (forall h, malloc h <> 0) -> dlist s ps ->
  Z.of_nat (length ps + length xs) < 2 ^ 31 ->
  exists s' qs, add_all indet xs s = Ok (tt, s') /\ dlist s' (ps ++ qs) /\ qs.*2 = xs.
Proof.
  induction xs as [| x xs IH]; intros s ps Hm Hd Hlen; cbn [add_all].
  - exists s, []. by rewrite app_nil_r.
  - cbn in Hlen. destruct (listAddEntry_spec indet x s ps) as (s1 & Hrun & Hd1);
      [done | apply Hm | lia |].
    rewrite (M_bind_ok _ _ _ _ _ Hrun).
    edestruct (IH s1) as (s2 & qs & Hrun2 & Hd2 & Hq); [done | done | |].
    { rewrite length_app. cbn. lia. }
    exists s2, ((malloc (nodes s), x) :: qs). rewrite <- app_assoc in Hd2.
    split_and!; [done | done |]. cbn. by rewrite Hq.
Qed.

Lemma traverse_spec s a x ps :
  flist s ((a, x) :: ps) ->
  exists s', traverse (S (length ps)) s = Ok (x :: ps.*2 ++ [0], s') /\ at_cursor s 0 s'.
Proof.
  intros Hs. destruct (listFirstEntry_spec _ _ _ _ Hs) as (s1 & Hrun & l & Hl & ->).
  unfold traverse. rewrite (M_bind_ok _ _ _ _ _ Hrun).
  destruct Hs as (l' & Hl' & Hh & Hf). rewrite Hl in Hl'. injection Hl' as <-.
  assert (fseg (nodes s) (current (set_current a l)) ((a, x) :: ps) 0) as Hf'.
  { destruct Hf as [_ Hf]. by split. }
  erewrite M_bind_ok by (by eapply next_entries_spec).
  eexists. split; [done |]. by exists l.
Qed.
End programs.

(** * Properties *)

Section properties.
Context `{Allocator list_entry_s}.
Implicit Types (ps : list (Z * Z)) (xs : list Z).

(** C18: what is added is what is traversed, in order: on the list made by
    [listInit] and any sequence of [listAddEntry], [listFirstEntry] followed
    by [listNextEntry] yields the entries as they were added and then NULL,
    and [listEntries] is their number.  (Every allocation succeeds and the
    [int] counter does not overflow.) *)
Theorem list_roundtrip (indet x : Z) xs (s : lstate) :
  (forall h, malloc h <> 0) -> Z.of_nat (length (x :: xs)) < 2 ^ 31 ->
  exists s' s'',
    (listInit true;; add_all indet (x :: xs)) s = Ok (tt, s') /\
    traverse (length (x :: xs)) s' = Ok (x :: xs ++ [0], s'') /\
    listEntries s' = Ok (Z.of_nat (length (x :: xs)), s').
Proof.
  intros Hm Hlen.
  assert (dlist (Lstate (nodes s) (Valid (List 0 0 0 0))) []) as Hd.
  { eexists. split_and!; [done | | done]. split; try done. apply NoDup_nil_2. }
  destruct (add_all_spec indet (x :: xs) _ [] Hm Hd) as (s' & qs & Hrun & Hd' & Hq).
  { cbn [length] in *. lia. }
  destruct qs as [| [a y] qs]; [done |]. cbn in Hq. injection Hq as -> Hq.
  destruct (traverse_spec s' a x qs) as (s'' & Ht & _); [by apply dlist_flist |].
  subst xs. cbn [length] in *. rewrite length_fmap in *.
  exists s', s''. split_and!; [done | done |].
  destruct Hd' as (l & Hl & Hh & _). destruct s' as [h k]. cbn in Hl. subst k.
  unfold listEntries. mstep. by rewrite (header_entries _ _ Hh).
Qed.

(** [listAddEntry] appends: a well-formed doubly linked list stays one,
    with the new entry last, every other node in place, and the counter one
    up.  The result of [malloc] is not tested: when it is NULL the call
    dereferences it. *)
Theorem listAddEntry_appends (indet e : Z) (s : lstate) ps :
  dlist s ps -> Z.of_nat (length ps) < 2 ^ 31 - 1 ->
  if malloc (nodes s) =? 0 then listAddEntry indet e s = Fault NullDeref
  else exists s', listAddEntry indet e s = Ok (tt, s') /\
    dlist s' (ps ++ [(malloc (nodes s), e)]).
Proof.
  intros Hd Hlen. destruct (Z.eqb_spec (malloc (nodes s)) 0) as [H0 |].
  - unfold listAddEntry, new_node. mstep. by rewrite H0.
  - by apply listAddEntry_spec.
Qed.

(** C19: [listRemoveEntry] of an entry that is present takes the first node
    that holds it out of the list: the call returns 0, the traversal yields
    the other entries in order, the counter is one down and the node's
    storage is free.  When the node was the last one the list is again well
    formed in both directions. *)
Theorem listRemoveEntry_removes (e : Z) (s : lstate) ps1 a ps2 :
  dlist s (ps1 ++ (a, e) :: ps2) -> e ∉ ps1.*2 ->
  exists s', listRemoveEntry e s = Ok (0, s') /\ flist s' (ps1 ++ ps2) /\
    nodes s' !! a = None /\ (ps2 = [] -> dlist s' ps1).
Proof.
  intros Hd He. destruct (listRemoveEntry_hit _ _ _ _ _ Hd He) as (s' & Hrun & Hg).
  exists s'. split_and!; [done | by eapply dlist_gap_flist | |].
  - by destruct Hg as (? & _ & _ & _ & _ & _ & ?).
  - intros ->. by eapply dlist_gap_nil.
Qed.

(** [listRemoveEntry] of an entry that is absent returns -1 and moves
    only the cursor, which it leaves on the last node; on an empty list it
    dereferences NULL instead of answering, and so does [listFirstEntry]. *)
Theorem listRemoveEntry_absent (e : Z) (s : lstate) ps :
  flist s ps -> e ∉ ps.*2 ->
  if decide (ps = []) then
    listRemoveEntry e s = Fault NullDeref /\ listFirstEntry s = Fault NullDeref
  else exists s', listRemoveEntry e s = Ok (-1, s') /\ at_cursor s (last_addr 0 ps) s'.
Proof.
  intros Hf He. case_decide as Hps.
  - subst ps. split; [by apply listRemoveEntry_empty | by apply listFirstEntry_empty].
  - by apply listRemoveEntry_miss.
Qed.

(** C32: [listRemoveEntry] does not update the [previous] link of the node
    after the one it frees, so removing an entry and then the one that
    followed it accesses freed storage, wherever in the list the two are. *)
Theorem listRemoveEntry_successor (e f : Z) (s : lstate) ps1 a b ps2 :
  dlist s (ps1 ++ (a, e) :: (b, f) :: ps2) -> e ∉ ps1.*2 -> f ∉ ps1.*2 ->
  exists s', listRemoveEntry e s = Ok (0, s') /\
    listRemoveEntry f s' = Fault DanglingDeref.
Proof.
  intros Hd He Hf. destruct (listRemoveEntry_hit _ _ _ _ _ Hd He) as (s' & Hrun & Hg).
  exists s'. split; [done |]. by eapply listRemoveEntry_gap.
Qed.
End properties.

(** ** The properties at concrete lists *)

(** The list of 10, 20 and 30, built by the code. *)
Definition sample : lstate :=
  match (listInit true;; add_all 0 [10; 20; 30]) (Lstate ∅ Null) with
  | Ok (_, s) => s
  | _ => Lstate ∅ Null
  end.

Lemma least_allocator_succeeds (h : gmap Z list_entry_s) : malloc h <> 0.
Proof. cbn. pose proof (is_fresh ({[0]} ∪ dom h : gset Z)). set_solver. Qed.

Lemma sample_dlist : dlist sample [(1, 10); (2, 20); (3, 30)].
Proof.
  exists (List 1 3 0 3). split; [by vm_compute |]. split.
  - split; cbn; try done; try lia.
    apply (bool_decide_unpack _). by vm_compute.
  - cbn. split_and!; (done || by vm_compute).
Qed.

Lemma list_roundtrip_witness :
  exists s' s'',
    (listInit true;; add_all 0 [10; 20; 30]) (Lstate ∅ Null) = Ok (tt, s') /\
    traverse 3 s' = Ok ([10; 20; 30; 0], s'') /\ listEntries s' = Ok (3, s').
Proof.
  apply (list_roundtrip 0 10 [20; 30] (Lstate ∅ Null)).
  - apply least_allocator_succeeds.
  - cbn. lia.
Defined.

Lemma listAddEntry_appends_witness :
  dlist sample [(1, 10); (2, 20); (3, 30)] /\
    exists s', listAddEntry 0 40 sample = Ok (tt, s') /\
    dlist s' [(1, 10); (2, 20); (3, 30); (4, 40)].
Proof.
  split; [exact sample_dlist |].
  exact (listAddEntry_appends 0 40 sample _ sample_dlist eq_refl).
Defined.

Lemma listRemoveEntry_removes_witness :
  (20 ∉ [10]) /\
    exists s', listRemoveEntry 20 sample = Ok (0, s') /\ flist s' [(1, 10); (3, 30)] /\
    nodes s' !! 2 = None /\ ([(3, 30)] = [] -> dlist s' [(1, 10)]).
Proof.
  assert (20 ∉ [10]) as H by (apply (bool_decide_unpack _); by vm_compute). split; [exact H |].
  exact (listRemoveEntry_removes 20 sample [(1, 10)] 2 [(3, 30)] sample_dlist H).
Defined.

Lemma listRemoveEntry_absent_witness :
  (50 ∉ [10; 20; 30]) /\
    exists s', listRemoveEntry 50 sample = Ok (-1, s') /\ at_cursor sample 3 s'.
Proof.
  assert (50 ∉ [10; 20; 30]) as H by (apply (bool_decide_unpack _); by vm_compute). split; [exact H |].
  exact (listRemoveEntry_absent 50 sample _ (dlist_flist _ _ sample_dlist) H).
Defined.

Lemma listRemoveEntry_successor_witness :
  exists s', listRemoveEntry 20 sample = Ok (0, s') /\
    listRemoveEntry 30 s' = Fault DanglingDeref.
Proof.
  apply (listRemoveEntry_successor 20 30 sample [(1, 10)] 2 3 [] sample_dlist);
    apply (bool_decide_unpack _); by vm_compute.
Defined.
