(* ===== verification/SpeThread.v ===== *)
(** src/spethread.c and include/speutils/spethread.h: starting, running and
    stopping the host threads that run an SPE program.

    libspe2, pthreads, epoll and the pipe are not part of the repository: a
    call to them is appended to the log of the thread, and what it returns or
    stores is an arbitrary function of the log (class [Os]).  A theorem about
    the log therefore holds whatever the libraries do. *)
From stdpp Require Import base list relations.
From Stdlib Require Import ZArith Lia.
From S2P Require Import Prelude.
From S2P Require Import Messages.

(** * The outside *)

(** What pthread_create is asked to run. *)
Inductive routine := spu_thread_routine | spu_loop_thread_routine | fifothread_routine.

(** The calls, with the arguments the code passes. *)
Inductive call :=
| spe_context_create (flags : Z)
| spe_event_handler_create
| spe_event_handler_register (handler spe events : Z)
| spe_event_handler_deregister (handler spe events : Z)
| spe_event_handler_destroy (handler : Z)
| spe_context_destroy (ctx : Z)
| spe_program_load (ctx handle : Z)
| spe_context_run (ctx entry runflags argp envp : Z) (stop_info : bool)
| spe_out_mbox_read (ctx count : Z)
| pipe_create
| pthread_create (start : routine)
| pthread_join
| epoll_create (size : Z)
| epoll_ctl_add (epfd fd events : Z)
| epoll_wait (epfd maxevents : Z)
| read_int (fd : Z)
| write_int (fd value : Z)
| close_address   (* close(spu->pipe): the address of the array *)
| callback_call (value : Z)
| malloc_events
| spe_in_mbox_status (ctx : Z)
| spe_in_mbox_write (ctx message count behavior : Z)
| spe_event_wait (handler maxevents timeout : Z)
| spe_out_intr_mbox_read (ctx count behavior : Z).

(** What the calls return and store, as functions of the log that ends with
    the call, and the libraries' constants. *)
Class Os := {
  answer : list call -> Z;            (* the int or pointer returned *)
  pipe_fds : list call -> Z * Z;      (* the descriptors pipe() stores *)
  run_entry : list call -> Z;         (* the entry point spe_context_run stores *)
  run_stop : list call -> Z * Z;      (* stop reason and signal code it stores *)
  mbox_word : list call -> Z;         (* the int spe_out_mbox_read stores *)
  intr_word : list call -> Z;         (* the same of spe_out_intr_mbox_read *)
  pipe_word : list call -> option Z;  (* the int read() stores, if it stores one *)
  woken_by : list call -> Z;          (* the events spe_event_wait stores *)
  ready_fds : list call -> list Z;    (* data.fd of the events epoll_wait stores *)
  SPE_DEFAULT_ENTRY : Z; SPE_EVENTS_ENABLE : Z;
  SPE_EVENT_OUT_INTR_MBOX : Z; SPE_EVENT_SPE_STOPPED : Z;
  SPE_STOP_AND_SIGNAL : Z; SPE_MBOX_ANY_BLOCKING : Z;
  SPE_MBOX_ALL_BLOCKING : Z; SPE_MBOX_ANY_NONBLOCKING : Z;
  EPOLLIN : Z; EPOLLERR : Z
}.

(** * The code *)

(** [enum actions] and [enum thread_type]. *)
Definition THREAD_EXIT : Z := 0.
Definition THREAD_CONTINUE : Z := 1.
Definition THREAD_LOOP : Z := 0.
Definition THREAD_RUN : Z := 1.
Definition MAX_EVENTS : Z := 2.

(** [events]: a value nothing was assigned to, NULL, storage [malloc] gave, or
    storage that was freed. *)
Inductive events_ptr := Indeterminate | NoEvents | Allocated | Released.

Record spu_thread_s := Spu_thread {
  thread_id : Z; ctx : Z; createflags : Z; runflags : Z; entry : Z;
  stop_reason : Z; spe_signal_code : Z; handle : Z; argp : Z; envp : Z;
  event_spe : Z; event_events : Z; spe_event : Z; epfd : Z;
  events : events_ptr; pipe0 : Z; pipe1 : Z; type : Z; action : Z }.

Record tstate := Tstate { thread : spu_thread_s; calls : list call }.

Definition set_ctx v t :=
  Spu_thread (thread_id t) v (createflags t) (runflags t) (entry t)
    (stop_reason t) (spe_signal_code t) (handle t) (argp t) (envp t)
    (event_spe t) (event_events t) (spe_event t) (epfd t) (events t)
    (pipe0 t) (pipe1 t) (type t) (action t).
Definition set_thread_id v t :=
  Spu_thread v (ctx t) (createflags t) (runflags t) (entry t)
    (stop_reason t) (spe_signal_code t) (handle t) (argp t) (envp t)
    (event_spe t) (event_events t) (spe_event t) (epfd t) (events t)
    (pipe0 t) (pipe1 t) (type t) (action t).
Definition set_runflags v t :=
  Spu_thread (thread_id t) (ctx t) (createflags t) v (entry t)
    (stop_reason t) (spe_signal_code t) (handle t) (argp t) (envp t)
    (event_spe t) (event_events t) (spe_event t) (epfd t) (events t)
    (pipe0 t) (pipe1 t) (type t) (action t).
Definition set_createflags v t :=
  Spu_thread (thread_id t) (ctx t) v (runflags t) (entry t) (stop_reason t)
    (spe_signal_code t) (handle t) (argp t) (envp t) (event_spe t)
    (event_events t) (spe_event t) (epfd t) (events t) (pipe0 t) (pipe1 t)
    (type t) (action t).
Definition set_entry v t :=
  Spu_thread (thread_id t) (ctx t) (createflags t) (runflags t) v
    (stop_reason t) (spe_signal_code t) (handle t) (argp t) (envp t)
    (event_spe t) (event_events t) (spe_event t) (epfd t) (events t)
    (pipe0 t) (pipe1 t) (type t) (action t).
Definition set_spe_event v t :=
  Spu_thread (thread_id t) (ctx t) (createflags t) (runflags t) (entry t)
    (stop_reason t) (spe_signal_code t) (handle t) (argp t) (envp t)
    (event_spe t) (event_events t) v (epfd t) (events t) (pipe0 t) (pipe1 t)
    (type t) (action t).
Definition set_epfd v t :=
  Spu_thread (thread_id t) (ctx t) (createflags t) (runflags t) (entry t)
    (stop_reason t) (spe_signal_code t) (handle t) (argp t) (envp t)
    (event_spe t) (event_events t) (spe_event t) v (events t) (pipe0 t)
    (pipe1 t) (type t) (action t).
Definition set_events v t :=
  Spu_thread (thread_id t) (ctx t) (createflags t) (runflags t) (entry t)
    (stop_reason t) (spe_signal_code t) (handle t) (argp t) (envp t)
    (event_spe t) (event_events t) (spe_event t) (epfd t) v (pipe0 t)
    (pipe1 t) (type t) (action t).
Definition set_action v t :=
  Spu_thread (thread_id t) (ctx t) (createflags t) (runflags t) (entry t)
    (stop_reason t) (spe_signal_code t) (handle t) (argp t) (envp t)
    (event_spe t) (event_events t) (spe_event t) (epfd t) (events t)
    (pipe0 t) (pipe1 t) (type t) v.
Definition set_event v w t :=
  Spu_thread (thread_id t) (ctx t) (createflags t) (runflags t) (entry t)
    (stop_reason t) (spe_signal_code t) (handle t) (argp t) (envp t) v w
    (spe_event t) (epfd t) (events t) (pipe0 t) (pipe1 t) (type t)
    (action t).
Definition set_event_events v t :=
  Spu_thread (thread_id t) (ctx t) (createflags t) (runflags t) (entry t)
    (stop_reason t) (spe_signal_code t) (handle t) (argp t) (envp t)
    (event_spe t) v (spe_event t) (epfd t) (events t) (pipe0 t) (pipe1 t)
    (type t) (action t).
Definition set_pipe v w t :=
  Spu_thread (thread_id t) (ctx t) (createflags t) (runflags t) (entry t)
    (stop_reason t) (spe_signal_code t) (handle t) (argp t) (envp t)
    (event_spe t) (event_events t) (spe_event t) (epfd t) (events t) v w
    (type t) (action t).
Definition set_task ty arg env h t :=
  Spu_thread (thread_id t) (ctx t) (createflags t) (runflags t) (entry t)
    (stop_reason t) (spe_signal_code t) h arg env (event_spe t)
    (event_events t) (spe_event t) (epfd t) (events t) (pipe0 t) (pipe1 t)
    ty (action t).
Definition set_stop_info v w t :=
  Spu_thread (thread_id t) (ctx t) (createflags t) (runflags t) (entry t) v
    w (handle t) (argp t) (envp t) (event_spe t) (event_events t)
    (spe_event t) (epfd t) (events t) (pipe0 t) (pipe1 t) (type t)
    (action t).

Section code.
Context `{Os}.

Definition sys (c : call) : M tstate Z := fun s =>
  let l := calls s ++ [c] in Ok (answer l, Tstate (thread s) l).
Definition stored {A : Type} (f : list call -> A) : M tstate A :=
  gets (fun s => f (calls s)).
Definition field {A : Type} (f : spu_thread_s -> A) : M tstate A :=
  gets (fun s => f (thread s)).
Definition assign (f : spu_thread_s -> spu_thread_s) : M tstate unit :=
  modify (fun s => Tstate (f (thread s)) (calls s)).

Definition spu_thread_allocate (malloc_ok : bool) (indet : spu_thread_s) :
    ptr spu_thread_s :=
  if malloc_ok then Valid indet else Null.
Definition spu_thread_free (t : ptr spu_thread_s) : res (ptr spu_thread_s) := free t.

(** [spe_context_run(ctx, &spu->entry, runflags, argp, envp, info)], where
    [info] is [&spu->stop_info] or null. *)
Definition context_run (info : bool) : M tstate Z :=
  t ← field (fun t => t);
  r ← sys (spe_context_run (ctx t) (entry t) (runflags t) (argp t) (envp t) info);
  e ← stored run_entry; assign (set_entry e);;
  si ← stored run_stop;
  (if info then assign (set_stop_info si.1 si.2) else mret tt);;
  mret r.

(** Both thread functions leave through [pthread_exit(NULL)] on every path:
    returning from the model is that exit. *)
Definition spu_thread : M tstate unit :=
  c ← field ctx; h ← field handle;
  r ← sys (spe_program_load c h);
  if r <? 0 then mret tt else
  r ← context_run false;
  if r <? 0 then mret tt else mret tt.

(** [for (i = 0; i < res; i++)] over the events; answers whether the pipe was
    among them.  [n] more events are looked at from the [i]-th on. *)
Fixpoint scan_events (i : Z) (n : nat) : M tstate bool :=
  match n with
  | O => mret false
  | S n =>
      ev ← field events;
      fd ← (match ev with
            | Allocated => l ← stored ready_fds; lift (aget l i)
            | Released | Indeterminate => fail DanglingDeref
            | NoEvents => fail NullDeref
            end);
      p ← field pipe0;
      if fd =? p then
        _ ← sys (read_int p);
        w ← stored pipe_word;
        (match w with Some a => assign (set_action a) | None => mret tt end);;
        mret true
      else scan_events (i + 1) n
  end.

(** One round of [while (waiting)]. *)
Definition wait_round : M tstate (option unit) :=
  e ← field epfd;
  r ← sys (epoll_wait e MAX_EVENTS);
  found ← scan_events 0 (Z.to_nat r);
  mret (if found : bool then Some tt else None).

(** One round of [do ... while (1)] up to [while (waiting)]: the SPE runs until it
    stops, and a signal is reported; [Some tt] when the thread ends instead. *)
Definition report_stop : M tstate (option unit) :=
  r ← context_run true;
  if r <? 0 then mret (Some tt) else
  reason ← field stop_reason;
  if negb (reason =? SPE_STOP_AND_SIGNAL) then mret (Some tt) else
  code ← field spe_signal_code;
  (if negb (Z.land code READ_MBOX =? 0) then
     c ← field ctx;
     _ ← sys (spe_out_mbox_read c SPE_MBOX_ANY_BLOCKING);
     message ← stored mbox_word;
     sys (callback_call message)
   else sys (callback_call code));;
  mret None.

(** The whole round. *)
Definition run_round (fuel : nat) : M tstate (option unit) :=
  o ← report_stop;
  match o with
  | Some e => mret (Some e)
  | None =>
      loop fuel wait_round;;
      a ← field action;
      mret (if a =? THREAD_EXIT then Some tt else None)
  end.

(** Before the loop; [false] when the thread ends here. *)
Definition loop_start : M tstate bool :=
  e ← sys (epoll_create MAX_EVENTS);
  assign (set_epfd e);;
  m ← sys malloc_events;
  assign (set_events (if m =? 0 then NoEvents else Allocated));;
  e ← field epfd; p ← field pipe0;
  r ← sys (epoll_ctl_add e p (Z.lor EPOLLIN EPOLLERR));
  if r <? 0 then mret false else
  c ← field ctx; h ← field handle;
  r ← sys (spe_program_load c h);
  mret (negb (r <? 0)).

Definition spu_loop_thread (fuel : nat) : M tstate unit :=
  b ← loop_start;
  if b : bool then loop fuel (run_round fuel) else mret tt.

(** [return] or the end of the process. *)
Inductive outcome : Type := Return (value : Z) | Exit (status : Z).

Definition start_spu_thread : M tstate outcome :=
  assign (set_runflags 0);;
  assign (set_entry SPE_DEFAULT_ENTRY);;
  assign (set_createflags SPE_EVENTS_ENABLE);;
  f ← field createflags;
  c ← sys (spe_context_create f); assign (set_ctx c);;
  h ← sys spe_event_handler_create; assign (set_spe_event h);;
  c ← field ctx;
  assign (set_event c (Z.lor SPE_EVENT_OUT_INTR_MBOX SPE_EVENT_SPE_STOPPED));;
  t ← field (fun t => t);
  _ ← sys (spe_event_handler_register (spe_event t) (event_spe t) (event_events t));
  ty ← field type;
  (if ty =? THREAD_LOOP then
     _ ← sys pipe_create;
     fds ← stored pipe_fds; assign (set_pipe fds.1 fds.2);;
     i ← sys (pthread_create spu_loop_thread_routine); assign (set_thread_id i)
   else
     i ← sys (pthread_create spu_thread_routine); assign (set_thread_id i));;
  i ← field thread_id;
  mret (if negb (i =? 0) then Exit i else Return 0).

Definition stop_spu_thread : M tstate Z :=
  _ ← sys pthread_join;
  t ← field (fun t => t);
  _ ← sys (spe_event_handler_deregister (spe_event t) (event_spe t) (event_events t));
  _ ← sys (spe_event_handler_destroy (spe_event t));
  _ ← sys (spe_context_destroy (ctx t));
  (match events t with
   | Allocated => assign (set_events Released)
   | NoEvents => mret tt
   | Indeterminate | Released => fail InvalidFree
   end);;
  _ ← sys close_address;
  mret 0.

Definition send_action (action : Z) : M tstate unit :=
  fd ← field pipe1;
  _ ← sys (write_int fd action);
  mret tt.

(** spemessage.c.  [fuel] bounds the spinning on the mailbox status. *)
Definition status_round : M tstate (option unit) :=
  c ← field ctx;
  n ← sys (spe_in_mbox_status c);
  mret (if n =? 0 then None else Some tt).
Definition send_message (fuel : nat) (message : Z) : M tstate unit :=
  loop fuel status_round;;
  c ← field ctx;
  _ ← sys (spe_in_mbox_write c message 1 SPE_MBOX_ALL_BLOCKING);
  mret tt.

(** [while (retries)]; answers the retries left. *)
Fixpoint wait_mbox (retries : nat) : M tstate nat :=
  match retries with
  | O => mret O
  | S r =>
      h ← field spe_event;
      n ← sys (spe_event_wait h 1 (-1));
      ev ← stored woken_by; assign (set_event_events ev);;
      if (n <=? 0) || (Z.land ev SPE_EVENT_OUT_INTR_MBOX =? 0)
      then wait_mbox r else mret (S r)
  end.
Definition recieve_message_int : M tstate Z :=
  retries ← wait_mbox 10;
  match retries with
  | O => mret (s32 STOP)
  | S _ =>
      c ← field ctx;
      _ ← sys (spe_out_intr_mbox_read c 1 SPE_MBOX_ANY_NONBLOCKING);
      w ← stored intr_word;
      mret (s32 w)
  end.
End code.

(** * Lemmas *)

Section running.
Context `{Os}.
Implicit Types (s : tstate).

Definition log_call s (c : call) : tstate := Tstate (thread s) (calls s ++ [c]).
Definition with_thread s (f : spu_thread_s -> spu_thread_s) : tstate :=
  Tstate (f (thread s)) (calls s).

Lemma sys_run c s : sys c s = Ok (answer (calls s ++ [c]), log_call s c).
Proof. done. Qed.
Lemma stored_run {A : Type} (f : list call -> A) s : stored f s = Ok (f (calls s), s).
Proof. done. Qed.
Lemma field_run {A : Type} (f : spu_thread_s -> A) s : field f s = Ok (f (thread s), s).
Proof. done. Qed.
Lemma assign_run f s : assign f s = Ok (tt, with_thread s f).
Proof. done. Qed.
End running.

#[export] Hint Resolve sys_run stored_run field_run assign_run : run.

Section protocol.
Context `{Os}.
Implicit Types (s : tstate) (l : list call).

(** Where the loop thread is in its conversation with the library. *)
Inductive phase :=
| Fresh | Polling | Buffered | Watching   (* before the program is loaded *)
| Loaded | Ran | Mailed | Waiting | Answered.

Definition signalled l : bool := (run_stop l).1 =? SPE_STOP_AND_SIGNAL.
Definition by_mailbox l : bool := negb (Z.land (run_stop l).2 READ_MBOX =? 0).

(** The calls allowed after the log [l]. *)
Definition allowed l (p : phase) (c : call) : option phase :=
  match p, c with
  | Fresh, epoll_create _ => Some Polling
  | Polling, malloc_events => Some Buffered
  | Buffered, epoll_ctl_add _ _ _ => Some Watching
  | Watching, spe_program_load _ _ => if 0 <=? answer l then Some Loaded else None
  | Loaded, spe_context_run _ _ _ _ _ true =>
      if 0 <=? answer l then Some Ran else None
  | Answered, spe_context_run _ _ _ _ _ true =>
      if decide (pipe_word l = Some THREAD_EXIT) then None else Some Ran
  | Ran, spe_out_mbox_read _ _ =>
      if (0 <=? answer l) && signalled l && by_mailbox l then Some Mailed else None
  | Ran, callback_call v =>
      if (0 <=? answer l) && signalled l && negb (by_mailbox l)
         && (v =? (run_stop l).2) then Some Waiting else None
  | Mailed, callback_call v => if v =? mbox_word l then Some Waiting else None
  | Waiting, epoll_wait _ _ => Some Waiting
  | Waiting, read_int _ => Some Answered
  | _, _ => None
  end.
Fixpoint conversation l (p : phase) (cs : list call) : option phase :=
  match cs with
  | [] => Some p
  | c :: cs =>
      match allowed l p c with Some p => conversation (l ++ [c]) p cs | None => None end
  end.

Lemma conversation_snoc l p cs c p' p'' :
  conversation l p cs = Some p' -> allowed (l ++ cs) p' c = Some p'' ->
  conversation l p (cs ++ [c]) = Some p''.
Proof.
  revert l p. induction cs as [| d cs IH]; cbn; intros l p Hc Ha.
  - injection Hc as ->. rewrite app_nil_r in Ha. by rewrite Ha.
  - destruct (allowed l p d) as [q |]; [| done]. apply (IH (l ++ [d])); [done |].
    by rewrite <- app_assoc.
Qed.

(** The thread began with the log [l] and has followed the protocol to [p]. *)
Definition at_phase l s (p : phase) : Prop :=
  exists cs, calls s = l ++ cs /\ conversation l Fresh cs = Some p.

Lemma at_phase_call l s p p' c :
  at_phase l s p -> allowed (calls s) p c = Some p' -> at_phase l (log_call s c) p'.
Proof.
  intros (cs & Hl & Hp) Ha. exists (cs ++ [c]). cbn. rewrite Hl, app_assoc.
  split; [done |]. eapply conversation_snoc; [done |]. by rewrite <- Hl.
Qed.

Lemma at_phase_assign l s p f : at_phase l s p -> at_phase l (with_thread s f) p.
Proof. done. Qed.

(** What the pipe last said, if it said something, is in [action]. *)
Definition told s : Prop := forall a, pipe_word (calls s) = Some a -> action (thread s) = a.

Lemma scan_events_phase l n : forall i s b s',
  scan_events i n s = Ok (b, s') -> at_phase l s Waiting ->
  if b : bool then at_phase l s' Answered /\ told s' else at_phase l s' Waiting.
Proof.
  induction n as [| n IH]; intros i s b s' Hr Hp; cbn [scan_events] in Hr.
  { by injection Hr as <- <-. }
  mrun_in Hr. destruct (events (thread s)) eqn:He; mrun_in Hr; try done.
  apply M_bind_inv in Hr as (fd & s1 & Hfd & Hr).
  unfold lift in Hfd. destruct (aget _ i) as [v | |]; [| done..].
  injection Hfd as <- <-. mrun_in Hr. case_match; [| by eapply IH].
  mrun_in Hr. apply M_bind_inv in Hr as ([] & s2 & Hw & Hr).
  injection Hr as <- <-.
  assert (at_phase l (log_call s (read_int (pipe0 (thread s)))) Answered) as Ha
    by (by eapply at_phase_call).
  cbn [calls log_call] in Hw. destruct (pipe_word _) as [a |] eqn:Hpw.
  - rewrite assign_run in Hw. injection Hw as <-. split; [done |].
    intros a'. cbn. rewrite Hpw. by intros [= <-].
  - injection Hw as <-. split; [done |]. intros a'. cbn. by rewrite Hpw.
Qed.

Lemma wait_phase l fuel : forall s u s',
  loop fuel wait_round s = Ok (u, s') -> at_phase l s Waiting ->
  at_phase l s' Answered /\ told s'.
Proof.
  induction fuel as [| fuel IH]; intros s u s' Hr Hp; cbn [loop] in Hr; [done |].
  destruct (wait_round s) as [[o s1] | |] eqn:Hw; [| done..].
  unfold wait_round in Hw. mrun_in Hw.
  apply M_bind_inv in Hw as (b & s2 & Hs & Hw).
  apply (scan_events_phase l) in Hs; [| by eapply at_phase_call].
  injection Hw as <- <-. destruct b.
  - by injection Hr as <- <-.
  - by eapply IH.
Qed.
End protocol.

Section rounds.
Context `{Os}.
Implicit Types (s : tstate) (l : list call).

Definition run_call s (info : bool) : call :=
  let t := thread s in
  spe_context_run (ctx t) (entry t) (runflags t) (argp t) (envp t) info.

Lemma context_run_run info s :
  context_run info s =
  Ok (answer (calls s ++ [run_call s info]),
      with_thread (log_call s (run_call s info)) (fun t =>
        let t := set_entry (run_entry (calls s ++ [run_call s info])) t in
        if info then set_stop_info (run_stop (calls s ++ [run_call s info])).1
                       (run_stop (calls s ++ [run_call s info])).2 t else t)).
Proof. unfold context_run. mrun. by destruct info. Qed.
End rounds.
#[export] Hint Resolve context_run_run : run.

Section rounds.
Context `{Os}.
Implicit Types (s : tstate) (l : list call).

(** A thread about to run the SPE. *)
Definition runnable l s : Prop :=
  (at_phase l s Loaded /\ 0 <= answer (calls s)) \/
  (at_phase l s Answered /\ told s /\ action (thread s) <> THREAD_EXIT).

Lemma runnable_run l s :
  runnable l s -> at_phase l (log_call s (run_call s true)) Ran.
Proof.
  intros [[Hp Ha] | (Hp & Ht & Hne)]; (eapply at_phase_call; [done |]); cbn.
  - destruct (Z.leb_spec 0 (answer (calls s))); [done | lia].
  - case_decide as Hd; [| done]. by destruct Hne; apply Ht.
Qed.

(** A run of the SPE that ended with a signal. *)
Definition stopped_ok (l : list call) : bool := (0 <=? answer l) && signalled l.

(** Where a thread that ends may be: nothing is left to report, and it was not
    told to go on. *)
Definition ended (l : list call) (p : phase) : Prop :=
  match p with
  | Watching | Loaded => answer l < 0
  | Ran => stopped_ok l = false
  | Answered => forall a, pipe_word l = Some a -> a = THREAD_EXIT
  | _ => False
  end.
Definition at_end l s : Prop := exists p, at_phase l s p /\ ended (calls s) p.

Lemma report_stop_phase l s o s' :
  report_stop s = Ok (o, s') -> runnable l s ->
  match o with None => at_phase l s' Waiting | Some _ => at_end l s' end.
Proof.
  intros Hr Hp%runnable_run. unfold report_stop in Hr. mrun_in Hr.
  set (c := run_call s true) in *. set (l1 := calls s ++ [c]) in *.
  destruct (Z.ltb_spec (answer l1) 0) as [Hneg | Hpos].
  { injection Hr as <- <-. exists Ran. split; [exact Hp |]. cbn. fold l1. unfold stopped_ok.
    by rewrite (proj2 (Z.leb_gt _ _)). }
  mrun_in Hr. cbn [thread with_thread log_call stop_reason set_stop_info] in Hr.
  destruct (Z.eqb_spec (run_stop l1).1 SPE_STOP_AND_SIGNAL) as [Hsig | Hsig]; cbn [negb] in Hr.
  2: { injection Hr as <- <-. exists Ran. split; [exact Hp |]. cbn. fold l1.
    unfold stopped_ok, signalled. rewrite (proj2 (Z.eqb_neq _ _)) by done. apply andb_false_r. }
  mrun_in Hr. cbn [thread with_thread log_call spe_signal_code set_stop_info] in Hr.
  assert (((0 <=? answer l1) && signalled l1)%bool = true) as Hok.
  { unfold signalled. rewrite Hsig, Z.eqb_refl.
    destruct (Z.leb_spec 0 (answer l1)); [done | lia]. }
  apply M_bind_inv in Hr as (u & s1 & Hcb & Hr). injection Hr as <- <-.
  destruct (Z.land _ _ =? 0) eqn:Hm; cbn [negb] in Hcb; mrun_in Hcb;
    rewrite sys_run in Hcb; injection Hcb as _ <-.
  - eapply at_phase_call; [exact (at_phase_assign l _ _ _ Hp) |].
    cbn [allowed calls with_thread log_call]. fold l1. rewrite Hok. unfold by_mailbox.
    cbn in Hm. fold l1 in Hm. by rewrite Hm, Z.eqb_refl.
  - eapply at_phase_call; [eapply at_phase_call; [exact (at_phase_assign l _ _ _ Hp) |] |].
    + cbn [allowed calls with_thread log_call]. fold l1. rewrite Hok. unfold by_mailbox.
      cbn in Hm. fold l1 in Hm. by rewrite Hm.
    + cbn [allowed calls with_thread log_call]. by rewrite Z.eqb_refl.
Qed.

Lemma run_round_phase l fuel s o s' :
  run_round fuel s = Ok (o, s') -> runnable l s ->
  match o with None => runnable l s' | Some _ => at_end l s' end.
Proof.
  intros Hr Hp. unfold run_round in Hr. apply M_bind_inv in Hr as (o1 & s1 & Hst & Hr).
  apply (report_stop_phase l) in Hst; [| done]. destruct o1 as [e |].
  { by injection Hr as <- <-. }
  apply M_bind_inv in Hr as ([] & s2 & Hl & Hr).
  apply (wait_phase l) in Hl as [Ha Ht]; [| done]. mrun_in Hr.
  injection Hr as <- <-. destruct (Z.eqb_spec (action (thread s2)) THREAD_EXIT) as [He | He].
  - exists Answered. split; [done |]. intros a Hw. by rewrite <- He, <- (Ht a Hw).
  - right. by split_and!.
Qed.

Lemma loop_phase l fuel fuel' : forall s u s',
  loop fuel' (run_round fuel) s = Ok (u, s') -> runnable l s -> at_end l s'.
Proof.
  induction fuel' as [| fuel' IH]; intros s u s' Hr Hp; cbn [loop] in Hr; [done |].
  destruct (run_round fuel s) as [[o s1] | |] eqn:Hw; [| done..].
  apply (run_round_phase l) in Hw; [| done]. destruct o as [[] |].
  - by injection Hr as <- <-.
  - by eapply IH.
Qed.

Lemma loop_start_phase s b s' :
  loop_start s = Ok (b, s') ->
  if b : bool then runnable (calls s) s' else at_end (calls s) s'.
Proof.
  intros Hr. unfold loop_start in Hr. mrun_in Hr.
  set (s1 := with_thread _ _) in Hr. set (c1 := epoll_ctl_add _ _ _) in Hr.
  assert (at_phase (calls s) (log_call s1 c1) Watching) as Hw.
  { eexists [_; _; _]. cbn. by rewrite <- !app_assoc. }
  destruct (Z.ltb_spec (answer (calls s1 ++ [c1])) 0) as [| Ha];
    [injection Hr as <- <-; by exists Watching |].
  mrun_in Hr. set (c2 := spe_program_load _ _) in Hr.
  assert (at_phase (calls s) (log_call (log_call s1 c1) c2) Loaded) as Hl.
  { eapply at_phase_call; [done |]. cbn [allowed c2 calls log_call].
    by rewrite (proj2 (Z.leb_le _ _) Ha). }
  destruct (Z.ltb_spec (answer (calls (log_call s1 c1) ++ [c2])) 0); injection Hr as <- <-.
  - by exists Loaded.
  - by left.
Qed.

(** ** Every signal is reported *)

(** How many runs of the SPE ended with a signal, and how many times the callback
    was called, in the calls [cs] after the log [l]. *)
Definition is_signal l (c : call) : nat :=
  match c with spe_context_run _ _ _ _ _ _ => if stopped_ok (l ++ [c]) then 1 else 0 | _ => 0 end.
Definition is_callback (c : call) : nat := match c with callback_call _ => 1 | _ => 0 end.
Fixpoint signals l cs : nat :=
  match cs with [] => 0 | c :: cs => is_signal l c + signals (l ++ [c]) cs end.
Fixpoint callbacks (cs : list call) : nat :=
  match cs with [] => 0 | c :: cs => is_callback c + callbacks cs end.
(** A signal that is still to be reported. *)
Definition owed l (p : phase) : nat :=
  match p with Ran => if stopped_ok l then 1 else 0 | Mailed => 1 | _ => 0 end.

Lemma allowed_owed l p c p' :
  allowed l p c = Some p' -> (is_signal l c + owed l p = is_callback c + owed (l ++ [c]) p')%nat.
Proof.
  intros Ha. destruct p, c; try discriminate Ha; cbn in Ha; try (injection Ha as <-; cbn; lia).
  - by destruct (0 <=? answer l); simplify_eq.
  - destruct stop_info; [| done]. destruct (0 <=? answer l); simplify_eq. cbn. lia.
  - unfold owed, stopped_ok. by destruct (0 <=? answer l), (signalled l), (by_mailbox l); cbn in Ha; simplify_eq.
  - unfold owed, stopped_ok.
    destruct (0 <=? answer l), (signalled l), (negb (by_mailbox l)); try discriminate Ha.
    cbn in Ha. by destruct (value =? _); simplify_eq.
  - by destruct (value =? _); simplify_eq.
  - destruct stop_info; [| done]. case_decide; simplify_eq. cbn. lia.
Qed.

Lemma conversation_owed cs : forall l p p',
  conversation l p cs = Some p' ->
  (signals l cs + owed l p = callbacks cs + owed (l ++ cs) p')%nat.
Proof.
  induction cs as [| c cs IH]; intros l p p' Hc; cbn in *.
  { injection Hc as ->. by rewrite app_nil_r. }
  destruct (allowed l p c) as [q |] eqn:Ha; [| done]. apply IH in Hc. apply allowed_owed in Ha.
  rewrite <- app_assoc in Hc. cbn in Hc. lia.
Qed.

(** The calls [cs], after which every signal has been reported. *)
Definition reported l s (P : phase -> Prop) : Prop := exists cs p, calls s = l ++ cs /\
  conversation l Fresh cs = Some p /\ P p /\ signals l cs = callbacks cs.

Lemma at_phase_reported l s p (P : phase -> Prop) :
  at_phase l s p -> owed (calls s) p = O -> P p -> reported l s P.
Proof.
  intros (cs & Hl & Hc) Ho HP. exists cs, p. split_and!; try done.
  apply conversation_owed in Hc. rewrite <- Hl, Ho in Hc. cbn in Hc. lia.
Qed.

Lemma at_end_reported l s : at_end l s -> reported l s (ended (calls s)).
Proof.
  intros (p & Hp & He). eapply at_phase_reported; [done | | done].
  destruct p; cbn in *; try done. by rewrite He.
Qed.

Lemma runnable_reported l s :
  runnable l s -> reported l s (fun p => p = Loaded \/ p = Answered).
Proof.
  intros [[Hp _] | [Hp _]]; eapply at_phase_reported; (done || by auto).
Qed.

(** ** The states between *)

(** The thread, begun in [s], is about to run the SPE. *)
Inductive about_to_run (fuel : nat) s : tstate -> Prop :=
| about_start s1 : loop_start s = Ok (true, s1) -> about_to_run fuel s s1
| about_again s1 s2 : about_to_run fuel s s1 -> run_round fuel s1 = Ok (None, s2) ->
    about_to_run fuel s s2.
(** It reported a signal and has waited for some rounds. *)
Definition is_waiting (fuel : nat) s s' : Prop := exists s1 s2,
  about_to_run fuel s s1 /\ report_stop s1 = Ok (None, s2) /\
  rtc (fun a b => wait_round a = Ok (None, b)) s2 s'.

Lemma about_to_run_runnable fuel s s' : about_to_run fuel s s' -> runnable (calls s) s'.
Proof.
  induction 1 as [s1 Hr | s1 s2 _ IH Hr].
  - by apply loop_start_phase in Hr.
  - by apply (run_round_phase (calls s)) in Hr.
Qed.

Lemma wait_round_phase l s s' :
  wait_round s = Ok (None, s') -> at_phase l s Waiting -> at_phase l s' Waiting.
Proof.
  intros Hw Hp. unfold wait_round in Hw. mrun_in Hw.
  apply M_bind_inv in Hw as (b & s2 & Hs & Hw).
  apply (scan_events_phase l) in Hs; [| by eapply at_phase_call].
  injection Hw as Hb <-. by destruct b.
Qed.

Lemma is_waiting_phase fuel s s' : is_waiting fuel s s' -> at_phase (calls s) s' Waiting.
Proof.
  intros (s1 & s2 & Hrun%about_to_run_runnable & Hst & Hw).
  apply (report_stop_phase (calls s)) in Hst; [| done].
  induction Hw as [| a b c Hab _ IH]; [done |]. apply IH. by eapply wait_round_phase.
Qed.

(** A loop without enough fuel made all its rounds, or was in one that had not. *)
Lemma loop_unfinished {S A : Type} (body : M S (option A)) k : forall x : S,
  loop k body x = OutOfFuel ->
  (exists y, nsteps (fun a b => body a = Ok (None, b)) k x y) \/
  exists y, rtc (fun a b => body a = Ok (None, b)) x y /\ body y = OutOfFuel.
Proof.
  induction k as [| k IH]; intros x Hr; cbn [loop] in Hr.
  { left. exists x. apply nsteps_O. }
  destruct (body x) as [[[a |] x1] | |] eqn:Hb; [done | | done | by eauto using rtc_refl].
  destruct (IH x1 Hr) as [[y Hy] | (y & Hy & Ho)]; [left | right]; exists y.
  - by eapply nsteps_l.
  - split; [by eapply rtc_l | done].
Qed.

Lemma about_to_run_rtc fuel s s1 s2 :
  about_to_run fuel s s1 -> rtc (fun a b => run_round fuel a = Ok (None, b)) s1 s2 ->
  about_to_run fuel s s2.
Proof. intros H1 H2. induction H2; [done |]. eauto using about_again. Qed.

(** Nothing but the two loops can take for ever. *)
Lemma loop_start_ends s : loop_start s <> OutOfFuel.
Proof.
  unfold loop_start. intros Hr. mrun_in Hr. destruct (_ <? 0); [done |]. mrun_in Hr. done.
Qed.
Lemma report_stop_ends s : report_stop s <> OutOfFuel.
Proof.
  unfold report_stop. intros Hr. mrun_in Hr. destruct (_ <? 0); [done |]. mrun_in Hr.
  destruct (negb _); [done |]. mrun_in Hr. destruct (negb _); mrun_in Hr; done.
Qed.
Lemma scan_events_ends n : forall i s, scan_events i n s <> OutOfFuel.
Proof.
  induction n as [| n IH]; intros i s Hr; cbn [scan_events] in Hr; [done |].
  mrun_in Hr. destruct (events (thread s)); mrun_in Hr; try done.
  unfold mbind at 1, M_bind at 1, lift in Hr. unfold aget in Hr.
  destruct (i <? 0); [done |]. destruct (ready_fds (calls s) !! Z.to_nat i) as [fd |]; [| done].
  mrun_in Hr. destruct (fd =? _); [| by eapply IH]. mrun_in Hr. by destruct (pipe_word _).
Qed.
Lemma wait_round_ends s : wait_round s <> OutOfFuel.
Proof.
  unfold wait_round. intros Hr. mrun_in Hr. unfold mbind at 1, M_bind at 1 in Hr.
  destruct (scan_events _ _ _) as [[b s1] | |] eqn:Hs; [done | done |]. by eapply scan_events_ends.
Qed.

Lemma run_round_unfinished fuel s :
  run_round fuel s = OutOfFuel -> exists s1 s2, report_stop s = Ok (None, s1) /\
    nsteps (fun a b => wait_round a = Ok (None, b)) fuel s1 s2.
Proof.
  intros Hr. unfold run_round, mbind, M_bind in Hr.
  destruct (report_stop s) as [[[e |] s1] | |] eqn:Hst; [done | | done | by apply report_stop_ends in Hst].
  destruct (loop fuel wait_round s1) as [[[] s2] | |] eqn:Hl; [done | done |].
  destruct (loop_unfinished wait_round fuel s1 Hl) as [[s2 Hs2] | (s2 & _ & Ho)]; [by eauto |].
  by apply wait_round_ends in Ho.
Qed.

(** A run that does not return goes on for as long as one likes. *)
Lemma spu_loop_thread_unfinished fuel s :
  spu_loop_thread fuel s = OutOfFuel ->
  (exists s1 s2, loop_start s = Ok (true, s1) /\
     nsteps (fun a b => run_round fuel a = Ok (None, b)) fuel s1 s2 /\ about_to_run fuel s s2) \/
  exists s1 s2 s3, about_to_run fuel s s1 /\ report_stop s1 = Ok (None, s2) /\
    nsteps (fun a b => wait_round a = Ok (None, b)) fuel s2 s3 /\ is_waiting fuel s s3.
Proof.
  intros Hr. unfold spu_loop_thread, mbind, M_bind in Hr.
  destruct (loop_start s) as [[b s1] | |] eqn:Hst; [| done | by apply loop_start_ends in Hst].
  destruct b; [| done].
  destruct (loop_unfinished (run_round fuel) fuel s1 Hr) as [[s2 Hs2] | (s2 & Hs2 & Ho)].
  - left. exists s1, s2. split_and!; [done | done |].
    eapply about_to_run_rtc; [by apply about_start |]. by eapply rtc_nsteps_2.
  - right. destruct (run_round_unfinished fuel s2 Ho) as (s3 & s4 & Hrep & Hw).
    assert (about_to_run fuel s s2) as Ha by (eapply about_to_run_rtc; [by apply about_start | done]).
    exists s2, s3, s4. split_and!; try done. exists s2, s3. split_and!; try done.
    by eapply rtc_nsteps_2.
Qed.
(** ** Faults *)

(** The event buffer is what [malloc] gave. *)
Definition buffered s : Prop := events (thread s) = NoEvents \/ events (thread s) = Allocated.

Lemma keeps_sys c : keeps buffered (sys c).
Proof. by intros s a s' [= <- <-]. Qed.
Lemma keeps_stored {A : Type} (f : list call -> A) : keeps buffered (stored f).
Proof. apply keeps_gets. Qed.
Lemma keeps_field {A : Type} (f : spu_thread_s -> A) : keeps buffered (field f).
Proof. apply keeps_gets. Qed.
Lemma keeps_assign f : (forall t, events (f t) = events t) -> keeps buffered (assign f).
Proof. intros Hf s a s' [= <- <-]. unfold buffered. cbn. by rewrite Hf. Qed.
Hint Resolve keeps_sys keeps_stored keeps_field : keeps.
Hint Extern 1 (keeps buffered (assign _)) => apply keeps_assign; done : keeps.

Lemma keeps_scan n : forall i, keeps buffered (scan_events i n).
Proof.
  induction n as [| n IH]; intros i; cbn [scan_events]; [eauto with keeps |].
  apply keeps_bind; [eauto with keeps |]. intros ev.
  apply keeps_bind; [destruct ev; eauto with keeps |]. intros fd.
  apply keeps_bind; [eauto with keeps |]. intros p. destruct (fd =? p); [| apply IH].
  apply keeps_bind; [eauto with keeps |]. intros _. apply keeps_bind; [eauto with keeps |].
  intros [a |]; eauto 10 with keeps.
Qed.
Hint Resolve keeps_scan : keeps.
Lemma keeps_wait : keeps buffered wait_round.
Proof. unfold wait_round. eauto 10 with keeps. Qed.
Hint Resolve keeps_wait : keeps.
Lemma keeps_report : keeps buffered report_stop.
Proof.
  unfold report_stop, context_run. apply keeps_bind.
  { apply keeps_bind; [eauto with keeps |]. intros t. apply keeps_bind; [eauto with keeps |].
    intros r. apply keeps_bind; [eauto with keeps |]. intros e.
    apply keeps_bind; [eauto with keeps |]. intros _. eauto 10 with keeps. }
  intros r. destruct (r <? 0); [eauto with keeps |]. apply keeps_bind; [eauto with keeps |].
  intros q. destruct (negb _); [eauto with keeps |]. apply keeps_bind; [eauto with keeps |].
  intros code. apply keeps_bind; [| eauto with keeps]. destruct (negb _); eauto 20 with keeps.
Qed.
Lemma keeps_round fuel : keeps buffered (run_round fuel).
Proof.
  unfold run_round. apply keeps_bind; [apply keeps_report |]. intros [e |]; eauto 10 with keeps.
Qed.

Definition buffer_fault (f : fault) : Prop := f = NullDeref \/ f = OutOfBounds.

Lemma scan_events_fault n : forall i s f,
  scan_events i n s = Fault f -> buffered s -> buffer_fault f.
Proof.
  induction n as [| n IH]; intros i s f Hr Hb; cbn [scan_events] in Hr; [done |].
  mrun_in Hr. destruct Hb as [He | He]; rewrite He in Hr; mrun_in Hr.
  { unfold mbind, M_bind, fail in Hr. injection Hr as <-. by left. }
  unfold mbind at 1, M_bind at 1, lift, aget in Hr.
  destruct (i <? 0); [injection Hr as <-; by right |].
  destruct (ready_fds (calls s) !! Z.to_nat i) as [fd |]; [| injection Hr as <-; by right].
  mrun_in Hr. destruct (fd =? _); [| eapply IH; [exact Hr | by right]].
  mrun_in Hr. by destruct (pipe_word _).
Qed.

Lemma loop_fault {A : Type} (body : M tstate (option A)) k : forall s f,
  keeps buffered body -> (forall s f, body s = Fault f -> buffered s -> buffer_fault f) ->
  loop k body s = Fault f -> buffered s -> buffer_fault f.
Proof.
  induction k as [| k IH]; intros s f Hk Hf Hr Hb; cbn [loop] in Hr; [done |].
  destruct (body s) as [[[a |] s1] | f1 |] eqn:Hs; [done | | | done].
  - eapply IH; try done. by eapply Hk.
  - injection Hr as <-. by eapply Hf.
Qed.

Lemma wait_round_fault s f : wait_round s = Fault f -> buffered s -> buffer_fault f.
Proof.
  intros Hr Hb. unfold wait_round in Hr. mrun_in Hr. unfold mbind at 1, M_bind at 1 in Hr.
  destruct (scan_events _ _ _) as [[b s1] | f1 |] eqn:Hs; [done | | done].
  injection Hr as <-. by eapply scan_events_fault.
Qed.

Lemma run_round_fault fuel s f : run_round fuel s = Fault f -> buffered s -> buffer_fault f.
Proof.
  intros Hr Hb. unfold run_round, mbind at 1, M_bind at 1 in Hr.
  destruct (report_stop s) as [[[e |] s1] | f1 |] eqn:Hst; [done | | | done].
  - unfold mbind at 1, M_bind at 1 in Hr.
    destruct (loop fuel wait_round s1) as [[[] s2] | f2 |] eqn:Hl; [done | | done].
    injection Hr as <-. eapply (loop_fault wait_round); [apply keeps_wait | apply wait_round_fault | exact Hl |].
    by eapply keeps_report.
  - exfalso. unfold report_stop in Hst. mrun_in Hst. destruct (_ <? 0); [done |]. mrun_in Hst.
    destruct (negb _); [done |]. mrun_in Hst. destruct (negb _); mrun_in Hst; done.
Qed.

Lemma spu_loop_thread_fault fuel s f : spu_loop_thread fuel s = Fault f -> buffer_fault f.
Proof.
  intros Hr. unfold spu_loop_thread, mbind at 1, M_bind at 1 in Hr.
  destruct (loop_start s) as [[b s1] | f1 |] eqn:Hst; [| | done].
  - destruct b; [| done]. eapply (loop_fault (run_round fuel));
      [apply keeps_round | apply run_round_fault | exact Hr |].
    unfold loop_start in Hst. mrun_in Hst. destruct (_ <? 0); [done |]. mrun_in Hst.
    injection Hst as _ <-. unfold buffered. cbn. destruct (_ =? 0); by auto.
  - exfalso. unfold loop_start in Hst. mrun_in Hst. destruct (_ <? 0); [done |]. by mrun_in Hst.
Qed.
End rounds.

(** ** Termination of the loop thread *)

Fixpoint reads (l : list call) : nat :=
  match l with
  | [] => O
  | read_int _ :: l => S (reads l)
  | _ :: l => reads l
  end.

Lemma reads_app l l' : reads (l ++ l') = (reads l + reads l')%nat.
Proof. induction l as [| [] l IH]; cbn; rewrite ?IH; done. Qed.

Section termination.
Context `{Os} (fd : Z) (n : nat).
Implicit Types (s : tstate) (l : list call).

(** Someone writes to the pipe whenever the thread waits for it, and writes
    THREAD_EXIT from the [n]-th time on. *)
Definition wakes : Prop := forall l e m,
  answer (l ++ [epoll_wait e m]) = 1 /\ ready_fds (l ++ [epoll_wait e m]) = [fd].
Definition exits : Prop := forall l p,
  (n <= reads l)%nat -> pipe_word (l ++ [read_int p]) = Some THREAD_EXIT.

Definition listening s : Prop :=
  events (thread s) = Allocated /\ pipe0 (thread s) = fd.

Context (Hwakes : wakes) (Hexits : exits).

Lemma wait_round_wakes s :
  listening s ->
  exists s', wait_round s = Ok (Some tt, s') /\ listening s' /\
    reads (calls s') = S (reads (calls s)) /\
    ((n <= reads (calls s))%nat -> action (thread s') = THREAD_EXIT).
Proof.
  intros [He Hfd]. unfold wait_round. mrun.
  destruct (Hwakes (calls s) (epfd (thread s)) MAX_EVENTS) as [Ha Hready].
  rewrite Ha. change (Z.to_nat 1) with 1%nat. cbn [scan_events].
  mrun. cbn [thread log_call]. rewrite He. mrun. cbn [calls log_call].
  rewrite Hready. change (aget [fd] 0) with (@Ok Z fd). mrun. cbn [thread log_call]. rewrite Hfd, Z.eqb_refl. mrun. cbn [calls log_call].
  destruct (pipe_word _) as [a |] eqn:Hpw; mrun;
    (eexists; split; [reflexivity |]; split; [done |]);
    cbn [calls log_call with_thread thread action set_action];
    (split; [rewrite !reads_app; cbn; lia |]); intros Hn;
    rewrite Hexits in Hpw by (rewrite reads_app; lia); congruence.
Qed.

Lemma report_stop_returns s :
  listening s -> exists o s', report_stop s = Ok (o, s') /\ listening s' /\
    reads (calls s') = reads (calls s).
Proof.
  intros Hl. unfold report_stop. mrun.
  set (l1 := calls s ++ [run_call s true]).
  assert (reads l1 = reads (calls s)) as Hl1 by (unfold l1; rewrite reads_app; cbn; lia).
  destruct (answer l1 <? 0); [by eexists _, _ |]. mrun.
  destruct (negb _); [by eexists _, _ |]. mrun.
  destruct (negb _); mrun; (eexists _, _; split; [reflexivity |]; split; [done |]);
    cbn [calls log_call with_thread]; fold l1; rewrite !reads_app, Hl1; cbn; lia.
Qed.

Lemma run_round_returns fuel s :
  listening s ->
  exists o s', run_round (S fuel) s = Ok (o, s') /\
    listening s' /\
    (o = None -> (n - reads (calls s') < n - reads (calls s))%nat).
Proof.
  intros Hl. unfold run_round. destruct (report_stop_returns s Hl) as (o & s2 & Hst & Hl2 & Hr2).
  erewrite M_bind_ok by exact Hst. destruct o as [e |]; [by exists (Some e), s2 |]. cbn [loop].
  destruct (wait_round_wakes s2 Hl2) as (s3 & Hw & Hl3 & Hr3 & Hx).
  unfold mbind at 1, M_bind at 1. rewrite Hw. mrun.
  eexists _, s3. split; [reflexivity |]. split; [done |].
  destruct (Z.eqb_spec (action (thread s3)) THREAD_EXIT); [done |]. intros _.
  rewrite Hr3, Hr2 in *.
  destruct (decide (n <= reads (calls s))%nat); [by destruct n0; apply Hx | lia].
Qed.

Lemma run_loop_returns fuel s :
  listening s -> (n - reads (calls s) < fuel)%nat ->
  exists s', loop fuel (run_round fuel) s = Ok (tt, s') /\ listening s'.
Proof.
  intros Hl Hf. destruct fuel as [| fuel]; [lia |].
  destruct (loop_measure (run_round (S fuel)) listening (fun _ => listening)
    (fun s => n - reads (calls s))%nat) with (fuel := S fuel) (s := s)
    as ([] & s' & Hs & ?); [| done | done | by eauto].
  intros t Ht. destruct (run_round_returns fuel t Ht) as (o & t' & Hr & Hl' & Ho).
  exists o, t'. split; [done |]. destruct o; [done |]. split; [done | by apply Ho].
Qed.
End termination.

(** ** Single calls *)

Section calls.
Context `{Os}.
Implicit Types (s : tstate).

(** What [start_spu_thread] asks of the libraries, after the log [l]. *)
Definition start_calls (l : list call) (ty : Z) : list call :=
  let l1 := l ++ [spe_context_create SPE_EVENTS_ENABLE] in
  let l2 := l1 ++ [spe_event_handler_create] in
  [spe_context_create SPE_EVENTS_ENABLE; spe_event_handler_create;
   spe_event_handler_register (answer l2) (answer l1)
     (Z.lor SPE_EVENT_OUT_INTR_MBOX SPE_EVENT_SPE_STOPPED)] ++
  (if ty =? THREAD_LOOP then [pipe_create; pthread_create spu_loop_thread_routine]
   else [pthread_create spu_thread_routine]).

Lemma start_spu_thread_run s :
  exists s', start_spu_thread s =
    Ok (if negb (answer (calls s') =? 0) then Exit (answer (calls s')) else Return 0, s') /\
  calls s' = calls s ++ start_calls (calls s) (type (thread s)) /\
  thread_id (thread s') = answer (calls s') /\
  events (thread s') = events (thread s) /\
  (type (thread s') = type (thread s) /\ argp (thread s') = argp (thread s) /\
   envp (thread s') = envp (thread s) /\ handle (thread s') = handle (thread s)) /\
  (type (thread s) = THREAD_LOOP -> exists l, (pipe0 (thread s'), pipe1 (thread s')) =
    pipe_fds (l ++ [pipe_create])).
Proof.
  unfold start_spu_thread. mrun. unfold start_calls.
  cbn [thread with_thread log_call calls type set_event set_ctx set_spe_event
       set_runflags set_createflags set_entry createflags spe_event event_spe
       event_events ctx].
  destruct (Z.eqb_spec (type (thread s)) THREAD_LOOP) as [Ht | Ht]; mrun;
          (match goal with |- exists _, mret _ ?t = _ /\ _ => exists t end;
     split; [reflexivity |]);
    cbn [calls log_call with_thread thread thread_id set_thread_id]; rewrite <- !app_assoc;
    (split_and!; [done.. |]); intros ?; [| done].
  rewrite !app_assoc. eexists. symmetry. apply surjective_pairing.
Qed.

(** When threads can be created, starting one returns 0. *)
Lemma start_spu_thread_returns s :
  (forall l r, answer (l ++ [pthread_create r]) = 0) ->
  exists s', start_spu_thread s = Ok (Return 0, s') /\ answer (calls s') = 0.
Proof.
  intros Hcreate. destruct (start_spu_thread_run s) as (s' & Hs & Hl & _).
  assert (answer (calls s') = 0) as Ha.
  { rewrite Hl. unfold start_calls. destruct (type (thread s) =? THREAD_LOOP);
      [rewrite (cons_middle pipe_create) |]; rewrite !app_assoc; apply Hcreate. }
  exists s'. by rewrite Hs, Ha.
Qed.

Lemma status_spin k : forall s,
  (forall i, (i < k)%nat ->
     answer (calls s ++ repeat (spe_in_mbox_status (ctx (thread s))) (S i)) = 0) ->
  answer (calls s ++ repeat (spe_in_mbox_status (ctx (thread s))) (S k)) <> 0 ->
  forall fuel, (k < fuel)%nat ->
  loop fuel status_round s = Ok (tt, Tstate (thread s)
    (calls s ++ repeat (spe_in_mbox_status (ctx (thread s))) (S k))).
Proof.
  induction k as [| k IH]; intros s Hz Hnz [| fuel] Hf; try lia;
    cbn [loop]; unfold status_round; mrun; cbn [repeat] in *.
  - destruct (Z.eqb_spec (answer (calls s ++ [spe_in_mbox_status (ctx (thread s))])) 0);
      [done |]. done.
  - pose proof (Hz O ltac:(lia)) as H0. cbn in H0. rewrite H0. cbn [Z.eqb].
    change (mret (if true then None else Some tt)) with (mret None : M tstate (option unit)).
    cbn [mret M_ret]. rewrite IH.
    + cbn [calls log_call thread]. by rewrite <- app_assoc.
    + intros i Hi. cbn [calls log_call thread]. rewrite <- app_assoc. apply (Hz (S i)). lia.
    + cbn [calls log_call thread]. by rewrite <- app_assoc.
    + lia.
Qed.

(** The event [spe_event_wait] reported last is of no use. *)
Definition useless (l : list call) : bool :=
  (answer l <=? 0) || (Z.land (woken_by l) SPE_EVENT_OUT_INTR_MBOX =? 0).
Definition mbox_wait s : call := spe_event_wait (spe_event (thread s)) 1 (-1).

Lemma wait_mbox_run n : forall s, exists j s',
  wait_mbox n s = Ok ((n - j)%nat, s') /\
  (ctx (thread s') = ctx (thread s) /\ events (thread s') = events (thread s)) /\
  ((j = n /\ calls s' = calls s ++ repeat (mbox_wait s) n) \/
   ((j < n)%nat /\ calls s' = calls s ++ repeat (mbox_wait s) (S j) /\
    useless (calls s') = false)) /\
  (forall i, (i < j)%nat -> useless (calls s ++ repeat (mbox_wait s) (S i)) = true).
Proof.
  induction n as [| n IH]; intros s.
  { exists O, s. split_and!; [done | done | done | left; by rewrite app_nil_r | lia]. }
  cbn [wait_mbox]. mrun. cbn [calls log_call].
  fold (mbox_wait s). fold (useless (calls s ++ [mbox_wait s])).
  set (s1 := with_thread _ _). destruct (useless _) eqn:Hu.
  - destruct (IH s1) as (j & s' & Hw & Hc & Hcase & Hall).
    exists (S j), s'. rewrite Hw. split; [done |]. split; [exact Hc |]. split.
    + destruct Hcase as [[-> Hl] | (Hj & Hl & Hus)]; [left | right].
      * split; [done |]. rewrite Hl. cbn. by rewrite <- app_assoc.
      * split_and!; [lia | | done]. rewrite Hl. cbn. by rewrite <- app_assoc.
    + intros [| i] Hi; [done |]. specialize (Hall i ltac:(lia)).
      cbn [calls s1 with_thread log_call] in Hall. by rewrite <- app_assoc in Hall.
  - exists O, s1. split_and!; [done | done | done | | lia]. right. split_and!; [lia | done | done].
Qed.
(** The life of a looping thread. *)
Lemma run_lifecycle (n fuel : nat) (fds : Z * Z) s :
  (forall l, pipe_fds (l ++ [pipe_create]) = fds) ->
  (forall l, answer (l ++ [malloc_events]) <> 0) ->
  (forall l r, answer (l ++ [pthread_create r]) = 0) ->
  wakes fds.1 -> exits n ->
  type (thread s) = THREAD_LOOP -> (n < fuel)%nat ->
  exists s1 s2 s3, start_spu_thread s = Ok (Return 0, s1) /\
    spu_loop_thread fuel s1 = Ok (tt, s2) /\
    stop_spu_thread s2 = Ok (0, s3) /\ events (thread s3) = Released.
Proof.
  intros Hpipe Hmalloc Hcreate Hw Hx Htype Hfuel.
  destruct (start_spu_thread_run s) as (s1 & Hs & _ & _ & _ & _ & Hp).
  destruct (Hp Htype) as [l Hfds]. rewrite Hpipe in Hfds.
  destruct (start_spu_thread_returns s Hcreate) as (s1' & Hs' & Ha).
  rewrite Hs' in Hs. injection Hs as _ ->.
  exists s1.
  enough (exists s2, spu_loop_thread fuel s1 = Ok (tt, s2) /\
    events (thread s2) = Allocated) as (s2 & Hr & He).
  { eexists s2, _. split_and!; [done | done | |].
    - unfold stop_spu_thread. mrun. cbn [thread log_call]. rewrite He. mrun. done.
    - done. }
  assert (exists b s2, loop_start s1 = Ok (b, s2) /\ listening fds.1 s2) as (b & s2 & Hst & Hlis).
  { unfold loop_start. mrun. cbn [calls with_thread log_call].
    rewrite (proj2 (Z.eqb_neq _ _) (Hmalloc _)).
    set (s2 := with_thread _ (set_events Allocated)).
    assert (listening fds.1 s2) as Hlis by (by split; [| rewrite <- Hfds]).
    destruct (_ <? 0); [by eexists _, _ |]. mrun. by eexists _, _. }
  unfold spu_loop_thread. erewrite M_bind_ok by exact Hst.
  destruct b; [| exists s2; split; [done | apply Hlis]].
  destruct (run_loop_returns fds.1 n Hw Hx fuel s2 Hlis) as (s4 & Hr & He & _); [lia |].
  by exists s4.
Qed.
End calls.

(** * Properties *)

Section properties.
Context `{Os}.
Implicit Types (s : tstate).

(** C16: whatever the libraries answer, a loop thread follows the protocol of
    spethread.h, at its end and on the way: it loads the program before it runs
    it; a stop with SPE_STOP_AND_SIGNAL is given to the callback, once, with the
    word of the mailbox when the code shares a bit with READ_MBOX and the code
    itself otherwise; and the SPE is run again only after one read of the pipe,
    and never after the pipe said THREAD_EXIT.  A thread that returns failed to
    watch the pipe, to load or to run the program, or its last run stopped
    without a signal, or the pipe last said THREAD_EXIT or nothing; it has called
    the callback once for each signal.  One that does not return is, for however
    long it is watched, about to run the SPE or waiting for the pipe, with every
    signal reported.  (It faults only where the library leaves it no event to
    look at: the buffer [malloc] did not give, or fewer events than reported.) *)
Theorem spu_loop_thread_protocol (fuel : nat) s :
  match spu_loop_thread fuel s with
  | Ok (_, s') => reported (calls s) s' (ended (calls s'))
  | Fault f => buffer_fault f
  | OutOfFuel =>
      (exists s1 s2, loop_start s = Ok (true, s1) /\
         nsteps (fun a b => run_round fuel a = Ok (None, b)) fuel s1 s2 /\ about_to_run fuel s s2) \/
      exists s1 s2 s3, about_to_run fuel s s1 /\ report_stop s1 = Ok (None, s2) /\
        nsteps (fun a b => wait_round a = Ok (None, b)) fuel s2 s3 /\ is_waiting fuel s s3
  end /\
  (forall s', about_to_run fuel s s' ->
     reported (calls s) s' (fun p => p = Loaded \/ p = Answered)) /\
  (forall s', is_waiting fuel s s' -> reported (calls s) s' (fun p => p = Waiting)).
Proof.
  split_and!.
  - destruct (spu_loop_thread fuel s) as [[u s'] | |] eqn:Hr;
      [| by eapply spu_loop_thread_fault | by apply spu_loop_thread_unfinished].
    apply at_end_reported. unfold spu_loop_thread in Hr. apply M_bind_inv in Hr as (b & s1 & Hst & Hr).
    apply loop_start_phase in Hst. destruct b; [by eapply loop_phase |]. by injection Hr as _ <-.
  - intros s' Hs'%about_to_run_runnable. by apply runnable_reported.
  - intros s' Hs'%is_waiting_phase. by eapply at_phase_reported.
Qed.

(** C17: the life of a looping thread: when its calls succeed and someone
    writes to its pipe whenever it waits, THREAD_EXIT from the [n]-th time on,
    [start_spu_thread] returns 0, the loop ends within [n + 1] rounds, and
    [stop_spu_thread] then returns 0 and has released the event buffer. *)
Theorem loop_thread_lifecycle (n fuel : nat) (fds : Z * Z) s :
  (forall l, pipe_fds (l ++ [pipe_create]) = fds) ->
  (forall l, answer (l ++ [malloc_events]) <> 0) ->
  (forall l r, answer (l ++ [pthread_create r]) = 0) ->
  wakes fds.1 -> exits n ->
  type (thread s) = THREAD_LOOP -> (n < fuel)%nat ->
  exists s1 s2 s3, start_spu_thread s = Ok (Return 0, s1) /\
    spu_loop_thread fuel s1 = Ok (tt, s2) /\
    stop_spu_thread s2 = Ok (0, s3) /\ events (thread s3) = Released.
Proof. apply run_lifecycle. Qed.

(** [start_spu_thread] creates the context, registers the two events,
    makes a pipe for a looping thread only, and starts the routine of its
    type; it returns 0 or ends the process with the error of
    [pthread_create], and never returns a negative value. *)
Theorem start_spu_thread_outcome s :
  exists s', calls s' = calls s ++ start_calls (calls s) (type (thread s)) /\
    start_spu_thread s =
      Ok (if answer (calls s') =? 0 then Return 0 else Exit (answer (calls s')), s').
Proof.
  destruct (start_spu_thread_run s) as (s' & -> & Hl & _).
  exists s'. split; [done |]. by destruct (_ =? 0).
Qed.

(** A THREAD_RUN thread cannot be stopped: nothing assigns its [events],
    so, when the structure came from [spu_thread_allocate] (whose memory is
    indeterminate), [stop_spu_thread] frees a pointer nobody allocated,
    whatever the libraries answer. *)
Theorem run_thread_stop_faults s :
  type (thread s) <> THREAD_LOOP -> events (thread s) = Indeterminate ->
  exists o s1 s2, start_spu_thread s = Ok (o, s1) /\ spu_thread s1 = Ok (tt, s2) /\
    stop_spu_thread s2 = Fault InvalidFree.
Proof.
  intros Ht He. destruct (start_spu_thread_run s) as (s1 & Hs & _ & _ & He1 & _).
  eexists _, s1. rewrite Hs. rewrite He in He1.
  assert (exists s2, spu_thread s1 = Ok (tt, s2) /\ events (thread s2) = Indeterminate)
    as (s2 & Hr & He2).
  { unfold spu_thread. mrun. destruct (_ <? 0); [by eexists |].
    mrun. destruct (_ <? 0); by eexists. }
  exists s2. split_and!; [done | done |].
  unfold stop_spu_thread. mrun. cbn [thread log_call]. by rewrite He2.
Qed.

(** [recieve_message_int] always returns, after at most ten waits: the
    word of the mailbox, as an [int], at the first event that carries the
    mailbox bit, and STOP when ten events in a row did not. *)
Theorem recieve_message_int_retries s :
  exists j s', (j <= 10)%nat /\
    (forall i, (i < j)%nat -> useless (calls s ++ repeat (mbox_wait s) (S i)) = true) /\
    ((j = 10%nat /\ recieve_message_int s = Ok (s32 STOP, s') /\
      calls s' = calls s ++ repeat (mbox_wait s) 10) \/
     ((j < 10)%nat /\ useless (calls s ++ repeat (mbox_wait s) (S j)) = false /\
      recieve_message_int s = Ok (s32 (intr_word (calls s')), s') /\
      calls s' = (calls s ++ repeat (mbox_wait s) (S j)) ++
        [spe_out_intr_mbox_read (ctx (thread s)) 1 SPE_MBOX_ANY_NONBLOCKING])).
Proof.
  destruct (wait_mbox_run 10 s) as (j & s1 & Hw & [Hc _] & Hcase & Hall).
  unfold recieve_message_int. erewrite M_bind_ok by exact Hw.
  destruct Hcase as [[-> Hl] | (Hj & Hl & Hu)].
  - exists 10%nat, s1. split_and!; [lia | done |]. left. by split_and!.
  - exists j, (log_call s1 (spe_out_intr_mbox_read (ctx (thread s)) 1
      SPE_MBOX_ANY_NONBLOCKING)).
    split_and!; [lia | done |]. right. rewrite <- Hl.
    destruct (10 - j)%nat eqn:Hn; [lia |]. mrun. rewrite Hc. by split_and!.
Qed.

(** [send_message] polls the mailbox until it reports room and then
    writes the message once: if the [k]-th poll is the first with room, any
    fuel above [k] returns, with exactly those calls. *)
Theorem send_message_waits (k fuel : nat) (message : Z) s :
  let poll := spe_in_mbox_status (ctx (thread s)) in
  (forall i, (i < k)%nat -> answer (calls s ++ repeat poll (S i)) = 0) ->
  answer (calls s ++ repeat poll (S k)) <> 0 -> (k < fuel)%nat ->
  send_message fuel message s = Ok (tt, Tstate (thread s)
    ((calls s ++ repeat poll (S k)) ++
     [spe_in_mbox_write (ctx (thread s)) message 1 SPE_MBOX_ALL_BLOCKING])).
Proof.
  intros poll Hz Hnz Hf. unfold send_message.
  erewrite M_bind_ok by (by apply (status_spin k)). by mrun.
Qed.
End properties.

(** * Witnesses *)

(** Libraries in which everything succeeds, the SPE always stops with signal 7,
    and the pipe says THREAD_EXIT the third time. *)
Definition last_call (l : list call) : call := List.last l pipe_create.
#[local] Instance good_os : Os := {|
  answer l := match last_call l with
              | epoll_wait _ _ | malloc_events | spe_in_mbox_status _ => 1
              | _ => 0
              end;
  pipe_fds _ := (5, 6);
  run_entry _ := 0; run_stop _ := (1, 7); mbox_word _ := 42; intr_word _ := 43;
  pipe_word l := Some (if (2 <? reads l)%nat then THREAD_EXIT else THREAD_CONTINUE);
  woken_by _ := 1; ready_fds _ := [5];
  SPE_DEFAULT_ENTRY := 0; SPE_EVENTS_ENABLE := 4096;
  SPE_EVENT_OUT_INTR_MBOX := 1; SPE_EVENT_SPE_STOPPED := 8;
  SPE_STOP_AND_SIGNAL := 1; SPE_MBOX_ANY_BLOCKING := 2;
  SPE_MBOX_ALL_BLOCKING := 1; SPE_MBOX_ANY_NONBLOCKING := 3;
  EPOLLIN := 1; EPOLLERR := 8
|}.

Definition new_thread (ev : events_ptr) (ty : Z) : tstate :=
  Tstate (Spu_thread 0 0 0 0 0 0 0 0 0 0 0 0 0 0 ev 5 6 ty THREAD_CONTINUE) [].

Lemma last_call_snoc l c : last_call (l ++ [c]) = c.
Proof. apply List.last_last. Qed.

Lemma good_os_wakes : wakes 5.
Proof. intros l e m. cbn. by rewrite last_call_snoc. Qed.
Lemma good_os_exits : exits 2.
Proof.
  intros l p Hn. cbn -[Nat.ltb]. rewrite reads_app.
  by rewrite (proj2 (Nat.ltb_lt 2 _)) by (cbn; lia).
Qed.

(** Three signals, each reported; the pipe says THREAD_EXIT the third time. *)
Lemma spu_loop_thread_protocol_witness :
  exists s' cs, spu_loop_thread 4 (new_thread NoEvents THREAD_LOOP) = Ok (tt, s') /\
    calls s' = cs /\ conversation [] Fresh cs = Some Answered /\
    signals [] cs = callbacks cs /\ callbacks cs = 3%nat.
Proof.
  pose proof (spu_loop_thread_protocol 4 (new_thread NoEvents THREAD_LOOP)) as [Hp _].
  destruct (spu_loop_thread 4 (new_thread NoEvents THREAD_LOOP)) as [[u s'] | |] eqn:Hr;
    [| vm_compute in Hr; discriminate Hr | vm_compute in Hr; discriminate Hr].
  destruct Hp as (cs & p & Hl & Hc & He & Hs). exists s', cs. destruct u.
  split; [reflexivity |]. split; [exact Hl |].
  vm_compute in Hr. injection Hr as <-. cbn [calls new_thread app] in Hl. subst cs.
  split; [vm_compute; reflexivity |]. split; [exact Hs | vm_compute; reflexivity].
Defined.

Lemma loop_thread_lifecycle_witness :
  exists s1 s2 s3, start_spu_thread (new_thread Indeterminate THREAD_LOOP) =
      Ok (Return 0, s1) /\
    spu_loop_thread 3 s1 = Ok (tt, s2) /\
    stop_spu_thread s2 = Ok (0, s3) /\ events (thread s3) = Released.
Proof.
  apply (loop_thread_lifecycle 2 3 (5, 6)).
  - intros l. reflexivity.
  - intros l. cbn. rewrite last_call_snoc. lia.
  - intros l r. cbn. rewrite last_call_snoc. reflexivity.
  - apply good_os_wakes.
  - apply good_os_exits.
  - reflexivity.
  - lia.
Defined.

Lemma run_thread_stop_faults_witness :
  exists o s1 s2, start_spu_thread (new_thread Indeterminate THREAD_RUN) = Ok (o, s1) /\
    spu_thread s1 = Ok (tt, s2) /\ stop_spu_thread s2 = Fault InvalidFree.
Proof. apply run_thread_stop_faults; [by cbv | reflexivity]. Defined.

Lemma send_message_waits_witness :
  send_message 1 99 (new_thread NoEvents THREAD_LOOP) =
  Ok (tt, Tstate (thread (new_thread NoEvents THREAD_LOOP))
    [spe_in_mbox_status 0; spe_in_mbox_write 0 99 1 1]).
Proof.
  etrans; [apply (send_message_waits 0 1 99) | reflexivity].
  - intros i Hi. lia.
  - cbv. lia.
  - lia.
Defined.

(** Of the 16384 codes a stop-and-signal instruction can carry, the thread takes
    all but 32 for READ_MBOX: it tests the bits of 1999 and not the number. *)
Lemma codes_passed_on :
  length (filter (fun c => Z.land c READ_MBOX = 0) (seqZ 0 16384)) = 32%nat.
Proof. by vm_compute. Qed.
