(* ===== verification/HostFifo.v ===== *)
(** src/spefifo.c: the host's side of the task queues, one queue per SPE, from
    [fifoInit] to the monitoring thread.

    The memory behind a queue (its [fifo_s], the task words, the
    acknowledgement words and the [atomic_s] line) is held with the queue, as
    no two queues share it and no address is ever reassigned.  The SPE reads
    and writes the same memory: what it does, and what the other host thread
    does, appears as the [env] argument of the loops that wait for it. *)
From stdpp Require Import base list.
From Stdlib Require Import ZArith Lia.
From S2P Require Import Prelude.
From S2P Require Import Messages.
From S2P Require Import Fifo.
From S2P Require Import Ring.
From S2P Require Import SpeThread.

(** * The code *)

Definition ACK_CLEAR : Z := 0xc1ee7000.
Definition MAX_SPES : Z := 16.
Definition ACK_SIZE : Z := 16.

(** [struct fifo_s] as the host uses it: each of its three addresses is the
    block it names. *)
Record fifo := Host_fifo {
  tasks : ptr (list Z);          (* the uint32_t words at task_fifo *)
  acks : ptr (list Z);           (* the uint32_t words at ack_fifo *)
  atomic_line : ptr atomic_s;
  f_max_entries : Z; f_active : Z; f_id : Z }.

(** Entry [i] of each array of [struct host_fifo_s]. *)
Record spe_s := Spe {
  ringCTX : ptr ring_context_s; fifos : ptr fifo;
  entry_p : ptr Z;               (* a word of [tasks] *)
  entry_count : Z; spu : spu_thread_s; isKicked : Z }.

(** [hostfifo] and [current_spe]; [log] holds the library calls made so far. *)
Record host := Host {
  spes : Z; scheme : Z; current_spe : Z; spe : list spe_s; log : list call }.

Definition set_ringCTX v p :=
  Spe v (fifos p) (entry_p p) (entry_count p) (spu p) (isKicked p).
Definition set_fifos v p :=
  Spe (ringCTX p) v (entry_p p) (entry_count p) (spu p) (isKicked p).
Definition set_entry_p v p :=
  Spe (ringCTX p) (fifos p) v (entry_count p) (spu p) (isKicked p).
Definition set_entry_count v p :=
  Spe (ringCTX p) (fifos p) (entry_p p) v (spu p) (isKicked p).
Definition set_spu v p :=
  Spe (ringCTX p) (fifos p) (entry_p p) (entry_count p) v (isKicked p).
Definition set_isKicked v p :=
  Spe (ringCTX p) (fifos p) (entry_p p) (entry_count p) (spu p) v.

Definition set_tasks v f :=
  Host_fifo v (acks f) (atomic_line f) (f_max_entries f) (f_active f) (f_id f).
Definition set_acks v f :=
  Host_fifo (tasks f) v (atomic_line f) (f_max_entries f) (f_active f) (f_id f).
Definition set_atomic v f :=
  Host_fifo (tasks f) (acks f) v (f_max_entries f) (f_active f) (f_id f).
Definition set_active v f :=
  Host_fifo (tasks f) (acks f) (atomic_line f) (f_max_entries f) v (f_id f).
Definition describe entries id f :=
  Host_fifo (tasks f) (acks f) (atomic_line f) entries 1 id.

(** ** Access to the arrays

    [on i m] runs [m] on the entries of the arrays with index [i]. *)

Definition on {A : Type} (i : Z) (m : M spe_s A) : M host A :=
  p ← (fun s => lift (aget (spe s) i) s);
  r ← lift (m p);
  modify (fun s => Host (spes s) (scheme s) (current_spe s)
                     (<[Z.to_nat i := r.2]> (spe s)) (log s));;
  mret r.1.
Definition set_current (c : Z) : M host unit :=
  modify (fun s => Host (spes s) (scheme s) c (spe s) (log s)).

(** The structures the entries point to. *)
Definition the_ring : M spe_s ring_context_s := fun p => lift (deref (ringCTX p)) p.
Definition the_fifo : M spe_s fifo := fun p => lift (deref (fifos p)) p.
Definition upd_ring (f : ring_context_s -> ring_context_s) : M spe_s unit :=
  r ← the_ring; modify (set_ringCTX (Valid (f r))).
Definition upd_fifo (f : fifo -> res fifo) : M spe_s unit :=
  m ← the_fifo; m ← lift (f m); modify (set_fifos (Valid m)).

(** [hostfifo.entry_p[spe] = task_fifo + front * TASK_SIZE], in words. *)
Definition point_at_front : M spe_s unit :=
  m ← the_fifo;
  r ← the_ring;
  modify (set_entry_p (Valid (u32 (ringGetFront r * TASK_SIZE) / 4))).

(** [hostfifo.entry_p[spe][k] = v]. *)
Definition put_entry (k v : Z) : M spe_s unit :=
  o ← (fun p => lift (deref (entry_p p)) p);
  upd_fifo (fun m =>
    ws ← deref (tasks m); ws ← aset ws (o + k) (u32 v);
    mret (set_tasks (Valid ws) m)).

(** [hostfifo.entry_count[spe]++]. *)
Definition inc_entry_count : M spe_s unit :=
  modify (fun p => set_entry_count (u32 (entry_count p + 1)) p).

(** ** send_front *)

(** [stwcx] lists whether the conditional stores succeed, one round each. *)
Fixpoint send_front (stwcx : list bool) : M spe_s unit :=
  match stwcx with
  | [] => fun _ => OutOfFuel
  | result :: stwcx =>
      r ← the_ring;
      let message := s32 (ringGetFront r) in
      upd_fifo (fun m =>
        a ← deref (atomic_line m);
        let count := u32 message in
        let a := if negb (at_state a =? 1) then Atomic_s (at_count a) 1 else a in
        let a := if result : bool then Atomic_s count (at_state a) else a in
        mret (set_atomic (Valid a) m));;
      if result : bool then mret tt else send_front stwcx
  end.

(** ** Initialisation *)

(** What [memalign] and [malloc] return for queue [i], and the embedded SPE
    program.  Fresh memory holds arbitrary words, [junk] among them. *)
Class Memory := {
  fifo_addr : Z -> Z;
  task_block : Z -> Z -> ptr (list Z);      (* queue, bytes *)
  ack_block : Z -> Z -> ptr (list Z);
  atomic_ok : Z -> bool;
  ring_ok : Z -> bool;
  junk : Z;
  spu_taskmanager_handle : Z
}.

(** [for (i = 0; i < entries; i++) ack[(i*ACK_SIZE)/sizeof(uint32_t)] = ACK_CLEAR]. *)
Definition clear_acks (entries : Z) (ack : ptr (list Z)) : res (ptr (list Z)) :=
  match for_loop 0 (Z.to_nat entries) (fun i => fun ack =>
          ws ← deref ack; ws ← aset ws (i * ACK_SIZE / 4) ACK_CLEAR;
          Ok (tt, Valid ws)) ack with
  | Ok (_, ack) => Ok ack
  | Fault f => Fault f
  | OutOfFuel => OutOfFuel
  end.

Definition allocate_fifo `{Memory} (i entries entry_size : Z) : res (ptr fifo) :=
  m ← alloc_init (negb (fifo_addr i =? 0))
        (Host_fifo (task_block i (entries * entry_size)) (ack_block i (entries * ACK_SIZE))
           Null junk junk junk);
  m ← deref m;
  a ← alloc_init (atomic_ok i) (Atomic_s 0 0);
  ack ← clear_acks entries (acks m);
  mret (Valid (set_acks ack (set_atomic a m))).

(** The body of the loop of [fifoInit]; [Some status] when the process ends. *)
Definition init_spe `{Os, Memory} (fifo_size i : Z) : M host (option Z) :=
  on i (modify (set_isKicked 1);;
        m ← lift (allocate_fifo i (Z.quot fifo_size TASK_SIZE) TASK_SIZE);
        modify (set_fifos m);;
        upd_fifo (fun m =>
          mret (describe (u32 (Z.quot fifo_size TASK_SIZE)) (i mod 2 ^ 16) m));;
        r ← lift (ringInitContext (ring_ok i) (Z.quot fifo_size TASK_SIZE));
        modify (set_ringCTX r);;
        modify (fun p => set_spu (set_task THREAD_LOOP (fifo_addr i) sizeof_fifo_s
                                    spu_taskmanager_handle (spu p)) p));;
  l ← gets log;
  t ← on i (p ← gets spu;
            t ← lift (start_spu_thread (Tstate p l));
            modify (set_spu (thread t.2));;
            mret t);
  modify (fun s => Host (spes s) (scheme s) (current_spe s) (spe s) (calls t.2));;
  match t.1 with
  | Exit status => mret (Some status)
  | Return value =>
      (if value <? 0 then on i (upd_fifo (fun m => mret (set_active 0 m))) else mret tt);;
      mret None
  end.

Fixpoint init_spes `{Os, Memory} (fifo_size i : Z) (n : nat) : M host (option Z) :=
  match n with
  | O => mret None
  | S n =>
      o ← init_spe fifo_size i;
      match o with
      | Some status => mret (Some status)
      | None => init_spes fifo_size (i + 1) n
      end
  end.

Definition fifoInit `{Os, Memory} (fifo_size nspes sch : Z) : M host (option Z) :=
  modify (fun s => Host nspes sch 0 (spe s) (log s));;
  o ← init_spes fifo_size 0 (Z.to_nat nspes);
  match o with
  | Some status => mret (Some status)
  | None =>
      modify (fun s => Host (spes s) (scheme s) (current_spe s) (spe s)
        (log s ++ [pthread_create fifothread_routine]));;
      mret None
  end.

(** ** Submitting tasks *)

Definition advance : M host unit :=
  c ← gets current_spe; n ← gets spes;
  c ← lift (to_int (c + 1));
  set_current (if n <=? c then 0 else c).

(** [while (!ringHasFree(...))]: a round tests the current queue. *)
Definition select_round : M host (option Z) :=
  c ← gets current_spe;
  r ← on c the_ring;
  if ringHasFree r =? 0 then advance;; mret None else mret (Some c).

(** Every scheme takes the same branch of the switch. *)
Definition selectfifo (env : list (M host unit)) : M host Z :=
  advance;;
  spin env select_round.

Definition begin_entry (command handle : Z) : M spe_s unit :=
  k ← gets isKicked;
  (if k =? 0 then upd_ring ringIncFront else mret tt);;
  modify (set_isKicked 0);;
  modify (set_entry_count 0);;
  point_at_front;;
  put_entry 0 command;;
  inc_entry_count;;
  put_entry 1 handle;;
  inc_entry_count.

Definition fifoBegin (env : list (M host unit)) (command handle : Z) : M host Z :=
  i ← selectfifo env;
  on i (begin_entry command handle);;
  mret i.

Definition add_entry (arg : Z) : M spe_s unit :=
  n ← gets entry_count;
  if negb (u32 (n + 1) =? TASK_SIZE / 4) then
    put_entry n arg;;
    inc_entry_count
  else mret tt.
Definition fifoAdd (i arg : Z) : M host unit := on i (add_entry arg).

Definition kick_entry (stwcx : list bool) : M spe_s unit :=
  send_front stwcx;;
  modify (set_isKicked 1);;
  upd_ring ringIncFront.
Definition fifoKick (stwcx : list bool) (i : Z) : M host unit := on i (kick_entry stwcx).

Definition fifoNoop (env : list (M host unit)) (stwcx : list bool) : M host unit :=
  i ← fifoBegin env NOOP 0x1ee7C0DE;
  fifoKick stwcx i.

Definition fifo_addition (env : list (M host unit)) (stwcx : list bool) (adds : Z) :
    M host unit :=
  i ← fifoBegin env ADD 0x1ee7C0DE;
  fifoAdd i adds;;
  fifoAdd i 1;;
  fifoAdd i 2;;
  fifoKick stwcx i.

Definition fifoStop : M host unit := mret tt.

(** ** Waiting for tasks *)

(** [for (i...) if (ringHasRemaining(...)) return 0;] and [return 1;]. *)
Fixpoint empty_from (i : Z) (n : nat) : M host Z :=
  match n with
  | O => mret 1
  | S n =>
      r ← on i the_ring;
      if ringHasRemaining r =? 0 then empty_from (i + 1) n else mret 0
  end.
Definition fifoIsEmpty : M host Z :=
  n ← gets spes; empty_from 0 (Z.to_nat n).

(** [res] of [fifoWait]. *)
Fixpoint remaining_from (i : Z) (n : nat) (res : Z) : M host Z :=
  match n with
  | O => mret res
  | S n =>
      r ← on i the_ring;
      remaining_from (i + 1) n (if ringHasRemaining r =? 0 then res else res + 1)
  end.
Definition wait_round : M host (option unit) :=
  n ← gets spes;
  res ← remaining_from 0 (Z.to_nat n) 0;
  mret (if negb (res =? 0) then None else Some tt).
Definition fifoWait (env : list (M host unit)) : M host unit := spin env wait_round.

(** ** The monitoring thread *)

(** One round of [while (ack[0] != ACK_CLEAR)]. *)
Definition drain_round : M spe_s (option unit) :=
  m ← the_fifo;
  r ← the_ring;
  let ack := u32 (ringGetBack r * ACK_SIZE) / 4 in
  ws ← lift (deref (acks m));
  w ← lift (aget ws ack);
  if w =? ACK_CLEAR then mret (Some tt)
  else
    upd_fifo (fun m => ws ← deref (acks m); ws ← aset ws ack ACK_CLEAR;
                       mret (set_acks (Valid ws) m));;
    upd_ring ringIncBack;;
    mret None.

(** The body of [while (1)]: the thread's pass over the queues. *)
Fixpoint drain_from (fuel : nat) (i : Z) (n : nat) : M host unit :=
  match n with
  | O => mret tt
  | S n => on i (loop fuel drain_round);; drain_from fuel (i + 1) n
  end.
Definition fifothread_pass (fuel : nat) : M host unit :=
  n ← gets spes; drain_from fuel 0 (Z.to_nat n).

(** The thread: it sleeps before each pass, and [env] is what the other threads
    and the SPEs do between two of them. *)
Definition fifothread (fuel : nat) (env : list (M host unit)) : M host unit :=
  spin env (fifothread_pass fuel;; mret None).

(** ** Registering a program *)

Definition register_entry (stwcx : list bool) (addr size : Z) : M spe_s unit :=
  modify (set_isKicked 0);;
  modify (set_entry_count 0);;
  point_at_front;;
  put_entry 0 REGISTER_PROGRAM;;
  inc_entry_count;;
  put_entry 1 size;;
  inc_entry_count;;
  put_entry 2 (hi32 addr);;
  inc_entry_count;;
  put_entry 3 (lo32 addr);;
  inc_entry_count;;
  kick_entry stwcx.

Fixpoint register_from (stwcx : Z -> list bool) (addr size i : Z) (n : nat) : M host unit :=
  match n with
  | O => mret tt
  | S n =>
      on i (register_entry (stwcx i) addr size);;
      register_from stwcx addr size (i + 1) n
  end.
Definition fifoRegisterProgram (stwcx : Z -> list bool) (program size : Z) : M host Z :=
  let addr := u64 program in
  n ← gets spes;
  register_from stwcx addr size 0 (Z.to_nat n);;
  mret (s32 (u32 addr)).
