(* ===== verification/HostQueue.v ===== *)
(** One queue of the host: what the calls of HostFifo.v do to the memory behind
    one entry of its arrays, as equations between abstract queues. *)
From stdpp Require Import base list.
From Stdlib Require Import ZArith Lia.
From S2P Require Import Prelude.
From S2P Require Import Messages.
From S2P Require Import Fifo.
From S2P Require Import Ring.
From S2P Require Import SpeThread.
From S2P Require Import HostFifo.

(** * The queue behind an entry *)

Record queue := Queue {
  q_ring : ring_context_s; q_tasks : list Z; q_acks : list Z; q_atomic : atomic_s }.

(** The entry [p] has a complete queue, which holds [q]. *)
Definition holds (p : spe_s) (q : queue) : Prop :=
  ringCTX p = Valid (q_ring q) /\
  exists m, fifos p = Valid m /\ tasks m = Valid (q_tasks q) /\
    acks m = Valid (q_acks q) /\ atomic_line m = Valid (q_atomic q).

(** 32 words for a task and 4 for an acknowledgement, in each slot; the whole
    is smaller than the [int] it was allocated with. *)
Record queue_wf (q : queue) : Prop := {
  qwf_ring : ring_wf (q_ring q);
  qwf_size : size (q_ring q) < 2 ^ 24;
  qwf_tasks : Z.of_nat (length (q_tasks q)) = 32 * size (q_ring q);
  qwf_acks : Z.of_nat (length (q_acks q)) = 4 * size (q_ring q) }.

(** The queue with [words] written from the start of the front slot. *)
Definition with_task (words : list Z) (q : queue) : queue :=
  Queue (q_ring q)
    (list_inserts (Z.to_nat (32 * front (q_ring q))) words (q_tasks q))
    (q_acks q) (q_atomic q).
Definition with_ring (r : ring_context_s) (q : queue) : queue :=
  Queue r (q_tasks q) (q_acks q) (q_atomic q).
(** The front slot published to the SPE. *)
Definition published (q : queue) : queue :=
  Queue (q_ring q) (q_tasks q) (q_acks q) (Atomic_s (front (q_ring q)) 1).

(** The task in the front slot begun, with the words [words] so far. *)
Definition building (words : list Z) (q : queue) (p : spe_s) : Prop :=
  holds p (with_task words q) /\ isKicked p = 0 /\
  entry_p p = Valid (32 * front (q_ring q)) /\
  entry_count p = Z.of_nat (length words).

(** The ring a task begins with. *)
Definition begin_ring (p : spe_s) (r : ring_context_s) : ring_context_s :=
  if isKicked p =? 0 then ringIncFront r else r.

(** * Lemmas *)

Lemma list_inserts_snoc {A : Type} (k l : list A) (i : nat) (a : A) :
  list_inserts i (k ++ [a]) l = <[(i + length k)%nat := a]> (list_inserts i k l).
Proof.
  revert i. induction k as [| b k IH]; intros i; cbn.
  - by rewrite Nat.add_0_r.
  - rewrite IH, list_insert_insert_ne by lia. f_equal. lia.
Qed.

Lemma with_ring_wf r q :
  queue_wf q -> ring_wf r -> size r = size (q_ring q) -> queue_wf (with_ring r q).
Proof. intros [] ? Hs. by split; cbn; rewrite ?Hs. Qed.

Lemma with_task_wf ws q : queue_wf q -> queue_wf (with_task ws q).
Proof. intros []. split; cbn; try done. by rewrite length_inserts. Qed.

Lemma published_wf q : queue_wf q -> queue_wf (published q).
Proof. by intros []. Qed.

Lemma begin_ring_wf p r : ring_wf r -> ring_wf (begin_ring p r).
Proof. intros. unfold begin_ring. case_match; [by apply ringIncFront_wf | done]. Qed.

Lemma begin_ring_size p r : size (begin_ring p r) = size r.
Proof. unfold begin_ring. case_match; [apply ringIncFront_size | done]. Qed.

Section entry.
Implicit Types (p : spe_s) (q : queue) (ws : list Z).

Lemma run_the_ring p q : holds p q -> the_ring p = Ok (q_ring q, p).
Proof. intros [Hr _]. unfold the_ring, lift. by rewrite Hr. Qed.

Lemma run_the_fifo p m : fifos p = Valid m -> the_fifo p = Ok (m, p).
Proof. intros Hm. unfold the_fifo, lift. by rewrite Hm. Qed.

Lemma run_upd_ring f p q :
  holds p q -> exists p', upd_ring f p = Ok (tt, p') /\
    holds p' (with_ring (f (q_ring q)) q) /\
    isKicked p' = isKicked p /\ entry_count p' = entry_count p /\ entry_p p' = entry_p p /\
    spu p' = spu p.
Proof.
  intros Hp. unfold upd_ring. erewrite M_bind_ok by (by apply run_the_ring).
  rewrite run_modify. eexists. split; [reflexivity |].
  destruct Hp as [_ Hm]. by repeat split.
Qed.

(** An update of the structure the entry points to. *)
Lemma run_upd_fifo f p q q' :
  holds p q ->
  (forall m, tasks m = Valid (q_tasks q) -> acks m = Valid (q_acks q) ->
     atomic_line m = Valid (q_atomic q) ->
     exists m', f m = Ok m' /\ tasks m' = Valid (q_tasks q') /\
       acks m' = Valid (q_acks q') /\ atomic_line m' = Valid (q_atomic q')) ->
  q_ring q' = q_ring q ->
  exists m', upd_fifo f p = Ok (tt, set_fifos (Valid m') p) /\
    holds (set_fifos (Valid m') p) q'.
Proof.
  intros [Hr (m & Hm & Ht & Ha & Hl)] Hf Hq.
  destruct (Hf m Ht Ha Hl) as (m' & Hm' & ? & ? & ?).
  exists m'. unfold upd_fifo. erewrite M_bind_ok by (by apply run_the_fifo).
  rewrite Hm'. split; [done |]. split; [by rewrite Hq | by exists m'].
Qed.

Lemma run_put_entry v p q ws :
  queue_wf q -> building ws q p -> (length ws < 32)%nat ->
  exists p', (put_entry (entry_count p) v ≫= fun _ => inc_entry_count) p = Ok (tt, p') /\
    building (ws ++ [u32 v]) q p'.
Proof.
  intros Hwf (Hh & Hk & He & Hc) Hlen.
  destruct Hwf as [(? & Hfr & _) Hsize Hlt _].
  unfold put_entry. rewrite M_bind_assoc. erewrite M_bind_ok; cycle 1.
  { rewrite He. done. }
  edestruct (run_upd_fifo (fun m =>
    ws ← deref (tasks m); ws ← aset ws (32 * front (q_ring q) + entry_count p) (u32 v);
    mret (set_tasks (Valid ws) m)) p _ (with_task (ws ++ [u32 v]) q) Hh)
    as (m' & Hrun & Hh'); [| done |].
  - intros m Hm Ha Hl. rewrite Hm. cbn [mbind res_bind deref].
    rewrite aset_ok; cycle 1.
    { cbn [q_tasks with_task]. rewrite length_inserts, Hlt, Hc. lia. }
    eexists. split; [reflexivity |]. cbn. split_and!; [| done | done].
    do 2 f_equal. rewrite list_inserts_snoc. f_equal. rewrite Hc. lia.
  - erewrite M_bind_ok by exact Hrun. unfold inc_entry_count. rewrite run_modify.
    eexists. split; [done |]. split_and!; [| done | done |].
    + destruct Hh' as [? ?]. by split.
    + cbn [entry_count set_entry_count set_fifos]. rewrite Hc, u32_small by lia.
      rewrite length_app. cbn. lia.
Qed.
End entry.

(** ** Building and publishing a task *)

Section tasks.
Implicit Types (p : spe_s) (q : queue) (ws args : list Z).

Lemma run_point_at_front p q :
  queue_wf q -> holds p q ->
  point_at_front p = Ok (tt, set_entry_p (Valid (32 * front (q_ring q))) p).
Proof.
  intros [(? & ? & _) ? _ _] Hh. pose proof Hh as [_ (m & Hm & _)].
  unfold point_at_front. erewrite M_bind_ok by (by apply run_the_fifo).
  erewrite M_bind_ok by (by apply run_the_ring). rewrite run_modify.
  unfold ringGetFront, TASK_SIZE. rewrite u32_small by lia.
  replace (front (q_ring q) * 128) with (32 * front (q_ring q) * 4) by lia.
  by rewrite Z.div_mul.
Qed.

Lemma with_task_nil q : with_task [] q = q.
Proof. by destruct q. Qed.

Lemma run_begin_entry c h p q :
  queue_wf q -> holds p q ->
  let q' := with_ring (begin_ring p (q_ring q)) q in
  exists p', begin_entry c h p = Ok (tt, p') /\ building [u32 c; u32 h] q' p'.
Proof.
  intros Hwf Hh q'. unfold begin_entry. mstep.
  assert (exists p1, (if isKicked p =? 0 then upd_ring ringIncFront else mret ()) p =
    Ok (tt, p1) /\ holds p1 q') as (p1 & Hrun & Hh1).
  { unfold q', begin_ring. destruct (isKicked p =? 0).
    - destruct (run_upd_ring ringIncFront p q Hh) as (p1 & Hrun & Hh1 & _). by exists p1.
    - exists p. split; [done |]. by destruct q. }
  erewrite M_bind_ok by exact Hrun. do 2 mstep.
  assert (queue_wf q') as Hwf'.
  { apply with_ring_wf; [done | apply begin_ring_wf, Hwf | apply begin_ring_size]. }
  erewrite M_bind_ok by (by apply (run_point_at_front _ q')).
  set (p2 := set_entry_p _ _).
  assert (building [] q' p2) as Hb2.
  { split_and!; [| done..]. rewrite with_task_nil. destruct Hh1 as [? ?]. by split. }
  destruct (run_put_entry c p2 q' [] Hwf' Hb2) as (p3 & Hrun3 & Hb3); [cbn; lia |].
  destruct (run_put_entry h p3 q' _ Hwf' Hb3) as (p4 & Hrun4 & Hb4); [cbn; lia |].
  exists p4. split; [| done]. change 0 with (entry_count p2) at 1.
  rewrite <- M_bind_assoc. erewrite M_bind_ok by exact Hrun3.
  destruct Hb3 as (_ & _ & _ & Hc3). change (Z.of_nat (length _)) with 1 in Hc3. by rewrite Hc3 in Hrun4.
Qed.

(** At the 32nd word an argument is dropped: the guard keeps the last word of
    the slot unused. *)
Lemma run_add_entry v p q ws :
  queue_wf q -> building ws q p -> (length ws <= 31)%nat ->
  exists p', add_entry v p = Ok (tt, p') /\ building (take 31 (ws ++ [u32 v])) q p'.
Proof.
  intros Hwf Hb Hlen. unfold add_entry. mstep.
  pose proof Hb as (_ & _ & _ & Hc).
  replace (TASK_SIZE / 4) with 32 by done. rewrite Hc, u32_small by lia.
  destruct (Z.eqb_spec (Z.of_nat (length ws) + 1) 32); cbn [negb].
  - exists p. split; [done |]. rewrite take_app_le, take_ge by lia. done.
  - rewrite <- Hc. destruct (run_put_entry v p q ws Hwf Hb) as (p' & Hrun & Hb'); [lia |].
    exists p'. split; [done |]. rewrite take_ge; [done |]. rewrite length_app. cbn. lia.
Qed.

Fixpoint add_all args : M spe_s unit :=
  match args with
  | [] => mret tt
  | v :: args => add_entry v;; add_all args
  end.

Lemma run_add_all args : forall p q ws,
  queue_wf q -> building ws q p -> (length ws <= 31)%nat ->
  exists p', add_all args p = Ok (tt, p') /\
    building (take 31 (ws ++ map u32 args)) q p'.
Proof.
  induction args as [| v args IH]; intros p q ws Hwf Hb Hlen; cbn [add_all map].
  - exists p. split; [done |]. by rewrite app_nil_r, take_ge.
  - destruct (run_add_entry v p q ws Hwf Hb Hlen) as (p1 & Hrun & Hb1).
    erewrite M_bind_ok by exact Hrun.
    destruct (IH p1 q _ Hwf Hb1) as (p2 & Hrun2 & Hb2).
    { rewrite length_take. lia. }
    exists p2. split; [done |]. replace (ws ++ u32 v :: map u32 args)
      with ((ws ++ [u32 v]) ++ map u32 args) by (by rewrite <- app_assoc).
    destruct (decide (length ws = 31%nat)).
    + rewrite (take_app_le (ws ++ [u32 v])) in * by (rewrite length_app; cbn; lia).
      rewrite (take_app_le (take 31 (ws ++ [u32 v]))) in Hb2
        by (rewrite length_take, Nat.min_l; rewrite ?length_app; cbn; lia).
      by rewrite take_take, Nat.min_id in Hb2.
    + rewrite (take_ge (ws ++ [u32 v])) in Hb2 by (rewrite length_app; cbn; lia). done.
Qed.

(** The retries of the conditional store change nothing but [state]. *)
Lemma run_send_front stwcx : forall p q,
  queue_wf q -> holds p q -> true ∈ stwcx ->
  exists p', send_front stwcx p = Ok (tt, p') /\ holds p' (published q) /\
    isKicked p' = isKicked p /\ entry_count p' = entry_count p /\ entry_p p' = entry_p p.
Proof.
  induction stwcx as [| b stwcx IH]; intros p q Hwf Hh Hin; [by apply elem_of_nil in Hin |].
  cbn [send_front]. erewrite M_bind_ok by (by apply run_the_ring).
  set (a := if at_state (q_atomic q) =? 1 then q_atomic q
            else Atomic_s (at_count (q_atomic q)) 1).
  set (q1 := Queue (q_ring q) (q_tasks q) (q_acks q)
    (if b then Atomic_s (front (q_ring q)) (at_state a) else a)).
  edestruct (run_upd_fifo (fun m =>
      a ← deref (atomic_line m);
      let count := u32 (s32 (ringGetFront (q_ring q))) in
      let a := if negb (at_state a =? 1) then Atomic_s (at_count a) 1 else a in
      let a := if b then Atomic_s count (at_state a) else a in
      mret (set_atomic (Valid a) m)) p q q1 Hh) as (m' & Hrun & Hh1); [| done |].
  { intros m Ht Ha Hl. rewrite Hl. eexists. split; [reflexivity |].
    split_and!; [done | done |]. cbn -[u32 s32]. do 2 f_equal. unfold q1. cbn -[u32 s32].
    rewrite u32_s32. unfold ringGetFront.
    destruct Hwf as [(? & ? & _) ? _ _]. rewrite u32_small by lia.
    unfold a. by destruct b, (at_state (q_atomic q) =? 1). }
  erewrite M_bind_ok by exact Hrun.
  assert (at_state a = 1) as Ha by (unfold a; destruct (Z.eqb_spec (at_state (q_atomic q)) 1); done).
  destruct b.
  - eexists. split; [reflexivity |]. split_and!; [| done..].
    unfold q1 in Hh1. by rewrite Ha in Hh1.
  - apply elem_of_cons in Hin as [|]; [done |].
    destruct (IH _ q1 ltac:(by destruct Hwf) Hh1) as (p' & Hr & Hp & ? & ? & ?); [done |].
    by exists p'.
Qed.

Lemma run_kick_entry stwcx p q :
  queue_wf q -> holds p q -> true ∈ stwcx ->
  exists p', kick_entry stwcx p = Ok (tt, p') /\
    holds p' (with_ring (ringIncFront (q_ring q)) (published q)) /\
    isKicked p' = 1 /\ entry_count p' = entry_count p /\ entry_p p' = entry_p p.
Proof.
  intros Hwf Hh Hin. unfold kick_entry.
  destruct (run_send_front stwcx p q Hwf Hh Hin) as (p1 & Hrun & Hh1 & Hk & Hc & He).
  erewrite M_bind_ok by exact Hrun. mstep.
  destruct (run_upd_ring ringIncFront (set_isKicked 1 p1) (published q))
    as (p2 & Hrun2 & Hh2 & Hk2 & Hc2 & He2 & _); [by destruct Hh1; split |].
  exists p2. split_and!; [done | done | done | |].
  - by rewrite Hc2.
  - by rewrite He2.
Qed.
End tasks.

(** ** Draining acknowledgements *)

(** Slot [i] has been acknowledged: the first word of its record is set. *)
Definition acked (ks : list Z) (i : Z) : Prop :=
  exists w, ks !! Z.to_nat (4 * i) = Some w /\ w <> ACK_CLEAR.
#[export] Instance acked_dec ks i : Decision (acked ks i).
Proof.
  unfold acked. destruct (ks !! Z.to_nat (4 * i)) as [w |].
  - destruct (decide (w = ACK_CLEAR)) as [He |].
    + right. intros (? & [= <-] & ?). done.
    + left. by exists w.
  - right. by intros (? & ? & _).
Defined.

(** The oldest slot cleared and released. *)
Definition release (q : queue) : queue :=
  Queue (ringIncBack (q_ring q)) (q_tasks q)
    (<[Z.to_nat (4 * back (q_ring q)) := ACK_CLEAR]> (q_acks q)) (q_atomic q).
Definition releases (k : nat) (q : queue) : queue := Nat.iter k release q.

Section drain.
Implicit Types (p : spe_s) (q : queue).

Lemma release_wf q : queue_wf q -> queue_wf (release q).
Proof.
  intros []. split; cbn.
  - by apply ringIncBack_wf.
  - by rewrite ringIncBack_size.
  - by rewrite ringIncBack_size.
  - by rewrite ringIncBack_size, length_insert.
Qed.

Lemma releases_wf k q : queue_wf q -> queue_wf (releases k q).
Proof. intros Hq. induction k; [done |]. by apply release_wf. Qed.

Lemma releases_ring k q :
  queue_wf q -> q_ring (releases k q) =
    set_back (q_ring q) (slot (q_ring q) (Z.of_nat k)).
Proof.
  intros Hq. induction k as [| k IH].
  - cbn. rewrite slot_0 by apply Hq. by destruct (q_ring q).
  - change (releases (S k) q) with (release (releases k q)). cbn [q_ring release].
    rewrite ringIncBack_eq by apply (releases_wf k q Hq). rewrite IH.
    unfold set_back, slot. cbn. f_equal. rewrite Zplus_mod_idemp_l. f_equal. lia.
Qed.

(** Clearing touches one word of each released slot. *)
Lemma releases_clear k q j :
  queue_wf q -> Z.of_nat k <= size (q_ring q) -> 0 <= j < Z.of_nat k ->
  q_acks (releases k q) !! Z.to_nat (4 * slot (q_ring q) j) = Some ACK_CLEAR.
Proof.
  intros Hq. induction k as [| k IH]; intros Hk Hj; [lia |].
  change (releases (S k) q) with (release (releases k q)). cbn [q_acks release].
  rewrite releases_ring by done. cbn [back set_back].
  pose proof (slot_range (q_ring q) (Z.of_nat k) (qwf_ring q Hq)) as Hs.
  destruct (decide (Z.to_nat (4 * slot (q_ring q) j) =
    Z.to_nat (4 * slot (q_ring q) (Z.of_nat k)))) as [-> | Hne].
  - rewrite list_lookup_insert_eq; [done |].
    pose proof (qwf_acks _ (releases_wf k q Hq)) as Hl.
    rewrite releases_ring in Hl by done. cbn in Hl. lia.
  - rewrite list_lookup_insert_ne by done. apply IH; [lia |].
    destruct (decide (j = Z.of_nat k)) as [-> |]; [done | lia].
Qed.

Lemma releases_keep k q (i : nat) :
  queue_wf q ->
  (forall j, 0 <= j < Z.of_nat k -> i <> Z.to_nat (4 * slot (q_ring q) j)) ->
  q_acks (releases k q) !! i = q_acks q !! i.
Proof.
  intros Hq. induction k as [| k IH]; intros Hne; [done |].
  change (releases (S k) q) with (release (releases k q)). cbn [q_acks release].
  rewrite releases_ring by done. cbn [back set_back].
  rewrite list_lookup_insert_ne.
  - apply IH. intros j Hj. apply Hne. lia.
  - intros Heq. apply (Hne (Z.of_nat k)); [lia | done].
Qed.

(** Slots beyond the released ones stay acknowledged, or not, as they were. *)
Lemma releases_acked k q j :
  queue_wf q -> Z.of_nat k <= j < size (q_ring q) ->
  acked (q_acks (releases k q)) (slot (q_ring q) j) <->
  acked (q_acks q) (slot (q_ring q) j).
Proof.
  intros Hq Hj. unfold acked. rewrite releases_keep; [done | done |].
  intros i Hi Heq. pose proof (slot_range (q_ring q) i (qwf_ring q Hq)).
  pose proof (slot_range (q_ring q) j (qwf_ring q Hq)).
  assert (j = i); [| lia]. apply (slot_inj (q_ring q)); [apply Hq | lia | lia | lia].
Qed.

Lemma run_drain_round p q :
  queue_wf q -> holds p q ->
  if decide (acked (q_acks q) (back (q_ring q))) then
    exists p', drain_round p = Ok (None, p') /\ holds p' (release q) /\
      isKicked p' = isKicked p /\ entry_count p' = entry_count p /\ entry_p p' = entry_p p
  else drain_round p = Ok (Some tt, p).
Proof.
  intros Hwf Hh. pose proof Hwf as [(? & _ & Hb) Hs Ht Ha].
  pose proof Hh as [Hr (m & Hm & Htm & Ham & Hlm)].
  assert (u32 (ringGetBack (q_ring q) * ACK_SIZE) / 4 = 4 * back (q_ring q)) as Hack.
  { unfold ringGetBack, ACK_SIZE. rewrite u32_small by lia.
    replace (back (q_ring q) * 16) with (4 * back (q_ring q) * 4) by lia.
    by rewrite Z.div_mul. }
  unfold drain_round. erewrite M_bind_ok by (by apply run_the_fifo).
  erewrite M_bind_ok by (by apply run_the_ring). rewrite Hack. cbv zeta.
  erewrite M_bind_ok by (by rewrite Ham).
  destruct (aget_ok (q_acks q) (4 * back (q_ring q))) as [w Hw]; [lia |].
  erewrite M_bind_ok by (by rewrite Hw). apply aget_lookup in Hw as [_ Hw].
  case_decide as Hack'.
  - destruct Hack' as (w' & Hw' & Hne). rewrite Hw in Hw'. injection Hw' as <-.
    rewrite (proj2 (Z.eqb_neq _ _)) by done.
    destruct (run_upd_fifo (fun m =>
        ws ← deref (acks m); ws ← aset ws (4 * back (q_ring q)) ACK_CLEAR;
        mret (set_acks (Valid ws) m)) p q (with_ring (q_ring q) (release q)) Hh)
      as (m' & Hrun & Hh1); [| done |].
    { intros n Hnt Hna Hnl. rewrite Hna. cbn [mbind res_bind deref].
      rewrite aset_ok by lia. eexists. by split. }
    erewrite M_bind_ok by exact Hrun.
    destruct (run_upd_ring ringIncBack _ _ Hh1) as (p2 & Hrun2 & Hh2 & ? & ? & ? & _).
    erewrite M_bind_ok by exact Hrun2. by exists p2.
  - destruct (Z.eqb_spec w ACK_CLEAR); [done |]. destruct Hack'. by exists w.
Qed.

Lemma drain_rounds k fuel : forall p q,
  queue_wf q -> holds p q -> Z.of_nat k <= size (q_ring q) ->
  (forall j, 0 <= j < Z.of_nat k -> acked (q_acks q) (slot (q_ring q) j)) ->
  exists p', loop (k + fuel) drain_round p = loop fuel drain_round p' /\
    holds p' (releases k q) /\
    isKicked p' = isKicked p /\ entry_count p' = entry_count p /\ entry_p p' = entry_p p.
Proof.
  revert fuel. induction k as [| k IH]; intros fuel p q Hwf Hh Hk Hall; [by exists p |].
  replace (S k + fuel)%nat with (k + S fuel)%nat by lia.
  destruct (IH (S fuel) p q Hwf Hh) as (p1 & -> & Hh1 & ? & ? & ?).
  { lia. } { intros j Hj. apply Hall. lia. }
  pose proof (run_drain_round p1 _ (releases_wf k q Hwf) Hh1) as Hround.
  rewrite releases_ring in Hround by done. cbn [back set_back] in Hround.
  rewrite decide_True in Hround; cycle 1.
  { apply releases_acked; [done | lia |]. apply Hall. lia. }
  destruct Hround as (p' & Hrun & Hh' & ? & ? & ?). cbn [loop]. rewrite Hrun.
  exists p'. split_and!; [done | done | congruence..].
Qed.

(** The pass over one queue: it stops after the longest acknowledged run. *)
Lemma run_drain fuel p q :
  queue_wf q -> holds p q -> size (q_ring q) < Z.of_nat fuel ->
  exists k p', loop fuel drain_round p = Ok (tt, p') /\ holds p' (releases (Z.to_nat k) q) /\
    0 <= k <= size (q_ring q) /\
    (forall j, 0 <= j < k -> acked (q_acks q) (slot (q_ring q) j)) /\
    (k < size (q_ring q) -> ~ acked (q_acks q) (slot (q_ring q) k)) /\
    isKicked p' = isKicked p /\ entry_count p' = entry_count p /\ entry_p p' = entry_p p.
Proof.
  intros Hwf Hh Hf. pose proof Hwf as [(? & _) _ _ Hl].
  destruct (longest_prefix (fun j => acked (q_acks q) (slot (q_ring q) j))
    (Z.to_nat (size (q_ring q)))) as (k & Hk & Hall & Hstop).
  rewrite Z2Nat.id in Hk, Hstop by lia.
  destruct (drain_rounds (Z.to_nat k) (fuel - Z.to_nat k) p q Hwf Hh)
    as (p' & Hrun & Hh' & ? & ? & ?); [lia | intros; apply Hall; lia |].
  exists k, p'. split_and!; try done; try lia.
  replace (Z.to_nat k + (fuel - Z.to_nat k))%nat with fuel in Hrun by lia. rewrite Hrun.
  destruct (fuel - Z.to_nat k)%nat as [| fuel'] eqn:Hfuel; [lia |]. cbn [loop].
  pose proof (run_drain_round p' _ (releases_wf _ q Hwf) Hh') as Hround.
  rewrite releases_ring, Z2Nat.id in Hround by (done || lia). cbn [back set_back] in Hround.
  rewrite decide_False in Hround; [by rewrite Hround |].
  destruct (decide (k = size (q_ring q))) as [-> | Hlt].
  - intros (w & Hw & Hne). replace (slot (q_ring q) (size (q_ring q)))
      with (slot (q_ring q) 0) in Hw.
    + rewrite releases_clear in Hw by (done || lia). by injection Hw as <-.
    + unfold slot. rewrite Z.add_0_r, <- (Z.mod_add (back _) 1) by lia.
      by rewrite Z.mul_1_l.
  - rewrite releases_acked by (done || lia). apply Hstop. lia.
Qed.
End drain.
