(* ===== verification/HostCalls.v ===== *)
(** All the queues of the host: the calls of HostFifo.v that choose a queue or go
    over all of them, and what they leave in each. *)
From stdpp Require Import base list.
From Stdlib Require Import ZArith Lia.
From S2P Require Import Prelude.
From S2P Require Import Messages.
From S2P Require Import Fifo.
From S2P Require Import Ring.
From S2P Require Import SpeThread.
From S2P Require Import HostFifo.
From S2P Require Import HostQueue.

(** * All the queues *)

(** Entry [i] of the host has the queue [q]. *)
Definition has_queue (s : host) (i : Z) (q : queue) : Prop :=
  0 <= i < spes s /\
  exists p, spe s !! Z.to_nat i = Some p /\ holds p q /\ queue_wf q.

Record host_wf (s : host) : Prop := {
  hwf_spes : 0 < spes s <= MAX_SPES;
  hwf_arrays : length (spe s) = Z.to_nat MAX_SPES;
  hwf_current : 0 <= current_spe s < spes s;
  hwf_queues i : 0 <= i < spes s -> exists q, has_queue s i q }.

(** Queue [i] has a free slot. *)
Definition queue_free (s : host) (i : Z) : Prop :=
  exists q, has_queue s i q /\ ringHasFree (q_ring q) <> 0.

Definition with_spe (s : host) (i : Z) (p : spe_s) : host :=
  Host (spes s) (scheme s) (current_spe s) (<[Z.to_nat i := p]> (spe s)) (log s).
Definition with_current (s : host) (c : Z) : host :=
  Host (spes s) (scheme s) c (spe s) (log s).

Section host.
Implicit Types (s : host) (p : spe_s) (q : queue).

Lemma run_on {A : Type} (m : M spe_s A) i s p a p' :
  0 <= i -> spe s !! Z.to_nat i = Some p -> m p = Ok (a, p') ->
  on i m s = Ok (a, with_spe s i p').
Proof.
  intros Hi Hp Hm. unfold on. erewrite M_bind_ok; cycle 1.
  { unfold lift. rewrite (proj2 (aget_lookup _ _ _)) by done. done. }
  rewrite Hm. by mrun.
Qed.

Lemma with_spe_id s i p : spe s !! Z.to_nat i = Some p -> with_spe s i p = s.
Proof. intros Hp. destruct s; unfold with_spe; cbn in *. by rewrite list_insert_id. Qed.

Lemma run_on_ring i s q :
  has_queue s i q -> on i the_ring s = Ok (q_ring q, s).
Proof.
  intros (Hi & p & Hp & Hh & _).
  erewrite run_on; [| lia | done | by apply run_the_ring]. by rewrite with_spe_id.
Qed.

Lemma has_queue_agree s i q q' : has_queue s i q -> has_queue s i q' -> q = q'.
Proof.
  intros (_ & p & Hp & [Hr (m & Hm & Ht & Ha & Hl)] & _)
    (_ & p' & Hp' & [Hr' (m' & Hm' & Ht' & Ha' & Hl')] & _).
  destruct q, q'; cbn in *. congruence.
Qed.

Lemma with_spe_queue s i p q :
  host_wf s -> 0 <= i < spes s -> holds p q -> queue_wf q ->
  has_queue (with_spe s i p) i q /\
  (forall j q', j <> i -> has_queue (with_spe s i p) j q' <-> has_queue s j q').
Proof.
  intros [Hn Hl _ _] Hi Hh Hq. unfold MAX_SPES in *. split.
  - split; [done |]. exists p. split_and!; [| done | done].
    cbn. apply list_lookup_insert_eq. lia.
  - intros j q' Hne. unfold has_queue. cbn [spes with_spe spe].
    destruct (decide (0 <= j)); [by rewrite list_lookup_insert_ne by lia |].
    split; intros [? _]; lia.
Qed.

Lemma with_spe_wf s i p q :
  host_wf s -> 0 <= i < spes s -> holds p q -> queue_wf q -> host_wf (with_spe s i p).
Proof.
  intros Hs Hi Hh Hq. destruct (with_spe_queue s i p q Hs Hi Hh Hq) as [Hq1 Hother].
  destruct Hs as [Hn Hl Hc Hqs]. split; cbn [spes current_spe with_spe spe]; try done.
  - by rewrite length_insert.
  - intros j Hj. destruct (decide (j = i)) as [-> |]; [by exists q |].
    destruct (Hqs j Hj) as [q' Hq']. exists q'. by apply Hother.
Qed.

Lemma with_current_wf s c :
  host_wf s -> 0 <= c < spes s -> host_wf (with_current s c).
Proof. intros [Hn Hl Hc Hqs] Hr. by split. Qed.

(** ** Selecting a queue *)

Lemma run_advance s :
  host_wf s -> advance s = Ok (tt, with_current s ((current_spe s + 1) mod spes s)).
Proof.
  intros [Hn _ Hc _]. unfold MAX_SPES in *. unfold advance. do 2 mstep.
  rewrite to_int_ok by lia. mstep. unfold set_current. rewrite run_modify.
  unfold with_current. do 3 f_equal.
  rewrite succ_mod_cases by lia. by destruct (spes s <=? current_spe s + 1).
Qed.

Lemma advance_range s : host_wf s -> 0 <= (current_spe s + 1) mod spes s < spes s.
Proof. intros [Hn _ _ _]. apply Z.mod_pos_bound. lia. Qed.

Lemma run_select_round s :
  host_wf s ->
  (queue_free s (current_spe s) /\ select_round s = Ok (Some (current_spe s), s)) \/
  (~ queue_free s (current_spe s) /\
   select_round s = Ok (None, with_current s ((current_spe s + 1) mod spes s))).
Proof.
  intros Hs. destruct (hwf_queues s Hs _ (hwf_current s Hs)) as [q Hq].
  unfold select_round. mstep. erewrite M_bind_ok by (by apply run_on_ring).
  destruct (Z.eqb_spec (ringHasFree (q_ring q)) 0) as [Hf | Hf]; [right | left].
  - split.
    + intros (q' & Hq' & Hf'). by rewrite (has_queue_agree _ _ _ _ Hq' Hq) in Hf'.
    + erewrite M_bind_ok by (by apply run_advance). done.
  - split; [by exists q | done].
Qed.

(** What other threads may do while a loop waits: keep an invariant of the
    queues, leave the caller's variables alone, take no free slot away. *)
Section waiting.
Variable Inv : host -> Prop.
Hypothesis Inv_wf : forall s, Inv s -> host_wf s.
Hypothesis Inv_current : forall s c, Inv s -> 0 <= c < spes s -> Inv (with_current s c).

Definition benign (others : M host unit) : Prop := forall s, Inv s ->
  exists s', others s = Ok (tt, s') /\ Inv s' /\ spes s' = spes s /\
    current_spe s' = current_spe s /\ (forall i, queue_free s i -> queue_free s' i).

Lemma benign_quiet : benign (mret tt).
Proof. intros s Hs. by exists s. Qed.

Lemma advance_Inv s : Inv s -> Inv (with_current s ((current_spe s + 1) mod spes s)).
Proof. intros Hs. apply Inv_current; [done | by apply advance_range, Inv_wf]. Qed.

(** The [k]-th queue after [current_spe] is free: enough rounds reach one. *)
Lemma select_spin env : forall s k,
  Inv s -> Forall benign env ->
  0 <= k < Z.of_nat (length env) ->
  queue_free s ((current_spe s + k) mod spes s) ->
  exists i s', spin env select_round s = Ok (i, s').
Proof.
  induction env as [| others env IH]; intros s k Hs Henv Hk Hfree; cbn in Hk; [lia |].
  apply Forall_cons in Henv as [Ho Henv]. cbn [spin].
  pose proof (hwf_current s (Inv_wf s Hs)) as Hc.
  destruct (run_select_round s (Inv_wf s Hs)) as [[Hf ->] | [Hnf ->]].
  { by exists (current_spe s), s. }
  destruct (decide (k = 0)) as [-> |].
  { rewrite Z.add_0_r, Z.mod_small in Hfree by lia. done. }
  set (s1 := with_current s _).
  destruct (Ho s1 (advance_Inv s Hs)) as (s2 & -> & Hs2 & Hn2 & Hc2 & Hf2).
  apply (IH s2 (k - 1) Hs2 Henv); [lia |].
  apply Hf2. rewrite Hc2, Hn2. cbn [current_spe s1 with_current spes].
  rewrite Zplus_mod_idemp_l.
  by replace (current_spe s + 1 + (k - 1)) with (current_spe s + k) by lia.
Qed.

(** Whatever the others do, a queue that is selected has a free slot. *)
Lemma select_safe env : forall s,
  Inv s -> Forall benign env ->
  match spin env select_round s with
  | Ok (i, s') => Inv s' /\ spes s' = spes s /\ current_spe s' = i /\ queue_free s' i
  | Fault _ => False
  | OutOfFuel => True
  end.
Proof.
  induction env as [| others env IH]; intros s Hs Henv; cbn [spin]; [done |].
  apply Forall_cons in Henv as [Ho Henv].
  destruct (run_select_round s (Inv_wf s Hs)) as [[Hf ->] | [Hnf ->]]; [done |].
  set (s1 := with_current s _).
  destruct (Ho s1 (advance_Inv s Hs)) as (s2 & -> & Hs2 & Hn2 & Hc2 & Hf2).
  specialize (IH s2 Hs2 Henv). destruct (spin env select_round s2) as [[i s'] | |]; try done.
  by rewrite Hn2 in IH.
Qed.
End waiting.

(** Alone, the loop stops at the first free queue after [current_spe]. *)
Lemma select_quiet n : forall s k,
  host_wf s -> 0 <= k < Z.of_nat n ->
  (forall j, 0 <= j < k -> ~ queue_free s ((current_spe s + j) mod spes s)) ->
  queue_free s ((current_spe s + k) mod spes s) ->
  spin (repeat (mret tt) n) select_round s =
  Ok ((current_spe s + k) mod spes s, with_current s ((current_spe s + k) mod spes s)).
Proof.
  induction n as [| n IH]; intros s k Hs Hk Hno Hfree; [lia |]. cbn [repeat spin].
  pose proof (hwf_current s Hs) as Hc.
  destruct (run_select_round s Hs) as [[Hf ->] | [Hnf ->]].
  - destruct (decide (k = 0)) as [-> |].
    + rewrite Z.add_0_r, Z.mod_small by lia. by destruct s.
    + destruct (Hno 0); [lia |]. by rewrite Z.add_0_r, Z.mod_small by lia.
  - destruct (decide (k = 0)) as [-> |].
    { rewrite Z.add_0_r, Z.mod_small in Hfree by lia. done. }
    set (s1 := with_current s _). rewrite run_ret. cbv iota beta.
    assert (forall j, (current_spe s1 + j) mod spes s1 = (current_spe s + (j + 1)) mod spes s)
      as Hshift.
    { intros j. cbn [current_spe spes s1 with_current]. rewrite Zplus_mod_idemp_l.
      f_equal. lia. }
    rewrite (IH s1 (k - 1)).
    + rewrite Hshift, Z.sub_add. done.
    + apply with_current_wf; [done | by apply advance_range].
    + lia.
    + intros j Hj. rewrite Hshift. apply Hno. lia.
    + by rewrite Hshift, Z.sub_add.
Qed.
End host.

(** ** Running a call on one queue *)

(** [s'] is [s] with queue [i] replaced by [q]. *)
Record changed (s : host) (i : Z) (q : queue) (s' : host) : Prop := {
  ch_wf : host_wf s';
  ch_spes : spes s' = spes s;
  ch_current : current_spe s' = current_spe s;
  ch_queue : has_queue s' i q;
  ch_others j q' : j <> i -> has_queue s' j q' <-> has_queue s j q' }.

Section calls.
Implicit Types (s : host) (p : spe_s) (q : queue).

Lemma run_on_queue {A : Type} (m : M spe_s A) i s p q a p' q' :
  host_wf s -> 0 <= i < spes s -> spe s !! Z.to_nat i = Some p ->
  m p = Ok (a, p') -> holds p' q' -> queue_wf q' ->
  on i m s = Ok (a, with_spe s i p') /\ changed s i q' (with_spe s i p').
Proof.
  intros Hs Hi Hp Hm Hh Hq. split; [by eapply run_on; [lia | |] |].
  destruct (with_spe_queue s i p' q' Hs Hi Hh Hq) as [? ?].
  split; [by eapply with_spe_wf | done | done | done | done].
Qed.

Lemma changed_spe s i p : 0 <= i < spes s -> host_wf s ->
  spe (with_spe s i p) !! Z.to_nat i = Some p.
Proof.
  intros Hi [Hn Hl _ _]. unfold MAX_SPES in *. cbn. apply list_lookup_insert_eq. lia.
Qed.

Lemma with_current_queue s c i q :
  has_queue (with_current s c) i q <-> has_queue s i q.
Proof. done. Qed.

(** [fifoBegin] after its choice of queue. *)
Lemma run_begin c h i s p q :
  host_wf s -> 0 <= i < spes s -> spe s !! Z.to_nat i = Some p ->
  holds p q -> queue_wf q ->
  let q' := with_ring (begin_ring p (q_ring q)) q in
  exists p', on i (begin_entry c h) s = Ok (tt, with_spe s i p') /\
    building [u32 c; u32 h] q' p' /\ queue_wf q' /\
    changed s i (with_task [u32 c; u32 h] q') (with_spe s i p').
Proof.
  intros Hs Hi Hp Hh Hq q'.
  destruct (run_begin_entry c h p q Hq Hh) as (p' & Hrun & Hb).
  assert (queue_wf q') as Hq'.
  { apply with_ring_wf; [done | apply begin_ring_wf, Hq | apply begin_ring_size]. }
  destruct (run_on_queue _ i s p q tt p' _ Hs Hi Hp Hrun (proj1 Hb) (with_task_wf _ _ Hq'))
    as [Hon Hch].
  by exists p'.
Qed.

(** The rest of a submission, on the entry [fifoBegin] left. *)
Lemma run_rest stwcx args i s p q ws :
  host_wf s -> 0 <= i < spes s -> spe s !! Z.to_nat i = Some p ->
  queue_wf q -> building ws q p -> (length ws <= 31)%nat -> true ∈ stwcx ->
  let q1 := with_task (take 31 (ws ++ map u32 args)) q in
  let q2 := with_ring (ringIncFront (q_ring q)) (published q1) in
  exists p', on i (add_all args;; kick_entry stwcx) s = Ok (tt, with_spe s i p') /\
    isKicked p' = 1 /\ changed s i q2 (with_spe s i p').
Proof.
  intros Hs Hi Hp Hq Hb Hlen Hst q1 q2.
  destruct (run_add_all args p q ws Hq Hb Hlen) as (p1 & Hrun1 & Hb1).
  assert (queue_wf q1) as Hq1 by (by apply with_task_wf).
  destruct (run_kick_entry stwcx p1 q1 Hq1 (proj1 Hb1) Hst) as (p2 & Hrun2 & Hh2 & Hk2 & _).
  assert (queue_wf q2) as Hq2.
  { apply with_ring_wf; [by apply published_wf | apply ringIncFront_wf, Hq |].
    apply ringIncFront_size. }
  exists p2. destruct (run_on_queue (add_all args;; kick_entry stwcx) i s p q tt p2 q2)
    as [Hon Hch]; try done.
  by erewrite M_bind_ok by exact Hrun1.
Qed.

Lemma on_eq {A : Type} (m : M spe_s A) i s p :
  aget (spe s) i = Ok p ->
  on i m s = match m p with
             | Ok (a, p') => Ok (a, with_spe s i p')
             | Fault f => Fault f
             | OutOfFuel => OutOfFuel
             end.
Proof.
  intros Hp. unfold on. erewrite M_bind_ok; [| unfold lift; by rewrite Hp].
  unfold lift, mbind, M_bind. by destruct (m p) as [[a p'] | |].
Qed.

(** Two calls on the same queue are one. *)
Lemma on_bind {A B : Type} (m : M spe_s A) (k : A -> M spe_s B) i s :
  on i (m ≫= k) s = (a ← on i m; on i (k a)) s.
Proof.
  destruct (aget (spe s) i) as [p | |] eqn:Hp.
  - unfold mbind at 2, M_bind at 2. rewrite !(on_eq _ _ _ _ Hp).
    unfold mbind at 1, M_bind at 1.
    destruct (m p) as [[a p'] | |]; [| done..].
    rewrite (on_eq _ i _ p'); cycle 1.
    { apply aget_bound in Hp. cbn. apply aget_insert_eq. lia. }
    destruct (k a p') as [[b p''] | |]; [| done..].
    unfold with_spe. cbn. by rewrite list_insert_insert_eq.
  - unfold on, mbind, M_bind, lift. by rewrite Hp.
  - unfold on, mbind, M_bind, lift. by rewrite Hp.
Qed.
End calls.

(** ** Whole submissions *)

(** What a caller does for one task. *)
Fixpoint fifoAdd_all (i : Z) (args : list Z) : M host unit :=
  match args with
  | [] => mret tt
  | v :: args => fifoAdd i v;; fifoAdd_all i args
  end.
Definition submit (env : list (M host unit)) (stwcx : list bool) (command handle : Z)
    (args : list Z) : M host Z :=
  i ← fifoBegin env command handle;
  fifoAdd_all i args;;
  fifoKick stwcx i;;
  mret i.

(** The words of slot [i], and the tasks a queue holds, oldest first. *)
Definition slot_words (ws : list Z) (i : Z) : list Z :=
  take 32 (drop (Z.to_nat (32 * i)) ws).
Definition queued (q : queue) : list (list Z) :=
  map (slot_words (q_tasks q)) (pending (q_ring q)).

Lemma slot_words_lookup ws i (k : nat) :
  (k < 32)%nat -> slot_words ws i !! k = ws !! (Z.to_nat (32 * i) + k)%nat.
Proof. intros Hk. unfold slot_words. by rewrite lookup_take_lt, lookup_drop. Qed.

Lemma slot_words_other ws f i l :
  0 <= i -> 0 <= f -> i <> f -> (length ws <= 32)%nat ->
  slot_words (list_inserts (Z.to_nat (32 * f)) ws l) i = slot_words l i.
Proof.
  intros Hi Hf Hne Hlen. apply list_eq. intros k.
  destruct (decide (k < 32)%nat) as [Hk |].
  - rewrite !slot_words_lookup by done.
    destruct (decide (i < f)); [apply list_lookup_inserts_lt | apply list_lookup_inserts_ge]; lia.
  - unfold slot_words. by rewrite !lookup_take_ge by lia.
Qed.

Lemma slot_words_same ws f l :
  0 <= f -> (length ws <= 32)%nat -> 32 * (f + 1) <= Z.of_nat (length l) ->
  take (length ws) (slot_words (list_inserts (Z.to_nat (32 * f)) ws l) f) = ws.
Proof.
  intros Hf Hlen Hl. apply list_eq. intros k.
  destruct (decide (k < length ws)%nat) as [Hk |].
  - rewrite lookup_take_lt, slot_words_lookup by lia.
    rewrite list_lookup_inserts by lia. f_equal. lia.
  - rewrite lookup_take_ge, lookup_ge_None_2 by lia. done.
Qed.

(** Publishing the front slot appends its task to the queue. *)
Lemma queued_push ws q :
  queue_wf q -> ringHasFree (q_ring q) <> 0 -> (length ws <= 32)%nat ->
  exists t, queued (with_ring (ringIncFront (q_ring q)) (published (with_task ws q))) =
    queued q ++ [t] /\ take (length ws) t = ws.
Proof.
  intros Hq Hfree Hlen. pose proof Hq as [(? & ? & ?) _ Ht _].
  rewrite ringHasFree_count in Hfree by apply Hq. zcases.
  unfold queued. cbn [q_tasks q_ring with_ring published with_task].
  rewrite pending_IncFront by (apply Hq || done).
  rewrite map_app. eexists. split.
  - apply f_equal2; [| reflexivity]. apply map_ext_in. intros i Hi.
    apply list_elem_of_In, elem_of_pending in Hi as (k & Hk & ->).
    pose proof (slot_range (q_ring q) k (qwf_ring q Hq)).
    apply slot_words_other; [lia | lia | | done].
    rewrite <- slot_count by apply Hq. intros Heq.
    pose proof (count_range _ (qwf_ring q Hq)).
    apply slot_inj in Heq; [lia | apply Hq | lia | lia].
  - apply slot_words_same; lia.
Qed.

(** Releasing takes the oldest tasks away. *)
Lemma queued_releases k q :
  queue_wf q -> Z.of_nat k <= count (q_ring q) ->
  queued (releases k q) = drop k (queued q).
Proof.
  intros Hq. induction k as [| k IH]; intros Hk; [done |].
  change (releases (S k) q) with (release (releases k q)).
  assert (queued (releases k q) = drop k (queued q)) as IH' by (apply IH; lia).
  assert (ring_wf (q_ring (releases k q))) as Hw by apply (releases_wf k q Hq).
  assert (0 < count (q_ring (releases k q))) as Hc.
  { apply (f_equal length) in IH'. unfold queued in IH'.
    rewrite length_drop, !length_map in IH'.
    pose proof (length_pending _ Hw). pose proof (length_pending _ (qwf_ring q Hq)). lia. }
  unfold queued in IH' |- *. cbn [q_tasks q_ring release].
  rewrite pending_IncBack in IH' by done. cbn in IH'.
  replace (S k) with (k + 1)%nat by lia. rewrite <- drop_drop, <- IH'. done.
Qed.

(** ** Submissions and passes over the whole host *)

Lemma on_ext {A : Type} (m m' : M spe_s A) i s :
  (forall p, m p = m' p) -> on i m s = on i m' s.
Proof.
  intros Heq. unfold on, mbind, M_bind, lift.
  destruct (aget (spe s) i) as [p | |]; [| done..]. by rewrite Heq.
Qed.

Section host_calls.
Implicit Types (s : host) (p : spe_s) (q : queue).

Lemma fifoAdd_all_on (m : M spe_s unit) i args : forall s,
  (fifoAdd_all i args;; on i m) s = on i (add_all args;; m) s.
Proof.
  induction args as [| v args IH]; intros s; cbn [fifoAdd_all add_all].
  - unfold mbind, M_bind. by apply on_ext.
  - rewrite M_bind_assoc. rewrite (on_ext _ (add_entry v;; (add_all args;; m))).
    + rewrite on_bind. apply M_bind_ext. intros _ s'. apply IH.
    + intros p. apply M_bind_assoc.
Qed.

(** A task submitted to the selected queue. *)
Lemma run_submit env stwcx c h args s i s1 p q :
  selectfifo env s = Ok (i, s1) -> host_wf s1 -> 0 <= i < spes s1 ->
  spe s1 !! Z.to_nat i = Some p -> holds p q -> queue_wf q -> true ∈ stwcx ->
  let ws := take 31 (u32 c :: u32 h :: map u32 args) in
  let q0 := with_ring (begin_ring p (q_ring q)) q in
  exists s' p', submit env stwcx c h args s = Ok (i, s') /\
    changed s1 i (with_ring (ringIncFront (q_ring q0)) (published (with_task ws q0))) s' /\
    spe s' !! Z.to_nat i = Some p' /\ isKicked p' = 1 /\
    (forall j, j <> Z.to_nat i -> spe s' !! j = spe s1 !! j).
Proof.
  intros Hsel Hs Hi Hp Hh Hq Hst ws q0. unfold submit, fifoBegin.
  rewrite M_bind_assoc. erewrite M_bind_ok by exact Hsel. rewrite M_bind_assoc.
  destruct (run_begin c h i s1 p q Hs Hi Hp Hh Hq) as (p1 & Hrun & Hb & Hq0 & Hch).
  erewrite M_bind_ok by exact Hrun. mstep. rewrite <- M_bind_assoc. unfold fifoKick.
  set (s2 := with_spe s1 i p1) in *.
  assert (spe s2 !! Z.to_nat i = Some p1) as Hp1 by (by apply changed_spe).
  destruct (run_rest stwcx args i s2 p1 q0 [u32 c; u32 h] (ch_wf _ _ _ _ Hch) Hi Hp1 Hq0 Hb)
    as (p2 & Hrun2 & Hk2 & Hch2); [cbn; lia | done |].
  exists (with_spe s2 i p2), p2. split_and!.
  - erewrite M_bind_ok; [done |]. by rewrite fifoAdd_all_on.
  - destruct Hch as [_ Hn1 Hc1 _ Ho1], Hch2 as [Hw2 Hn2 Hc2 Hq2 Ho2].
    split; [done | congruence | congruence | exact Hq2 |].
    intros j q' Hne. by rewrite Ho2, Ho1.
  - by apply changed_spe, Hch.
  - done.
  - intros j Hj. cbn. by rewrite !list_lookup_insert_ne by done.
Qed.

(** *** Passes of the monitoring thread *)

(** What one pass does to a queue. *)
Definition drained (q q' : queue) : Prop :=
  exists k, 0 <= k <= size (q_ring q) /\ q' = releases (Z.to_nat k) q /\
    (forall j, 0 <= j < k -> acked (q_acks q) (slot (q_ring q) j)) /\
    (k < size (q_ring q) -> ~ acked (q_acks q) (slot (q_ring q) k)).

Lemma run_drain_from fuel n : forall i s,
  host_wf s -> 0 <= i -> i + Z.of_nat n = spes s ->
  (forall j q, has_queue s j q -> size (q_ring q) < Z.of_nat fuel) ->
  exists s', drain_from fuel i n s = Ok (tt, s') /\ host_wf s' /\ spes s' = spes s /\
    current_spe s' = current_spe s /\
    (forall j q, j < i -> has_queue s' j q <-> has_queue s j q) /\
    (forall j q, i <= j -> has_queue s j q -> exists q', has_queue s' j q' /\ drained q q').
Proof.
  induction n as [| n IH]; intros i s Hs Hi Hn Hfuel; cbn [drain_from].
  { exists s. split_and!; try done. intros j q Hj [? _]. lia. }
  destruct (hwf_queues s Hs i) as [q Hq]; [lia |].
  pose proof Hq as (_ & p & Hp & Hh & Hqw).
  destruct (run_drain fuel p q Hqw Hh (Hfuel i q Hq))
    as (k & p1 & Hrun & Hh1 & Hk & Hall & Hstop & _).
  destruct (run_on_queue (loop fuel drain_round) i s p q tt p1
    (releases (Z.to_nat k) q) Hs) as [Hon Hch]; try done; try lia.
  { by apply releases_wf. }
  erewrite M_bind_ok by exact Hon. set (s1 := with_spe s i p1) in *. destruct Hch as [Hwf1 Hn1 Hc1 Hq1 Hoth].
  destruct (IH (i + 1) s1) as (s' & Hrun' & Hwf' & Hn' & Hc' & Hlow & Hhigh);
    [done | lia | rewrite Hn1; lia | |].
  { intros j q' Hj. destruct (decide (j = i)) as [-> | Hne].
    - rewrite (has_queue_agree _ _ _ _ Hj Hq1), releases_ring by done. by apply (Hfuel i).
    - apply (Hfuel j). by apply Hoth. }
  exists s'. split_and!; [done | done | congruence | congruence | |].
  - intros j q' Hj. rewrite Hlow by lia. apply Hoth. lia.
  - intros j q' Hj Hj'. destruct (decide (j = i)) as [-> | Hne].
    + rewrite (has_queue_agree _ _ _ _ Hj' Hq). eexists. split; [apply Hlow; [lia | done] |].
      by exists k.
    + apply Hhigh; [lia |]. by apply Hoth.
Qed.

(** Acknowledged slots are pending ones. *)
Definition acks_pending (q : queue) : Prop :=
  forall i, 0 <= i < size (q_ring q) -> acked (q_acks q) i -> i ∈ pending (q_ring q).

Lemma acked_run_pending q k :
  queue_wf q -> acks_pending q -> 0 <= k <= size (q_ring q) ->
  (forall j, 0 <= j < k -> acked (q_acks q) (slot (q_ring q) j)) ->
  k <= count (q_ring q).
Proof.
  intros Hq Hp Hk Hall. pose proof (count_range _ (qwf_ring q Hq)) as Hc.
  destruct (decide (k <= count (q_ring q))); [done |].
  assert (slot (q_ring q) (count (q_ring q)) ∈ pending (q_ring q)) as Hin.
  { apply Hp; [apply slot_range, Hq |]. apply Hall. lia. }
  apply elem_of_pending in Hin as (j & Hj & Heq).
  apply slot_inj in Heq; [lia | apply Hq | lia | lia].
Qed.

Lemma count_releases k q :
  queue_wf q -> 0 <= k <= count (q_ring q) ->
  count (q_ring (releases (Z.to_nat k) q)) = count (q_ring q) - k.
Proof.
  intros Hq Hk. rewrite releases_ring, Z2Nat.id by (done || lia).
  pose proof (count_range _ (qwf_ring q Hq)).
  rewrite <- (Z.mod_small (count (q_ring q) - k) (size (q_ring q))) by lia.
  unfold count, slot. cbn. rewrite Zminus_mod_idemp_r, Zminus_mod_idemp_l.
  f_equal. lia.
Qed.

Lemma drained_pending q q' :
  queue_wf q -> acks_pending q -> drained q q' ->
  acks_pending q' /\ (ringHasFree (q_ring q) <> 0 -> ringHasFree (q_ring q') <> 0).
Proof.
  intros Hq Hp (k & Hk & -> & Hall & Hstop).
  pose proof (acked_run_pending q k Hq Hp Hk Hall) as Hkc.
  pose proof (releases_wf (Z.to_nat k) q Hq) as Hq'. split.
  - intros i Hi (w & Hw & Hne). cbn in Hi.
    assert (forall j, 0 <= j < k -> i <> slot (q_ring q) j) as Hnot.
    { intros j Hj ->. rewrite releases_clear in Hw by (done || lia). by injection Hw as <-. }
    rewrite releases_keep in Hw; [| done |]; cycle 1.
    { intros j Hj Heq. pose proof (slot_range (q_ring q) j (qwf_ring q Hq)).
      apply (Hnot j); lia. }
    rewrite releases_ring in Hi by done. cbn in Hi.
    assert (i ∈ pending (q_ring q)) as Hin by (apply Hp; [done | by exists w]).
    apply elem_of_pending in Hin as (j & Hj & ->). apply elem_of_pending.
    rewrite count_releases by (done || lia).
    destruct (decide (j < k)); [by destruct (Hnot j); [lia |] |].
    exists (j - k). split; [lia |]. rewrite releases_ring, Z2Nat.id by (done || lia).
    unfold slot. cbn. rewrite Zplus_mod_idemp_l. f_equal. lia.
  - rewrite (ringHasFree_count _ (qwf_ring q Hq)), (ringHasFree_count _ (qwf_ring _ Hq')).
    rewrite count_releases by (done || lia).
    replace (size (q_ring (releases (Z.to_nat k) q))) with (size (q_ring q)).
    + zcases.
    + by rewrite releases_ring.
Qed.
End host_calls.

(** ** Emptiness *)

Section waits.
Implicit Types (s : host) (q : queue).

(** No queue holds a task. *)
Definition all_empty s : Prop := forall i q, has_queue s i q -> queued q = [].

Lemma queued_nil q : queue_wf q -> queued q = [] <-> ringHasRemaining (q_ring q) = 0.
Proof.
  intros Hq. rewrite ringHasRemaining_count by apply Hq.
  pose proof (length_pending _ (qwf_ring q Hq)) as Hl.
  pose proof (count_range _ (qwf_ring q Hq)). unfold queued.
  destruct (pending (q_ring q)); cbn in *; zcases.
Qed.

Lemma remaining_cases s i :
  host_wf s -> 0 <= i < spes s ->
  exists q, has_queue s i q /\ queue_wf q /\ on i the_ring s = Ok (q_ring q, s).
Proof.
  intros Hs Hi. destruct (hwf_queues s Hs i Hi) as [q Hq]. exists q.
  split_and!; [done | by destruct Hq as (_ & ? & _ & _ & ?) | by apply run_on_ring].
Qed.

Lemma run_empty_from n : forall s i,
  host_wf s -> 0 <= i -> i + Z.of_nat n = spes s ->
  exists v, empty_from i n s = Ok (v, s) /\ (v = 0 \/ v = 1) /\
    (v = 1 <-> forall j q, i <= j -> has_queue s j q -> queued q = []).
Proof.
  induction n as [| n IH]; intros s i Hs Hi Hn; cbn [empty_from].
  { exists 1. split_and!; [done | by right |]. split; [| done].
    intros _ j q Hj [? _]. lia. }
  destruct (remaining_cases s i Hs) as (q & Hq & Hqw & Hrun); [lia |].
  erewrite M_bind_ok by exact Hrun. pose proof (queued_nil q Hqw) as Hnil.
  destruct (Z.eqb_spec (ringHasRemaining (q_ring q)) 0) as [H0 | H0].
  - destruct (IH s (i + 1) Hs) as (v & Hv & Hcase & Hiff); [lia | lia |].
    exists v. split_and!; [done | done |]. rewrite Hiff. split.
    + intros Hall j q' Hj Hq'. destruct (decide (j = i)) as [-> |].
      * rewrite (has_queue_agree _ _ _ _ Hq' Hq). by apply Hnil.
      * apply (Hall j); [lia | done].
    + intros Hall j q' Hj. apply Hall. lia.
  - exists 0. split_and!; [done | by left |]. split; [done |].
    intros Hall. destruct H0. apply Hnil. by apply (Hall i).
Qed.

Lemma run_remaining_from n : forall s i res,
  host_wf s -> 0 <= i -> i + Z.of_nat n = spes s -> 0 <= res ->
  exists v, remaining_from i n res s = Ok (v, s) /\ res <= v /\
    (v = res <-> forall j q, i <= j -> has_queue s j q -> queued q = []).
Proof.
  induction n as [| n IH]; intros s i res Hs Hi Hn Hres; cbn [remaining_from].
  { exists res. split_and!; [done | done |]. split; [| done].
    intros _ j q Hj [? _]. lia. }
  destruct (remaining_cases s i Hs) as (q & Hq & Hqw & Hrun); [lia |].
  erewrite M_bind_ok by exact Hrun. pose proof (queued_nil q Hqw) as Hnil.
  destruct (Z.eqb_spec (ringHasRemaining (q_ring q)) 0) as [H0 | H0].
  - destruct (IH s (i + 1) res Hs) as (v & Hv & Hle & Hiff); [lia | lia | done |].
    exists v. split_and!; [done | done |]. rewrite Hiff. split.
    + intros Hall j q' Hj Hq'. destruct (decide (j = i)) as [-> |].
      * rewrite (has_queue_agree _ _ _ _ Hq' Hq). by apply Hnil.
      * apply (Hall j); [lia | done].
    + intros Hall j q' Hj. apply Hall. lia.
  - destruct (IH s (i + 1) (res + 1) Hs) as (v & Hv & Hle & Hiff); [lia | lia | lia |].
    exists v. split_and!; [done | lia |]. split; [lia |].
    intros Hall. destruct H0. apply Hnil. by apply (Hall i).
Qed.

Lemma run_wait_round s :
  host_wf s -> exists o, wait_round s = Ok (o, s) /\ (o = Some tt <-> all_empty s).
Proof.
  intros Hs. pose proof (hwf_spes s Hs). unfold wait_round. mstep.
  destruct (run_remaining_from (Z.to_nat (spes s)) s 0 0 Hs) as (v & Hv & _ & Hiff);
    [lia | lia | done |].
  erewrite M_bind_ok by exact Hv. eexists. split; [reflexivity |].
  assert (v = 0 <-> all_empty s) as <-.
  { rewrite Hiff. split; [| by eauto]. intros Hall i q Hq.
    apply (Hall i); [| done]. destruct Hq. lia. }
  by destruct (Z.eqb_spec v 0).
Qed.

(** Whatever the other threads did meanwhile, [fifoWait] returns only when no
    task is left. *)
Lemma wait_spin env : forall s s',
  host_wf s -> Forall (fun others => forall s s', host_wf s ->
    others s = Ok (tt, s') -> host_wf s') env ->
  fifoWait env s = Ok (tt, s') -> all_empty s'.
Proof.
  unfold fifoWait. induction env as [| others env IH]; intros s s' Hs Henv; [done |].
  apply Forall_cons in Henv as [Ho Henv]. cbn [spin].
  destruct (run_wait_round s Hs) as (o & -> & Hiff). destruct o as [[] |].
  - intros [= <-]. by apply Hiff.
  - destruct (others s) as [[[] s1] | |] eqn:Hos; [| done..].
    apply IH; [by eapply Ho | done].
Qed.
End waits.

(** ** Initialisation *)

(** What the library documentation promises for queues of [e] slots: blocks of
    the sizes asked for, at addresses that are not NULL. *)
Definition memory_ok `{Memory} (n e : Z) : Prop := forall i, 0 <= i < n ->
  fifo_addr i <> 0 /\ atomic_ok i = true /\ ring_ok i = true /\
  (exists ws, task_block i (e * TASK_SIZE) = Valid ws /\ Z.of_nat (length ws) = 32 * e) /\
  (exists ks, ack_block i (e * ACK_SIZE) = Valid ks /\ Z.of_nat (length ks) = 4 * e).

(** A queue as [fifoInit] leaves it. *)
Record fresh_queue (e : Z) (q : queue) : Prop := {
  fq_wf : queue_wf q;
  fq_ring : q_ring q = Ring_context 0 0 e;
  fq_acks i : 0 <= i < e -> ~ acked (q_acks q) i;
  fq_atomic : q_atomic q = Atomic_s 0 0 }.
Definition fresh_entry `{Memory} (e i : Z) (p : spe_s) : Prop :=
  (exists q, holds p q /\ fresh_queue e q) /\ isKicked p = 1 /\
  type (spu p) = THREAD_LOOP /\ argp (spu p) = fifo_addr i /\ envp (spu p) = 48 /\
  handle (spu p) = spu_taskmanager_handle.

Section init.
Context `{Os, Memory}.
Implicit Types (s : host) (p : spe_s) (q : queue).

Lemma run_clear_acks e ks :
  0 <= e < 2 ^ 24 -> Z.of_nat (length ks) = 4 * e ->
  exists ks', clear_acks e (Valid ks) = Ok (Valid ks') /\ length ks' = length ks /\
    (forall i, 0 <= i < e -> ks' !! Z.to_nat (4 * i) = Some ACK_CLEAR).
Proof.
  intros He Hl. unfold clear_acks.
  edestruct (for_loop_inv (fun i => fun ack : ptr (list Z) =>
      ws ← deref ack; ws ← aset ws (i * ACK_SIZE / 4) ACK_CLEAR; Ok (tt, Valid ws))
    (fun i ack => exists ks', ack = Valid ks' /\ length ks' = length ks /\
      (forall j, 0 <= j < i -> ks' !! Z.to_nat (4 * j) = Some ACK_CLEAR))
    (Z.to_nat e) 0 (Valid ks)) as (ack & Hrun & ks' & -> & Hlen & Hall).
  - exists ks. split_and!; [done | done |]. intros; lia.
  - intros i ack Hi (ks' & -> & Hlen & Hall). cbn [deref mbind res_bind].
    unfold ACK_SIZE. replace (i * 16) with (4 * i * 4) by lia. rewrite Z.div_mul by done.
    rewrite aset_ok by lia. eexists. split; [reflexivity |]. eexists. split; [done |].
    split; [by rewrite length_insert |]. intros j Hj.
    destruct (decide (j = i)) as [-> |].
    + apply list_lookup_insert_eq. lia.
    + rewrite list_lookup_insert_ne by lia. apply Hall. lia.
  - rewrite Hrun. exists ks'. split_and!; [done | done |].
    intros i Hi. apply Hall. lia.
Qed.

Lemma run_allocate_fifo n e i :
  memory_ok n e -> 0 <= i < n -> 0 <= e < 2 ^ 24 ->
  exists m ws ks, allocate_fifo i e TASK_SIZE = Ok (Valid m) /\
    tasks m = Valid ws /\ Z.of_nat (length ws) = 32 * e /\
    acks m = Valid ks /\ Z.of_nat (length ks) = 4 * e /\
    (forall j, 0 <= j < e -> ~ acked ks j) /\ atomic_line m = Valid (Atomic_s 0 0).
Proof.
  intros Hmem Hi He. destruct (Hmem i Hi) as (Ha & Hat & _ & (ws & Hws & Hlw) & ks & Hks & Hlk).
  destruct (run_clear_acks e ks He Hlk) as (ks' & Hrun & Hlen & Hall).
  unfold allocate_fifo, alloc_init. rewrite (proj2 (Z.eqb_neq _ _) Ha), Hat, Hws, Hks.
  cbn [negb mbind res_bind deref acks]. rewrite Hrun.
  eexists _, ws, ks'. split_and!; try done; [by rewrite Hlen |].
  intros j Hj (w & Hw & Hne). rewrite Hall in Hw by done. by injection Hw as <-.
Qed.

Lemma run_init_spe n fifo_size i s :
  let e := fifo_size / TASK_SIZE in
  memory_ok n e -> (forall l r, answer (l ++ [pthread_create r]) = 0) ->
  0 <= i < n -> i < Z.of_nat (length (spe s)) -> 128 <= fifo_size < 2 ^ 31 ->
  exists s' p, init_spe fifo_size i s = Ok (None, s') /\ fresh_entry e i p /\
    s' = Host (spes s) (scheme s) (current_spe s) (<[Z.to_nat i := p]> (spe s)) (log s').
Proof.
  intros e Hmem Hcreate Hi Hlen Hsz.
  assert (1 <= e < 2 ^ 24) as He.
  { unfold e, TASK_SIZE. split; [apply Z.div_le_lower_bound | apply Z.div_lt_upper_bound]; lia. }
  destruct (lookup_lt_is_Some_2 (spe s) (Z.to_nat i)) as [p0 Hp0]; [lia |].
  destruct (run_allocate_fifo n e i Hmem Hi) as (m & ws & ks & Hm & Hws & Hlw & Hks & Hlk & Hack & Hat);
    [lia |].
  unfold init_spe.
  rewrite (Z.quot_div_nonneg fifo_size TASK_SIZE) by (unfold TASK_SIZE; lia). fold e.
  set (p1 := set_spu (set_task THREAD_LOOP (fifo_addr i) sizeof_fifo_s
     spu_taskmanager_handle (spu p0)) (set_ringCTX (Valid (Ring_context 0 0 e))
       (set_fifos (Valid (describe e (i mod 2 ^ 16) m)) (set_isKicked 1 p0)))).
  erewrite M_bind_ok; cycle 1.
  { eapply (run_on _ i s p0 _ p1); [lia | done |].
    mstep. erewrite M_bind_ok by (by rewrite Hm). mstep.
    erewrite M_bind_ok; [| unfold upd_fifo; erewrite M_bind_ok by (by apply run_the_fifo); done].
    unfold ringInitContext. rewrite (proj2 (Z.eqb_neq e 0)) by lia.
    destruct (Hmem i Hi) as (_ & _ & -> & _). cbn [alloc_init]. rewrite (u32_small e) by lia.
    mstep. mstep. rewrite run_modify. reflexivity. }
  mstep.
  destruct (start_spu_thread_returns (Tstate (spu p1) (log s)) Hcreate) as (t & Ht & _).
  destruct (start_spu_thread_run (Tstate (spu p1) (log s)))
    as (t' & Ht' & _ & _ & _ & (Hty & Harg & Henv & Hh) & _).
  rewrite Ht in Ht'. injection Ht' as _ <-.
  set (s1 := with_spe s i p1).
  erewrite M_bind_ok; cycle 1.
  { eapply (run_on _ i s1 p1 _ (set_spu (thread t) p1)); [lia | |].
    - apply list_lookup_insert_eq. lia.
    - mstep. change (log s1) with (log s). rewrite Ht. do 2 mstep. reflexivity. }
  mstep. cbn [fst snd Z.ltb Z.compare]. mstep.
  eexists _, (set_spu (thread t) p1). split; [reflexivity |]. split.
  - split_and!; [| done..]. exists (Queue (Ring_context 0 0 e) ws ks (Atomic_s 0 0)). split.
    + split; [done |]. eexists. by split_and!.
    + assert (ring_wf (Ring_context 0 0 e)) by (unfold ring_wf; cbn; lia).
      split; [by split; [| cbn; lia | |] | done | done | done].
  - unfold with_spe. cbn. by rewrite list_insert_insert_eq.
Qed.

Lemma run_init_spes nspes fifo_size n : forall i s,
  let e := fifo_size / TASK_SIZE in
  memory_ok nspes e -> (forall l r, answer (l ++ [pthread_create r]) = 0) ->
  128 <= fifo_size < 2 ^ 31 -> 0 <= i -> i + Z.of_nat n = nspes ->
  nspes <= Z.of_nat (length (spe s)) ->
  (forall j, 0 <= j < i -> exists p, spe s !! Z.to_nat j = Some p /\ fresh_entry e j p) ->
  exists s', init_spes fifo_size i n s = Ok (None, s') /\
    spes s' = spes s /\ current_spe s' = current_spe s /\ scheme s' = scheme s /\
    length (spe s') = length (spe s) /\
    (forall j, 0 <= j < nspes -> exists p, spe s' !! Z.to_nat j = Some p /\ fresh_entry e j p).
Proof.
  induction n as [| n IH]; intros i s e Hmem Hcreate Hsz Hi Hn Hlen Hdone; cbn [init_spes].
  { exists s. split_and!; try done. intros j Hj. apply Hdone. lia. }
  destruct (run_init_spe nspes fifo_size i s Hmem Hcreate) as (s1 & p & Hrun & Hp & Hs1);
    [lia | lia | done |].
  erewrite M_bind_ok by exact Hrun.
  destruct (IH (i + 1) s1 Hmem Hcreate) as (s' & Hrun' & Hsp & Hc & Hsch & Hl & Hall);
    [done | lia | lia | | |].
  - rewrite Hs1. cbn. rewrite length_insert. lia.
  - intros j Hj. rewrite Hs1. cbn. destruct (decide (j = i)) as [-> |].
    + exists p. split; [| done]. apply list_lookup_insert_eq. lia.
    + rewrite list_lookup_insert_ne by lia. apply Hdone. lia.
  - exists s'. split; [done |]. rewrite Hsp, Hc, Hsch, Hl, Hs1. cbn.
    by rewrite length_insert.
Qed.

(** [aset] rejects the seventeenth queue. *)
Lemma on_out_of_bounds {A : Type} (m : M spe_s A) i s :
  Z.of_nat (length (spe s)) <= i -> on i m s = Fault OutOfBounds.
Proof.
  intros Hi. unfold on, mbind, M_bind, lift. by rewrite aget_oob by lia.
Qed.
End init.

(** ** Registering a program *)

Section register.
Implicit Types (s : host) (p : spe_s) (q : queue).

Definition register_words (addr size : Z) : list Z :=
  [u32 REGISTER_PROGRAM; u32 size; u32 (hi32 addr); u32 (lo32 addr)].
Definition registered (addr size : Z) q : queue :=
  with_ring (ringIncFront (q_ring q)) (published (with_task (register_words addr size) q)).

Lemma registered_wf addr size q : queue_wf q -> queue_wf (registered addr size q).
Proof.
  intros Hq. apply with_ring_wf; [by apply published_wf, with_task_wf | |].
  - apply ringIncFront_wf, Hq.
  - apply ringIncFront_size.
Qed.

(** [put_entry] at the place the count names, whatever number names it. *)
Lemma run_put_entry_at k v p q ws :
  queue_wf q -> building ws q p -> (length ws < 32)%nat -> k = Z.of_nat (length ws) ->
  exists p', building (ws ++ [u32 v]) q p' /\
    (forall m : M spe_s unit, (put_entry k v;; inc_entry_count;; m) p = m p').
Proof.
  intros Hq Hb Hlen ->. destruct (run_put_entry v p q ws Hq Hb Hlen) as (p' & Hrun & Hb').
  exists p'. split; [done |]. intros m. destruct Hb as (_ & _ & _ & <-).
  rewrite <- M_bind_assoc. by erewrite M_bind_ok by exact Hrun.
Qed.

Lemma run_register_entry stwcx addr size p q :
  queue_wf q -> holds p q -> true ∈ stwcx ->
  exists p', register_entry stwcx addr size p = Ok (tt, p') /\
    holds p' (registered addr size q) /\
    entry_p p' = Valid (32 * front (q_ring q)) /\ entry_count p' = 4.
Proof.
  intros Hq Hh Hst. unfold register_entry. do 2 mstep.
  erewrite M_bind_ok by (apply (run_point_at_front _ q); [done | by destruct Hh; split]).
  set (p1 := set_entry_p _ _).
  assert (building [] q p1) as Hb.
  { split_and!; [| done..]. rewrite with_task_nil. destruct Hh as [? ?]. by split. }
  destruct (run_put_entry_at 0 REGISTER_PROGRAM p1 q [] Hq Hb) as (p2 & Hb2 & ->);
    [cbn; lia | done |].
  destruct (run_put_entry_at 1 size p2 q _ Hq Hb2) as (p3 & Hb3 & ->);
    [cbn; lia | done |].
  destruct (run_put_entry_at 2 (hi32 addr) p3 q _ Hq Hb3) as (p4 & Hb4 & ->);
    [cbn; lia | done |].
  destruct (run_put_entry_at 3 (lo32 addr) p4 q _ Hq Hb4) as (p5 & Hb5 & ->);
    [cbn; lia | done |].
  destruct (run_kick_entry stwcx p5 _ (with_task_wf _ _ Hq) (proj1 Hb5) Hst)
    as (p6 & Hrun & Hh6 & _ & Hc6 & He6).
  exists p6. split_and!; [done | done | rewrite He6; apply Hb5 | rewrite Hc6; apply Hb5].
Qed.

Lemma run_register_from stwcx addr size n : forall i s,
  host_wf s -> 0 <= i -> i + Z.of_nat n = spes s -> (forall j, true ∈ stwcx j) ->
  exists s', register_from stwcx addr size i n s = Ok (tt, s') /\ host_wf s' /\
    spes s' = spes s /\
    (forall j q, j < i -> has_queue s' j q <-> has_queue s j q) /\
    (forall j q, i <= j -> has_queue s j q -> has_queue s' j (registered addr size q)).
Proof.
  induction n as [| n IH]; intros i s Hs Hi Hn Hst; cbn [register_from].
  { exists s. split_and!; try done. intros j q Hj [? _]. lia. }
  destruct (hwf_queues s Hs i) as [q Hq]; [lia |].
  pose proof Hq as (_ & p & Hp & Hh & Hqw).
  destruct (run_register_entry (stwcx i) addr size p q Hqw Hh (Hst i)) as (p1 & Hrun & Hh1 & _).
  destruct (run_on_queue (register_entry (stwcx i) addr size) i s p q tt p1
    (registered addr size q) Hs) as [Hon [Hwf1 Hn1 _ Hq1 Hoth]];
    [lia | done | done | done | by apply registered_wf |].
  erewrite M_bind_ok by exact Hon. set (s1 := with_spe s i p1) in *.
  destruct (IH (i + 1) s1) as (s' & Hrun' & Hwf' & Hn' & Hlow & Hhigh);
    [done | lia | rewrite Hn1; lia | done |].
  exists s'. split_and!; [done | done | congruence | |].
  - intros j q' Hj. rewrite Hlow by lia. apply Hoth. lia.
  - intros j q' Hj Hj'. destruct (decide (j = i)) as [-> |].
    + rewrite (has_queue_agree _ _ _ _ Hj' Hq). apply Hlow; [lia | done].
    + apply Hhigh; [lia |]. by apply Hoth.
Qed.

(** An unguarded publication on a full queue empties it. *)
Lemma queued_overrun ws q :
  queue_wf q -> ringHasFree (q_ring q) = 0 ->
  queued (with_ring (ringIncFront (q_ring q)) (published (with_task ws q))) = [].
Proof.
  intros Hq Hf. unfold queued. cbn. pose proof (qwf_ring q Hq) as Hw.
  rewrite ringHasFree_count in Hf by done. pose proof (count_range _ Hw).
  unfold pending. rewrite count_IncFront by done. zcases.
  replace (count (q_ring q) + 1) with (size (q_ring q)) by lia.
  by rewrite Z.mod_same by lia.
Qed.
End register.
