(* ===== verification/HostSpec.v ===== *)
(** The host's side as a set of bounded queues of tasks: the properties of
    src/spefifo.c. *)
From stdpp Require Import base list.
From Stdlib Require Import ZArith Lia.
From S2P Require Import Prelude.
From S2P Require Import Messages.
From S2P Require Import Fifo.
From S2P Require Import Ring.
From S2P Require Import SpeThread.
From S2P Require Import HostFifo.
From S2P Require Import HostQueue.
From S2P Require Import HostCalls.

Definition ignore {S A : Type} (m : M S A) : M S unit := m;; mret tt.

(** * Lemmas *)

Section safe.
Implicit Types (s : host) (q : queue).

(** [m] keeps an invariant of the queues and never faults; it may wait for ever. *)
Definition keeping (Inv : host -> Prop) {A : Type} (m : M host A) (Q : A -> host -> Prop) s : Prop :=
  match m s with
  | Ok (a, s') => Inv s' /\ spes s' = spes s /\ Q a s'
  | Fault _ => False
  | OutOfFuel => True
  end.

Lemma keeping_bind Inv {A B : Type} (m : M host A) (k : A -> M host B) Q R s :
  keeping Inv m Q s ->
  (forall a s', Inv s' -> spes s' = spes s -> Q a s' -> keeping Inv (k a) R s') ->
  keeping Inv (m ≫= k) R s.
Proof.
  unfold keeping, mbind, M_bind. destruct (m s) as [[a s'] | |]; [| done..].
  intros (Hs & Hn & HQ) Hk. specialize (Hk a s' Hs Hn HQ).
  destruct (k a s') as [[b s''] | |]; [| done..]. by rewrite Hn in Hk.
Qed.

(** The queues stay well formed. *)
Definition safe {A : Type} (m : M host A) (Q : A -> host -> Prop) s : Prop :=
  keeping host_wf m Q s.

Lemma safe_bind {A B : Type} (m : M host A) (k : A -> M host B) Q R s :
  safe m Q s -> (forall a s', host_wf s' -> spes s' = spes s -> Q a s' -> safe (k a) R s') ->
  safe (m ≫= k) R s.
Proof. apply keeping_bind. Qed.

Lemma safe_ret {A : Type} (a : A) (Q : A -> host -> Prop) s :
  host_wf s -> Q a s -> safe (mret a) Q s.
Proof. done. Qed.

Lemma safe_ignore {A : Type} (m : M host A) (Q : A -> host -> Prop) s :
  safe m Q s -> safe (ignore m) (fun _ _ => True) s.
Proof. intros Hm. eapply safe_bind; [exact Hm |]. by intros. Qed.

(** A call on queue [i] whose run is known for every queue. *)
Lemma safe_on {A : Type} (m : M spe_s A) i s :
  host_wf s -> 0 <= i < spes s ->
  (forall p q, holds p q -> queue_wf q -> exists a p' q',
     m p = Ok (a, p') /\ holds p' q' /\ queue_wf q') ->
  safe (on i m) (fun _ _ => True) s.
Proof.
  intros Hs Hi Hm. destruct (hwf_queues s Hs i Hi) as (q & _ & p & Hp & Hh & Hq).
  destruct (Hm p q Hh Hq) as (a & p' & q' & Hrun & Hh' & Hq').
  destruct (run_on_queue m i s p q a p' q' Hs Hi Hp Hrun Hh' Hq') as [Hon Hch].
  unfold safe, keeping. rewrite Hon. split_and!; [apply Hch | apply Hch | done].
Qed.

Lemma run_selectfifo env s :
  host_wf s ->
  selectfifo env s = spin env select_round (with_current s ((current_spe s + 1) mod spes s)).
Proof. intros Hs. unfold selectfifo. by erewrite M_bind_ok by (by apply run_advance). Qed.

Lemma safe_selectfifo env s :
  host_wf s -> Forall (benign host_wf) env ->
  safe (selectfifo env) (fun i s' => 0 <= i < spes s' /\ queue_free s' i) s.
Proof.
  intros Hs Henv. unfold safe, keeping. rewrite run_selectfifo by done.
  pose proof (select_safe host_wf (fun _ H => H) with_current_wf env _
    (with_current_wf s _ Hs (advance_range s Hs)) Henv) as Hsel.
  destruct (spin env select_round _) as [[i s'] | |]; [| done..].
  destruct Hsel as (Hs' & Hn & <- & Hf). split_and!; try done; apply Hs'.
Qed.

Lemma safe_begin env c h s :
  host_wf s -> Forall (benign host_wf) env ->
  safe (fifoBegin env c h) (fun i s' => 0 <= i < spes s' /\
    exists p q, spe s' !! Z.to_nat i = Some p /\ queue_wf q /\ building [u32 c; u32 h] q p) s.
Proof.
  intros Hs Henv. eapply safe_bind; [by apply safe_selectfifo |].
  intros i s1 Hs1 Hn1 [Hi Hfree].
  destruct Hfree as (q & (_ & p & Hp & Hh & Hq) & _).
  destruct (run_begin c h i s1 p q Hs1 Hi Hp Hh Hq) as (p' & Hrun & Hb & Hq' & Hch).
  unfold safe, keeping. erewrite M_bind_ok by exact Hrun. rewrite run_ret.
  split_and!; [apply Hch | apply Hch | apply Hi | apply Hi |].
  exists p', (with_ring (begin_ring p (q_ring q)) q). split_and!; [| done | apply Hb..].
  by apply changed_spe.
Qed.

Lemma safe_kick stwcx i s :
  host_wf s -> 0 <= i < spes s -> true ∈ stwcx ->
  safe (fifoKick stwcx i) (fun _ _ => True) s.
Proof.
  intros Hs Hi Hst. apply safe_on; [done | done |].
  intros p q Hh Hq. destruct (run_kick_entry stwcx p q Hq Hh Hst) as (p' & Hrun & Hh' & _).
  eexists _, p', _. split_and!; [done | done |].
  apply with_ring_wf; [by apply published_wf | apply ringIncFront_wf, Hq |].
  apply ringIncFront_size.
Qed.

Lemma safe_submit env stwcx c h args s :
  host_wf s -> Forall (benign host_wf) env -> true ∈ stwcx ->
  safe (submit env stwcx c h args) (fun _ _ => True) s.
Proof.
  intros Hs Henv Hst. eapply safe_bind; [by apply safe_begin |].
  intros i s1 Hs1 Hn1 (Hi & p & q & Hp & Hq & Hb). unfold safe, keeping.
  rewrite <- M_bind_assoc. unfold fifoKick.
  destruct (run_rest stwcx args i s1 p q _ Hs1 Hi Hp Hq Hb) as (p' & Hrun & _ & Hch);
    [cbn; lia | done |].
  erewrite M_bind_ok by (by rewrite fifoAdd_all_on). rewrite run_ret.
  split_and!; [apply Hch | apply Hch | done].
Qed.

(** [fifo_addition] and [fifoNoop] are submissions. *)
Lemma fifo_addition_submit env stwcx adds s :
  fifo_addition env stwcx adds s =
  ignore (submit env stwcx ADD 0x1ee7C0DE [adds; 1; 2]) s.
Proof.
  unfold fifo_addition, ignore, submit. rewrite M_bind_assoc. apply M_bind_ext.
  intros i s'. cbn [fifoAdd_all]. rewrite !M_bind_assoc. apply M_bind_ext. intros _ s1.
  rewrite !M_bind_assoc. apply M_bind_ext. intros _ s2.
  rewrite !M_bind_assoc. apply M_bind_ext. intros _ s3.
  unfold mbind, M_bind. cbn. by destruct (fifoKick stwcx i s3) as [[[] ?] | |].
Qed.

Lemma fifoNoop_submit env stwcx s :
  fifoNoop env stwcx s = ignore (submit env stwcx NOOP 0x1ee7C0DE []) s.
Proof.
  unfold fifoNoop, ignore, submit. rewrite M_bind_assoc. apply M_bind_ext.
  intros i s'. unfold mbind, M_bind. cbn.
  by destruct (fifoKick stwcx i s') as [[[] ?] | |].
Qed.
End safe.

Section safe_calls.
Implicit Types (s : host) (q : queue).

Lemma safe_pass fuel s :
  host_wf s -> 2 ^ 24 <= Z.of_nat fuel -> safe (fifothread_pass fuel) (fun _ _ => True) s.
Proof.
  intros Hs Hf. pose proof (hwf_spes s Hs). unfold safe, keeping, fifothread_pass. mstep.
  destruct (run_drain_from fuel (Z.to_nat (spes s)) 0 s Hs) as (s' & -> & Hs' & Hn & _);
    [lia | lia | | done].
  intros j q (_ & _ & _ & _ & Hq). pose proof (qwf_size q Hq). lia.
Qed.

Lemma run_fifoIsEmpty s :
  host_wf s -> exists v, fifoIsEmpty s = Ok (v, s) /\ (v = 0 \/ v = 1) /\
    (v = 1 <-> all_empty s).
Proof.
  intros Hs. pose proof (hwf_spes s Hs). unfold fifoIsEmpty. mstep.
  destruct (run_empty_from (Z.to_nat (spes s)) s 0 Hs) as (v & Hv & Hc & Hiff); [lia | lia |].
  exists v. split_and!; [done | done |]. rewrite Hiff. split; [| by eauto].
  intros Hall i q Hq. apply (Hall i); [| done]. destruct Hq. lia.
Qed.

Lemma run_fifoRegisterProgram stwcx program size s :
  host_wf s -> (forall j, true ∈ stwcx j) ->
  exists s', fifoRegisterProgram stwcx program size s = Ok (s32 program, s') /\
    host_wf s' /\ spes s' = spes s /\
    (forall j q, has_queue s j q -> has_queue s' j (registered (u64 program) size q)).
Proof.
  intros Hs Hst. pose proof (hwf_spes s Hs). unfold fifoRegisterProgram. mstep.
  destruct (run_register_from stwcx (u64 program) size (Z.to_nat (spes s)) 0 s Hs)
    as (s' & Hrun & Hs' & Hn & _ & Hall); [lia | lia | done |].
  exists s'. erewrite M_bind_ok by exact Hrun. split_and!; [| done | done |].
  - rewrite run_ret. do 2 f_equal. autorewrite with speu. unfold u64, s32.
    rewrite <- (Zplus_mod_idemp_l (program mod 2 ^ 64)).
    replace (2 ^ 64) with (2 ^ 32 * 2 ^ 32) by done.
    rewrite Z.rem_mul_r, (Z.mul_comm (2 ^ 32)), Z.mod_add, Z.mod_mod by lia.
    by rewrite Zplus_mod_idemp_l.
  - intros j q Hq. apply Hall; [| done]. destruct Hq. lia.
Qed.

(** ** The first free queue *)

(** Queue [current_spe + k], round the circle, is the first with a free slot. *)
Definition first_free s (k : Z) : Prop :=
  1 <= k <= spes s /\ queue_free s ((current_spe s + k) mod spes s) /\
  (forall j, 1 <= j < k -> ~ queue_free s ((current_spe s + j) mod spes s)).

Lemma shift_current s j :
  ((current_spe s + 1) mod spes s + (j - 1)) mod spes s = (current_spe s + j) mod spes s.
Proof. rewrite Zplus_mod_idemp_l. f_equal. lia. Qed.

Lemma run_select_first s k n :
  host_wf s -> first_free s k -> k <= Z.of_nat n ->
  selectfifo (repeat (mret tt) n) s =
  Ok ((current_spe s + k) mod spes s, with_current s ((current_spe s + k) mod spes s)).
Proof.
  intros Hs (Hk & Hfree & Hno) Hn. rewrite run_selectfifo by done.
  rewrite (select_quiet n _ (k - 1)); cbn [current_spe spes with_current];
    rewrite ?shift_current; try done; try lia.
  - by apply with_current_wf, advance_range.
  - intros j Hj. replace j with (j + 1 - 1) by lia. rewrite shift_current. apply Hno. lia.
Qed.

(** The words [fifoBegin] and [fifoAdd] put in a slot. *)
Lemma task_words c h args :
  take 31 (u32 c :: u32 h :: map u32 args) = map u32 (c :: h :: take 29 args).
Proof. cbn [take map]. do 2 f_equal. apply firstn_map. Qed.

Lemma run_submit_first s k n stwcx c h args p q :
  let i := (current_spe s + k) mod spes s in
  let ws := map u32 (c :: h :: take 29 args) in
  host_wf s -> first_free s k -> k <= Z.of_nat n -> true ∈ stwcx ->
  spe s !! Z.to_nat i = Some p -> holds p q -> isKicked p = 1 ->
  exists s' p' t, let q' := with_ring (ringIncFront (q_ring q)) (published (with_task ws q)) in
    submit (repeat (mret tt) n) stwcx c h args s = Ok (i, s') /\
    changed (with_current s i) i q' s' /\
    spe s' !! Z.to_nat i = Some p' /\ isKicked p' = 1 /\
    queued q' = queued q ++ [t] /\ take (length ws) t = ws /\
    (forall j, j <> Z.to_nat i -> spe s' !! j = spe s !! j).
Proof.
  intros i ws Hs Hff Hn Hst Hp Hh Hk.
  assert (0 <= i < spes s) as Hi by (apply Z.mod_pos_bound; destruct (hwf_spes s Hs); lia).
  pose proof Hff as (_ & (q1 & Hq1 & Hfree) & _).
  destruct (hwf_queues s Hs i Hi) as [q2 Hq2].
  assert (has_queue s i q) as Hq.
  { destruct Hq2 as (_ & p2 & Hp2 & Hh2 & Hw2). split; [done |]. exists p.
    split_and!; [done | done |]. rewrite Hp in Hp2. injection Hp2 as <-.
    destruct q, q2, Hh as [Hr (m & Hm & Ht & Ha & Hl)], Hh2 as [Hr2 (m2 & Hm2 & Ht2 & Ha2 & Hl2)].
    cbn in *. congruence. }
  rewrite (has_queue_agree _ _ _ _ Hq1 Hq) in Hfree.
  assert (queue_wf q) as Hqw by (by destruct Hq as (_ & ? & _ & _ & ?)).
  destruct (run_submit (repeat (mret tt) n) stwcx c h args s i (with_current s i) p q)
    as (s' & p' & Hrun & Hch & Hp' & Hk' & Ho); try done.
  { by apply run_select_first. }
  { by apply with_current_wf. }
  unfold begin_ring in Hch. rewrite Hk, task_words in Hch.
  destruct (queued_push ws q Hqw Hfree) as (t & Ht & Htake).
  { unfold ws. rewrite length_map. cbn. rewrite length_take. lia. }
  by exists s', p', t.
Qed.
End safe_calls.

(** ** Initialisation *)

Section initialised.
Context `{Os, Memory}.
Implicit Types (s : host).

Lemma run_fifoInit fifo_size n sch s :
  let e := fifo_size / TASK_SIZE in
  memory_ok n e -> (forall l r, answer (l ++ [pthread_create r]) = 0) ->
  128 <= fifo_size < 2 ^ 31 -> 0 < n <= MAX_SPES ->
  length (spe s) = Z.to_nat MAX_SPES ->
  exists s', fifoInit fifo_size n sch s = Ok (None, s') /\
    spes s' = n /\ scheme s' = sch /\ current_spe s' = 0 /\ length (spe s') = Z.to_nat MAX_SPES /\
    (forall j, 0 <= j < n -> exists p, spe s' !! Z.to_nat j = Some p /\ fresh_entry e j p).
Proof.
  intros e Hmem Hc Hsz Hn Hl. unfold fifoInit. mstep.
  set (s0 := Host n sch 0 (spe s) (log s)).
  destruct (run_init_spes n fifo_size (Z.to_nat n) 0 s0 Hmem Hc)
    as (s1 & Hrun & Hsp & Hcu & Hsc & Hl1 & Hall);
    [done | lia | lia | | intros; lia |].
  { cbn. unfold MAX_SPES in *. lia. }
  erewrite M_bind_ok by exact Hrun. cbv beta iota. mstep. rewrite run_ret.
  eexists. split; [reflexivity |]. cbn. rewrite Hsp, Hsc, Hcu, Hl1. done.
Qed.

Lemma fresh_wf e n s :
  spes s = n -> current_spe s = 0 -> 0 < n <= MAX_SPES ->
  length (spe s) = Z.to_nat MAX_SPES ->
  (forall j, 0 <= j < n -> exists p, spe s !! Z.to_nat j = Some p /\ fresh_entry e j p) ->
  host_wf s /\ all_empty s.
Proof.
  intros Hsp Hc Hn Hl Hall.
  assert (forall i, 0 <= i < spes s -> exists q, has_queue s i q /\ fresh_queue e q) as Hq.
  { intros i Hi. rewrite Hsp in Hi. destruct (Hall i Hi) as (p & Hp & (q & Hh & Hf) & _).
    exists q. split; [| done]. split; [by rewrite Hsp |]. exists p.
    split_and!; [done | done | apply Hf]. }
  split.
  - split; [by rewrite Hsp | done | rewrite Hc; lia |].
    intros i Hi. destruct (Hq i Hi) as (q & ? & _). by exists q.
  - intros i q Hi. destruct (Hq i (proj1 Hi)) as (q' & Hi' & Hf).
    rewrite (has_queue_agree _ _ _ _ Hi Hi'). unfold queued.
    rewrite (fq_ring e q' Hf). unfold pending, count. cbn.
    by rewrite Z.mod_0_l by (pose proof (qwf_ring q' (fq_wf e q' Hf)) as [Hz _];
      rewrite (fq_ring e q' Hf) in Hz; cbn in Hz; lia).
Qed.
End initialised.

(** * A concrete host *)

(** Memory that never runs out, at made-up addresses. *)
#[local] Existing Instance good_os.
#[local] Instance sample_memory : Memory := {|
  fifo_addr i := 4096 + 64 * i;
  task_block _ n := Valid (repeat 7 (Z.to_nat (n / 4)));
  ack_block _ n := Valid (repeat 7 (Z.to_nat (n / 4)));
  atomic_ok _ := true; ring_ok _ := true; junk := 7;
  spu_taskmanager_handle := 99
|}.

Definition blank : host :=
  Host 0 0 0 (repeat (Spe Null Null Null 0
    (thread (new_thread NoEvents THREAD_LOOP)) 0) 16) [].

(** The host after [fifoInit(n * 128, k, ROUND_ROBIN)]. *)
Definition demo (n k : Z) : host :=
  match fifoInit (n * 128) k ROUND_ROBIN blank with Ok (_, s) => s | _ => blank end.

Lemma sample_memory_ok n e : 0 <= e -> memory_ok n e.
Proof.
  intros He i Hi. unfold TASK_SIZE, ACK_SIZE. cbn [fifo_addr atomic_ok ring_ok task_block
    ack_block sample_memory]. split_and!; [lia | done | done | |].
  - eexists. split; [done |]. rewrite repeat_length.
    replace (e * 128) with (e * 32 * 4) by lia. rewrite Z.div_mul by done. lia.
  - eexists. split; [done |]. rewrite repeat_length.
    replace (e * 16) with (e * 4 * 4) by lia. rewrite Z.div_mul by done. lia.
Qed.

Lemma good_os_creates l r : answer (l ++ [pthread_create r]) = 0.
Proof. cbn. by rewrite last_call_snoc. Qed.

(** What [fifoInit] made of it. *)
Lemma demo_run n k :
  1 <= n < 2 ^ 24 -> 0 < k <= 16 ->
  spes (demo n k) = k /\ current_spe (demo n k) = 0 /\ length (spe (demo n k)) = 16%nat /\
  (forall j, 0 <= j < k ->
     exists p, spe (demo n k) !! Z.to_nat j = Some p /\ fresh_entry n j p).
Proof.
  intros Hn Hk.
  destruct (run_fifoInit (n * 128) k ROUND_ROBIN blank) as (s & Hr & Hsp & _ & Hc & Hl & Hall).
  - apply sample_memory_ok, Z.div_pos; unfold TASK_SIZE; lia.
  - apply good_os_creates.
  - lia.
  - unfold MAX_SPES. lia.
  - done.
  - unfold TASK_SIZE in Hall. rewrite Z.div_mul in Hall by done.
    unfold demo. rewrite Hr. by split_and!.
Qed.

Lemma demo_shape n k :
  1 <= n < 2 ^ 24 -> 0 < k <= 16 -> spes (demo n k) = k /\ current_spe (demo n k) = 0.
Proof. intros Hn Hk. by destruct (demo_run n k Hn Hk) as (? & ? & _). Qed.

Lemma demo_fresh n k :
  1 <= n < 2 ^ 24 -> 0 < k <= 16 -> host_wf (demo n k) /\ all_empty (demo n k).
Proof.
  intros Hn Hk. destruct (demo_run n k Hn Hk) as (Hsp & Hc & Hl & Hall).
  by eapply fresh_wf.
Qed.

Lemma demo_entry n k i :
  1 <= n < 2 ^ 24 -> 0 < k <= 16 -> 0 <= i < k ->
  exists p q, spe (demo n k) !! Z.to_nat i = Some p /\ has_queue (demo n k) i q /\ holds p q /\
    isKicked p = 1 /\ fresh_queue n q.
Proof.
  intros Hn Hk Hi. destruct (demo_run n k Hn Hk) as (Hsp & Hc & Hl & Hall).
  destruct (Hall i Hi) as (p & Hp & (q & Hh & Hf) & Hkick & _).
  exists p, q. split_and!; try done. split; [by rewrite Hsp |].
  exists p. split_and!; [done | done | apply Hf].
Qed.

(** * Properties *)

(** C1: a task goes where it should: with queue [i] the first after
    [current_spe], round the circle, that has a free slot, and not left begun
    by an earlier call, [fifoBegin], any number of [fifoAdd] and [fifoKick]
    append exactly one task to queue [i], whose words are the command, the
    handle and the first 29 arguments (further arguments are dropped); the slot
    is published to the SPE, no acknowledgement and no other queue changes, and
    retries of the conditional store do not matter. *)
Theorem fifo_task_submitted (s : host) (k : Z) (n : nat) (stwcx : list bool)
    (command handle : Z) (args : list Z) (p : spe_s) (q : queue) :
  let i := (current_spe s + k) mod spes s in
  let words := map u32 (command :: handle :: take 29 args) in
  host_wf s -> first_free s k -> k <= Z.of_nat n -> true ∈ stwcx ->
  spe s !! Z.to_nat i = Some p -> holds p q -> isKicked p = 1 ->
  exists s' q' task,
    submit (repeat (mret tt) n) stwcx command handle args s = Ok (i, s') /\
    changed (with_current s i) i q' s' /\
    queued q' = queued q ++ [task] /\ take (length words) task = words /\
    q_atomic q' = Atomic_s (front (q_ring q)) 1 /\ q_acks q' = q_acks q.
Proof.
  intros i words Hs Hff Hn Hst Hp Hh Hk.
  destruct (run_submit_first s k n stwcx command handle args p q Hs Hff Hn Hst Hp Hh Hk)
    as (s' & p' & t & Hrun & Hch & _ & _ & Hq & Ht & _).
  by eexists s', _, t.
Qed.

Lemma demo_first_free n k :
  1 < n < 2 ^ 24 -> 1 < k <= 16 -> first_free (demo n k) 1.
Proof.
  intros Hn Hk. destruct (demo_fresh n k) as [Hwf _]; [lia | lia |].
  destruct (demo_shape n k) as [Hsp Hc]; [lia | lia |].
  unfold first_free. rewrite Hsp, Hc. split_and!; [lia | lia | | intros; lia].
  rewrite Z.mod_small by lia.
  destruct (demo_entry n k 1) as (p & q & _ & Hq & _ & _ & Hf); [lia | lia | lia |].
  exists q. split; [done |].
  pose proof (qwf_ring q (fq_wf n q Hf)) as Hw. rewrite (ringHasFree_count _ Hw).
  rewrite (fq_ring n q Hf). unfold count. cbn. rewrite Z.mod_0_l by lia. zcases.
Qed.

Lemma fifo_task_submitted_witness :
  exists s' q' task,
    submit (repeat (mret tt) 1) [false; true] ADD 5 [6] (demo 3 2) = Ok (1, s') /\
    queued q' = [task] /\ take 3 task = [ADD; 5; 6].
Proof.
  destruct (demo_entry 3 2 1) as (p & q & Hp & Hq & Hh & Hk & Hf); [lia | lia | lia |].
  destruct (fifo_task_submitted (demo 3 2) 1 1 [false; true] ADD 5 [6] p q)
    as (s' & q' & t & Hrun & _ & Hqd & Ht & _).
  - apply demo_fresh; lia.
  - apply demo_first_free; lia.
  - lia.
  - apply list_elem_of_In. right. left. reflexivity.
  - exact Hp.
  - exact Hh.
  - exact Hk.
  - exists s', q', t. split; [exact Hrun |]. split; [| exact Ht].
    rewrite Hqd. unfold queued. rewrite (fq_ring 3 q Hf). reflexivity.
Defined.

(** [selectfifo] is fair in the order of the queues: alone, and with some
    slot free, it stops within one round at the first queue after [current_spe]
    that has one, and changes nothing but [current_spe]. *)
Theorem selectfifo_first_free (s : host) (k : Z) (n : nat) :
  host_wf s -> first_free s k -> k <= Z.of_nat n ->
  let i := (current_spe s + k) mod spes s in
  selectfifo (repeat (mret tt) n) s = Ok (i, with_current s i) /\
  queue_free (with_current s i) i.
Proof.
  intros Hs Hf Hn i. split; [by apply run_select_first |].
  destruct Hf as (_ & (q & Hq & Hfree) & _). by exists q.
Qed.

Lemma selectfifo_first_free_witness :
  selectfifo (repeat (mret tt) 1) (demo 3 2) = Ok (1, with_current (demo 3 2) 1).
Proof.
  apply (selectfifo_first_free (demo 3 2) 1 1);
    [apply demo_fresh; lia | apply demo_first_free; lia | lia].
Defined.

(** C20: [selectfifo] waits correctly beside other threads: if what they do
    between its rounds keeps the queues well formed and takes no free slot away,
    it never faults and never answers a full queue; and once some queue has a
    free slot it answers within one more round of the queues. *)
Theorem selectfifo_waits (env : list (M host unit)) (s : host) (i : Z) :
  host_wf s -> Forall (benign host_wf) env ->
  safe (selectfifo env) (fun i s' => current_spe s' = i /\ queue_free s' i) s /\
  (queue_free s i -> spes s <= Z.of_nat (length env) ->
   exists j s', selectfifo env s = Ok (j, s')).
Proof.
  intros Hs Henv. pose proof (advance_range s Hs) as Hr.
  pose proof (with_current_wf s _ Hs Hr) as Hs1. unfold safe, keeping. rewrite run_selectfifo by done.
  split.
  - pose proof (select_safe host_wf (fun _ H => H) with_current_wf env _ Hs1 Henv) as Hsel.
    destruct (spin env select_round _) as [[j s'] | |]; [| done..].
    destruct Hsel as (? & ? & ? & ?). by split_and!.
  - intros Hf Hlen. assert (0 <= i < spes s) as Hi by (destruct Hf as (q & [? _] & _); done).
    set (c := (current_spe s + 1) mod spes s) in *.
    eapply (select_spin host_wf (fun _ H => H) with_current_wf env (with_current s c)
      ((i - c) mod spes s)); [done | done | |]; cbn [current_spe spes with_current].
    + pose proof (Z.mod_pos_bound (i - c) (spes s)). lia.
    + rewrite Zplus_mod_idemp_r. replace (c + (i - c)) with i by lia.
      by rewrite Z.mod_small.
Qed.

Lemma selectfifo_waits_witness :
  exists j s', selectfifo [mret tt; mret tt] (demo 3 2) = Ok (j, s').
Proof.
  apply (proj2 (selectfifo_waits [mret tt; mret tt] (demo 3 2) 1
    (proj1 (demo_fresh 3 2 ltac:(lia) ltac:(lia)))
    ltac:(repeat constructor; apply benign_quiet))).
  - destruct (demo_first_free 3 2) as (_ & H & _); [lia | lia |]. exact H.
  - vm_compute. congruence.
Defined.

(** C3: one pass of the monitoring thread releases, in each queue, exactly the
    longest run of acknowledged slots that begins with the oldest: those tasks
    leave the queue in order, their acknowledgement words are cleared, and
    nothing else changes; no slot that was free is lost.  It needs one round
    more than a queue has slots.  (Acknowledged slots are pending ones.) *)
Theorem fifothread_pass_releases (s : host) (fuel : nat) :
  host_wf s -> (forall i q, has_queue s i q -> acks_pending q) ->
  (forall i q, has_queue s i q -> size (q_ring q) < Z.of_nat fuel) ->
  exists s', fifothread_pass fuel s = Ok (tt, s') /\ host_wf s' /\
    current_spe s' = current_spe s /\
    (forall i, queue_free s i -> queue_free s' i) /\
    (forall i q, has_queue s i q -> exists q' k, has_queue s' i q' /\
       0 <= k <= count (q_ring q) /\ queued q' = drop (Z.to_nat k) (queued q) /\
       (forall j, 0 <= j < k -> acked (q_acks q) (slot (q_ring q) j) /\
          ~ acked (q_acks q') (slot (q_ring q) j)) /\
       (k < size (q_ring q) -> ~ acked (q_acks q) (slot (q_ring q) k)) /\
       front (q_ring q') = front (q_ring q) /\ q_atomic q' = q_atomic q).
Proof.
  intros Hs Hp Hf. pose proof (hwf_spes s Hs). unfold fifothread_pass. mstep.
  destruct (run_drain_from fuel (Z.to_nat (spes s)) 0 s Hs)
    as (s' & Hrun & Hs' & Hn & Hc & _ & Hall); [lia | lia | done |].
  exists s'. split_and!; [done | done | done | |].
  - intros i (q & Hq & Hfree). pose proof Hq as ([? _] & _ & _ & _ & Hqw).
    destruct (Hall i q) as (q' & Hq' & Hd); [done | done |].
    exists q'. split; [done |]. eapply drained_pending; [exact Hqw | by eapply Hp | done | done].
  - intros i q Hq. pose proof Hq as ([? _] & _ & _ & _ & Hqw).
    destruct (Hall i q) as (q' & Hq' & k & Hk & -> & Hack & Hstop); [done | done |].
    pose proof (acked_run_pending q k Hqw (Hp i q Hq) Hk Hack).
    exists (releases (Z.to_nat k) q), k. split_and!; try done; try lia.
    + apply queued_releases; [done | lia].
    + intros j Hj. split; [by apply Hack |]. intros (w & Hw & Hne).
      rewrite releases_clear in Hw by (done || lia). by injection Hw as <-.
    + by rewrite releases_ring.
    + clear. by induction (Z.to_nat k).
Qed.

Lemma demo_acks_pending n k : 1 <= n < 2 ^ 24 -> 0 < k <= 16 ->
  forall i q, has_queue (demo n k) i q -> size (q_ring q) = n /\ acks_pending q.
Proof.
  intros Hn Hk i q Hq.
  destruct (demo_shape n k) as [Hsp _]; [lia | lia |].
  destruct (demo_entry n k i) as (p & q' & _ & Hq' & _ & _ & Hf); [lia | lia | |].
  { destruct Hq as [Hi _]. by rewrite Hsp in Hi. }
  rewrite (has_queue_agree _ _ _ _ Hq Hq'). rewrite (fq_ring n q' Hf). split; [done |].
  intros j Hj Ha. rewrite (fq_ring n q' Hf) in Hj. cbn in Hj.
  destruct (fq_acks n q' Hf j Hj Ha).
Qed.

(** A host with one queue of four slots and three submitted tasks, of which the
    SPE has acknowledged the slots [ks]. *)
Definition spe_acknowledges (k : Z) : M host unit :=
  on 0 (upd_fifo (fun m => ws ← deref (acks m); ws ← aset ws (4 * k) 0; mret (set_acks (Valid ws) m))).
Definition served (ks : list Z) : host :=
  match (submit [mret tt] [true] ADD 1 [10];; submit [mret tt] [true] ADD 2 [20];;
         submit [mret tt] [true] ADD 3 [30];;
         foldr (fun k m => spe_acknowledges k;; m) (mret tt) ks) (demo 4 1) with
  | Ok (_, s) => s
  | _ => blank
  end.
Definition served_queue (ks : list Z) : queue :=
  Queue (Ring_context 3 0 4)
    (foldr (fun t l => t ++ repeat 7 29 ++ l) (repeat 7 32) [[ADD; 1; 10]; [ADD; 2; 20]; [ADD; 3; 30]])
    (foldr (fun k l => <[Z.to_nat (4 * k) := 0]> l)
       (concat (repeat [ACK_CLEAR; 7; 7; 7] 4)) ks) (Atomic_s 2 1).

Lemma only_queue s p q :
  spes s = 1 -> current_spe s = 0 -> length (spe s) = Z.to_nat MAX_SPES ->
  spe s !! O = Some p -> holds p q -> queue_wf q ->
  host_wf s /\ forall i q', has_queue s i q' -> q' = q.
Proof.
  intros Hn Hc Hl Hp Hh Hq.
  assert (forall i, 0 <= i < spes s -> has_queue s i q) as Hall.
  { intros i Hi. assert (i = 0) as -> by lia. split; [done |]. by exists p. }
  split.
  - split; [rewrite Hn; unfold MAX_SPES; lia | done | lia |]. intros i Hi. exists q. by apply Hall.
  - intros i q' Hq'. apply (has_queue_agree s i); [done |]. apply Hall. apply Hq'.
Qed.

Lemma served_ok ks :
  ks = [0; 1] \/ ks = [0; 1; 2] ->
  host_wf (served ks) /\ has_queue (served ks) 0 (served_queue ks) /\
  forall i q, has_queue (served ks) i q -> q = served_queue ks.
Proof.
  intros Hks.
  assert (spes (served ks) = 1 /\ current_spe (served ks) = 0 /\
    length (spe (served ks)) = Z.to_nat MAX_SPES /\ queue_wf (served_queue ks) /\
    exists p, spe (served ks) !! O = Some p /\ holds p (served_queue ks))
    as (Hn & Hc & Hl & Hq & p & Hp & Hh).
  { destruct Hks as [-> | ->]; split_and!; try (vm_compute; reflexivity);
      try (split; vm_compute; (done || congruence || by repeat split));
      (eexists; split; [vm_compute; reflexivity |]); (split; [vm_compute; reflexivity |]);
      eexists; split_and!; vm_compute; reflexivity. }
  destruct (only_queue _ p _ Hn Hc Hl Hp Hh Hq) as [Hwf Hall].
  split; [exact Hwf |]. split; [| exact Hall]. split; [rewrite Hn; lia |].
  exists p. split; [exact Hp |]. split; [exact Hh | exact Hq].
Qed.

Lemma served_acks ks :
  ks = [0; 1] \/ ks = [0; 1; 2] -> acks_pending (served_queue ks).
Proof.
  intros Hks i Hi Ha. change (size _) with 4 in Hi. change (pending _) with [0; 1; 2].
  destruct (decide (i = 3)) as [-> |].
  - destruct Ha as (w & Hw & Hne). destruct Hks as [-> | ->]; vm_compute in Hw; by injection Hw as <-.
  - rewrite !elem_of_cons. lia.
Qed.

(** Two of three tasks are acknowledged, released and taken off the queue. *)
Lemma fifothread_pass_releases_witness :
  exists s' q', fifothread_pass 5 (served [0; 1]) = Ok (tt, s') /\ has_queue s' 0 q' /\
    length (queued (served_queue [0; 1])) = 3%nat /\
    queued q' = drop 2 (queued (served_queue [0; 1])).
Proof.
  destruct (served_ok [0; 1]) as (Hs & Hq0 & Hall); [left; reflexivity |].
  destruct (fifothread_pass_releases (served [0; 1]) 5) as (s' & Hrun & _ & _ & _ & Hqs).
  - exact Hs.
  - intros i q Hq. rewrite (Hall i q Hq). apply served_acks. left. reflexivity.
  - intros i q Hq. rewrite (Hall i q Hq). reflexivity.
  - destruct (Hqs 0 (served_queue [0; 1]) Hq0) as (q' & k & Hq' & Hk & Hd & Hack & Hstop & _).
    exists s', q'. split; [exact Hrun |]. split; [exact Hq' |]. split; [reflexivity |].
    rewrite Hd. change (count _) with 3 in Hk. change (size _) with 4 in Hstop.
    assert (acked (q_acks (served_queue [0; 1])) (slot (q_ring (served_queue [0; 1])) 0)) as H0.
    { exists 0. split; [reflexivity | discriminate]. }
    assert (acked (q_acks (served_queue [0; 1])) (slot (q_ring (served_queue [0; 1])) 1)) as H1.
    { exists 0. split; [reflexivity | discriminate]. }
    destruct (decide (k = 0)) as [-> |]; [destruct (Hstop ltac:(lia) H0) |].
    destruct (decide (k = 1)) as [-> |]; [destruct (Hstop ltac:(lia) H1) |].
    destruct (decide (k = 3)) as [-> |]; [| assert (k = 2) as -> by lia; reflexivity].
    destruct (proj1 (Hack 2 ltac:(lia))) as (w & Hw & Hne). vm_compute in Hw.
    injection Hw as <-. destruct (Hne eq_refl).
Defined.

(** C21: [fifoInit] with 1 to 16 queues of [fifo_size / 128] slots, rounded down,
    leaves a well-formed host: every queue is empty, no slot acknowledged, the
    line the SPE polls says 0 and 0, and each SPE thread is a looping one given
    the address and the size, 48 bytes, of its [fifo_s]. *)
Theorem fifoInit_ready `{Os, Memory} (fifo_size n sch : Z) (s : host) :
  let e := fifo_size / TASK_SIZE in
  memory_ok n e -> (forall l r, answer (l ++ [pthread_create r]) = 0) ->
  128 <= fifo_size < 2 ^ 31 -> 0 < n <= MAX_SPES ->
  length (spe s) = Z.to_nat MAX_SPES ->
  exists s', fifoInit fifo_size n sch s = Ok (None, s') /\
    host_wf s' /\ all_empty s' /\ spes s' = n /\ current_spe s' = 0 /\
    (forall i, 0 <= i < n -> exists p, spe s' !! Z.to_nat i = Some p /\ fresh_entry e i p).
Proof.
  intros e Hmem Hc Hsz Hn Hl.
  destruct (run_fifoInit fifo_size n sch s Hmem Hc Hsz Hn Hl)
    as (s' & Hrun & Hsp & _ & Hcur & Hl' & Hall).
  destruct (fresh_wf e n s' Hsp Hcur Hn Hl' Hall) as [Hwf He].
  exists s'. by split_and!.
Qed.

Lemma fifoInit_ready_witness :
  exists s', fifoInit 300 2 ROUND_ROBIN blank = Ok (None, s') /\ host_wf s' /\ all_empty s'.
Proof.
  destruct (fifoInit_ready 300 2 ROUND_ROBIN blank) as (s' & Hrun & Hwf & He & _).
  - apply sample_memory_ok. vm_compute. congruence.
  - apply good_os_creates.
  - lia.
  - unfold MAX_SPES. lia.
  - reflexivity.
  - exists s'. split; [exact Hrun |]. split; [exact Hwf | exact He].
Defined.

Lemma init_spes_app `{Os, Memory} fifo_size b a : forall i s,
  init_spes fifo_size i (a + b) s =
  (o ← init_spes fifo_size i a;
   match o with
   | Some status => mret (Some status)
   | None => init_spes fifo_size (i + Z.of_nat a) b
   end) s.
Proof.
  induction a as [| a IH]; intros i s; cbn [init_spes Nat.add].
  - unfold mbind, M_bind. cbn. by rewrite Z.add_0_r.
  - rewrite M_bind_assoc. apply M_bind_ext. intros [status |] s'; [done |].
    rewrite IH. apply M_bind_ext. intros [status |] s''; [done |].
    by replace (i + 1 + Z.of_nat a) with (i + Z.of_nat (S a)) by lia.
Qed.

(** [fifoInit] does not check the number of SPEs against its arrays: with
    more than MAX_SPES it sets up sixteen queues and then writes past the end of
    them. *)
Theorem fifoInit_too_many `{Os, Memory} (fifo_size n sch : Z) (s : host) :
  memory_ok n (fifo_size / TASK_SIZE) ->
  (forall l r, answer (l ++ [pthread_create r]) = 0) ->
  128 <= fifo_size < 2 ^ 31 -> MAX_SPES < n ->
  length (spe s) = Z.to_nat MAX_SPES ->
  fifoInit fifo_size n sch s = Fault OutOfBounds.
Proof.
  intros Hmem Hc Hsz Hn Hl. unfold fifoInit. mstep. apply M_bind_fault.
  set (s0 := Host n sch 0 (spe s) (log s)). unfold MAX_SPES in *.
  destruct (run_init_spes 16 fifo_size 16 0 s0) as (s1 & Hrun & _ & _ & _ & Hl1 & _);
    [| done | done | lia | lia | cbn; lia | intros; lia |].
  { intros i Hi. apply Hmem. lia. }
  replace (Z.to_nat n) with (16 + S (Z.to_nat (n - 17)))%nat by lia.
  rewrite init_spes_app. erewrite M_bind_ok by exact Hrun. cbv beta iota. cbn [init_spes].
  apply M_bind_fault. unfold init_spe. apply M_bind_fault.
  apply on_out_of_bounds. rewrite Hl1. cbn. lia.
Qed.

Lemma fifoInit_too_many_witness : fifoInit 256 17 ROUND_ROBIN blank = Fault OutOfBounds.
Proof.
  apply fifoInit_too_many.
  - apply sample_memory_ok. vm_compute. congruence.
  - apply good_os_creates.
  - lia.
  - reflexivity.
  - reflexivity.
Defined.

(** [fifoIsEmpty] is exact: it returns 1 when no queue holds a task and 0
    otherwise, and changes nothing. *)
Theorem fifoIsEmpty_exact (s : host) :
  host_wf s ->
  exists v, fifoIsEmpty s = Ok (v, s) /\ (v = 0 \/ v = 1) /\
    (v = 1 <-> forall i q, has_queue s i q -> queued q = []).
Proof. apply run_fifoIsEmpty. Qed.

Lemma fifoIsEmpty_exact_witness : fifoIsEmpty (demo 3 2) = Ok (1, demo 3 2).
Proof.
  destruct (demo_fresh 3 2) as [Hwf He]; [lia | lia |].
  destruct (fifoIsEmpty_exact (demo 3 2) Hwf) as (v & Hv & _ & Hiff).
  rewrite Hv, (proj2 Hiff); [reflexivity | exact He].
Defined.

(** C22: [fifoWait] returns only when every queue is empty, whatever other
    threads did meanwhile to well-formed queues; and it does return: when every
    pending slot is acknowledged, one pass of the monitoring thread between its
    rounds is enough. *)
Theorem fifoWait_drained (env : list (M host unit)) (s : host) (fuel : nat) :
  host_wf s ->
  (forall s', Forall (fun others => forall s s', host_wf s ->
      others s = Ok (tt, s') -> host_wf s') env ->
    fifoWait env s = Ok (tt, s') -> all_empty s') /\
  ((forall i q, has_queue s i q -> acks_pending q /\ size (q_ring q) < Z.of_nat fuel /\
      (forall j, 0 <= j < count (q_ring q) -> acked (q_acks q) (slot (q_ring q) j))) ->
   exists s', fifoWait [fifothread_pass fuel; mret tt] s = Ok (tt, s') /\ all_empty s').
Proof.
  intros Hs. split; [intros s' Henv; by apply wait_spin |]. intros Hq.
  unfold fifoWait. cbn [spin]. destruct (run_wait_round s Hs) as (o & -> & Ho).
  destruct o as [[] |]; [exists s; split; [done | by apply Ho] |].
  pose proof (hwf_spes s Hs).
  destruct (run_drain_from fuel (Z.to_nat (spes s)) 0 s Hs)
    as (s' & Hrun & Hs' & Hn & _ & _ & Hall); [lia | lia | intros; by eapply Hq |].
  unfold fifothread_pass. erewrite M_bind_ok by apply run_gets. rewrite Hrun.
  assert (all_empty s') as He.
  { intros i q' Hi'. destruct (hwf_queues s Hs i) as [q Hi].
    { destruct Hi' as [? _]. by rewrite <- Hn. }
    pose proof Hi as ([? _] & _ & _ & _ & Hqw). destruct (Hq i q Hi) as (Hp & _ & Hack).
    destruct (Hall i q) as (q2 & Hi2 & k & Hk & -> & Hrunk & Hstop); [done | done |].
    rewrite (has_queue_agree _ _ _ _ Hi' Hi2).
    pose proof (acked_run_pending q k Hqw Hp Hk Hrunk) as Hkc.
    pose proof (count_range _ (qwf_ring q Hqw)).
    assert (k = count (q_ring q)) as ->.
    { destruct (decide (k < count (q_ring q))); [| lia].
      destruct Hstop; [lia |]. apply Hack. lia. }
    rewrite queued_releases by (done || lia). apply drop_ge.
    unfold queued. rewrite length_map. pose proof (length_pending _ (qwf_ring q Hqw)). lia. }
  destruct (run_wait_round s' Hs') as (o & -> & Ho').
  rewrite (proj2 Ho' He). by exists s'.
Qed.

(** Three tasks are pending and acknowledged, so that [fifoWait] has to wait for
    the pass that releases them. *)
Lemma fifoWait_drained_witness :
  length (queued (served_queue [0; 1; 2])) = 3%nat /\
  wait_round (served [0; 1; 2]) = Ok (None, served [0; 1; 2]) /\
  exists s', fifoWait [fifothread_pass 5; mret tt] (served [0; 1; 2]) = Ok (tt, s') /\ all_empty s'.
Proof.
  destruct (served_ok [0; 1; 2]) as (Hs & _ & Hall); [right; reflexivity |].
  split; [reflexivity |]. split; [vm_compute; reflexivity |].
  apply (proj2 (fifoWait_drained [] (served [0; 1; 2]) 5 Hs)).
  intros i q Hq. rewrite (Hall i q Hq). split; [apply served_acks; right; reflexivity |].
  split; [reflexivity |]. change (count _) with 3. intros j Hj. exists 0.
  split; [| discriminate].
  assert (j = 0 \/ j = 1 \/ j = 2) as [-> | [-> | ->]] by lia; reflexivity.
Defined.

(** C25: [fifoRegisterProgram] sends every SPE the command, the size and the two
    halves of the address, from which the address is read back, and returns the
    low half; but it does not test for a free slot, and a queue that was full
    then holds no task at all: all its pending tasks are lost. *)
Theorem fifoRegisterProgram_queues (s : host) (stwcx : Z -> list bool) (program size : Z) :
  host_wf s -> (forall i, true ∈ stwcx i) ->
  exists s', fifoRegisterProgram stwcx program size s = Ok (s32 program, s') /\ host_wf s' /\
    (forall i q, has_queue s i q -> exists q', has_queue s' i q' /\
       if ringHasFree (q_ring q) =? 0 then queued q' = []
       else exists task hi lo, queued q' = queued q ++ [task] /\
              take 4 task = [u32 REGISTER_PROGRAM; u32 size; hi; lo] /\
              of_words hi lo = u64 program).
Proof.
  intros Hs Hst.
  destruct (run_fifoRegisterProgram stwcx program size s Hs Hst) as (s' & Hrun & Hs' & _ & Hall).
  exists s'. split_and!; [done | done |]. intros i q Hq. eexists. split; [by apply Hall |].
  pose proof Hq as (_ & _ & _ & _ & Hw).
  destruct (Z.eqb_spec (ringHasFree (q_ring q)) 0) as [Hf | Hf].
  - by apply queued_overrun.
  - destruct (queued_push (register_words (u64 program) size) q Hw Hf) as (t & Ht & Htake);
      [cbn; lia |].
    exists t, (hi32 (u64 program)), (lo32 (u64 program)). split_and!; [done | |].
    + unfold register_words, hi32, lo32 in *. by autorewrite with speu in Htake.
    + apply of_words_split. apply Z.mod_pos_bound. lia.
Qed.

Lemma fifoRegisterProgram_queues_witness :
  exists s', fifoRegisterProgram (fun _ => [true]) 0x123456789 64 (demo 3 2) =
    Ok (0x23456789, s') /\ host_wf s'.
Proof.
  destruct (fifoRegisterProgram_queues (demo 3 2) (fun _ => [true]) 0x123456789 64)
    as (s' & Hrun & Hs' & _).
  - apply demo_fresh; lia.
  - intros i. apply list_elem_of_In. left. reflexivity.
  - exists s'. split; [exact Hrun | exact Hs'].
Defined.

(** With a single queue and room in it, [fifoBegin] takes that queue. *)
Lemma begin_only_queue (others : M host unit) env command handle t pt qt :
  host_wf t -> spes t = 1 -> spe t !! O = Some pt -> holds pt qt ->
  queue_wf qt -> count (q_ring qt) < size (q_ring qt) - 1 ->
  exists pt', fifoBegin (others :: env) command handle t = Ok (0, with_spe t 0 pt') /\
    let qt' := with_ring (begin_ring pt (q_ring qt)) qt in
    building [u32 command; u32 handle] qt' pt' /\ queue_wf qt' /\
    changed t 0 (with_task [u32 command; u32 handle] qt') (with_spe t 0 pt').
Proof.
  intros Ht Hnt Hpt Hht Hqt Hct. pose proof (hwf_current t Ht).
  assert (with_current t ((current_spe t + 1) mod spes t) = t) as Ht1.
  { rewrite Hnt, Z.mod_1_r. destruct t; cbn in *. unfold with_current. cbn.
    f_equal. lia. }
  assert (current_spe t = 0) as Hct0 by lia.
  destruct (run_begin command handle 0 t pt qt Ht ltac:(lia) Hpt Hht Hqt)
    as (pt' & Hrun & Hb & Hq' & Hch).
  exists pt'. split; [| done]. unfold fifoBegin. erewrite (M_bind_ok _ _ _ 0 t).
  - by erewrite M_bind_ok by exact Hrun.
  - rewrite run_selectfifo, Ht1 by done. cbn [spin].
    destruct (run_select_round t Ht) as [[_ ->] | [Hnf _]]; [by rewrite Hct0 |].
    destruct Hnf. exists qt. rewrite Hct0. split.
    + split; [lia |]. by exists pt.
    + rewrite (ringHasFree_count _ (qwf_ring qt Hqt)). zcases.
Qed.

(** C38: beginning a second task before the first is kicked is not safe although
    [fifoBegin] allows it: with one queue that has exactly one free slot,
    [fifoBegin] twice and [fifoKick] make the full queue, with every task that
    was pending in it, test as empty. *)
Theorem double_begin_overruns (s : host) (p : spe_s) (q : queue) (env : list (M host unit))
    (stwcx : list bool) (command handle : Z) :
  host_wf s -> spes s = 1 -> spe s !! O = Some p -> holds p q -> queue_wf q ->
  isKicked p = 1 -> count (q_ring q) = size (q_ring q) - 2 ->
  true ∈ stwcx -> env <> [] ->
  exists s', (fifoBegin env command handle;; fifoBegin env command handle;;
              fifoKick stwcx 0) s = Ok (tt, s') /\
    fifoIsEmpty s' = Ok (1, s').
Proof.
  intros Hs Hn Hp Hh Hq Hk Hc Hst Henv. destruct env as [| others env]; [done |].
  pose proof (count_range _ (qwf_ring q Hq)) as Hcr.
  destruct (begin_only_queue others env command handle s p q Hs Hn Hp Hh Hq) as (p1 & Hrun1 & Hb1 & Hq1 & Hch1); [lia |].
  unfold begin_ring in *. rewrite Hk in *. cbn [Z.eqb] in Hq1, Hb1, Hch1.
  erewrite M_bind_ok by exact Hrun1. set (s1 := with_spe s 0 p1) in *.
  set (ws := [u32 command; u32 handle]) in *.
  destruct (begin_only_queue others env command handle s1 p1 _ (ch_wf _ _ _ _ Hch1)
    Hn (changed_spe s 0 p1 ltac:(lia) Hs) (proj1 Hb1) (with_task_wf _ _ Hq1)) as (p2 & Hrun2 & Hb2 & Hq2 & Hch2).
  { cbn. rewrite Hc. lia. }
  destruct Hb1 as (_ & Hk1 & _). unfold begin_ring in Hq2, Hb2, Hch2.
  rewrite Hk1 in Hq2, Hb2, Hch2. cbn [Z.eqb] in Hq2, Hb2, Hch2.
  erewrite M_bind_ok by exact Hrun2. set (s2 := with_spe s1 0 p2) in *.
  assert (spe s2 !! O = Some p2) as Hp2.
  { apply (changed_spe s1 0 p2); [change (spes s1) with (spes s); lia | apply Hch1]. }
  destruct (run_rest stwcx [] 0 s2 p2 _ ws (ch_wf _ _ _ _ Hch2) ltac:(change (spes s2) with (spes s); lia) Hp2 Hq2 Hb2)
    as (p3 & Hrun3 & _ & Hch3); [cbn; lia | done |].
  exists (with_spe s2 0 p3). split; [exact Hrun3 |].
  destruct (run_fifoIsEmpty (with_spe s2 0 p3) (ch_wf _ _ _ _ Hch3)) as (v & Hv & _ & Hiff).
  rewrite Hv, (proj2 Hiff); [done |].
  intros i q' Hq'. assert (i = 0) as ->.
  { destruct Hq' as [? _]. change (spes (with_spe s2 0 p3)) with (spes s) in *. lia. }
  rewrite (has_queue_agree _ _ _ _ Hq' (ch_queue _ _ _ _ Hch3)).
  apply queued_overrun; [done |]. rewrite (ringHasFree_count _ (qwf_ring _ Hq2)).
  cbn. rewrite ringIncFront_size, count_IncFront by apply (qwf_ring q Hq). rewrite Hc.
  rewrite Z.mod_small by lia. zcases.
Qed.

Lemma double_begin_overruns_witness :
  exists s', (fifoBegin [mret tt] 1 2;; fifoBegin [mret tt] 1 2;; fifoKick [true] 0) (demo 2 1) =
    Ok (tt, s') /\ fifoIsEmpty s' = Ok (1, s').
Proof.
  destruct (demo_entry 2 1 0) as (p & q & Hp & Hq & Hh & Hk & Hf); [lia | lia | lia |].
  apply (double_begin_overruns (demo 2 1) p q).
  - apply demo_fresh; lia.
  - apply demo_shape; lia.
  - exact Hp.
  - exact Hh.
  - exact (fq_wf 2 q Hf).
  - exact Hk.
  - rewrite (fq_ring 2 q Hf). reflexivity.
  - apply list_elem_of_In. left. reflexivity.
  - discriminate.
Defined.
