(* ===== verification/HostApi.v ===== *)
(** The interface of src/spefifo.h as a whole: any sequence of its calls, in any
    order, beside the other threads. *)
From stdpp Require Import base list.
From Stdlib Require Import ZArith Lia.
From S2P Require Import Prelude.
From S2P Require Import Messages.
From S2P Require Import Fifo.
From S2P Require Import Ring.
From S2P Require Import SpeThread.
From S2P Require Import HostFifo.
From S2P Require Import HostQueue.
From S2P Require Import HostCalls.
From S2P Require Import HostSpec.

(** * Sequences of calls *)

(** The calls of spefifo.h but [fifoInit], which comes first and once; a whole
    submission, which is several of them; and a pass of the monitoring thread. *)
Inductive api :=
| Begin (command handle : Z)
| Add (i arg : Z)
| Kick (i : Z)
| Submit (command handle : Z) (args : list Z)
| Noop
| Addition (adds : Z)
| Stop
| IsEmpty
| Wait
| Register (program size : Z)
| Pass.

Definition call_api (env : list (M host unit)) (stwcx : list bool) (fuel : nat)
    (o : api) : M host unit :=
  match o with
  | Begin c h => ignore (fifoBegin env c h)
  | Add i arg => fifoAdd i arg
  | Kick i => fifoKick stwcx i
  | Submit c h args => ignore (submit env stwcx c h args)
  | Noop => fifoNoop env stwcx
  | Addition v => fifo_addition env stwcx v
  | Stop => fifoStop
  | IsEmpty => ignore fifoIsEmpty
  | Wait => fifoWait env
  | Register program size => ignore (fifoRegisterProgram (fun _ => stwcx) program size)
  | Pass => fifothread_pass fuel
  end.

Fixpoint calls_api (env : list (M host unit)) (stwcx : list bool) (fuel : nat)
    (os : list api) : M host unit :=
  match os with
  | [] => mret tt
  | o :: os => call_api env stwcx fuel o;; calls_api env stwcx fuel os
  end.

(** The queue a call names, if it names one, exists. *)
Definition api_ok (s : host) (o : api) : Prop :=
  match o with Add i _ | Kick i => 0 <= i < spes s | _ => True end.

(** * The task being built *)

(** Where an entry writes its next word: nowhere as long as no task was begun in
    the queue, since [entry_p] is a static variable; then in a slot. *)
Definition entry_ok (p : spe_s) : Prop :=
  match entry_p p with
  | Null => entry_count p = 0
  | Freed => False
  | Valid o => 0 <= o /\ 0 <= entry_count p <= 31 /\
      forall q, holds p q -> o + 32 <= 32 * size (q_ring q)
  end.

Record host_ok (s : host) : Prop := {
  hok_wf : host_wf s;
  hok_entries i p : 0 <= i < spes s -> spe s !! Z.to_nat i = Some p -> entry_ok p }.

(** A task was begun in queue [i]. *)
Definition begun (s : host) (i : Z) : Prop :=
  exists p, 0 <= i < spes s /\ spe s !! Z.to_nat i = Some p /\ entry_p p <> Null.

Section entries.
Implicit Types (s : host) (p : spe_s) (q : queue).

Lemma holds_agree p q q' : holds p q -> holds p q' -> q = q'.
Proof.
  intros [Hr (m & Hm & Ht & Ha & Hl)] [Hr' (m' & Hm' & Ht' & Ha' & Hl')].
  destruct q, q'; cbn in *. congruence.
Qed.

Lemma entry_ok_valid p q o :
  holds p q -> entry_p p = Valid o -> 0 <= o -> 0 <= entry_count p <= 31 ->
  o + 32 <= 32 * size (q_ring q) -> entry_ok p.
Proof.
  intros Hh He Ho Hc Hs. unfold entry_ok. rewrite He. split_and!; try lia.
  intros q' Hq'. by rewrite (holds_agree p q' q).
Qed.

(** The entry of a task in the front slot. *)
Lemma entry_ok_front p q n :
  queue_wf q -> holds p q -> entry_p p = Valid (32 * front (q_ring q)) ->
  entry_count p = n -> 0 <= n <= 31 -> entry_ok p.
Proof.
  intros Hq Hh He <- Hn. destruct (qwf_ring q Hq) as (? & ? & _).
  eapply entry_ok_valid; try done; lia.
Qed.

(** Calls that leave the entry alone. *)
Lemma entry_ok_same p p' q q' :
  holds p q -> holds p' q' -> size (q_ring q') = size (q_ring q) ->
  entry_p p' = entry_p p -> entry_count p' = entry_count p -> entry_ok p -> entry_ok p'.
Proof.
  intros Hh Hh' Hsz He Hc. unfold entry_ok. rewrite He, Hc. destruct (entry_p p); try done.
  intros (? & ? & Hs). split_and!; try lia. intros q2 Hq2.
  rewrite (holds_agree p' q2 q'), Hsz by done. by apply Hs.
Qed.

Lemma host_ok_at s i :
  host_ok s -> 0 <= i < spes s -> exists p q, spe s !! Z.to_nat i = Some p /\ holds p q /\
    queue_wf q /\ entry_ok p.
Proof.
  intros [Hs He] Hi. destruct (hwf_queues s Hs i Hi) as (q & _ & p & Hp & Hh & Hq).
  exists p, q. split_and!; try done. by eapply He.
Qed.

Lemma host_ok_with s i p q :
  host_ok s -> 0 <= i < spes s -> holds p q -> queue_wf q -> entry_ok p ->
  host_ok (with_spe s i p).
Proof.
  intros [Hs He] Hi Hh Hq Hp. split; [by eapply with_spe_wf |].
  intros j p' Hj Hp'. cbn in Hj, Hp'. destruct (decide (j = i)) as [-> |].
  - pose proof (changed_spe s i p Hi Hs) as Hc. cbn in Hc. rewrite Hc in Hp'. by injection Hp' as <-.
  - rewrite list_lookup_insert_ne in Hp' by lia. by eapply He.
Qed.

Lemma host_ok_current s c : host_ok s -> 0 <= c < spes s -> host_ok (with_current s c).
Proof. intros [Hs He] Hc. split; [by apply with_current_wf | done]. Qed.

(** A call on queue [i]. *)
Lemma keeping_on {A : Type} (m : M spe_s A) (R : A -> spe_s -> Prop) i s :
  host_ok s -> 0 <= i < spes s ->
  (forall p q, spe s !! Z.to_nat i = Some p -> holds p q -> queue_wf q -> entry_ok p ->
     exists a p' q', m p = Ok (a, p') /\ holds p' q' /\ queue_wf q' /\ entry_ok p' /\ R a p') ->
  keeping host_ok (on i m) (fun a s' => exists p, spe s' !! Z.to_nat i = Some p /\ R a p) s.
Proof.
  intros Hs Hi Hm. destruct (host_ok_at s i Hs Hi) as (p & q & Hp & Hh & Hq & He).
  destruct (Hm p q Hp Hh Hq He) as (a & p' & q' & Hrun & Hh' & Hq' & He' & HR).
  unfold keeping. rewrite (run_on m i s p a p') by (done || lia).
  split_and!; [by eapply host_ok_with | done |]. exists p'.
  split; [| done]. apply changed_spe; [done | apply Hs].
Qed.

Lemma keeping_mono {A : Type} (m : M host A) (Q R : A -> host -> Prop) s :
  keeping host_ok m Q s ->
  (forall a s', host_ok s' -> spes s' = spes s -> Q a s' -> R a s') -> keeping host_ok m R s.
Proof.
  unfold keeping. destruct (m s) as [[a s'] | |]; [| done..]. intros (? & ? & ?) HR. by auto.
Qed.

Lemma keeping_ignore {A : Type} (m : M host A) (Q : A -> host -> Prop) s :
  keeping host_ok m Q s -> keeping host_ok (ignore m) (fun _ _ => True) s.
Proof. intros Hm. eapply keeping_bind; [exact Hm |]. by intros. Qed.
(** ** [fifoAdd] *)

(** [fifoAdd] once a task was begun. *)
Lemma run_add_begun arg p q o :
  holds p q -> queue_wf q -> entry_p p = Valid o -> entry_ok p ->
  exists p' q', add_entry arg p = Ok (tt, p') /\ holds p' q' /\ queue_wf q' /\ entry_ok p' /\
    entry_p p' = Valid o.
Proof.
  intros Hh Hq Ho He. pose proof He as Hok. unfold entry_ok in Hok. rewrite Ho in Hok.
  destruct Hok as (Ho0 & Hc & Hsz). specialize (Hsz q Hh). pose proof (qwf_tasks q Hq) as Hl.
  unfold add_entry. mstep. rewrite u32_small by lia. change (TASK_SIZE / 4) with 32.
  destruct (Z.eqb_spec (entry_count p + 1) 32) as [| Hne]; cbn [negb]; [by exists p, q |].
  unfold put_entry. rewrite M_bind_assoc. erewrite M_bind_ok by (rewrite Ho; reflexivity).
  set (q' := Queue (q_ring q) (<[Z.to_nat (o + entry_count p) := u32 arg]> (q_tasks q))
    (q_acks q) (q_atomic q)).
  edestruct (run_upd_fifo (fun m =>
    ws ← deref (tasks m); ws ← aset ws (o + entry_count p) (u32 arg);
    mret (set_tasks (Valid ws) m)) p q q' Hh) as (m' & Hrun & Hh'); [| done |].
  { intros m Ht Ha Hlm. rewrite Ht. cbn [mbind res_bind deref]. rewrite aset_ok by lia.
    eexists. by split. }
  erewrite M_bind_ok by exact Hrun. unfold inc_entry_count. rewrite run_modify.
  eexists _, q'. split; [reflexivity |].
  assert (holds (set_entry_count (u32 (entry_count (set_fifos (Valid m') p) + 1))
    (set_fifos (Valid m') p)) q') as Hh2 by (destruct Hh'; by split).
  assert (u32 (entry_count (set_fifos (Valid m') p) + 1) = entry_count p + 1) as Hc'.
  { cbn. apply u32_small. lia. }
  rewrite Hc' in *. split_and!; [exact Hh2 | | | exact Ho].
  - destruct Hq. split; cbn; try done. by rewrite length_insert.
  - eapply (entry_ok_valid _ q' o); [exact Hh2 | exact Ho | lia | cbn; lia | cbn; lia].
Qed.

(** Before that it follows a pointer that is NULL. *)
Lemma add_unbegun i arg s :
  host_ok s -> 0 <= i < spes s -> ~ begun s i -> fifoAdd i arg s = Fault NullDeref.
Proof.
  intros Hs Hi Hb. destruct (host_ok_at s i Hs Hi) as (p & q & Hp & _ & _ & He).
  assert (entry_p p = Null) as Hn.
  { destruct (entry_p p) eqn:Ho; [done | |]; destruct Hb; exists p; by rewrite Ho. }
  unfold entry_ok in He. rewrite Hn in He. unfold fifoAdd.
  rewrite (on_eq _ i s p) by (apply aget_lookup; split; [lia | done]).
  unfold add_entry. mstep. rewrite He. change (u32 (0 + 1) =? TASK_SIZE / 4) with false.
  cbn [negb]. unfold put_entry. rewrite M_bind_assoc. erewrite (M_bind_fault _ _ p NullDeref); [done |].
  by rewrite Hn.
Qed.

(** Either a call is no such [fifoAdd], or it is. *)
Lemma begun_or_not s o :
  host_ok s -> api_ok s o ->
  (forall i v, o = Add i v -> begun s i) \/ exists i v, o = Add i v /\ ~ begun s i.
Proof.
  intros Hs Ho. destruct o as [| i v | | | | | | | | |]; try (left; intros; discriminate).
  destruct (host_ok_at s i Hs Ho) as (p & q & Hp & _ & _ & He).
  destruct (entry_p p) as [| | a] eqn:Hep.
  - right. exists i, v. split; [done |]. intros (p' & _ & Hp' & Hne).
    rewrite Hp in Hp'. injection Hp' as <-. done.
  - unfold entry_ok in He. by rewrite Hep in He.
  - left. intros ? ? [= <- <-]. exists p. by rewrite Hep.
Qed.
End entries.

(** * Every call *)

Section calls.
Context (env : list (M host unit)) (stwcx : list bool) (fuel : nat).
Context (Henv : Forall (benign host_ok) env) (Hst : true ∈ stwcx) (Hf : 2 ^ 24 <= Z.of_nat fuel).
Implicit Types (s : host) (p : spe_s) (q : queue).

Lemma keeping_begin c h s :
  host_ok s -> keeping host_ok (fifoBegin env c h) (fun i s' => begun s' i) s.
Proof.
  intros Hs. eapply (keeping_bind _ _ _ (fun i s' => 0 <= i < spes s')).
  { unfold keeping. rewrite run_selectfifo by apply Hs.
    pose proof (select_safe host_ok hok_wf host_ok_current env _
      (host_ok_current s _ Hs (advance_range s (hok_wf s Hs))) Henv) as Hsel.
    destruct (spin env select_round _) as [[i s'] | |]; [| done..].
    destruct Hsel as (Hs' & Hn & <- & _). split_and!; [done | done | apply Hs'..]. }
  intros i s1 Hs1 _ Hi.
  eapply (keeping_bind _ _ _ (fun _ s' => exists p, spe s' !! Z.to_nat i = Some p /\ entry_p p <> Null)).
  - apply (keeping_on _ (fun _ p => entry_p p <> Null)); [done | done |].
    intros p q _ Hh Hq _. destruct (run_begin_entry c h p q Hq Hh) as (p' & Hrun & Hb).
    set (q' := with_ring (begin_ring p (q_ring q)) q) in *.
    assert (queue_wf q') as Hq'.
    { apply with_ring_wf; [done | apply begin_ring_wf, Hq | apply begin_ring_size]. }
    destruct Hb as (Hh' & _ & He & Hc).
    exists tt, p', (with_task [u32 c; u32 h] q'). split_and!; try done.
    + by apply with_task_wf.
    + eapply (entry_ok_front p' _ 2); [by apply with_task_wf | exact Hh' | exact He | exact Hc | lia].
    + by rewrite He.
  - intros [] s2 Hs2 Hn (p & Hp & He). unfold keeping. rewrite run_ret.
    split_and!; [done | done |]. exists p. by rewrite Hn.
Qed.

Lemma keeping_add i arg s :
  host_ok s -> begun s i -> keeping host_ok (fifoAdd i arg) (fun _ s' => begun s' i) s.
Proof.
  intros Hs (p0 & Hi & Hp0 & Hb0).
  eapply keeping_mono; [apply (keeping_on _ (fun _ p => entry_p p <> Null)); [done | done |] |].
  - intros p q Hp Hh Hq He. rewrite Hp in Hp0. injection Hp0 as <-.
    destruct (entry_p p) as [| | o] eqn:Ho; [done | by unfold entry_ok in He; rewrite Ho in He |].
    destruct (run_add_begun arg p q o Hh Hq Ho He) as (p' & q' & Hrun & ? & ? & ? & He').
    exists tt, p', q'. by rewrite He'.
  - intros _ s' _ Hn (p & Hp & He). exists p. by rewrite Hn.
Qed.

Lemma keeping_kick i s :
  host_ok s -> 0 <= i < spes s -> keeping host_ok (fifoKick stwcx i) (fun _ _ => True) s.
Proof.
  intros Hs Hi. eapply keeping_mono; [apply (keeping_on _ (fun _ _ => True)); [done | done |] | done].
  intros p q _ Hh Hq He. destruct (run_kick_entry stwcx p q Hq Hh Hst) as (p' & Hrun & Hh' & _ & Hc & Hp).
  eexists _, p', _. split_and!; [done | done | | | done].
  - apply with_ring_wf; [by apply published_wf | apply ringIncFront_wf, Hq | apply ringIncFront_size].
  - eapply entry_ok_same; [exact Hh | exact Hh' | apply ringIncFront_size | done..].
Qed.

Lemma keeping_submit c h args s :
  host_ok s -> keeping host_ok (submit env stwcx c h args) (fun _ _ => True) s.
Proof.
  intros Hs. eapply keeping_bind; [by apply keeping_begin |]. intros i s1 Hs1 _ Hb.
  eapply (keeping_bind _ _ _ (fun _ s' => begun s' i)).
  - revert s1 Hs1 Hb. induction args as [| v args IH]; intros s1 Hs1 Hb; cbn [fifoAdd_all]; [done |].
    eapply keeping_bind; [by apply keeping_add |]. intros [] s2 Hs2 _ Hb2. by apply IH.
  - intros [] s2 Hs2 _ (p & Hi & _). eapply keeping_bind; [by apply keeping_kick |]. done.
Qed.

(** The calls that go over all queues. *)
Lemma keeping_pass s :
  host_ok s -> keeping host_ok (fifothread_pass fuel) (fun _ _ => True) s.
Proof.
  intros Hs. pose proof (hwf_spes s (hok_wf s Hs)).
  assert (forall n i s, host_ok s -> 0 <= i -> i + Z.of_nat n = spes s ->
    keeping host_ok (drain_from fuel i n) (fun _ _ => True) s) as Hall.
  { clear Hs H s. induction n as [| n IH]; intros i s Hs Hi Hn; cbn [drain_from]; [done |].
    eapply keeping_bind; [apply (keeping_on _ (fun _ _ => True)); [done | lia |] |].
    - intros p q _ Hh Hq He.
      destruct (run_drain fuel p q Hq Hh) as (k & p' & Hrun & Hh' & _ & _ & _ & _ & Hc & Hp).
      { pose proof (qwf_size q Hq). lia. }
      exists tt, p', (releases (Z.to_nat k) q). split_and!; [done | done | by apply releases_wf | | done].
      eapply entry_ok_same; [exact Hh | exact Hh' | by rewrite releases_ring | done..].
    - intros [] s' Hs' Hn' _. apply IH; [done | lia | lia]. }
  unfold keeping, fifothread_pass. mstep. apply Hall; [done | lia | lia].
Qed.

Lemma keeping_register program size s :
  host_ok s ->
  keeping host_ok (fifoRegisterProgram (fun _ => stwcx) program size) (fun _ _ => True) s.
Proof.
  intros Hs. pose proof (hwf_spes s (hok_wf s Hs)).
  assert (forall n i s, host_ok s -> 0 <= i -> i + Z.of_nat n = spes s ->
    keeping host_ok (register_from (fun _ => stwcx) (u64 program) size i n) (fun _ _ => True) s) as Hall.
  { clear Hs H s. induction n as [| n IH]; intros i s Hs Hi Hn; cbn [register_from]; [done |].
    eapply keeping_bind; [apply (keeping_on _ (fun _ _ => True)); [done | lia |] |].
    - intros p q _ Hh Hq He.
      destruct (run_register_entry stwcx (u64 program) size p q Hq Hh Hst) as (p' & Hrun & Hh' & Hp & Hc).
      exists tt, p', (registered (u64 program) size q).
      split_and!; [done | done | by apply registered_wf | | done].
      destruct (qwf_ring q Hq) as (? & ? & _).
      eapply entry_ok_valid; [exact Hh' | exact Hp | lia | lia |].
      cbn. rewrite ringIncFront_size. lia.
    - intros [] s' Hs' Hn' _. apply IH; [done | lia | lia]. }
  unfold keeping, fifoRegisterProgram. mstep.
  apply (keeping_bind _ _ _ (fun _ _ => True) (fun _ _ => True)); [apply Hall; [done | lia | lia] |].
  done.
Qed.

Lemma keeping_wait s :
  host_ok s -> keeping host_ok (fifoWait env) (fun _ _ => True) s.
Proof.
  unfold keeping, fifoWait. revert s. induction Henv as [| others env' Ho _ IH]; intros s Hs; [done |].
  cbn [spin]. destruct (run_wait_round s (hok_wf s Hs)) as (o & -> & _). destruct o as [[] |]; [done |].
  destruct (Ho s Hs) as (s1 & -> & Hs1 & Hn1 & _).
  apply Forall_cons in Henv as [_ Henv']. specialize (IH Henv' s1 Hs1).
  destruct (spin env' wait_round s1) as [[[] s2] | |]; [| done..]. by rewrite Hn1 in IH.
Qed.

(** Every call but [fifoAdd] on a queue in which no task was begun. *)
Lemma keeping_call o s :
  host_ok s -> api_ok s o -> (forall i v, o = Add i v -> begun s i) ->
  keeping host_ok (call_api env stwcx fuel o) (fun _ _ => True) s.
Proof.
  intros Hs Ho Hb. destruct o; cbn [call_api].
  - by eapply keeping_ignore, keeping_begin.
  - eapply keeping_mono; [eapply keeping_add; by eauto | done].
  - by apply keeping_kick.
  - by eapply keeping_ignore, keeping_submit.
  - unfold keeping. rewrite fifoNoop_submit. by eapply keeping_ignore, keeping_submit.
  - unfold keeping. rewrite fifo_addition_submit. by eapply keeping_ignore, keeping_submit.
  - done.
  - destruct (run_fifoIsEmpty s (hok_wf s Hs)) as (v & Hv & _). unfold keeping, ignore.
    by erewrite M_bind_ok by exact Hv.
  - by apply keeping_wait.
  - by eapply keeping_ignore, keeping_register.
  - by apply keeping_pass.
Qed.

End calls.

(** * The start *)

(** The static variables before [fifoInit]. *)
Definition untouched (p : spe_s) : Prop := entry_p p = Null /\ entry_count p = 0.
Definition all_untouched (s : host) : Prop := Forall untouched (spe s).

Lemma untouched_on {A : Type} (m : M spe_s A) i :
  keeps untouched m -> keeps all_untouched (on i m).
Proof.
  intros Hm s a s' Hr Hs. unfold on in Hr. apply M_bind_inv in Hr as (p & s1 & Hp & Hr).
  unfold lift in Hp. destruct (aget (spe s) i) as [p' | |] eqn:Hg; simplify_eq.
  apply aget_lookup in Hg as [Hi Hg]. apply M_bind_inv in Hr as ([b p'] & s1' & Hp & Hr).
  unfold lift in Hp. destruct (m p) as [[b1 p1] | |] eqn:Hmp; simplify_eq.
  unfold modify, mbind, M_bind in Hr. cbn in Hr. injection Hr as <- <-.
  apply Forall_insert; [done |]. eapply Hm; [exact Hmp |].
  unfold all_untouched in Hs. rewrite Forall_lookup in Hs. by eapply Hs.
Qed.

Section init.
Context `{Os, Memory}.

Lemma untouched_upd_fifo f : keeps untouched (upd_fifo f).
Proof. unfold upd_fifo, the_fifo. eauto 10 with keeps. Qed.
Hint Resolve untouched_upd_fifo : keeps.

Lemma init_spe_untouched fifo_size i : keeps all_untouched (init_spe fifo_size i).
Proof.
  unfold init_spe. apply keeps_bind; [apply untouched_on; eauto 20 with keeps |].
  intros []. apply keeps_bind; [eauto with keeps |]. intros l.
  apply keeps_bind; [apply untouched_on; eauto 20 with keeps |]. intros t.
  apply keeps_bind; [by apply keeps_modify |]. intros [].
  destruct t.1 as [v | v]; [| eauto with keeps].
  apply keeps_bind; [| eauto with keeps].
  destruct (v <? 0); [apply untouched_on |]; eauto with keeps.
Qed.

Lemma fifoInit_untouched fifo_size n sch : keeps all_untouched (fifoInit fifo_size n sch).
Proof.
  assert (forall k i, keeps all_untouched (init_spes fifo_size i k)) as Hall.
  { induction k as [| k IH]; intros i; cbn [init_spes]; [eauto with keeps |].
    apply keeps_bind; [apply init_spe_untouched |]. intros [status |]; eauto with keeps. }
  unfold fifoInit. apply keeps_bind; [by apply keeps_modify |]. intros [].
  apply keeps_bind; [apply Hall |]. intros [status |]; [eauto with keeps |].
  apply keeps_bind; [by apply keeps_modify | eauto with keeps].
Qed.

(** After [fifoInit] every call may come. *)
Lemma fifoInit_host_ok fifo_size n sch s :
  memory_ok n (fifo_size / TASK_SIZE) -> (forall l r, answer (l ++ [pthread_create r]) = 0) ->
  128 <= fifo_size < 2 ^ 31 -> 0 < n <= MAX_SPES ->
  length (spe s) = Z.to_nat MAX_SPES -> all_untouched s ->
  exists s', fifoInit fifo_size n sch s = Ok (None, s') /\ host_ok s' /\ spes s' = n.
Proof.
  intros Hmem Hc Hsz Hn Hl Hu.
  destruct (run_fifoInit fifo_size n sch s Hmem Hc Hsz Hn Hl)
    as (s' & Hrun & Hsp & _ & Hcur & Hl' & Hall).
  exists s'. split_and!; [done | | done]. split.
  { by destruct (fresh_wf (fifo_size / TASK_SIZE) n s' Hsp Hcur Hn Hl' Hall). }
  intros i p _ Hp. pose proof (fifoInit_untouched _ _ _ _ _ _ Hrun Hu) as Hu'.
  unfold all_untouched in Hu'. rewrite Forall_lookup in Hu'.
  destruct (Hu' _ _ Hp) as [He Hz]. unfold entry_ok. by rewrite He.
Qed.
End init.

(** * Properties *)

(** C14: the only call of the interface that can fault is [fifoAdd] on a queue in
    which no task was ever begun: [fifoInit] leaves [host_ok] (with one to
    sixteen queues, the first time it is called: [fifoInit_host_ok]), and from
    there any sequence of [fifoBegin], [fifoAdd] and [fifoKick] on existing
    queues, whole submissions, [fifoNoop], [fifo_addition], [fifoStop],
    [fifoIsEmpty], [fifoWait], [fifoRegisterProgram] and passes of the monitoring
    thread either ends in such a host again, or is still waiting, or follows the
    NULL pointer [entry_p] in a [fifoAdd] that comes before every [fifoBegin] and
    [fifoRegisterProgram] for its queue; and such a [fifoAdd] always does.  No
    index leaves its array otherwise, however many words are added to a task,
    and no other pointer is NULL. *)
Theorem host_faults_only_unbegun (env : list (M host unit)) (stwcx : list bool) (fuel : nat)
    (calls : list api) (s : host) :
  host_ok s -> Forall (benign host_ok) env -> true ∈ stwcx -> 2 ^ 24 <= Z.of_nat fuel ->
  Forall (api_ok s) calls ->
  (forall s', calls_api env stwcx fuel calls s = Ok (tt, s') -> host_ok s') /\
  (forall f, calls_api env stwcx fuel calls s = Fault f <->
     f = NullDeref /\ exists before i arg after s1, calls = before ++ Add i arg :: after /\
       calls_api env stwcx fuel before s = Ok (tt, s1) /\ ~ begun s1 i).
Proof.
  intros Hs Henv Hst Hf. revert s Hs. induction calls as [| o calls IH]; intros s Hs Hok.
  { split; [by intros s' [= <-] |]. intros f. split; [done |].
    intros (_ & [| ? ?] & i & arg & after & s1 & Hc & _); discriminate Hc. }
  apply Forall_cons in Hok as [Ho Hok]. cbn [calls_api].
  destruct (begun_or_not s o Hs Ho) as [Hb | (i & v & -> & Hb)].
  - pose proof (keeping_call env stwcx fuel Henv Hst Hf o s Hs Ho Hb) as Hcall. unfold keeping in Hcall.
    destruct (call_api env stwcx fuel o s) as [[[] s1] | |] eqn:Hrun; [| done |].
    + destruct Hcall as (Hs1 & Hn & _). rewrite (M_bind_ok _ _ _ _ _ Hrun).
      destruct (IH s1 Hs1) as [IHok IHf].
      { eapply Forall_impl; [exact Hok |]. intros o' Ho'. unfold api_ok in *. by rewrite Hn. }
      split; [exact IHok |]. intros f. rewrite IHf. split.
      * intros (-> & before & i & arg & after & s2 & -> & Hbef & Hnb). split; [done |].
        exists (o :: before), i, arg, after, s2. split_and!; [done | | done].
        cbn [calls_api]. by rewrite (M_bind_ok _ _ _ _ _ Hrun).
      * intros (-> & [| o' before] & i & arg & after & s2 & [= -> ->] & Hbef & Hnb); split; [done | | done |].
        { injection Hbef as <-. destruct Hnb. by eapply Hb. }
        cbn [calls_api] in Hbef. rewrite (M_bind_ok _ _ _ _ _ Hrun) in Hbef.
        by exists before, i, arg, after, s2.
    + assert (forall k : M host unit, (call_api env stwcx fuel o;; k) s = OutOfFuel) as Hout.
      { intros k. unfold mbind, M_bind. by rewrite Hrun. }
      rewrite Hout. split; [done |]. intros f. split; [done |].
      intros (_ & [| o' before] & i & arg & after & s2 & [= -> ->] & Hbef & Hnb).
      { injection Hbef as <-. destruct Hnb. by eapply Hb. }
      cbn [calls_api] in Hbef. by rewrite Hout in Hbef.
  - pose proof (add_unbegun i v s Hs Ho Hb) as Hadd. cbn [call_api].
    rewrite (M_bind_fault _ _ _ _ Hadd). split; [done |]. intros f. split.
    + intros [= <-]. split; [done |]. by exists [], i, v, calls, s.
    + by intros (-> & _).
Qed.

(** The monitoring thread neither returns nor faults, whatever the others do that
    keeps the queues well formed between its passes. *)
Theorem fifothread_runs (fuel : nat) (env : list (M host unit)) (s : host) :
  host_ok s -> 2 ^ 24 <= Z.of_nat fuel ->
  Forall (fun others => forall s, host_ok s -> keeping host_ok others (fun _ _ => True) s) env ->
  fifothread fuel env s = OutOfFuel.
Proof.
  intros Hs Hf Henv. revert s Hs. induction Henv as [| others env Ho _ IH]; intros s Hs; [done |].
  unfold fifothread in *. cbn [spin]. pose proof (keeping_pass fuel Hf s Hs) as Hp.
  unfold keeping in Hp. destruct (fifothread_pass fuel s) as [[[] s1] | |] eqn:Hrun; [| done |].
  - erewrite M_bind_ok by exact Hrun. rewrite run_ret. destruct Hp as [Hs1 _].
    specialize (Ho s1 Hs1). unfold keeping in Ho.
    destruct (others s1) as [[[] s2] | |]; [apply IH, Ho | done..].
  - unfold mbind, M_bind. by rewrite Hrun.
Qed.

(** * Witnesses *)

#[local] Existing Instance good_os.
#[local] Existing Instance sample_memory.

Lemma demo_host_ok : host_ok (demo 3 2).
Proof.
  destruct (fifoInit_host_ok 384 2 ROUND_ROBIN blank) as (s & Hrun & Hs & _).
  - apply sample_memory_ok. vm_compute. congruence.
  - apply good_os_creates.
  - lia.
  - unfold MAX_SPES. lia.
  - reflexivity.
  - repeat (apply Forall_cons; split; [done |]). done.
  - unfold demo. change (3 * 128) with 384. by rewrite Hrun.
Qed.

(** A task in queue 1: two words of [fifoBegin] and one more. *)
Lemma sample_calls fuel : exists s',
  calls_api [mret tt; mret tt] [false; true] fuel [Begin 1 2; Add 1 7; Kick 1; IsEmpty] (demo 3 2) = Ok (tt, s').
Proof. eexists. vm_compute. reflexivity. Qed.
(** [fifoBegin] takes queue 1, so that none is begun in queue 0. *)
Lemma sample_begin fuel : exists s',
  calls_api [mret tt; mret tt] [false; true] fuel [Begin 1 2] (demo 3 2) = Ok (tt, s') /\ ~ begun s' 0.
Proof. eexists. split; [vm_compute; reflexivity |]. by intros (p & _ & [= <-] & []). Qed.

Lemma sample_ok os :
  Forall (fun o => match o with Add i _ | Kick i => 0 <= i < 2 | _ => True end) os ->
  Forall (api_ok (demo 3 2)) os.
Proof.
  destruct (demo_shape 3 2) as [Hsp _]; [lia | lia |].
  intros Hos. eapply Forall_impl; [exact Hos |]. intros o. unfold api_ok. by rewrite Hsp.
Qed.

Lemma host_faults_only_unbegun_witness :
  let run := calls_api [mret tt; mret tt] [false; true] (Z.to_nat (2 ^ 24)) in
  (exists s', run [Begin 1 2; Add 1 7; Kick 1; IsEmpty] (demo 3 2) = Ok (tt, s') /\ host_ok s') /\
  run [Begin 1 2; Add 0 7; Kick 1] (demo 3 2) = Fault NullDeref.
Proof.
  intros run.
  assert (forall os, Forall (api_ok (demo 3 2)) os ->
    (forall s', run os (demo 3 2) = Ok (tt, s') -> host_ok s') /\
    (forall f, run os (demo 3 2) = Fault f <-> f = NullDeref /\
       exists before i arg after s1, os = before ++ Add i arg :: after /\
         run before (demo 3 2) = Ok (tt, s1) /\ ~ begun s1 i)) as Hsafe.
  { intros os Hos. apply host_faults_only_unbegun.
    - exact demo_host_ok.
    - repeat constructor; apply benign_quiet.
    - apply list_elem_of_In. right. left. reflexivity.
    - rewrite Z2Nat.id; lia.
    - exact Hos. }
  split.
  - destruct (sample_calls (Z.to_nat (2 ^ 24))) as [s' Hrun]. exists s'. split; [exact Hrun |].
    destruct (Hsafe [Begin 1 2; Add 1 7; Kick 1; IsEmpty]) as [Hok _];
      [apply sample_ok; repeat constructor; lia |].
    exact (Hok s' Hrun).
  - destruct (Hsafe [Begin 1 2; Add 0 7; Kick 1]) as [_ Hfault];
      [apply sample_ok; repeat constructor; lia |].
    apply Hfault.
    split; [reflexivity |]. destruct (sample_begin (Z.to_nat (2 ^ 24))) as (s' & Hrun & Hb).
    exists [Begin 1 2], 0, 7, [Kick 1], s'. split; [reflexivity |]. split; [exact Hrun | exact Hb].
Defined.

(** The others may be a thread that makes any calls that name no queue. *)
Lemma fifothread_runs_beside (fuel : nat) (stwcx : list bool) (os : list (list api)) (s : host) :
  host_ok s -> 2 ^ 24 <= Z.of_nat fuel -> true ∈ stwcx ->
  Forall (Forall (fun o => match o with Add _ _ | Kick _ => False | _ => True end)) os ->
  fifothread fuel (map (calls_api [] stwcx fuel) os) s = OutOfFuel.
Proof.
  intros Hs Hf Hst Hos. apply fifothread_runs; [done | done |].
  apply Forall_map. eapply Forall_impl; [exact Hos |]. intros o Ho. clear Hs Hos s.
  induction Ho as [| c o Hc _ IH]; intros s Hs; cbn [calls_api]; [done |].
  eapply keeping_bind; [apply keeping_call; by destruct c | by auto].
Qed.
