(* ===== verification/HostRefines.v ===== *)
(** The host as a board of bounded boxes of jobs: an abstract machine without
    memory, rings or pointers, and the proof that spefifo.c implements it.  The
    calls of the interface, the passes of the monitoring thread and the answers
    of the SPEs follow one another in any order. *)
From stdpp Require Import base list.
From Stdlib Require Import ZArith Lia.
From S2P Require Import Prelude.
From S2P Require Import Messages.
From S2P Require Import Fifo.
From S2P Require Import Ring.
From S2P Require Import SpeThread.
From S2P Require Import HostFifo.
From S2P Require Import HostQueue.
From S2P Require Import HostCalls.
From S2P Require Import HostSpec.

(** * The board *)

(** A job is the words that were given and whether the SPE has answered. *)
Record job := Job { job_words : list Z; answered : bool }.
(** One box of at most [room] jobs for each SPE, and the box used last. *)
Record board := Board { room : Z; turn : Z; boxes : list (list job) }.

Inductive action :=
| Send (command handle : Z) (args : list Z)
| Answer (i : Z) (j : nat) (v : Z)     (* job [j] of box [i], with the word [v] *)
| Collect                              (* a pass of the monitoring thread *)
| Look                                 (* fifoIsEmpty *)
| Wait                                 (* fifoWait *)
| Install (program size : Z).          (* fifoRegisterProgram *)

Definition box (b : board) (i : Z) : list job := default [] (boxes b !! Z.to_nat i).
Definition has_room (b : board) (i : Z) : bool := Z.of_nat (length (box b i)) <? room b.
(** The first box with room from the [k]-th after [turn] on. *)
Fixpoint choose_from (b : board) (k : Z) (n : nat) : option Z :=
  match n with
  | O => None
  | S n =>
      let i := (turn b + k) mod Z.of_nat (length (boxes b)) in
      if has_room b i then Some i else choose_from b (k + 1) n
  end.
Definition choose (b : board) : option Z := choose_from b 1 (length (boxes b)).

Fixpoint collect (js : list job) : list job :=
  match js with
  | j :: js' => if answered j then collect js' else js
  | [] => []
  end.
Definition nothing_left (b : board) : bool :=
  forallb (fun js => match js with [] => true | _ => false end) (boxes b).
Definition sent_words (c h : Z) (args : list Z) : list Z := map u32 (c :: h :: take 29 args).
Definition install_words (program size : Z) : list Z := register_words (u64 program) size.

Definition with_boxes (f : list (list job) -> list (list job)) (b : board) : board :=
  Board (room b) (turn b) (f (boxes b)).
Definition with_turn (i : Z) (b : board) : board := Board (room b) i (boxes b).
Definition post (ws : list Z) (js : list job) : list job := js ++ [Job ws false].
Definition answer_job (j : nat) (js : list job) : list job :=
  alter (fun x => Job (job_words x) true) j js.

(** The answer and the next board; [None] when the call does not return. *)
Definition board_step (a : action) (b : board) : option (Z * board) :=
  match a with
  | Send c h args =>
      match choose b with
      | Some i => Some (i, with_turn i (with_boxes (alter (post (sent_words c h args)) (Z.to_nat i)) b))
      | None => None
      end
  | Answer i j v => Some (0, with_boxes (alter (answer_job j) (Z.to_nat i)) b)
  | Collect => Some (0, with_boxes (map collect) b)
  | Look => Some (if nothing_left b then 1 else 0, b)
  | Wait => if nothing_left b then Some (0, b) else None
  | Install program size => Some (s32 program, with_boxes (map (post (install_words program size))) b)
  end.

(** SPEs answer jobs, and [fifoRegisterProgram], which does not test, is called
    when no queue is full. *)
Definition allowed (a : action) (b : board) : bool :=
  match a with
  | Answer i j v => (0 <=? i) && (j <? length (box b i))%nat && negb (v =? ACK_CLEAR)
  | Install _ _ => forallb (fun js => Z.of_nat (length js) <? room b) (boxes b)
  | _ => true
  end.

Fixpoint board_run (acts : list action) (b : board) : option (list Z * board) :=
  match acts with
  | [] => Some ([], b)
  | a :: acts =>
      match board_step a b with
      | Some (v, b') =>
          match board_run acts b' with Some (vs, b'') => Some (v :: vs, b'') | None => None end
      | None => None
      end
  end.
Fixpoint all_allowed (acts : list action) (b : board) : bool :=
  match acts with
  | [] => true
  | a :: acts => allowed a b &&
      match board_step a b with Some (_, b') => all_allowed acts b' | None => true end
  end.

Definition empty_board (slots n : Z) : board := Board (slots - 1) 0 (repeat [] (Z.to_nat n)).

(** What was sent to box [i], by calls that returned [vs]. *)
Fixpoint sent_to (i : Z) (acts : list action) (vs : list Z) : list (list Z) :=
  match acts, vs with
  | a :: acts, v :: vs =>
      match a with
      | Send c h args => if v =? i then [sent_words c h args] else []
      | Install program size => [install_words program size]
      | _ => []
      end ++ sent_to i acts vs
  | _, _ => []
  end.

(** * The host *)

(** What the SPE writes when it acknowledges the [j]-th pending slot. *)
Definition acknowledge (j : nat) (v : Z) : M spe_s unit :=
  r ← the_ring;
  upd_fifo (fun m =>
    ws ← deref (acks m); ws ← aset ws (4 * slot r (Z.of_nat j)) v;
    mret (set_acks (Valid ws) m)).

Definition host_act (tries : nat) (stwcx : list bool) (fuel : nat) (a : action) : M host Z :=
  match a with
  | Send c h args => submit (repeat (mret tt) tries) stwcx c h args
  | Answer i j v => on i (acknowledge j v);; mret 0
  | Collect => fifothread_pass fuel;; mret 0
  | Look => fifoIsEmpty
  | Wait => fifoWait (repeat (mret tt) tries);; mret 0
  | Install program size => fifoRegisterProgram (fun _ => stwcx) program size
  end.
Fixpoint host_run (tries : nat) (stwcx : list bool) (fuel : nat) (acts : list action) :
    M host (list Z) :=
  match acts with
  | [] => mret []
  | a :: acts =>
      v ← host_act tries stwcx fuel a;
      vs ← host_run tries stwcx fuel acts;
      mret (v :: vs)
  end.

(** * The relation *)

Record in_box (n : Z) (q : queue) (js : list job) : Prop := {
  ib_wf : queue_wf q;
  ib_size : size (q_ring q) = n + 1;
  ib_pending : acks_pending q;
  ib_tasks : Forall2 (fun j t => take (length (job_words j)) t = job_words j) js (queued q);
  ib_acked k j : js !! k = Some j ->
    acked (q_acks q) (slot (q_ring q) (Z.of_nat k)) <-> answered j = true }.

(** No task is begun and not kicked. *)
Definition kicked (s : host) : Prop := forall i p,
  (i < Z.to_nat (spes s))%nat -> spe s !! i = Some p -> isKicked p = 1.

Record on_board (b : board) (s : host) : Prop := {
  ob_wf : host_wf s;
  ob_spes : Z.of_nat (length (boxes b)) = spes s;
  ob_turn : turn b = current_spe s;
  ob_kicked : kicked s;
  ob_box i : 0 <= i < spes s -> exists q, has_queue s i q /\ in_box (room b) q (box b i) }.

(** * Lemmas *)

(** ** One box *)

Section box.
Implicit Types (q : queue) (js : list job).

Lemma in_box_length n q js : in_box n q js -> Z.of_nat (length js) = count (q_ring q).
Proof.
  intros [Hq _ _ Ht _]. apply Forall2_length in Ht as ->. unfold queued.
  rewrite length_map. apply length_pending, Hq.
Qed.

Lemma in_box_free n q js :
  in_box n q js -> ringHasFree (q_ring q) <> 0 <-> Z.of_nat (length js) < n.
Proof.
  intros Hb. rewrite (in_box_length _ _ _ Hb). destruct Hb as [Hq Hs _ _ _].
  rewrite ringHasFree_count, Hs by apply Hq. zcases.
Qed.

Lemma in_box_nil n q js : in_box n q js -> queued q = [] <-> js = [].
Proof.
  intros [_ _ _ Ht _]. split; intros He.
  - rewrite He in Ht. by apply Forall2_nil_inv_r in Ht.
  - rewrite He in Ht. by apply Forall2_nil_inv_l in Ht.
Qed.

Lemma in_box_push n q js ws :
  in_box n q js -> Z.of_nat (length js) < n -> (length ws <= 32)%nat ->
  in_box n (with_ring (ringIncFront (q_ring q)) (published (with_task ws q))) (post ws js).
Proof.
  intros Hb Hl Hws. pose proof (proj2 (in_box_free _ _ _ Hb) Hl) as Hf.
  pose proof (in_box_length _ _ _ Hb) as Hlen. destruct Hb as [Hq Hs Hp Ht Ha].
  pose proof (qwf_ring q Hq) as Hr. destruct (queued_push ws q Hq Hf Hws) as (t & Hqt & Htk).
  assert (count (q_ring q) < size (q_ring q) - 1) as Hc by lia. split.
  - apply with_ring_wf; [by apply published_wf, with_task_wf | |].
    + by apply ringIncFront_wf.
    + apply ringIncFront_size.
  - cbn. by rewrite ringIncFront_size.
  - intros i Hi Hai. cbn in *. rewrite ringIncFront_size in Hi.
    rewrite pending_IncFront by done. apply elem_of_app. left. by apply Hp.
  - rewrite Hqt. apply Forall2_app; [done |]. by constructor.
  - intros k j Hk. cbn. rewrite slot_IncFront by done. unfold post in Hk.
    apply lookup_app_Some in Hk as [Hk | [Hk1 Hk2]]; [by apply Ha |].
    apply list_lookup_singleton_Some in Hk2 as [Hk2 <-]. cbn. split; [| done].
    replace (Z.of_nat k) with (count (q_ring q)) by lia. rewrite slot_count by done.
    intros Hack. assert (front (q_ring q) ∈ pending (q_ring q)) as Hin.
    { apply Hp; [by destruct Hr as (_ & ? & _) | done]. }
    rewrite <- slot_count in Hin by done. apply elem_of_pending in Hin as (i & Hi & Heq).
    pose proof (count_range _ Hr). apply slot_inj in Heq; (done || lia).
Qed.

Lemma collect_drop k js :
  (forall i j, (i < k)%nat -> js !! i = Some j -> answered j = true) ->
  (forall j, js !! k = Some j -> answered j = false) -> collect js = drop k js.
Proof.
  revert k. induction js as [| j js IH]; intros k Hall Hk; [by destruct k |].
  destruct k as [| k]; cbn [collect drop].
  - by rewrite (Hk j).
  - rewrite (Hall 0%nat j) by (done || lia). apply IH; [| done].
    intros i j' Hi. apply (Hall (S i)). lia.
Qed.

Lemma in_box_collect n q q' js : in_box n q js -> drained q q' -> in_box n q' (collect js).
Proof.
  intros Hb Hd. pose proof (in_box_length _ _ _ Hb) as Hlen. destruct Hb as [Hq Hs Hp Ht Ha].
  destruct (drained_pending q q' Hq Hp Hd) as [Hp' _]. destruct Hd as (k & Hk & -> & Hall & Hstop).
  pose proof (acked_run_pending q k Hq Hp Hk Hall) as Hkc.
  pose proof (count_range _ (qwf_ring q Hq)).
  assert (collect js = drop (Z.to_nat k) js) as ->.
  { apply collect_drop.
    - intros i j Hi Hj. apply (Ha i j Hj), Hall. lia.
    - intros j Hj. apply not_true_is_false. rewrite <- (Ha _ j Hj), Z2Nat.id by lia.
      apply Hstop. lia. }
  split; [by apply releases_wf | by rewrite releases_ring | done | |].
  - rewrite queued_releases by (done || lia). by apply Forall2_drop.
  - intros i j Hj. rewrite lookup_drop in Hj. rewrite <- (Ha _ j Hj).
    apply lookup_lt_Some in Hj. rewrite releases_ring, Z2Nat.id by (done || lia).
    assert (slot (set_back (q_ring q) (slot (q_ring q) k)) (Z.of_nat i) =
      slot (q_ring q) (Z.of_nat (Z.to_nat k + i))) as ->.
    { unfold slot. cbn. rewrite Zplus_mod_idemp_l. f_equal. lia. }
    apply releases_acked; [done | lia].
Qed.

Definition acked_queue (i v : Z) q : queue :=
  Queue (q_ring q) (q_tasks q) (<[Z.to_nat (4 * i) := v]> (q_acks q)) (q_atomic q).

Lemma in_box_answer n q js (j : nat) v :
  in_box n q js -> (j < length js)%nat -> v <> ACK_CLEAR ->
  in_box n (acked_queue (slot (q_ring q) (Z.of_nat j)) v q) (answer_job j js).
Proof.
  intros Hb Hj Hv. pose proof (in_box_length _ _ _ Hb) as Hlen. destruct Hb as [Hq Hs Hp Ht Ha].
  pose proof (count_range _ (qwf_ring q Hq)) as Hc.
  set (x := slot (q_ring q) (Z.of_nat j)).
  assert (0 <= x < size (q_ring q)) as Hx by apply slot_range, Hq.
  pose proof (qwf_acks q Hq) as Hla.
  assert (forall i, 0 <= i -> i <> x -> acked (q_acks (acked_queue x v q)) i <-> acked (q_acks q) i) as Ho.
  { intros i Hi Hne. unfold acked. cbn. by rewrite list_lookup_insert_ne by lia. }
  assert (acked (q_acks (acked_queue x v q)) x) as Hax.
  { exists v. cbn. by rewrite list_lookup_insert_eq by lia. }
  split; try done.
  - destruct Hq. split; cbn; try done. by rewrite length_insert.
  - intros i Hi Hai. cbn in Hi |- *. destruct (decide (i = x)) as [-> | Hne].
    + apply elem_of_pending. exists (Z.of_nat j). split; [lia | done].
    + apply Hp; [done |]. apply Ho; [lia | done | exact Hai].
  - unfold answer_job. change (queued (acked_queue x v q)) with (queued q).
    eapply Forall2_same_length_lookup_2; [by rewrite length_alter, (Forall2_length _ _ _ Ht) |].
    intros i y t Hy Hi. destruct (decide (i = j)) as [-> | Hne].
    + rewrite list_lookup_alter_eq in Hy. destruct (js !! j) as [y' |] eqn:Hyj; [| done].
      injection Hy as <-. cbn. by eapply (Forall2_lookup_lr _ _ _ _ _ _ Ht).
    + rewrite list_lookup_alter_ne in Hy by done. by eapply (Forall2_lookup_lr _ _ _ _ _ _ Ht).
  - intros k y Hy. cbn [q_ring acked_queue]. unfold answer_job in Hy.
    destruct (decide (k = j)) as [-> | Hne].
    + rewrite list_lookup_alter_eq in Hy. destruct (js !! j) as [y' |] eqn:Hyj; [| done].
      injection Hy as <-. by split.
    + rewrite list_lookup_alter_ne in Hy by done. pose proof (lookup_lt_Some _ _ _ Hy).
      rewrite Ho; [by apply Ha | by apply slot_range, Hq |].
      intros Heq. apply Hne. apply slot_inj in Heq; [lia | apply Hq | lia | lia].
Qed.

Lemma in_box_fresh e q : fresh_queue e q -> in_box (e - 1) q [].
Proof.
  intros [Hq Hr Ha _]. split; [done | by rewrite Hr; cbn; lia | | | done].
  - intros i Hi Hai. rewrite Hr in Hi. by destruct (Ha i Hi).
  - unfold queued. rewrite Hr. unfold pending, count. cbn. rewrite Z.mod_0_l; [done |].
    pose proof (qwf_ring q Hq) as [Hz _]. rewrite Hr in Hz. cbn in Hz. lia.
Qed.
End box.

(** ** Nothing stays begun *)

Definition isKicked_1 (p : spe_s) : Prop := isKicked p = 1.

Lemma keeps_upd_ring f : keeps isKicked_1 (upd_ring f).
Proof. unfold upd_ring, the_ring. eauto with keeps. Qed.
Lemma keeps_upd_fifo f : keeps isKicked_1 (upd_fifo f).
Proof. unfold upd_fifo, the_fifo. eauto with keeps. Qed.
#[local] Hint Resolve keeps_upd_ring keeps_upd_fifo : keeps.
Lemma keeps_drain_round : keeps isKicked_1 drain_round.
Proof. unfold drain_round, the_ring, the_fifo. eauto 20 with keeps. Qed.
Lemma keeps_acknowledge j v : keeps isKicked_1 (acknowledge j v).
Proof. unfold acknowledge, the_ring. eauto with keeps. Qed.
Lemma leaves_register stwcx addr size : leaves isKicked_1 (register_entry stwcx addr size).
Proof.
  unfold register_entry. do 11 (apply leaves_last; intros _). unfold kick_entry.
  apply leaves_last. intros _. apply leaves_then; [| intros _; apply keeps_upd_ring].
  intros p a p' Hr. rewrite run_modify in Hr. by simplify_eq.
Qed.

Lemma keeps_on {A : Type} (m : M spe_s A) i : keeps isKicked_1 m -> keeps kicked (on i m).
Proof.
  intros Hm s a s' Hr Hk. unfold on in Hr. apply M_bind_inv in Hr as (p & s1 & Hp & Hr).
  assert (s1 = s /\ aget (spe s) i = Ok p) as [-> Hp'].
  { unfold lift in Hp. by destruct (aget (spe s) i); simplify_eq. }
  apply M_bind_inv in Hr as (r & s2 & Hp2 & Hr).
  assert (s2 = s /\ m p = Ok r) as [-> Hmp]; [by unfold lift in Hp2; destruct (m p); simplify_eq |].
  apply M_bind_inv in Hr as ([] & s3 & Hmod & Hr). rewrite run_modify in Hmod. rewrite run_ret in Hr.
  simplify_eq. apply aget_lookup in Hp' as [Hi Hpi]. intros j p' Hj Hjp. cbn in Hj, Hjp.
  apply list_lookup_insert_Some in Hjp as [(<- & <- & _) | (Hne & Hjp)]; [| by eapply Hk].
  destruct r as [a' p'']. eapply Hm; [exact Hmp |]. by eapply Hk.
Qed.

Lemma keeps_drain_from fuel n : forall i, keeps kicked (drain_from fuel i n).
Proof.
  induction n as [| n IH]; intros i; [apply keeps_ret |].
  apply keeps_bind; [by apply keeps_on, keeps_loop, keeps_drain_round | intros _; apply IH].
Qed.
Lemma keeps_register_from stwcx addr size n : forall i, keeps kicked (register_from stwcx addr size i n).
Proof.
  induction n as [| n IH]; intros i; [apply keeps_ret |].
  apply keeps_bind; [by apply keeps_on, leaves_keeps, leaves_register | intros _; apply IH].
Qed.

Lemma keeps_on_current {A : Type} (m : M spe_s A) i c : keeps (fun s => current_spe s = c) (on i m).
Proof.
  intros s a s' Hr Hc. unfold on, mbind, M_bind, lift in Hr.
  destruct (aget (spe s) i) as [p | |]; [| done..]. destruct (m p) as [[a' p'] | |]; [| done..].
  by injection Hr as <- <-.
Qed.
Lemma keeps_register_current stwcx addr size n c : forall i,
  keeps (fun s => current_spe s = c) (register_from stwcx addr size i n).
Proof.
  induction n as [| n IH]; intros i; [apply keeps_ret |].
  apply keeps_bind; [apply keeps_on_current | intros _; apply IH].
Qed.

(** ** Boxes of a board *)

Section boards.
Implicit Types (b : board) (s : host).
Local Abbreviation len b := (Z.of_nat (length (boxes b))).

Lemma box_alter f b i j : 0 <= i < len b -> 0 <= j ->
  box (with_boxes (alter f (Z.to_nat i)) b) j = if decide (j = i) then f (box b i) else box b j.
Proof.
  intros Hi Hj. unfold box. cbn. case_decide as Hij.
  - subst j. rewrite list_lookup_alter_eq.
    destruct (lookup_lt_is_Some_2 (boxes b) (Z.to_nat i)) as [js ->]; [lia | done].
  - by rewrite list_lookup_alter_ne by lia.
Qed.

Lemma box_map f b j : 0 <= j < len b -> box (with_boxes (map f) b) j = f (box b j).
Proof.
  intros Hj. unfold box. cbn. change (map f (boxes b)) with (f <$> boxes b). rewrite list_lookup_fmap.
  destruct (lookup_lt_is_Some_2 (boxes b) (Z.to_nat j)) as [js ->]; [lia | done].
Qed.

Lemma choose_from_spec b n : forall k,
  match choose_from b k n with
  | Some i => exists j, k <= j < k + Z.of_nat n /\ i = (turn b + j) mod len b /\ has_room b i = true /\
      (forall j', k <= j' < j -> has_room b ((turn b + j') mod len b) = false)
  | None => forall j, k <= j < k + Z.of_nat n -> has_room b ((turn b + j) mod len b) = false
  end.
Proof.
  induction n as [| n IH]; intros k; cbn [choose_from]; [intros; lia |].
  destruct (has_room b _) eqn:Hr.
  - exists k. split_and!; [lia | lia | done | done | intros; lia].
  - specialize (IH (k + 1)). destruct (choose_from b (k + 1) n).
    + destruct IH as (j & Hj & -> & Hf & Hno). exists j. split_and!; [lia | lia | done | done |].
      intros j' Hj'. destruct (decide (j' = k)) as [-> |]; [done | apply Hno; lia].
    + intros j Hj. destruct (decide (j = k)) as [-> |]; [done | apply IH; lia].
Qed.

Lemma nothing_left_spec b :
  nothing_left b = true <-> (forall i, 0 <= i < len b -> box b i = []).
Proof.
  unfold nothing_left. rewrite forallb_forall. split.
  - intros Hall i Hi. unfold box.
    destruct (lookup_lt_is_Some_2 (boxes b) (Z.to_nat i)) as [js Hjs]; [lia |]. rewrite Hjs. cbn.
    specialize (Hall js). rewrite <- list_elem_of_In in Hall.
    destruct js; [done |]. discriminate Hall. by eapply list_elem_of_lookup_2.
  - intros Hall js Hin. apply list_elem_of_In, list_elem_of_lookup in Hin as [i Hi].
    pose proof (lookup_lt_Some _ _ _ Hi). specialize (Hall (Z.of_nat i)).
    unfold box in Hall. rewrite Nat2Z.id, Hi in Hall. cbn in Hall. rewrite Hall by lia. done.
Qed.

Lemma board_step_shape a b v b' :
  board_step a b = Some (v, b') -> room b' = room b /\ length (boxes b') = length (boxes b).
Proof.
  intros Hr. destruct a; cbn in Hr; repeat case_match; simplify_eq; cbn;
    rewrite ?length_alter, ?length_map; done.
Qed.

Lemma board_run_shape acts : forall b vs b',
  board_run acts b = Some (vs, b') -> room b' = room b /\ length (boxes b') = length (boxes b).
Proof.
  induction acts as [| a acts IH]; intros b vs b' Hr; cbn in Hr; [by injection Hr as _ <- |].
  destruct (board_step a b) as [[v b1] |] eqn:Hst; [| done].
  destruct (board_run acts b1) as [[vs1 b2] |] eqn:Hr1; [| done]. injection Hr as _ <-.
  destruct (board_step_shape _ _ _ _ Hst), (IH _ _ _ Hr1). by split; etransitivity.
Qed.

Lemma allowed_answer b i j v :
  allowed (Answer i j v) b = true -> 0 <= i < len b /\ (j < length (box b i))%nat /\ v <> ACK_CLEAR.
Proof.
  unfold allowed. rewrite !andb_true_iff, Z.leb_le, Nat.ltb_lt, negb_true_iff, Z.eqb_neq. intros ((Hi & Hj) & Hv).
  split_and!; try done. unfold box in Hj.
  destruct (boxes b !! Z.to_nat i) as [js |] eqn:Hjs; [| cbn in Hj; lia].
  apply lookup_lt_Some in Hjs. lia.
Qed.

Lemma allowed_install b program size i :
  allowed (Install program size) b = true -> 0 <= i < len b -> Z.of_nat (length (box b i)) < room b.
Proof.
  cbn. rewrite forallb_forall. intros Hall Hi. apply Z.ltb_lt, Hall, list_elem_of_In. unfold box.
  destruct (lookup_lt_is_Some_2 (boxes b) (Z.to_nat i)) as [js Hjs]; [lia |].
  rewrite Hjs. by eapply list_elem_of_lookup_2.
Qed.

(** ** What the host shows of the board *)

Lemma on_board_queue b s i q :
  on_board b s -> has_queue s i q -> in_box (room b) q (box b i).
Proof.
  intros Hb Hq. destruct (ob_box _ _ Hb i (proj1 Hq)) as (q' & Hq' & Hin).
  by rewrite (has_queue_agree _ _ _ _ Hq Hq').
Qed.

Lemma on_board_free b s i :
  on_board b s -> 0 <= i < spes s -> queue_free s i <-> has_room b i = true.
Proof.
  intros Hb Hi. unfold has_room. rewrite Z.ltb_lt. split.
  - intros (q & Hq & Hf). by eapply in_box_free; [eapply on_board_queue |].
  - intros Hl. destruct (ob_box _ _ Hb i Hi) as (q & Hq & Hin). exists q. split; [done |].
    by eapply in_box_free.
Qed.

Lemma on_board_empty b s : on_board b s -> all_empty s <-> nothing_left b = true.
Proof.
  intros Hb. rewrite nothing_left_spec, (ob_spes _ _ Hb). split.
  - intros Hall i Hi. destruct (ob_box _ _ Hb i Hi) as (q & Hq & Hin).
    eapply in_box_nil; [exact Hin |]. by eapply Hall.
  - intros Hall i q Hq. eapply in_box_nil; [by eapply on_board_queue |]. apply Hall, Hq.
Qed.

Lemma on_board_changed b s s' i q' f :
  on_board b s -> 0 <= i < spes s -> changed s i q' s' -> kicked s' ->
  in_box (room b) q' (f (box b i)) -> on_board (with_boxes (alter f (Z.to_nat i)) b) s'.
Proof.
  intros [Hs Hn Ht Hk Hq] Hi [Hs' Hn' Hc' Hq' Ho] Hk' Hin. split; try done.
  - cbn. rewrite length_alter. congruence.
  - cbn. congruence.
  - intros j Hj. rewrite Hn' in Hj. rewrite box_alter by lia. case_decide as Hji.
    + subst j. by exists q'.
    + destruct (Hq j Hj) as (q & Hqj & Hinj). exists q. split; [by apply Ho | done].
Qed.

Lemma on_board_all b s s' f :
  on_board b s -> host_wf s' -> spes s' = spes s -> current_spe s' = current_spe s -> kicked s' ->
  (forall i q, has_queue s i q -> in_box (room b) q (box b i) ->
     exists q', has_queue s' i q' /\ in_box (room b) q' (f (box b i))) ->
  on_board (with_boxes (map f) b) s'.
Proof.
  intros [Hs Hn Ht Hk Hq] Hs' Hn' Hc' Hk' Hall. split; try done.
  - cbn. rewrite length_map. congruence.
  - cbn. congruence.
  - intros j Hj. rewrite Hn' in Hj. rewrite box_map by lia.
    destruct (Hq j Hj) as (q & Hqj & Hinj). by eapply Hall.
Qed.

(** ** Waiting alone *)

Lemma select_full n : forall s,
  host_wf s -> (forall i, 0 <= i < spes s -> ~ queue_free s i) ->
  spin (repeat (mret tt) n) select_round s = OutOfFuel.
Proof.
  induction n as [| n IH]; intros s Hs Hno; [done |]. cbn [repeat spin].
  destruct (run_select_round s Hs) as [[Hf _] | [_ ->]].
  - by destruct (Hno _ (hwf_current s Hs)).
  - rewrite run_ret. apply IH; [by apply with_current_wf, advance_range |]. apply Hno.
Qed.

Lemma wait_alone n s :
  host_wf s -> (0 < n)%nat ->
  (all_empty s -> fifoWait (repeat (mret tt) n) s = Ok (tt, s)) /\
  (~ all_empty s -> fifoWait (repeat (mret tt) n) s = OutOfFuel).
Proof.
  intros Hs Hn. unfold fifoWait. destruct (run_wait_round s Hs) as (o & Ho & Hiff). split.
  - intros He. apply Hiff in He as ->. destruct n; [lia |]. cbn [repeat spin]. by rewrite Ho.
  - intros He. clear Hn. induction n as [| n IH]; [done |]. cbn [repeat spin]. rewrite Ho.
    destruct o as [[] |]; [by destruct He; apply Hiff |]. by rewrite run_ret.
Qed.
End boards.

(** ** One step *)

Section steps.
Context (tries : nat) (stwcx : list bool) (fuel : nat).
Implicit Types (b : board) (s : host).
Local Abbreviation act := (host_act tries stwcx fuel).

(** Enough rounds for the loops, and a store that succeeds. *)
Record enough b : Prop := {
  en_tries : (length (boxes b) <= tries)%nat;
  en_stwcx : true ∈ stwcx;
  en_fuel : room b + 1 < Z.of_nat fuel }.

(** The step of the host matches the one of the board. *)
Definition matches b s (a : action) : Prop :=
  match board_step a b with
  | Some (v, b') => exists s', act a s = Ok (v, s') /\ on_board b' s'
  | None => act a s = OutOfFuel
  end.

Lemma act_send b s c h args : on_board b s -> enough b -> matches b s (Send c h args).
Proof.
  intros Hb [Htr Hst Hfu]. pose proof Hb as [Hs Hn Ht Hk _]. pose proof (hwf_spes s Hs) as Hsp.
  unfold matches. cbn [board_step host_act]. unfold choose.
  pose proof (choose_from_spec b (length (boxes b)) 1) as Hc. rewrite Hn, Ht in Hc.
  destruct (choose_from b 1 (length (boxes b))) as [i |].
  - destruct Hc as (k & Hkr & -> & Hr & Hno). set (i := _ mod _) in *.
    assert (0 <= i < spes s) as Hi by (apply Z.mod_pos_bound; lia).
    assert (first_free s k) as Hff.
    { split; [lia |]. split; [by eapply on_board_free |]. intros j Hj Hf.
      apply (on_board_free b s) in Hf; [| done | apply Z.mod_pos_bound; lia].
      by rewrite Hno in Hf by lia. }
    destruct (ob_box _ _ Hb i Hi) as (q & (_ & p & Hp & Hh & Hq) & Hin).
    assert (isKicked p = 1) as Hkp by (eapply Hk; [| exact Hp]; lia).
    destruct (run_submit_first s k tries stwcx c h args p q Hs Hff) as
      (s' & p' & t & Hrun & Hch & Hp' & Hkp' & _ & _ & Ho); try done; [lia |].
    exists s'. split; [exact Hrun |].
    assert (on_board (with_turn i b) (with_current s i)) as Hb1.
    { destruct Hb as [_ _ _ _ Hbox]. split; try done. by apply with_current_wf. }
    eapply (on_board_changed (with_turn i b)); [exact Hb1 | done | exact Hch | |].
    + intros j pj Hj Hpj. destruct (decide (j = Z.to_nat i)) as [-> |].
      * fold i in Hp'. rewrite Hp' in Hpj. by injection Hpj as <-.
      * rewrite Ho in Hpj by done. rewrite (ch_spes _ _ _ _ Hch) in Hj. by eapply Hk.
    + apply in_box_push; [exact Hin | by apply Z.ltb_lt in Hr |].
      unfold sent_words. rewrite length_map. cbn. rewrite length_take. lia.
  - unfold submit, fifoBegin. rewrite M_bind_assoc. unfold mbind, M_bind at 1.
    rewrite run_selectfifo by done. rewrite select_full; [done | by apply with_current_wf, advance_range |].
    intros i Hi Hf. apply (on_board_free b s) in Hf; [| done | done].
    cbn in Hi. specialize (Hc ((i - current_spe s - 1) mod spes s + 1)).
    replace ((current_spe s + ((i - current_spe s - 1) mod spes s + 1)) mod spes s) with i in Hc.
    { rewrite Hc in Hf; [done |]. pose proof (Z.mod_pos_bound (i - current_spe s - 1) (spes s)). lia. }
    rewrite Z.add_assoc, (Z.add_comm (current_spe s)), <- Z.add_assoc, Zplus_mod_idemp_l.
    rewrite Z.mod_small; lia.
Qed.

Lemma act_answer b s i j v :
  on_board b s -> allowed (Answer i j v) b = true -> matches b s (Answer i j v).
Proof.
  intros Hb (Hi & Hj & Hv)%allowed_answer. pose proof (ob_spes _ _ Hb) as Hn. rewrite Hn in Hi.
  destruct (ob_box _ _ Hb i Hi) as (q & (_ & p & Hp & Hh & Hq) & Hin).
  unfold matches. cbn [board_step host_act].
  pose proof (in_box_length _ _ _ Hin) as Hlen. pose proof (count_range _ (qwf_ring q Hq)).
  set (x := slot (q_ring q) (Z.of_nat j)).
  assert (0 <= x < size (q_ring q)) as Hx by apply slot_range, Hq. pose proof (qwf_acks q Hq).
  destruct (run_upd_fifo (fun m => ws ← deref (acks m); ws ← aset ws (4 * x) v;
      mret (set_acks (Valid ws) m)) p q (acked_queue x v q) Hh) as (m' & Hrun & Hh1); [| done |].
  { intros n Hnt Hna Hnl. rewrite Hna. cbn [mbind res_bind deref]. rewrite aset_ok by lia.
    eexists. by split. }
  assert (acknowledge j v p = Ok (tt, set_fifos (Valid m') p)) as Hack.
  { unfold acknowledge. by erewrite M_bind_ok by (by apply run_the_ring). }
  pose proof (in_box_answer _ _ _ j v Hin Hj Hv) as Hin'.
  destruct (run_on_queue (acknowledge j v) i s p q tt _ (acked_queue x v q) (ob_wf _ _ Hb) Hi Hp Hack Hh1)
    as [Hon Hch]; [apply Hin' |].
  eexists. split; [by erewrite M_bind_ok by exact Hon |].
  eapply on_board_changed; [done | done | exact Hch | | done].
  eapply keeps_on; [apply keeps_acknowledge | exact Hon | apply Hb].
Qed.

Lemma act_collect b s : on_board b s -> enough b -> matches b s Collect.
Proof.
  intros Hb [_ _ Hfu]. pose proof (hwf_spes s (ob_wf _ _ Hb)). unfold matches. cbn [board_step host_act].
  destruct (run_drain_from fuel (Z.to_nat (spes s)) 0 s (ob_wf _ _ Hb))
    as (s' & Hrun & Hs' & Hn' & Hc' & _ & Hall); [lia | lia | |].
  { intros i q Hq. pose proof (on_board_queue b s i q Hb Hq) as [_ -> _ _ _]. lia. }
  exists s'. split.
  { unfold fifothread_pass. rewrite M_bind_assoc. mstep. by erewrite M_bind_ok by exact Hrun. }
  apply (on_board_all b s); try done.
  - eapply keeps_drain_from; [exact Hrun | apply Hb].
  - intros i q Hq Hin. destruct (Hall i q) as (q' & Hq' & Hd); [apply Hq | done |].
    exists q'. split; [done |]. by eapply in_box_collect.
Qed.

Lemma act_look b s : on_board b s -> matches b s Look.
Proof.
  intros Hb. unfold matches. cbn [board_step host_act].
  destruct (run_fifoIsEmpty s (ob_wf _ _ Hb)) as (v & Hv & Hc & Hiff).
  rewrite (on_board_empty b s Hb) in Hiff. exists s. split; [| done]. rewrite Hv.
  destruct (nothing_left b); [by rewrite (proj2 Hiff) |].
  destruct Hc as [-> | ->]; [done |]. by discriminate (proj1 Hiff eq_refl).
Qed.

Lemma act_wait b s : on_board b s -> enough b -> matches b s Wait.
Proof.
  intros Hb [Htr _ _]. pose proof (hwf_spes s (ob_wf _ _ Hb)). pose proof (ob_spes _ _ Hb).
  unfold matches. cbn [board_step host_act].
  destruct (wait_alone tries s (ob_wf _ _ Hb)) as [He Hne]; [lia |].
  rewrite (on_board_empty b s Hb) in He, Hne. destruct (nothing_left b).
  - exists s. split; [| done]. by erewrite M_bind_ok by (by apply He).
  - unfold mbind, M_bind. by rewrite Hne.
Qed.

Lemma act_install b s program size :
  on_board b s -> enough b -> allowed (Install program size) b = true -> matches b s (Install program size).
Proof.
  intros Hb [_ Hst _] Hal. pose proof (ob_spes _ _ Hb) as Hn.
  unfold matches. cbn [board_step host_act].
  destruct (run_fifoRegisterProgram (fun _ => stwcx) program size s (ob_wf _ _ Hb))
    as (s' & Hrun & Hs' & Hn' & Hall); [done |].
  exists s'. split; [exact Hrun |].
  unfold fifoRegisterProgram in Hrun. rewrite (M_bind_ok _ _ _ _ _ (run_gets _ _)) in Hrun.
  apply M_bind_inv in Hrun as ([] & s2 & Hrun & Hret). rewrite run_ret in Hret.
  injection Hret as _ <-. apply (on_board_all b s); try done.
  - by eapply keeps_register_current.
  - eapply keeps_register_from; [exact Hrun | apply Hb].
  - intros i q Hq Hin. eexists. split; [by apply Hall |]. apply in_box_push; [done | | cbn; lia].
    apply (allowed_install b program size i Hal). rewrite Hn. apply Hq.
Qed.

Lemma act_step a b s : on_board b s -> enough b -> allowed a b = true -> matches b s a.
Proof.
  intros Hb He Ha. destruct a;
    eauto using act_send, act_answer, act_collect, act_look, act_wait, act_install.
Qed.

Lemma board_step_enough a b v b' : enough b -> board_step a b = Some (v, b') -> enough b'.
Proof.
  intros [Ht Hs Hf] Hr. destruct (board_step_shape _ _ _ _ Hr) as [Hrm Hl].
  by split; rewrite ?Hrm, ?Hl.
Qed.

Lemma host_run_board acts : forall b s, on_board b s -> enough b -> all_allowed acts b = true ->
  match board_run acts b with
  | Some (vs, b') => exists s', host_run tries stwcx fuel acts s = Ok (vs, s') /\ on_board b' s'
  | None => host_run tries stwcx fuel acts s = OutOfFuel
  end.
Proof.
  induction acts as [| a acts IH]; intros b s Hb He Hal; cbn [board_run host_run].
  { by exists s. }
  apply andb_true_iff in Hal as [Ha Hal]. pose proof (act_step a b s Hb He Ha) as Hm. unfold matches in Hm.
  destruct (board_step a b) as [[v b1] |] eqn:Hst; cycle 1.
  { unfold mbind, M_bind. by rewrite Hm. }
  destruct Hm as (s1 & Hrun & Hb1). specialize (IH b1 s1 Hb1 (board_step_enough _ _ _ _ He Hst) Hal).
  destruct (board_run acts b1) as [[vs b2] |].
  - destruct IH as (s2 & Hrun2 & Hb2). exists s2. split; [| done].
    erewrite M_bind_ok by exact Hrun. by erewrite M_bind_ok by exact Hrun2.
  - erewrite M_bind_ok by exact Hrun. unfold mbind, M_bind. by rewrite IH.
Qed.
End steps.

(** ** First in, first out *)

Section order.
Implicit Types (b : board).
Local Abbreviation len b := (Z.of_nat (length (boxes b))).

Lemma collect_suffix js : exists k, (k <= length js)%nat /\ collect js = drop k js.
Proof.
  induction js as [| j js (k & Hk & IH)]; [by exists 0%nat |]. cbn [collect].
  destruct (answered j); [exists (S k); cbn; split; [lia | done] | exists 0%nat; split; [lia | done]].
Qed.

Lemma answer_job_words j js : map job_words (answer_job j js) = map job_words js.
Proof.
  revert j. induction js as [| x js IH]; intros [| j]; try done. unfold answer_job in *. cbn. by f_equal.
Qed.

Lemma choose_range b i : choose b = Some i -> 0 <= i < len b /\ has_room b i = true.
Proof.
  intros Hc. pose proof (choose_from_spec b (length (boxes b)) 1) as Hs.
  unfold choose in Hc. rewrite Hc in Hs. destruct Hs as (j & Hj & -> & Hr & _).
  split; [| done]. apply Z.mod_pos_bound. lia.
Qed.

(** A step takes jobs from the head of a box and adds what it sends. *)
Lemma board_step_order a b v b' i :
  board_step a b = Some (v, b') -> allowed a b = true -> 0 <= i < len b ->
  exists k, (k <= length (box b i))%nat /\
    map job_words (box b' i) = drop k (map job_words (box b i)) ++ sent_to i [a] [v].
Proof.
  intros Hst Ha Hi.
  assert (forall js, (0 <= length js)%nat /\ map job_words js = drop 0 (map job_words js) ++ []) as Hsame.
  { intros js. rewrite app_nil_r. split; [lia | done]. }
  destruct a as [c h args | i' j v' | | | | program size]; cbn in Hst |- *.
  - destruct (choose b) as [i' |] eqn:Hc; [| done]. injection Hst as -> <-.
    destruct (choose_range b v Hc) as [Hv _]. exists 0%nat. split; [lia |].
    change (box (with_turn v ?x) i) with (box x i). rewrite box_alter by lia.
    rewrite (Z.eqb_sym v). case_decide as Hiv.
    + subst v. rewrite Z.eqb_refl. unfold post. by rewrite map_app.
    + rewrite (proj2 (Z.eqb_neq i v)) by done. apply Hsame.
  - injection Hst as <- <-. apply allowed_answer in Ha as (Hi' & _). exists 0%nat. rewrite box_alter by lia.
    case_decide as Hii; [| apply Hsame]. subst i'. rewrite answer_job_words. apply Hsame.
  - injection Hst as <- <-. rewrite box_map by done.
    destruct (collect_suffix (box b i)) as (k & Hk & ->). exists k. split; [done |].
    by rewrite app_nil_r, skipn_map.
  - injection Hst as <- <-. exists 0%nat. apply Hsame.
  - destruct (nothing_left b); [| done]. injection Hst as <- <-. exists 0%nat. apply Hsame.
  - injection Hst as <- <-. exists 0%nat. split; [lia |]. rewrite box_map by done.
    unfold post. by rewrite map_app.
Qed.

(** Each box holds the last jobs that were sent to it, in order. *)
Lemma board_run_order acts i : forall b vs b',
  board_run acts b = Some (vs, b') -> all_allowed acts b = true -> 0 <= i < len b ->
  exists k, map job_words (box b' i) = drop k (map job_words (box b i) ++ sent_to i acts vs).
Proof.
  induction acts as [| a acts IH]; intros b vs b' Hr Hal Hi; cbn [board_run] in Hr.
  { injection Hr as <- <-. exists 0%nat. cbn. by rewrite app_nil_r. }
  apply andb_true_iff in Hal as [Ha Hal]. destruct (board_step a b) as [[v b1] |] eqn:Hst; [| done].
  destruct (board_run acts b1) as [[vs1 b2] |] eqn:Hr1; [| done]. injection Hr as <- <-.
  destruct (board_step_order a b v b1 i Hst Ha Hi) as (k & Hk & Hb1).
  destruct (IH b1 vs1 b2 Hr1 Hal) as (k' & Hb2); [by rewrite (proj2 (board_step_shape _ _ _ _ Hst)) |].
  exists (k + k')%nat. rewrite Hb2, Hb1, <- drop_drop, <- app_assoc. f_equal.
  rewrite drop_app_le by (by rewrite length_map). f_equal. f_equal. cbn. by rewrite app_nil_r.
Qed.

Lemma on_board_order b s i (l : list (list Z)) k :
  on_board b s -> 0 <= i < spes s -> map job_words (box b i) = drop k l ->
  exists q, has_queue s i q /\ Z.of_nat (length (queued q)) <= room b /\
    Forall2 (fun ws t => take (length ws) t = ws) (drop k l) (queued q).
Proof.
  intros Hb Hi Heq. destruct (ob_box _ _ Hb i Hi) as (q & Hq & Hin). exists q. split; [done |].
  destruct Hin as [Hw Hs _ Ht _]. split.
  - unfold queued. rewrite length_map. pose proof (length_pending _ (qwf_ring q Hw)).
    pose proof (count_range _ (qwf_ring q Hw)). lia.
  - rewrite <- Heq. by apply Forall2_fmap_l.
Qed.
End order.

Lemma box_empty_board e n i : box (empty_board e n) i = [].
Proof.
  unfold box. cbn. destruct (repeat [] (Z.to_nat n) !! Z.to_nat i) as [js |] eqn:Hjs; [| done]. cbn.
  by apply list_elem_of_lookup_2, list_elem_of_In, repeat_spec in Hjs.
Qed.

Lemma on_board_fresh `{Os, Memory} e n s :
  host_wf s -> spes s = n -> current_spe s = 0 ->
  (forall i, 0 <= i < n -> exists p, spe s !! Z.to_nat i = Some p /\ fresh_entry e i p) ->
  on_board (empty_board e n) s.
Proof.
  intros Hs Hn Hc Hall. pose proof (hwf_spes s Hs). split; [done | | done | |].
  - cbn. rewrite repeat_length. lia.
  - intros i p Hi Hp. destruct (Hall (Z.of_nat i)) as (p' & Hp' & _ & Hk & _); [lia |].
    rewrite Nat2Z.id, Hp in Hp'. by injection Hp' as <-.
  - intros i Hi. destruct (Hall i) as (p & Hp & (q & Hh & Hf) & _); [lia |].
    exists q. split; [split; [done |]; exists p; split_and!; [done | done | apply Hf] |].
    rewrite box_empty_board. by apply in_box_fresh.
Qed.

(** * Property *)

(** C2: refinement: from [fifoInit] on, any sequence of submissions, passes of the
    monitoring thread, answers of the SPEs, tests, waits and registrations, in
    any order, is answered by spefifo.c exactly as the board answers it: the same
    queue for each task, the same word for each test, and a call that does not
    return exactly where the board has no answer.  Each queue then holds, in
    order, the last of the tasks that were sent to it, at most one fewer than its
    slots: what is missing was acknowledged and released, oldest first. *)
Theorem host_refines_board `{Os, Memory} (fifo_size n sch : Z) (s : host)
    (tries : nat) (stwcx : list bool) (fuel : nat) (acts : list action) :
  let e := fifo_size / TASK_SIZE in
  memory_ok n e -> (forall l r, answer (l ++ [pthread_create r]) = 0) ->
  128 <= fifo_size < 2 ^ 31 -> 0 < n <= MAX_SPES ->
  length (spe s) = Z.to_nat MAX_SPES ->
  n <= Z.of_nat tries -> true ∈ stwcx -> e < Z.of_nat fuel ->
  all_allowed acts (empty_board e n) = true ->
  exists s0, fifoInit fifo_size n sch s = Ok (None, s0) /\
    match board_run acts (empty_board e n) with
    | Some (vs, b) => exists s', host_run tries stwcx fuel acts s0 = Ok (vs, s') /\ on_board b s' /\
        (forall i, 0 <= i < n -> exists q k, has_queue s' i q /\
           Z.of_nat (length (queued q)) <= e - 1 /\
           Forall2 (fun ws t => take (length ws) t = ws) (drop k (sent_to i acts vs)) (queued q))
    | None => host_run tries stwcx fuel acts s0 = OutOfFuel
    end.
Proof.
  intros e Hmem Hc Hsz Hn Hl Htr Hst Hfu Hal.
  destruct (run_fifoInit fifo_size n sch s Hmem Hc Hsz Hn Hl) as (s0 & Hrun & Hsp & _ & Hcu & Hl' & Hall).
  destruct (fresh_wf e n s0 Hsp Hcu Hn Hl' Hall) as [Hs0 _].
  exists s0. split; [exact Hrun |].
  pose proof (on_board_fresh e n s0 Hs0 Hsp Hcu Hall) as Hb.
  pose proof (host_run_board tries stwcx fuel acts _ s0 Hb) as Hrefines.
  destruct (board_run acts (empty_board e n)) as [[vs b] |] eqn:Hr.
  - destruct Hrefines as (s' & Hrun' & Hb'); [split; cbn; rewrite ?repeat_length; (done || lia) | done |].
    exists s'. split_and!; [done | done |]. intros i Hi.
    destruct (board_run_order acts i _ _ _ Hr Hal) as (k & Hk).
    { cbn. rewrite repeat_length. lia. }
    destruct (board_run_shape _ _ _ _ Hr) as [Hrm Hlen].
    destruct (on_board_order b s' i (sent_to i acts vs) k) as (q & Hq & Hcap & Hall2); [done | | |].
    + rewrite <- (ob_spes _ _ Hb'), Hlen. cbn. rewrite repeat_length. lia.
    + by rewrite Hk, box_empty_board.
    + exists q, k. rewrite Hrm in Hcap. by split_and!.
  - apply Hrefines; [split; cbn; rewrite ?repeat_length; (done || lia) | done].
Qed.

(** * Witness *)

(** Two queues of two slots: four tasks, the third of which waits for ever unless
    the SPE of queue 1 has answered and the monitor has passed. *)
Definition two_tasks : list action := [Send ADD 5 [6]; Send NOOP 0 []].
Definition freed : list action :=
  two_tasks ++ [Look; Answer 1 0 7; Collect; Send ADD 8 [9; 10]; Answer 0 0 7; Answer 1 0 7;
    Collect; Look; Wait; Install 0x123456789 64].

Example board_blocks : board_run (two_tasks ++ [Send ADD 8 [9; 10]]) (empty_board 2 2) = None.
Proof. reflexivity. Qed.
Example board_frees : option_map fst (board_run freed (empty_board 2 2)) =
  Some [1; 0; 0; 0; 0; 1; 0; 0; 0; 1; 0; 0x23456789].
Proof. vm_compute. reflexivity. Qed.

Lemma host_refines_board_witness :
  exists s0, @fifoInit good_os sample_memory 256 2 ROUND_ROBIN blank = Ok (None, s0) /\
    exists s', host_run 2 [true] 4 freed s0 =
      Ok ([1; 0; 0; 0; 0; 1; 0; 0; 0; 1; 0; 0x23456789], s') /\
    (exists q, has_queue s' 0 q /\ Z.of_nat (length (queued q)) <= 1).
Proof.
  destruct (@host_refines_board good_os sample_memory 256 2 ROUND_ROBIN blank 2 [true] 4 freed)
    as (s0 & Hrun & Hr).
  - apply sample_memory_ok. vm_compute. discriminate.
  - exact good_os_creates.
  - lia.
  - vm_compute. split; [reflexivity | discriminate].
  - reflexivity.
  - reflexivity.
  - apply list_elem_of_In. left. reflexivity.
  - reflexivity.
  - vm_compute. reflexivity.
  - exists s0. split; [exact Hrun |].
    match type of Hr with context [board_run ?a ?b] =>
      let v := eval vm_compute in (board_run a b) in
      replace (board_run a b) with v in Hr by (vm_compute; reflexivity) end.
    destruct Hr as (s' & Hrun' & _ & Hall). exists s'. split; [exact Hrun' |].
    destruct (Hall 0) as (q & k & Hq & Hl & _); [lia |]. exists q. split; [exact Hq |]. exact Hl.
Defined.
