(* ===== verification/TaskIface.v ===== *)
(** tst/task_iface.c: the test that sets up the queues, submits [ops] tasks for
    each SPE and waits until every queue is empty. *)
From Stdlib Require Import String Ascii.
From stdpp Require Import base list.
From Stdlib Require Import ZArith Lia.
From S2P Require Import Prelude.
From S2P Require Import Messages.
From S2P Require Import Fifo.
From S2P Require Import Ring.
From S2P Require Import SpeThread.
From S2P Require Import HostFifo.
From S2P Require Import HostQueue.
From S2P Require Import HostCalls.
From S2P Require Import HostSpec.
#[local] Close Scope string_scope.

(** * The code *)

(** [atoi] of the C library: white space, a sign, decimal digits; a number that
    no [int] holds is undefined behaviour. *)
Definition code (c : ascii) : Z := Z.of_N (N_of_ascii c).
Fixpoint digits (acc : Z) (s : string) : Z :=
  match s with
  | EmptyString => acc
  | String c s =>
      if (48 <=? code c) && (code c <=? 57) then digits (10 * acc + (code c - 48)) s else acc
  end.
Fixpoint skip_spaces (s : string) : string :=
  match s with
  | String c s' =>
      if (code c =? 32) || ((9 <=? code c) && (code c <=? 13)) then skip_spaces s' else s
  | EmptyString => s
  end.
Definition atoi (s : string) : res Z :=
  match skip_spaces s with
  | String c s' =>
      if code c =? 45 then to_int (- digits 0 s')
      else if code c =? 43 then to_int (digits 0 s')
      else to_int (digits 0 (String c s'))
  | EmptyString => to_int 0
  end.

(** The variables of [main]. *)
Record options := Options { o_spes : Z; o_ops : Z; o_type : Z; o_arg : Z }.

(** [if (narg >= k + 1) v = atoi(argc[k])]. *)
Definition argument (argv : list string) (k v : Z) : res Z :=
  if k + 1 <=? Z.of_nat (length argv) then s ← aget argv k; atoi s else Ok v.
Definition parse (argv : list string) : res options :=
  spes ← argument argv 1 1;
  ops ← argument argv 2 1;
  type ← argument argv 3 0;
  arg ← argument argv 4 1000;
  Ok (Options spes ops type arg).

(** What other threads do while submission [i] waits for a free slot, and how
    its conditional stores go. *)
Definition submit_tasks (others : Z -> list (M host unit)) (stwcx : Z -> list bool)
    (o : options) : M host unit :=
  if o_type o =? 0 then
    n ← lift (to_int (o_spes o * o_ops o));
    for_loop 0 (Z.to_nat n) (fun i => fifoNoop (others i) (stwcx i))
  else if o_type o =? 1 then
    n ← lift (to_int (o_spes o * o_ops o));
    for_loop 0 (Z.to_nat n) (fun i => fifo_addition (others i) (stwcx i) (o_arg o))
  else mret tt.

(** [while (!fifoIsEmpty());]. *)
Definition empty_round : M host (option unit) :=
  e ← fifoIsEmpty; mret (if e =? 0 then None else Some tt).

(** [Some status] when the process ended in [fifoInit]. *)
Definition main `{Os, Memory} (others : Z -> list (M host unit)) (stwcx : Z -> list bool)
    (waiting : list (M host unit)) (argv : list string) : M host (option Z) :=
  o ← lift (parse argv);
  e ← fifoInit (128 * 128) (o_spes o) ROUND_ROBIN;
  match e with
  | Some status => mret (Some status)
  | None =>
      submit_tasks others stwcx o;;
      spin waiting empty_round;;
      mret None
  end.

Example atoi_examples :
  map atoi ["12"; " -7x"; "+40"; "none"; "99999999999"]%string =
  [Ok 12; Ok (-7); Ok 40; Ok 0; Fault SignedOverflow].
Proof. reflexivity. Qed.

(** * Lemmas *)

(** ** The share of each queue *)

(** How many of the numbers from 1 to [k] are [i], round a circle of [n]. *)
Definition share (n k i : Z) : Z := (k - i) / n - (- i) / n.

Lemma div_succ n x : 0 < n -> (x + 1) / n = x / n + (if (x + 1) mod n =? 0 then 1 else 0).
Proof.
  intros Hn. pose proof (Z.div_mod x n ltac:(lia)) as Hx.
  pose proof (Z.mod_pos_bound x n Hn) as Hr.
  destruct (decide (x mod n = n - 1)) as [Hl | Hl].
  - replace (x + 1) with ((x / n + 1) * n) by lia.
    by rewrite Z.div_mul, Z.mod_mul by lia.
  - replace (x + 1) with (x mod n + 1 + x / n * n) by lia.
    rewrite Z.div_add, Z.mod_add by lia. rewrite Z.div_small, Z.mod_small by lia. zcases.
Qed.

Lemma share_succ n k i :
  0 < n -> 0 <= i < n ->
  share n (k + 1) i = share n k i + (if (k + 1) mod n =? i then 1 else 0).
Proof.
  intros Hn Hi. unfold share. replace (k + 1 - i) with (k - i + 1) by lia.
  rewrite div_succ by done.
  enough (((k - i + 1) mod n =? 0) = ((k + 1) mod n =? i)) as -> by lia.
  replace (k - i + 1) with (k + 1 - i) by lia.
  pose proof (Z.mod_pos_bound (k + 1) n Hn) as Hr. rewrite Zminus_mod, (Z.mod_small i) by lia.
  rewrite (sub_mod_cases n) by lia. zcases.
Qed.

Lemma share_0 n i : share n 0 i = 0.
Proof. unfold share. rewrite Z.sub_0_l. apply Z.sub_diag. Qed.

Lemma share_full n m i : 0 < n -> share n (n * m) i = m.
Proof.
  intros Hn. unfold share. replace (n * m - i) with (m * n + - i) by lia.
  rewrite Z.div_add_l by lia. ring.
Qed.

Lemma share_mono n k k' i : 0 < n -> k <= k' -> share n k i <= share n k' i.
Proof.
  intros Hn Hk. unfold share. pose proof (Z.div_le_mono (k - i) (k' - i) n). lia.
Qed.

(** ** Submitting in turn *)

(** After [k] submissions of the task that begins with [ws], to [n] queues of
    [e] slots. *)
Record balanced (n e k : Z) (ws : list Z) (s : host) : Prop := {
  ba_wf : host_wf s;
  ba_spes : spes s = n;
  ba_current : current_spe s = k mod n;
  ba_queues i : 0 <= i < n -> exists p q, spe s !! Z.to_nat i = Some p /\ isKicked p = 1 /\
    holds p q /\ has_queue s i q /\ size (q_ring q) = e /\
    Z.of_nat (length (queued q)) = share n k i /\
    Forall (fun t => take (length ws) t = ws) (queued q) }.

Section turns.
Context (n e m : Z) (Hm : m <= e - 1) (c h : Z) (args : list Z).
Implicit Types (s : host).
Local Abbreviation ws := (map u32 (c :: h :: take 29 args)).

(** The next queue has a free slot. *)
Lemma balanced_free k s :
  balanced n e k ws s -> 0 <= k < n * m -> first_free s 1.
Proof.
  intros Hb Hk. pose proof (hwf_spes s (ba_wf _ _ _ _ _ Hb)) as Hn.
  pose proof (ba_spes _ _ _ _ _ Hb) as Hsp. rewrite Hsp in Hn.
  unfold first_free. rewrite Hsp, (ba_current _ _ _ _ _ Hb), Zplus_mod_idemp_l.
  split_and!; [lia | lia | | intros; lia].
  set (i := (k + 1) mod n). assert (0 <= i < n) as Hi by (apply Z.mod_pos_bound; lia).
  destruct (ba_queues _ _ _ _ _ Hb i Hi) as (p & q & _ & _ & _ & Hq & He & Hl & _).
  exists q. split; [done |]. pose proof Hq as (_ & _ & _ & _ & Hqw).
  rewrite ringHasFree_count, He by apply Hqw.
  unfold queued in Hl. rewrite length_map, (length_pending _ (qwf_ring q Hqw)) in Hl.
  pose proof (share_succ n k i ltac:(lia) Hi) as Hs. unfold i in Hs at 3.
  rewrite Z.eqb_refl in Hs.
  pose proof (share_mono n (k + 1) (n * m) i ltac:(lia) ltac:(lia)) as Hmono.
  rewrite share_full in Hmono by lia. zcases.
Qed.

Lemma submit_balanced k rounds stwcx s :
  balanced n e k ws s -> 0 <= k < n * m -> true ∈ stwcx -> (0 < rounds)%nat ->
  exists i s', submit (repeat (mret tt) rounds) stwcx c h args s = Ok (i, s') /\
    balanced n e (k + 1) ws s'.
Proof.
  intros Hb Hk Hst Hr. pose proof (balanced_free k s Hb Hk) as Hff.
  destruct Hb as [Hs Hn Hc Hall]. set (i := (current_spe s + 1) mod spes s).
  pose proof (hwf_spes s Hs) as Hpos. rewrite Hn in Hpos.
  assert (i = (k + 1) mod n) as Hi by (unfold i; by rewrite Hn, Hc, Zplus_mod_idemp_l).
  assert (0 <= i < n) as Hin by (rewrite Hi; apply Z.mod_pos_bound; lia).
  destruct (Hall i Hin) as (p & q & Hp & Hkick & Hh & Hq & He & Hl & Ht).
  destruct (run_submit_first s 1 rounds stwcx c h args p q Hs Hff) as
    (s' & p' & t & Hrun & Hch & Hp' & Hk' & Hqd & Htake & Ho); try done; [lia |].
  fold i in Hrun, Hch, Hp', Ho. exists i, s'. split; [exact Hrun |].
  pose proof Hch as [Hs' Hn' Hc' Hq' Hoth]. cbn [spes current_spe with_current] in Hn', Hc'.
  split; [done | by rewrite Hn' | by rewrite Hc' |].
  intros j Hj. rewrite share_succ by lia. rewrite <- Hi.
  destruct (Z.eqb_spec i j) as [<- | Hne].
  - eexists p', _. destruct Hq' as (Hi' & p2 & Hp2 & Hh2 & Hw2).
    rewrite Hp' in Hp2. injection Hp2 as <-.
    split_and!; [done | done | exact Hh2 | | | |].
    + split; [done |]. by exists p'.
    + cbn. by rewrite ringIncFront_size.
    + rewrite Hqd, length_app. cbn. lia.
    + rewrite Hqd. apply Forall_app. split; [done |]. by apply Forall_singleton.
  - destruct (Hall j Hj) as (pj & qj & Hpj & Hkj & Hhj & Hqj & Hej & Hlj & Htj).
    exists pj, qj. split_and!; try done; [| | lia].
    + rewrite Ho by lia. done.
    + apply Hoth; [done |]. by apply with_current_queue.
Qed.

(** [count] submissions in a row, as the loops of [main] make them. *)
Lemma submissions_balanced (body : Z -> M host unit) (rounds : Z -> nat)
    (stwcx : Z -> list bool) s :
  (forall k s, body k s =
     ignore (submit (repeat (mret tt) (rounds k)) (stwcx k) c h args) s) ->
  (forall k, (0 < rounds k)%nat /\ true ∈ stwcx k) ->
  balanced n e 0 ws s -> 0 <= n * m ->
  exists s', for_loop 0 (Z.to_nat (n * m)) body s = Ok (tt, s') /\ balanced n e (n * m) ws s'.
Proof.
  intros Hbody Hok Hb Hnm.
  destruct (for_loop_inv body (fun k s => balanced n e k ws s) (Z.to_nat (n * m)) 0 s Hb)
    as (s' & Hrun & Hb').
  - intros k s1 Hk Hb1. destruct (Hok k) as [Hr Hst].
    destruct (submit_balanced k (rounds k) (stwcx k) s1 Hb1) as (i & s2 & Hrun & Hb2);
      [lia | done | done |].
    exists s2. split; [| done]. rewrite Hbody. unfold ignore.
    by erewrite M_bind_ok by exact Hrun.
  - exists s'. split; [done |]. by rewrite Z.add_0_l, Z2Nat.id in Hb' by lia.
Qed.
End turns.

(** A host fresh from [fifoInit]. *)
Lemma fresh_balanced `{Os, Memory} n e ws s :
  host_wf s -> spes s = n -> current_spe s = 0 ->
  (forall i, 0 <= i < n -> exists p, spe s !! Z.to_nat i = Some p /\ fresh_entry e i p) ->
  balanced n e 0 ws s.
Proof.
  intros Hs Hn Hc Hall. pose proof (hwf_spes s Hs) as Hpos.
  split; [done | done | rewrite Hc; by rewrite Z.mod_0_l by lia |].
  intros i Hi. destruct (Hall i Hi) as (p & Hp & (q & Hh & Hf) & Hk & _).
  exists p, q. pose proof (fq_wf e q Hf) as Hqw.
  assert (queued q = []) as Hnil.
  { apply (queued_nil q Hqw). rewrite ringHasRemaining_count by apply Hqw.
    unfold count. rewrite (fq_ring e q Hf). cbn. rewrite Z.mod_0_l; [done |].
    pose proof (qwf_ring q Hqw) as [Hz _]. rewrite (fq_ring e q Hf) in Hz. cbn in Hz. lia. }
  split_and!; try done.
  - split; [by rewrite Hn |]. by exists p.
  - by rewrite (fq_ring e q Hf).
  - by rewrite Hnil, share_0.
  - by rewrite Hnil.
Qed.

(** ** Beside other threads *)

Section beside.
Implicit Types (s : host).

(** What other threads do keeps the queues well formed. *)
Definition keeps_wf (others : M host unit) : Prop :=
  forall s s', host_wf s -> others s = Ok (tt, s') -> host_wf s'.

Lemma benign_keeps others : benign host_wf others -> keeps_wf others.
Proof. intros Ho s s' Hs Hrun. destruct (Ho s Hs) as (t & Ht & ? & _). congruence. Qed.

Lemma run_empty_round s : host_wf s -> empty_round s = wait_round s.
Proof.
  intros Hs. destruct (run_wait_round s Hs) as (o & -> & Ho).
  destruct (run_fifoIsEmpty s Hs) as (v & Hv & Hcase & Hiff).
  unfold empty_round. erewrite M_bind_ok by exact Hv. rewrite run_ret. do 2 f_equal.
  destruct Hcase as [-> | ->]; cbn.
  - destruct o as [[] |]; [| done]. by discriminate (proj2 Hiff (proj1 Ho eq_refl)).
  - symmetry. by apply Ho, Hiff.
Qed.

Lemma spin_empty env : forall s,
  host_wf s -> Forall keeps_wf env -> spin env empty_round s = fifoWait env s.
Proof.
  unfold fifoWait. induction env as [| others env IH]; intros s Hs Henv; [done |].
  apply Forall_cons in Henv as [Ho Henv]. cbn [spin]. rewrite run_empty_round by done.
  destruct (run_wait_round s Hs) as (o & -> & _). destruct o as [[] |]; [done |].
  destruct (others s) as [[[] s1] | |] eqn:Hos; [| done..].
  apply IH; [by eapply Ho | done].
Qed.

Lemma safe_fifoWait env : forall s,
  host_wf s -> Forall (benign host_wf) env ->
  safe (fifoWait env) (fun _ s' => all_empty s') s.
Proof.
  unfold safe, keeping, fifoWait. induction env as [| others env IH]; intros s Hs Henv; [done |].
  apply Forall_cons in Henv as [Ho Henv]. cbn [spin].
  destruct (run_wait_round s Hs) as (o & -> & Hiff). destruct o as [[] |].
  { split_and!; [done | done | by apply Hiff]. }
  destruct (Ho s Hs) as (s1 & -> & Hs1 & Hn1 & _). specialize (IH s1 Hs1 Henv).
  rewrite Hn1 in IH. exact IH.
Qed.

Lemma safe_for_loop (body : Z -> M host unit) n : forall i s,
  (forall i s, host_wf s -> safe (body i) (fun _ _ => True) s) ->
  host_wf s -> safe (for_loop i n body) (fun _ _ => True) s.
Proof.
  unfold safe, keeping. induction n as [| n IH]; intros i s Hbody Hs; cbn [for_loop]; [done |].
  pose proof (Hbody i s Hs) as Hb. destruct (body i s) as [[[] s1] | |]; [| done..].
  destruct Hb as (Hs1 & Hn1 & _). specialize (IH (i + 1) s1 Hbody Hs1). by rewrite <- Hn1.
Qed.

Lemma safe_submit_tasks others stwcx o s :
  host_wf s -> (forall i, Forall (benign host_wf) (others i)) -> (forall i, true ∈ stwcx i) ->
  - 2 ^ 31 <= o_spes o * o_ops o < 2 ^ 31 ->
  safe (submit_tasks others stwcx o) (fun _ _ => True) s.
Proof.
  intros Hs Ho Hst Hn. unfold submit_tasks. rewrite to_int_ok by done.
  destruct (o_type o =? 0); [| destruct (o_type o =? 1); [| done]];
    unfold safe, keeping; mstep; apply safe_for_loop; try done; intros i s1 Hs1; unfold safe, keeping;
    rewrite ?fifoNoop_submit, ?fifo_addition_submit; by eapply safe_ignore, safe_submit.
Qed.
End beside.

(** * Properties *)

(** C23: the two ways to wait for the tasks agree: polling [fifoIsEmpty] until it
    says 1, as this test does, and calling [fifoWait] give the same result in the
    same host, whatever other threads do to well-formed queues meanwhile. *)
Theorem waiting_loops_agree (env : list (M host unit)) (s : host) :
  host_wf s -> Forall keeps_wf env -> spin env empty_round s = fifoWait env s.
Proof. apply spin_empty. Qed.

(** The words a task of the test begins with. *)
Definition test_words (o : options) : list Z :=
  map u32 (if o_type o =? 0 then [NOOP; 0x1ee7C0DE] else [ADD; 0x1ee7C0DE; o_arg o; 1; 2]).

Section task_iface.
Context `{Os, Memory} (o : options) (argv : list string) (s : host).
Context (Hargv : parse argv = Ok o) (Hn : 0 < o_spes o <= MAX_SPES)
  (Hmem : memory_ok (o_spes o) 128) (Hcreate : forall l r, answer (l ++ [pthread_create r]) = 0)
  (Harrays : length (spe s) = Z.to_nat MAX_SPES).

Lemma main_after_init others stwcx waiting :
  exists s0, host_wf s0 /\ spes s0 = o_spes o /\ (forall ws, balanced (o_spes o) 128 0 ws s0) /\
    main others stwcx waiting argv s =
    (submit_tasks others stwcx o;; spin waiting empty_round;; mret (None : option Z)) s0.
Proof.
  destruct (run_fifoInit (128 * 128) (o_spes o) ROUND_ROBIN s Hmem Hcreate)
    as (s0 & Hrun & Hsp & _ & Hc & Hl & Hall); try done.
  change (128 * 128 / TASK_SIZE) with 128 in Hall.
  destruct (fresh_wf 128 (o_spes o) s0 Hsp Hc Hn Hl Hall) as [Hs0 _].
  exists s0. split_and!; [done | done | |].
  - intros ws. by apply fresh_balanced.
  - unfold main. rewrite Hargv. mstep. by erewrite M_bind_ok by exact Hrun.
Qed.

(** C24: the test gives every SPE its tasks.  When it runs alone, with at most 127
    operations for each of its 1 to 16 SPEs, and the type is one of the two it
    knows, it never waits for a slot: when it starts to wait for the end, each
    queue holds exactly [ops] tasks, every one a no-operation, or the addition of
    the argument; and it then does what [fifoWait] does. *)
Theorem task_iface_submits (rounds : Z -> nat) (stwcx : Z -> list bool)
    (waiting : list (M host unit)) :
  0 <= o_ops o <= 127 -> o_type o = 0 \/ o_type o = 1 ->
  (forall i, (0 < rounds i)%nat /\ true ∈ stwcx i) -> Forall keeps_wf waiting ->
  exists s1, host_wf s1 /\ spes s1 = o_spes o /\
    (forall i, 0 <= i < o_spes o -> exists q, has_queue s1 i q /\
       Z.of_nat (length (queued q)) = o_ops o /\
       Forall (fun t => take (length (test_words o)) t = test_words o) (queued q)) /\
    main (fun i => repeat (mret tt) (rounds i)) stwcx waiting argv s =
    (fifoWait waiting;; mret (None : option Z)) s1.
Proof.
  intros Hops Htype Hok Hw. unfold MAX_SPES in Hn.
  destruct (main_after_init (fun i => repeat (mret tt) (rounds i)) stwcx waiting)
    as (s0 & Hs0 & Hsp & Hb & ->).
  assert (0 <= o_spes o * o_ops o <= 2032) as Hprod by nia.
  assert (exists s1, submit_tasks (fun i => repeat (mret tt) (rounds i)) stwcx o s0 = Ok (tt, s1) /\
    balanced (o_spes o) 128 (o_spes o * o_ops o) (test_words o) s1) as (s1 & Hrun & Hb1).
  { unfold submit_tasks, test_words. rewrite to_int_ok by lia.
    destruct Htype as [-> | ->]; cbn [Z.eqb Pos.eqb]; mstep.
    - apply (submissions_balanced _ 128 (o_ops o) ltac:(lia) NOOP 0x1ee7C0DE [] _ rounds stwcx);
        [intros; apply fifoNoop_submit | done | apply Hb | lia].
    - apply (submissions_balanced _ 128 (o_ops o) ltac:(lia) ADD 0x1ee7C0DE [o_arg o; 1; 2]
        _ rounds stwcx); [intros; apply fifo_addition_submit | done | apply Hb | lia]. }
  destruct Hb1 as [Hs1 Hsp1 _ Hall]. exists s1. split_and!; [done | done | |].
  - intros i Hi. destruct (Hall i Hi) as (p & q & _ & _ & _ & Hq & _ & Hl & Ht).
    exists q. split_and!; [done | | done]. rewrite Hl. apply share_full. lia.
  - erewrite M_bind_ok by exact Hrun. unfold mbind, M_bind. by rewrite spin_empty.
Qed.

(** The test never faults beside other threads: whatever they do to the
    queues without breaking them or taking a free slot away, [main] is still
    waiting or has returned, and when it has, every queue is empty. *)
Theorem task_iface_never_faults (others : Z -> list (M host unit)) (stwcx : Z -> list bool)
    (waiting : list (M host unit)) :
  - 2 ^ 31 <= o_spes o * o_ops o < 2 ^ 31 ->
  (forall i, Forall (benign host_wf) (others i)) -> (forall i, true ∈ stwcx i) ->
  Forall (benign host_wf) waiting ->
  match main others stwcx waiting argv s with
  | Ok (e, s') => e = None /\ host_wf s' /\ all_empty s'
  | Fault _ => False
  | OutOfFuel => True
  end.
Proof.
  intros Hprod Ho Hst Hw. destruct (main_after_init others stwcx waiting) as (s0 & Hs0 & _ & _ & ->).
  enough (safe (submit_tasks others stwcx o;; spin waiting empty_round;; mret (None : option Z))
    (fun e s' => e = None /\ all_empty s') s0) as Hsafe.
  { unfold safe, keeping in Hsafe. case_match; [| done..]. case_match.
    by destruct Hsafe as (? & _ & ? & ?). }
  eapply safe_bind; [by apply safe_submit_tasks |]. intros [] s1 Hs1 _ _.
  apply (safe_bind _ _ (fun _ s' => all_empty s')); [| intros [] s2 Hs2 _ HQ; by apply safe_ret].
  unfold safe, keeping. rewrite spin_empty; [by apply safe_fifoWait | done |].
  eapply Forall_impl; [exact Hw |]. apply benign_keeps.
Qed.
End task_iface.

(** * Witnesses *)

#[local] Existing Instance good_os.
#[local] Existing Instance sample_memory.

Lemma waiting_loops_agree_witness :
  spin [mret tt] empty_round (demo 3 2) = fifoWait [mret tt] (demo 3 2).
Proof.
  apply waiting_loops_agree; [apply demo_fresh; lia |].
  apply Forall_singleton. intros s s' Hs Hrun. cbv in Hrun. by injection Hrun as <-.
Defined.

(** [task_iface 2 3 1 40]. *)
Lemma task_iface_submits_witness :
  exists s1, (forall i, 0 <= i < 2 -> exists q, has_queue s1 i q /\
      Z.of_nat (length (queued q)) = 3 /\
      Forall (fun t => take 5 t = [ADD; 0x1ee7C0DE; 40; 1; 2]) (queued q)) /\
    main (fun _ => repeat (mret tt) 1) (fun _ => [true]) [] ["task_iface"; "2"; "3"; "1"; "40"]%string
      blank = (fifoWait [];; mret (None : option Z)) s1.
Proof.
  destruct (task_iface_submits (Options 2 3 1 40) ["task_iface"; "2"; "3"; "1"; "40"]%string blank
    eq_refl ltac:(unfold MAX_SPES; cbn; lia) (sample_memory_ok 2 128 ltac:(lia))
    good_os_creates eq_refl (fun _ => 1%nat) (fun _ => [true]) [])
    as (s1 & _ & _ & Hall & Hrun).
  - cbn. lia.
  - right. reflexivity.
  - intros i. split; [lia | by left].
  - constructor.
  - exists s1. split; [exact Hall | exact Hrun].
Defined.

Lemma task_iface_never_faults_witness :
  match main (fun _ => [mret tt]) (fun _ => [true]) [mret tt] ["task_iface"; "2"]%string blank with
  | Ok (e, s') => e = None /\ host_wf s' /\ all_empty s'
  | Fault _ => False
  | OutOfFuel => True
  end.
Proof.
  apply (task_iface_never_faults (Options 2 1 0 1000)).
  - reflexivity.
  - unfold MAX_SPES. cbn. lia.
  - apply (sample_memory_ok 2 128). lia.
  - apply good_os_creates.
  - reflexivity.
  - cbn. lia.
  - intros i. apply Forall_singleton, benign_quiet.
  - intros i. by left.
  - apply Forall_singleton, benign_quiet.
Defined.
