(* ===== verification/Example1.v ===== *)
(** example/example1.c: the host's half of the first example, which exchanges
    messages with the SPE program of SpuExamples.v through the mailboxes until
    the user has had enough.

    RUN is defined nowhere in the repository (the [enum] that had it is commented
    out in messages.h): it is a parameter here.  The thread that main starts runs
    [spu_thread] meanwhile: its calls are part of what the libraries answer, and
    the one member it assigns, [entry], main does not read. *)
From Stdlib Require Import String Ascii.
From stdpp Require Import base list.
From Stdlib Require Import ZArith Lia.
From S2P Require Import Prelude.
From S2P Require Import Messages.
From S2P Require Import SpeThread.
#[local] Close Scope string_scope.

(** * The code *)

(** [fgets(buffer, n + 1, stdin)]: the characters up to the end of the line, [n]
    at most, and what is left to read; no characters at the end of the input,
    where [fgets] returns NULL. *)
Fixpoint fgets (n : nat) (s : string) : string * string :=
  match n, s with
  | S n, String c s' =>
      if (c =? "010")%char then (String c EmptyString, s')
      else let '(line, rest) := fgets n s' in (String c line, rest)
  | _, _ => (EmptyString, s)
  end.

(** [sput], the block at [ex1] with its [myint], and the input to come. *)
Record host := Host { sput : tstate; ex1 : ptr Z; stdin : string }.

Definition sizeof_example1_s : Z := 4.

Section code.
Context `{Os} (RUN : Z).

Definition on_sput {A : Type} (m : M tstate A) : M host A :=
  t ← gets sput;
  r ← lift (m t);
  modify (fun w => Host r.2 (ex1 w) (stdin w));;
  mret r.1.
Definition set_ex1 (v : ptr Z) : M host unit :=
  modify (fun w => Host (sput w) v (stdin w)).
Definition read_line : M host string :=
  s ← gets stdin;
  let r := fgets 254 s in
  modify (fun w => Host (sput w) (ex1 w) r.2);;
  mret r.1.

(** One round of [do ... while (1)].  [polls] bounds the spinning of
    [send_message]. *)
Definition talk_round (polls : nat) : M host (option unit) :=
  _ ← on_sput recieve_message_int;
  cptr ← read_line;
  match cptr with
  | EmptyString => fail NullDeref
  | String c _ =>
      if (c =? "y")%char || (c =? "Y")%char then
        on_sput (send_message polls RUN);; mret None
      else
        on_sput (send_message polls (s32 STOP));; mret (Some tt)
  end.

(** [addr] is what [memalign] returned, [handle] the embedded SPE program. *)
Definition main (malloc_ok : bool) (addr handle : Z) (fuel polls : nat) : M host outcome :=
  m ← lift (alloc_init malloc_ok 1);
  set_ex1 m;;
  on_sput (assign (set_task THREAD_RUN addr sizeof_example1_s handle));;
  o ← on_sput start_spu_thread;
  match o with
  | Exit status => mret (Exit status)
  | Return v =>
      if v <? 0 then mret (Return (-1)) else
      loop fuel (talk_round polls);;
      _ ← on_sput stop_spu_thread;
      m ← gets ex1;
      m ← lift (free m);
      set_ex1 m;;
      mret (Return 0)
  end.
End code.

Example fgets_examples :
  fgets 254 (String "y" (String "010" "no"))%string = (String "y" (String "010" ""), "no")%string /\
  fgets 2 "yes"%string = ("ye", "s")%string /\ fgets 254 ""%string = ("", "")%string.
Proof. by vm_compute. Qed.

(** * Lemmas *)

(** The messages the host has sent. *)
Fixpoint sent (l : list call) : list Z :=
  match l with
  | [] => []
  | spe_in_mbox_write _ v _ _ :: l => v :: sent l
  | _ :: l => sent l
  end.
Lemma sent_app l l' : sent (l ++ l') = sent l ++ sent l'.
Proof. induction l as [| [] l IH]; cbn; rewrite ?IH; done. Qed.
Lemma sent_repeat c n : sent [c] = [] -> sent (repeat c n) = [].
Proof.
  intros Hc. induction n as [| n IH]; [done |]. cbn [repeat].
  change (c :: ?l) with ([c] ++ l). by rewrite sent_app, Hc, IH.
Qed.

(** The user says yes to the next [k] questions, and [rest] is then left. *)
Definition is_yes (line : string) : bool :=
  match line with String c _ => (c =? "y")%char || (c =? "Y")%char | EmptyString => false end.
Fixpoint yes (k : nat) (s : string) : option string :=
  match k with
  | O => Some s
  | S k => let '(line, rest) := fgets 254 s in if is_yes line then yes k rest else None
  end.

Section running.
Context `{Os} (RUN : Z).
Implicit Types (w : host) (t : tstate).

Lemma run_on_sput {A : Type} (m : M tstate A) w a t :
  m (sput w) = Ok (a, t) -> on_sput m w = Ok (a, Host t (ex1 w) (stdin w)).
Proof. intros Hm. unfold on_sput. mstep. rewrite Hm. by mrun. Qed.

Lemma run_recieve t : exists v t', recieve_message_int t = Ok (v, t') /\
  ctx (thread t') = ctx (thread t) /\ events (thread t') = events (thread t) /\
  sent (calls t') = sent (calls t).
Proof.
  destruct (wait_mbox_run 10 t) as (j & t1 & Hw & [Hc He] & Hcase & _).
  assert (sent (calls t1) = sent (calls t)) as Hs.
  { destruct Hcase as [[_ ->] | (_ & -> & _)]; rewrite sent_app, sent_repeat, app_nil_r; done. }
  unfold recieve_message_int. erewrite M_bind_ok by exact Hw. destruct (10 - j)%nat.
  - by eexists _, t1.
  - mrun. eexists _, _. split; [reflexivity |]. cbn [calls log_call thread].
    rewrite sent_app, app_nil_r. by split_and!.
Qed.

(** The mailbox of the SPE has room. *)
Definition roomy : Prop := forall l c, answer (l ++ [spe_in_mbox_status c]) <> 0.

Lemma run_send polls message t :
  roomy -> (0 < polls)%nat -> exists t', send_message polls message t = Ok (tt, t') /\
    ctx (thread t') = ctx (thread t) /\ events (thread t') = events (thread t) /\
    sent (calls t') = sent (calls t) ++ [message].
Proof.
  intros Hroom Hp. unfold send_message.
  erewrite M_bind_ok by (apply (status_spin 0 t); [intros; lia | apply Hroom | lia]).
  mrun. eexists. split; [reflexivity |]. cbn [calls log_call thread repeat].
  rewrite !sent_app. cbn. by rewrite app_nil_r.
Qed.

(** A round, when the user has an answer. *)
Lemma run_talk_round polls w :
  roomy -> (0 < polls)%nat -> (fgets 254 (stdin w)).1 <> EmptyString ->
  exists t', talk_round RUN polls w =
    Ok (if is_yes (fgets 254 (stdin w)).1 then None else Some tt,
        Host t' (ex1 w) (fgets 254 (stdin w)).2) /\
    events (thread t') = events (thread (sput w)) /\
    sent (calls t') = sent (calls (sput w)) ++
      [if is_yes (fgets 254 (stdin w)).1 then RUN else s32 STOP].
Proof.
  intros Hroom Hp Hne. destruct (run_recieve (sput w)) as (v & t1 & Hr & _ & He1 & Hs1).
  unfold talk_round. erewrite M_bind_ok by (by apply run_on_sput).
  unfold read_line. mrun. cbn [stdin sput ex1].
  destruct (fgets 254 (stdin w)) as [[| c line] rest]; [done |]. cbn [fst snd is_yes].
  destruct (_ || _)%bool.
  - destruct (run_send polls RUN t1 Hroom Hp) as (t2 & Hr2 & _ & He2 & Hs2).
    erewrite M_bind_ok by (by apply run_on_sput). rewrite run_ret. cbn [ex1 stdin].
    exists t2. by rewrite He2, Hs2, Hs1.
  - destruct (run_send polls (s32 STOP) t1 Hroom Hp) as (t2 & Hr2 & _ & He2 & Hs2).
    erewrite M_bind_ok by (by apply run_on_sput). rewrite run_ret. cbn [ex1 stdin].
    exists t2. by rewrite He2, Hs2, Hs1.
Qed.

(** Whatever the libraries answer, the loop does not touch [events], and it faults
    only at the end of the input. *)
Lemma send_events polls message t u t' :
  send_message polls message t = Ok (u, t') -> events (thread t') = events (thread t).
Proof.
  intros Hr. unfold send_message in Hr. apply M_bind_inv in Hr as ([] & t1 & Hl & Hr).
  mrun_in Hr. injection Hr as _ <-. cbn [thread log_call].
  apply (loop_keeps status_round (fun t' => events (thread t') = events (thread t)))
    in Hl; [done | | done].
  intros t2 o t3 He Hs. unfold status_round in Hs. mrun_in Hs. by injection Hs as _ <-.
Qed.

Lemma send_no_fault polls message t f : send_message polls message t <> Fault f.
Proof.
  unfold send_message, mbind, M_bind.
  assert (loop polls status_round t <> Fault f) as Hl.
  { revert t. induction polls as [| polls IH]; intros t; cbn [loop]; [done |].
    unfold status_round. mrun. rewrite run_ret. destruct (_ =? 0); [apply IH | done]. }
  by destruct (loop polls status_round t) as [[[] t1] | |].
Qed.

Lemma talk_round_cases polls w :
  match talk_round RUN polls w with
  | Ok (_, w') => events (thread (sput w')) = events (thread (sput w))
  | Fault f => f = NullDeref
  | OutOfFuel => True
  end.
Proof.
  destruct (run_recieve (sput w)) as (v & t1 & Hr & _ & He1 & _).
  unfold talk_round. erewrite M_bind_ok by (by apply run_on_sput).
  unfold read_line. mrun. cbn [stdin sput ex1].
  destruct (fgets 254 (stdin w)) as [[| c line] rest]; [done |]. cbn [fst snd].
  assert (forall m (o : option unit), match (on_sput (send_message polls m);; mret o)
      (Host t1 (ex1 w) rest) with
    | Ok (_, w') => events (thread (sput w')) = events (thread (sput w))
    | Fault f => f = NullDeref
    | OutOfFuel => True
    end) as Hsend.
  { intros m o. pose proof (send_no_fault polls m t1) as Hnf.
    unfold on_sput. rewrite M_bind_assoc. mstep. cbn [sput].
    destruct (send_message polls m t1) as [[u t2] | f |] eqn:Hs; [| by destruct (Hnf f) | done].
    apply send_events in Hs. unfold mbind, M_bind. cbn. congruence. }
  destruct (_ || _)%bool; apply Hsend.
Qed.

Lemma talk_cases polls fuel : forall w,
  match loop fuel (talk_round RUN polls) w with
  | Ok (_, w') => events (thread (sput w')) = events (thread (sput w))
  | Fault f => f = NullDeref
  | OutOfFuel => True
  end.
Proof.
  induction fuel as [| fuel IH]; intros w; cbn [loop]; [done |].
  pose proof (talk_round_cases polls w) as Hround.
  destruct (talk_round RUN polls w) as [[[[] |] w1] | f |]; [done | | done..].
  specialize (IH w1). destruct (loop fuel _ w1) as [[u w2] | |]; [congruence | done..].
Qed.

Lemma stop_indeterminate t :
  events (thread t) = Indeterminate -> stop_spu_thread t = Fault InvalidFree.
Proof. intros He. unfold stop_spu_thread. mrun. cbn [thread log_call]. by rewrite He. Qed.
End running.

(** * Properties *)

Section properties.
Context `{Os} (RUN : Z).

(** The conversation of example1: when the user says yes to [k] questions and
    no to the next, and the SPE's mailbox has room, the loop ends after [k + 1]
    rounds, and the SPE has been sent [k] times RUN and then STOP; when the
    input ends instead, [fgets] returns NULL and the loop dereferences it. *)
Theorem example1_conversation (k fuel polls : nat) (w : host) (rest : string) :
  roomy -> (0 < polls)%nat -> (k < fuel)%nat -> yes k (stdin w) = Some rest ->
  let '(line, rest') := fgets 254 rest in
  (line <> EmptyString -> is_yes line = false ->
   exists t, loop fuel (talk_round RUN polls) w = Ok (tt, Host t (ex1 w) rest') /\
     events (thread t) = events (thread (sput w)) /\
     sent (calls t) = sent (calls (sput w)) ++ repeat RUN k ++ [s32 STOP]) /\
  (line = EmptyString -> loop fuel (talk_round RUN polls) w = Fault NullDeref).
Proof.
  intros Hroom Hp. revert fuel w.
  induction k as [| k IH]; intros [| fuel] w Hf Hyes; try lia; cbn [loop yes] in *.
  - injection Hyes as <-. destruct (fgets 254 (stdin w)) as [line rest'] eqn:Hline. split.
    + intros Hne Hno. pose proof (run_talk_round RUN polls w Hroom Hp) as Hround.
      rewrite Hline in Hround. cbn [fst snd] in Hround. rewrite Hno in Hround.
      destruct (Hround Hne) as (t & Hrun & He & Hs). rewrite Hrun. by exists t.
    + intros ->. unfold talk_round.
      destruct (run_recieve (sput w)) as (v & t1 & Hr & _).
      erewrite M_bind_ok by (by apply run_on_sput). unfold read_line. mrun. cbn [stdin].
      by rewrite Hline.
  - destruct (fgets 254 (stdin w)) as [line1 rest1] eqn:Hline1.
    destruct (is_yes line1) eqn:His; [| done].
    pose proof (run_talk_round RUN polls w Hroom Hp) as Hround.
    rewrite Hline1 in Hround. cbn [fst snd] in Hround. rewrite His in Hround.
    destruct Hround as (t & Hrun & He & Hs); [by intros -> |]. rewrite Hrun.
    specialize (IH fuel (Host t (ex1 w) rest1) ltac:(lia) Hyes). cbn [ex1 sput] in IH.
    destruct (fgets 254 rest) as [line rest']. destruct IH as [Hno Heof]. split; [| done].
    intros Hne Hisno. destruct (Hno Hne Hisno) as (t' & Hrun' & He' & Hs').
    exists t'. split_and!; [done | congruence |]. rewrite Hs', Hs. by rewrite <- app_assoc.
Qed.

(** C36: example1 never gets to its [return 0]: whatever the libraries answer and
    the user says, [main] ends the process because it could not start the
    thread, or it has not ended, or it faults: at the end of the input, without
    storage for its data, or, once the user has said no, in [stop_spu_thread],
    which frees the event buffer that nothing allocated. *)
Theorem example1_never_returns (malloc_ok : bool) (addr handle : Z) (fuel polls : nat)
    (w : host) :
  events (thread (sput w)) = Indeterminate ->
  match main RUN malloc_ok addr handle fuel polls w with
  | Ok (o, _) => exists status, o = Exit status /\ status <> 0
  | Fault f => f = NullDeref \/ f = InvalidFree
  | OutOfFuel => True
  end.
Proof.
  intros He. unfold main, set_ex1. destruct malloc_ok; cbn [alloc_init]; [| by left]. mrun.
  erewrite M_bind_ok by apply run_on_sput, assign_run.
  set (w1 := Host _ _ _).
  destruct (start_spu_thread_run (sput w1)) as (t & Hstart & _ & _ & He1 & _).
  erewrite M_bind_ok by (apply run_on_sput, Hstart).
  destruct (Z.eqb_spec (answer (calls t)) 0) as [Ha | Ha]; cbn [negb].
  2: { eexists. split; [reflexivity | done]. }
  change (0 <? 0) with false. cbv iota.
  set (w2 := Host t _ _). pose proof (talk_cases RUN polls fuel w2) as Hloop.
  destruct (loop fuel (talk_round RUN polls) w2) as [[[] w3] | f |] eqn:Hl;
    unfold mbind, M_bind; rewrite Hl; [| by left | done].
  unfold on_sput, mbind, M_bind. cbn. rewrite stop_indeterminate; [by right |].
  rewrite Hloop. cbn [sput w2]. by rewrite He1.
Qed.
End properties.

(** * Witnesses *)

#[local] Existing Instance good_os.

Definition a_host (input : string) : host :=
  Host (new_thread Indeterminate THREAD_RUN) Null input.
Lemma good_os_roomy : roomy.
Proof. intros l c. cbn. by rewrite last_call_snoc. Qed.

Lemma example1_conversation_witness :
  exists t, loop 3 (talk_round 5 1) (a_host (String "y" (String "010" "no"))) =
      Ok (tt, Host t Null EmptyString) /\
    sent (calls t) = [5; s32 STOP].
Proof.
  destruct (example1_conversation 5 1 3 1 (a_host (String "y" (String "010" "no"))) "no"%string)
    as [Hno _].
  - exact good_os_roomy.
  - lia.
  - lia.
  - reflexivity.
  - destruct Hno as (t & Hrun & _ & Hs); [discriminate | reflexivity |].
    exists t. split; [exact Hrun | exact Hs].
Defined.

Lemma example1_never_returns_witness :
  match main 5 true 4096 99 3 1 (a_host "n"%string) with
  | Ok (o, _) => exists status, o = Exit status /\ status <> 0
  | Fault f => f = NullDeref \/ f = InvalidFree
  | OutOfFuel => True
  end.
Proof. apply example1_never_returns. reflexivity. Defined.
