(* ===== verification/Example2.v ===== *)
(** example/example2.c with the loop thread of src/spethread.c and the SPE program
    of example/spu_example2.c: main waits on a condition variable for the
    callback of each stop of the SPE, asks the user, and sends the answer to the
    loop thread through its pipe.

    The two host threads take turns in any order, one statement at a time, but that
    the loop thread runs the SPE, and waits for the pipe and reads it, in one step
    each: no other thread takes anything from the pipe or uses the SPE.  The
    pipe holds [room] answers, and a write to a full pipe blocks.  A thread that
    sleeps on the condition variable is woken by a broadcast and, where
    [spurious] allows what POSIX allows, at any time. *)
From Stdlib Require Import String Ascii.
From stdpp Require Import base list.
From Stdlib Require Import ZArith Lia.
From S2P Require Import Prelude.
From S2P Require Import Messages.
From S2P Require Import SpeThread.
From S2P Require Import Example1.
#[local] Close Scope string_scope.

(** * The code *)

(** What [main] does before its loop and after it, with the thread structure and
    the block at [ex2], which holds one byte. *)
Record setting := Setting { sput : tstate; ex2 : ptr Z }.
Definition sizeof_example2_s : Z := 1.

Section code.
Context `{Os}.

Definition on_sput {A : Type} (m : M tstate A) : M setting A :=
  t ← gets sput;
  r ← lift (m t);
  modify (fun w => Setting r.2 (ex2 w));;
  mret r.1.

(** Up to [start_spu_thread]; [None] when the loop begins.  [addr] is what
    [memalign] returned, [handle] the embedded SPE program. *)
Definition setup (malloc_ok : bool) (addr handle : Z) : M setting (option outcome) :=
  m ← lift (alloc_init malloc_ok 1);
  modify (fun w => Setting (sput w) m);;
  on_sput (assign (set_task THREAD_LOOP addr sizeof_example2_s handle));;
  o ← on_sput start_spu_thread;
  mret match o with
       | Exit status => Some (Exit status)
       | Return v => if v <? 0 then Some (Return (-1)) else None
       end.

(** From [stop_spu_thread] on. *)
Definition finish : M setting Z :=
  _ ← on_sput stop_spu_thread;
  m ← gets ex2;
  m ← lift (free m);
  modify (fun w => Setting (sput w) m);;
  mret 0.
End code.

(** The statements of the loop of [main] in example2.c, from the first
    [pthread_mutex_lock] to the return. *)
Inductive main_pc :=
| m_lock | m_wait | m_sleeping | m_woken | m_unlock | m_ask
| m_send (again : bool)   (* the user said yes, or no *)
| m_join | m_done | m_crashed.
(** The loop of [spu_loop_thread], [callback] included. *)
Inductive loop_pc := l_run | l_lock | l_broadcast | l_unlock | l_read | l_exited.
Inductive who := Main | Loop.

(** [pipe] holds what was written to the pipe and not read, [spe] the byte of the
    SPE program once it runs, [printed] what that program printed. *)
Record system := System {
  m_pc : main_pc; l_pc : loop_pc; mutex : option who; pipe : list Z;
  spe : option Z; printed : list Z; stdin : string }.

(** The SPE program runs up to its next stop: the first time with the byte it
    fetched, which main set to 1, then with one more. *)
Definition resume (b : option Z) : Z :=
  match b with None => 1 | Some v => (v + 1) mod 2 ^ 8 end.

Definition is_free (o : option who) : bool := match o with None => true | Some _ => false end.

(** [write] to the pipe, in [send_action]: it blocks while the pipe is full. *)
Definition write_pipe (room : nat) (action : Z) (p : list Z) : option (list Z) :=
  if (length p <? room)%nat then Some (p ++ [action]) else None.

Definition main_step (room : nat) (s : system) : option system :=
  match m_pc s with
  | m_lock =>
      if is_free (mutex s)
      then Some (System m_wait (l_pc s) (Some Main) (pipe s) (spe s) (printed s) (stdin s))
      else None
  | m_wait =>   (* pthread_cond_wait gives the mutex back and sleeps *)
      Some (System m_sleeping (l_pc s) None (pipe s) (spe s) (printed s) (stdin s))
  | m_sleeping => None
  | m_woken =>  (* and returns with the mutex *)
      if is_free (mutex s)
      then Some (System m_unlock (l_pc s) (Some Main) (pipe s) (spe s) (printed s) (stdin s))
      else None
  | m_unlock => Some (System m_ask (l_pc s) None (pipe s) (spe s) (printed s) (stdin s))
  | m_ask =>
      let '(line, rest) := fgets 254 (stdin s) in
      Some match line with
      | EmptyString =>   (* cptr is NULL *)
          System m_crashed (l_pc s) (mutex s) (pipe s) (spe s) (printed s) rest
      | _ => System (m_send (is_yes line)) (l_pc s) (mutex s) (pipe s) (spe s) (printed s) rest
      end
  | m_send again =>
      p ← write_pipe room (if again then THREAD_CONTINUE else THREAD_EXIT) (pipe s);
      Some (System (if again then m_lock else m_join) (l_pc s) (mutex s) p (spe s) (printed s) (stdin s))
  | m_join =>
      match l_pc s with
      | l_exited => Some (System m_done l_exited (mutex s) (pipe s) (spe s) (printed s) (stdin s))
      | _ => None
      end
  | m_done | m_crashed => None
  end.

(** What a broadcast does to main. *)
Definition wake (m : main_pc) : main_pc := match m with m_sleeping => m_woken | m => m end.

(** [callback], which the loop thread calls. *)
Definition callback_step (s : system) : option system :=
  match l_pc s with
  | l_lock =>
      if is_free (mutex s)
      then Some (System (m_pc s) l_broadcast (Some Loop) (pipe s) (spe s) (printed s) (stdin s))
      else None
  | l_broadcast =>
      Some (System (wake (m_pc s)) l_unlock (mutex s) (pipe s) (spe s) (printed s) (stdin s))
  | l_unlock => Some (System (m_pc s) l_read None (pipe s) (spe s) (printed s) (stdin s))
  | _ => None
  end.

(** The loop of [spu_loop_thread]. *)
Definition loop_step (s : system) : option system :=
  match l_pc s with
  | l_run =>    (* the SPE stops with code 0, which asks for the callback *)
      let v := resume (spe s) in
      Some (System (m_pc s) l_lock (mutex s) (pipe s) (Some v) (printed s ++ [v]) (stdin s))
  | l_lock | l_broadcast | l_unlock => callback_step s
  | l_read =>
      match pipe s with
      | [] => None
      | a :: p =>
          Some (System (m_pc s) (if a =? THREAD_EXIT then l_exited else l_run) (mutex s) p
                  (spe s) (printed s) (stdin s))
      end
  | l_exited => None
  end.

(** When [start_spu_thread] has returned. *)
Definition start (input : string) : system := System m_lock l_run None [] None [] input.

(** A wake-up without a broadcast. *)
Definition wake_step (s : system) : option system :=
  match m_pc s with
  | m_sleeping => Some (System m_woken (l_pc s) (mutex s) (pipe s) (spe s) (printed s) (stdin s))
  | _ => None
  end.

Inductive step (room : nat) (spurious : bool) (s s' : system) : Prop :=
| step_main : main_step room s = Some s' -> step room spurious s s'
| step_loop : loop_step s = Some s' -> step room spurious s s'
| step_wake : spurious = true -> wake_step s = Some s' -> step room spurious s s'.
Inductive reachable (room : nat) (spurious : bool) (input : string) : system -> Prop :=
| reach_start : reachable room spurious input (start input)
| reach_step s s' :
    reachable room spurious input s -> step room spurious s s' ->
    reachable room spurious input s'.

(** * Lemmas *)

#[local] Arguments fgets : simpl never.

Lemma yes_snoc k : forall input rest,
  yes k input = Some rest -> is_yes (fgets 254 rest).1 = true ->
  yes (S k) input = Some (fgets 254 rest).2.
Proof.
  induction k as [| k IH]; intros input rest Hy Hi.
  - injection Hy as ->. cbn [yes]. destruct (fgets 254 rest) as [line r]. cbn in *. by rewrite Hi.
  - cbn [yes] in Hy |- *. destruct (fgets 254 input) as [line r]. destruct (is_yes line); [| done].
    by apply IH.
Qed.

(** The SPE's byte, and what it printed, after [r] runs. *)
Definition counter (r : nat) : option Z :=
  match r with O => None | S _ => Some (Z.of_nat r mod 2 ^ 8) end.
Definition counted (r : nat) : list Z := map (fun i => (1 + i) mod 2 ^ 8) (seqZ 0 (Z.of_nat r)).

Lemma resume_counter r : resume (counter r) = Z.of_nat (S r) mod 2 ^ 8.
Proof.
  destruct r as [| r]; [done |]. unfold resume, counter. rewrite Zplus_mod_idemp_l, (Nat2Z.inj_succ (S r)).
  done.
Qed.
Lemma counted_succ r : counted (S r) = counted r ++ [Z.of_nat (S r) mod 2 ^ 8].
Proof.
  unfold counted. replace (Z.of_nat (S r)) with (Z.of_nat r + 1) by lia.
  rewrite seqZ_app, map_app by lia. f_equal.
  rewrite Z.add_0_l, (Z.add_comm _ 1). done.
Qed.

(** ** The invariant *)

(** The loop thread has broadcast and waits for the answer. *)
Definition told (l : loop_pc) : Prop := l = l_unlock \/ l = l_read.

(** After [k] answers and [r] runs of the SPE. *)
Definition phase (m : main_pc) (l : loop_pc) (p : list Z) (k r : nat) : Prop :=
  match m with
  | m_lock | m_wait | m_sleeping =>
      (p = [] /\ l = l_run /\ r = k) \/ (p = [] /\ l <> l_run /\ l <> l_exited /\ r = S k) \/
      (p = [THREAD_CONTINUE] /\ told l /\ r = k)
  | m_woken | m_unlock | m_ask | m_send _ | m_crashed => p = [] /\ told l /\ r = S k
  | m_join => ((p = [THREAD_EXIT] /\ told l) \/ (p = [] /\ l = l_exited)) /\ r = S k
  | m_done => p = [] /\ l = l_exited /\ r = S k
  end.
Definition main_holds (m : main_pc) : bool :=
  match m with m_wait | m_unlock => true | _ => false end.
Definition loop_holds (l : loop_pc) : bool :=
  match l with l_broadcast | l_unlock => true | _ => false end.
Definition holder (m : main_pc) (l : loop_pc) : option who :=
  if main_holds m then Some Main else if loop_holds l then Some Loop else None.
(** What the user has said. *)
Definition said_next (again : bool) (k : nat) (input rest : string) : Prop :=
  exists s, yes k input = Some s /\ (fgets 254 s).1 <> EmptyString /\
    is_yes (fgets 254 s).1 = again /\ rest = (fgets 254 s).2.
Definition said (m : main_pc) (k : nat) (input rest : string) : Prop :=
  match m with
  | m_send again => said_next again k input rest
  | m_join | m_done => said_next false k input rest
  | m_crashed => exists s, yes k input = Some s /\ (fgets 254 s).1 = EmptyString
  | _ => yes k input = Some rest
  end.

(** The same when main may wake up by itself and answer before it is asked: the
    loop thread has read [c] of the [k] answers. *)
Definition ran (l : loop_pc) (c : nat) : nat := match l with l_run => c | _ => S c end.
Definition ahead (m : main_pc) (l : loop_pc) (p : list Z) (k r : nat) : Prop :=
  exists c, (c <= k)%nat /\ r = ran l c /\
  match m with
  | m_join => (p = repeat THREAD_CONTINUE (k - c) ++ [THREAD_EXIT] /\ l <> l_exited) \/
      (p = [] /\ l = l_exited /\ c = k)
  | m_done => p = [] /\ l = l_exited /\ c = k
  | _ => p = repeat THREAD_CONTINUE (k - c) /\ l <> l_exited
  end.

(** Statements of main, and of the loop thread, that only move on. *)
Definition moves (m m' : main_pc) : Prop :=
  match m, m' with
  | m_lock, m_wait | m_wait, m_sleeping | m_woken, m_unlock | m_unlock, m_ask
  | m_ask, m_send _ | m_ask, m_crashed => True
  | _, _ => False
  end.
Definition goes (l l' : loop_pc) : Prop :=
  match l, l' with l_lock, l_broadcast | l_unlock, l_read => True | _, _ => False end.

Definition phases : Type := main_pc -> loop_pc -> list Z -> nat -> nat -> Prop.
(** What the statements do to a relation between the two program counters, the
    pipe, the answers and the stops. *)
Record follows (ph : phases) : Prop := {
  fo_start : ph m_lock l_run [] 0%nat 0%nat;
  fo_moves m m' l p k r : moves m m' -> ph m l p k r -> ph m' l p k r;
  fo_more l p k r : ph (m_send true) l p k r -> ph m_lock l (p ++ [THREAD_CONTINUE]) (S k) r;
  fo_exit l p k r : ph (m_send false) l p k r -> ph m_join l (p ++ [THREAD_EXIT]) k r;
  fo_join p k r : ph m_join l_exited p k r -> ph m_done l_exited p k r;
  fo_run m p k r : ph m l_run p k r -> ph m l_lock p k (S r);
  fo_goes m l l' p k r : goes l l' -> ph m l p k r -> ph m l' p k r;
  fo_tell m p k r : ph m l_broadcast p k r -> ph (wake m) l_unlock p k r;
  fo_read m a p k r : ph m l_read (a :: p) k r ->
    ph m (if a =? THREAD_EXIT then l_exited else l_run) p k r }.

Ltac crush_phase := unfold phase, told, wake in *; intuition (subst; congruence || eauto).

Lemma phase_follows : follows phase.
Proof.
  split.
  - by left.
  - intros m m' l p k r Hm. by destruct m, m'.
  - intros l p k r (-> & Ht & ->). right. right. done.
  - intros l p k r (-> & Ht & ->). split; [by left | done].
  - intros p k r [[[_ [? | ?]] | [-> _]] ->]; done.
  - intros m p k r. destruct m; crush_phase.
  - intros m l l' p k r Hl. destruct l, l'; try done; destruct m; crush_phase.
  - intros m p k r. destruct m; crush_phase.
  - intros m a p k r Hp.
    assert ((p = [] /\ a = THREAD_CONTINUE /\ r = k /\ (m = m_lock \/ m = m_wait \/ m = m_sleeping)) \/
      (p = [] /\ a = THREAD_EXIT /\ r = S k /\ m = m_join)) as Ha
      by (destruct m; cbn in Hp; intuition congruence).
    destruct Ha as [(-> & -> & -> & [-> | [-> | ->]]) | (-> & -> & -> & ->)]; cbn;
      [by left | by left | by left |]. split; [by right | done].
Qed.

Ltac crush_ahead := cbn in *; intuition (subst; congruence || lia || eauto).

Lemma ahead_follows : follows ahead.
Proof.
  split.
  - by exists 0%nat.
  - intros m m' l p k r Hm. by destruct m, m'.
  - intros l p k r (c & Hc & -> & -> & Hl). exists c. split_and!; [lia | done | | done].
    by rewrite Nat.sub_succ_l, <- repeat_cons.
  - intros l p k r (c & Hc & -> & -> & Hl). exists c. split_and!; [done | done |]. by left.
  - intros p k r (c & Hc & -> & [[_ ?] | ?]); [done |]. by exists c.
  - intros m p k r (c & Hc & -> & Hm). exists c. split_and!; [done | done |].
    destruct m; crush_ahead.
  - intros m l l' p k r Hl (c & Hc & -> & Hm). exists c. destruct l, l'; try done;
      (split_and!; [done | done |]; destruct m; crush_ahead).
  - intros m p k r (c & Hc & -> & Hm). exists c. split_and!; [done | done |].
    destruct m; crush_ahead.
  - intros m a p k r (c & Hc & -> & Hm).
    destruct (decide (c = k)) as [-> | Hne].
    + rewrite Nat.sub_diag in Hm. exists k.
      destruct m; destruct Hm as [[[= -> ->] ?] | [? _]] || destruct Hm as [? _]; try done.
      split_and!; [done | done | by right].
    + replace (k - c)%nat with (S (k - S c)) in Hm by lia. exists (S c).
      destruct m;
        (destruct Hm as [[[= -> ->] ?] | [? _]] || destruct Hm as [[= -> ->] ?] || destruct Hm as [? _]);
        try done; (split; [lia |]); (split; [done |]); first [by split | by left; split].
Qed.

Record inv (ph : phases) (input : string) (s : system) (k r : nat) : Prop := {
  inv_phase : ph (m_pc s) (l_pc s) (pipe s) k r;
  inv_mutex : mutex s = holder (m_pc s) (l_pc s);
  inv_excl : (main_holds (m_pc s) && loop_holds (l_pc s))%bool = false;
  inv_said : said (m_pc s) k input (stdin s);
  inv_spe : spe s = counter r;
  inv_printed : printed s = counted r }.

Section invariant.
Context (room : nat) (ph : phases) (Hph : follows ph) (input : string).
Local Abbreviation inv := (inv ph input).

Lemma inv_main s s' k r : inv s k r -> main_step room s = Some s' -> exists k', inv s' k' r.
Proof.
  intros [Hp Hm Hx Hs Hspe Hpr]. destruct s as [m l mu p b pr inp]. cbn in *. subst mu b pr.
  unfold main_step. cbn [m_pc l_pc mutex pipe spe printed stdin].
  destruct m; try done.
  - destruct (is_free _) eqn:Hf; [| done]. intros [= <-]. exists k.
    split; try done; cbn; [by eapply (fo_moves ph Hph); [| exact Hp] | by destruct l].
  - intros [= <-]. exists k.
    split; try done; cbn; [by eapply (fo_moves ph Hph); [| exact Hp] | by destruct l].
  - destruct (is_free _) eqn:Hf; [| done]. intros [= <-]. exists k.
    split; try done; cbn; [by eapply (fo_moves ph Hph); [| exact Hp] | by destruct l].
  - intros [= <-]. exists k.
    split; try done; cbn; [by eapply (fo_moves ph Hph); [| exact Hp] | by destruct l].
  - destruct (fgets 254 inp) as [line rest] eqn:Hline. intros [= <-]. cbn in Hs.
    destruct line as [| c line].
    + exists k. split; try done; cbn; [by eapply (fo_moves ph Hph); [| exact Hp] |].
      exists inp. by rewrite Hline.
    + exists k. split; try done; cbn; [by eapply (fo_moves ph Hph); [| exact Hp] |].
      exists inp. by rewrite Hline.
  - cbn [said] in Hs. unfold write_pipe. destruct (length p <? room)%nat; [| done].
    destruct again; intros [= <-].
    + exists (S k). split; try done; cbn; [by apply Hph |].
      destruct Hs as (rest & Hy & _ & His & ->). by apply yes_snoc.
    + exists k. split; try done; cbn. by apply Hph.
  - destruct l; try done. intros [= <-]. exists k. split; try done; cbn. by apply Hph.
Qed.

Lemma inv_loop s s' k r : inv s k r -> loop_step s = Some s' -> exists r', inv s' k r'.
Proof.
  intros [Hp Hm Hx Hs Hspe Hpr]. destruct s as [m l mu p b pr inp]. cbn in *. subst mu b pr.
  unfold loop_step, callback_step. cbn [m_pc l_pc mutex pipe spe printed stdin].
  destruct l; try done.
  - intros [= <-]. exists (S r). rewrite !resume_counter, <- counted_succ.
    split; cbn; try (by destruct m). by apply Hph.
  - destruct (is_free _) eqn:Hf; [| done]. intros [= <-]. exists r.
    split; cbn; try (by destruct m). by eapply (fo_goes ph Hph); [| exact Hp].
  - intros [= <-]. exists r. split; cbn; try (by destruct m). exact (fo_tell ph Hph _ _ _ _ Hp).
  - intros [= <-]. exists r. split; cbn; try (by destruct m). by eapply (fo_goes ph Hph); [| exact Hp].
  - destruct p as [| a p]; [done |]. intros [= <-]. exists r.
    split; cbn; try (by destruct (a =? THREAD_EXIT), m). by apply Hph.
Qed.

Lemma inv_reachable spurious :
  (forall l p k r, spurious = true -> ph m_sleeping l p k r -> ph m_woken l p k r) ->
  forall s, reachable room spurious input s -> exists k r, inv s k r.
Proof.
  intros Hw. induction 1 as [| s s' _ (k & r & IH) [Hm | Hl | Hsp Hwk]].
  - exists 0%nat, 0%nat. split; try done. apply Hph.
  - destruct (inv_main _ _ _ _ IH Hm) as (k' & ?). by exists k', r.
  - destruct (inv_loop _ _ _ _ IH Hl) as (r' & ?). by exists k, r'.
  - exists k, r. destruct IH as [Hp Hm Hx Hs Hspe Hpr]. unfold wake_step in Hwk.
    destruct s as [m l mu p b pr inp]. cbn in *. destruct m; try done. injection Hwk as <-.
    split; try done. cbn. by apply Hw.
Qed.
End invariant.

Lemma reachable_inv room input s : reachable room false input s -> exists k r, inv phase input s k r.
Proof. by apply (inv_reachable room phase phase_follows). Qed.
Lemma reachable_ahead room spurious input s :
  reachable room spurious input s -> exists k r, inv ahead input s k r.
Proof. by apply (inv_reachable room ahead ahead_follows). Qed.

(** The pipe never holds more than it has room for. *)
Lemma pipe_bounded room spurious input s :
  reachable room spurious input s -> (length (pipe s) <= room)%nat.
Proof.
  induction 1 as [| s s' _ IH Hs]; [cbn; lia |]. destruct s as [m l mu p b pr inp]. cbn in IH.
  destruct Hs as [Hm | Hl | _ Hw].
  - unfold main_step, write_pipe in Hm. cbn [m_pc l_pc mutex pipe spe printed stdin] in Hm.
    destruct m; try (by case_match; simplify_eq); try (by simplify_eq).
    + destruct (fgets 254 inp) as [line rest]. injection Hm as <-. by destruct line.
    + destruct (Nat.ltb_spec (length p) room); [| done]. injection Hm as <-. cbn.
      rewrite length_app. cbn. lia.
  - unfold loop_step, callback_step in Hl. cbn [m_pc l_pc mutex pipe spe printed stdin] in Hl.
    destruct l; try (by case_match; simplify_eq); try (by simplify_eq).
    destruct p; [done |]. injection Hl as <-. cbn in *. lia.
  - unfold wake_step in Hw. cbn in Hw. by destruct m; simplify_eq.
Qed.

(** ** The threads around the loop *)

Lemma run_on_setting `{Os} {A : Type} (m : M tstate A) w a t :
  m (sput w) = Ok (a, t) -> on_sput m w = Ok (a, Setting t (ex2 w)).
Proof. intros Hm. unfold on_sput. mstep. rewrite Hm. by mrun. Qed.

(** When someone writes to the pipe, and THREAD_EXIT in the end, as [main] does
    when it is in time, everything is set up, ends and is given back. *)
Lemma setup_and_finish `{Os} (n fuel : nat) (fds : Z * Z) (addr handle : Z) (w : setting) :
  (forall l, pipe_fds (l ++ [pipe_create]) = fds) ->
  (forall l, answer (l ++ [malloc_events]) <> 0) ->
  (forall l r, answer (l ++ [pthread_create r]) = 0) ->
  wakes fds.1 -> exits n -> (n < fuel)%nat ->
  exists w1 t2 w3, setup true addr handle w = Ok (None, w1) /\
    spu_loop_thread fuel (sput w1) = Ok (tt, t2) /\
    finish (Setting t2 (ex2 w1)) = Ok (0, w3) /\ ex2 w3 = Freed /\
    events (thread (sput w3)) = Released.
Proof.
  intros Hpipe Hmalloc Hcreate Hw Hx Hf.
  set (t0 := Tstate (set_task THREAD_LOOP addr sizeof_example2_s handle (thread (sput w)))
    (calls (sput w))).
  destruct (run_lifecycle n fuel fds t0 Hpipe Hmalloc Hcreate Hw Hx eq_refl Hf)
    as (t1 & t2 & t3 & Hstart & Hloop & Hstop & He).
  exists (Setting t1 (Valid 1)), t2, (Setting t3 Freed). split_and!; try done.
  - unfold setup. cbn [alloc_init]. mrun.
    erewrite M_bind_ok by (apply run_on_setting, assign_run).
    erewrite M_bind_ok by (apply run_on_setting, Hstart). done.
  - unfold finish. erewrite M_bind_ok by (apply run_on_setting, Hstop). done.
Qed.

(** ** Schedules *)

Fixpoint run (room : nat) (schedule : list who) (s : system) : option system :=
  match schedule with
  | [] => Some s
  | Main :: schedule => match main_step room s with Some s' => run room schedule s' | None => None end
  | Loop :: schedule => match loop_step s with Some s' => run room schedule s' | None => None end
  end.

Lemma run_reachable room spurious input schedule : forall s s',
  reachable room spurious input s -> run room schedule s = Some s' ->
  reachable room spurious input s'.
Proof.
  induction schedule as [| [] schedule IH]; intros s s' Hs Hrun; cbn in Hrun.
  - by injection Hrun as <-.
  - destruct (main_step room s) as [t |] eqn:Ht; [| done].
    apply (IH t); [| done]. eapply reach_step; [done |]. by apply step_main.
  - destruct (loop_step s) as [t |] eqn:Ht; [| done].
    apply (IH t); [| done]. eapply reach_step; [done |]. by apply step_loop.
Qed.

(** Before the round that follows [k] answers. *)
Definition ready (k : nat) (rest : string) : system :=
  System m_lock l_run None [] (counter k) (counted k) rest.

(** Main sleeps before the callback broadcasts. *)
Definition in_time : list who :=
  [Main; Main; Loop; Loop; Loop; Loop; Main; Main; Main; Main; Loop].
(** The callback broadcasts before main sleeps. *)
Definition too_late : list who := [Loop; Loop; Loop; Loop; Main; Main].

Section schedules.
Context (room : nat) (Hroom : (1 <= room)%nat).

Lemma send_to_empty action : write_pipe room action [] = Some [action].
Proof. unfold write_pipe. by destruct room; [lia |]. Qed.

Lemma run_in_time k rest c line rest' :
  fgets 254 rest = (String c line, rest') ->
  run room in_time (ready k rest) = Some
    (if is_yes (String c line) then ready (S k) rest'
     else System m_join l_exited None [] (counter (S k)) (counted (S k)) rest').
Proof.
  intros Hl. unfold in_time, ready.
  cbn [run main_step loop_step callback_step wake m_pc l_pc mutex pipe spe printed stdin is_free].
  rewrite Hl. rewrite resume_counter, <- counted_succ.
  cbn [run main_step loop_step callback_step m_pc l_pc mutex pipe spe printed stdin].
  rewrite send_to_empty. by destruct (is_yes (String c line)).
Qed.

Lemma ready_reachable spurious input k : forall rest,
  yes k input = Some rest -> reachable room spurious input (ready k rest).
Proof.
  assert (forall k s rest r, yes k s = Some rest ->
    reachable room spurious input (ready r s) ->
    reachable room spurious input (ready (r + k) rest)) as Hall.
  { clear k. induction k as [| k IH]; intros s rest r Hy Hr; cbn [yes] in Hy.
    - injection Hy as <-. by rewrite Nat.add_0_r.
    - destruct (fgets 254 s) as [[| c line] rest1] eqn:Hl; [done |].
      destruct (is_yes (String c line)) eqn:His; [| done].
      replace (r + S k)%nat with (S r + k)%nat by lia. apply (IH rest1); [done |].
      eapply run_reachable; [exact Hr |].
      by rewrite (run_in_time r s c line rest1 Hl), His. }
  intros rest Hy. apply (Hall k input rest 0%nat Hy). apply reach_start.
Qed.
End schedules.

(** Main sleeps, and the loop thread waits for an answer that only main can
    write. *)
Definition lost (s : system) : Prop :=
  m_pc s = m_sleeping /\ l_pc s = l_read /\ pipe s = [] /\ mutex s = None.

(** Main answers [k] times while the loop thread does nothing. *)
Definition early (k : nat) (rest : string) : system :=
  System m_lock l_run None (repeat THREAD_CONTINUE k) None [] rest.

(** It wakes up by itself and asks. *)
Lemma early_asks room input k rest c line rest' :
  fgets 254 rest = (String c line, rest') ->
  reachable room true input (early k rest) ->
  reachable room true input
    (System (m_send (is_yes (String c line))) l_run None (repeat THREAD_CONTINUE k) None [] rest').
Proof.
  intros Hl Hr.
  do 2 (eapply reach_step in Hr; [| apply step_main; cbn; reflexivity]).
  eapply reach_step in Hr; [| by apply step_wake].
  do 2 (eapply reach_step in Hr; [| apply step_main; cbn; reflexivity]).
  eapply reach_step; [exact Hr |]. apply step_main. cbn. by rewrite Hl.
Qed.

Lemma early_reachable room input k : forall rest,
  (k <= room)%nat -> yes k input = Some rest -> reachable room true input (early k rest).
Proof.
  assert (forall k s rest r, (r + k <= room)%nat -> yes k s = Some rest ->
    reachable room true input (early r s) -> reachable room true input (early (r + k) rest)) as Hall.
  { clear k. induction k as [| k IH]; intros s rest r Hk Hy Hr; cbn [yes] in Hy.
    - injection Hy as <-. by rewrite Nat.add_0_r.
    - destruct (fgets 254 s) as [[| c line] rest1] eqn:Hl; [done |].
      destruct (is_yes (String c line)) eqn:His; [| done].
      replace (r + S k)%nat with (S r + k)%nat by lia. apply (IH rest1); [lia | done |].
      apply (early_asks room input r s c line rest1 Hl) in Hr. rewrite His in Hr.
      eapply reach_step; [exact Hr |]. apply step_main. cbn. unfold write_pipe.
      rewrite repeat_length, (proj2 (Nat.ltb_lt r room)) by lia. cbn.
      unfold early. cbn [repeat]. by rewrite repeat_cons. }
  intros rest Hk Hy. apply (Hall k input rest 0%nat Hk Hy). apply reach_start.
Qed.

Lemma said_yes m k input rest : said m k input rest -> exists rest, yes k input = Some rest.
Proof.
  unfold said, said_next. intros Hs.
  destruct m; try (by eauto); destruct Hs as (rest' & Hy & _); by exists rest'.
Qed.

(** Where nothing moves: main has not room in the pipe only when the loop thread
    has something to read. *)
Lemma ahead_stuck room input s k r : (1 <= room)%nat -> inv ahead input s k r ->
  main_step room s = None -> loop_step s = None -> lost s \/ m_pc s = m_done \/ m_pc s = m_crashed.
Proof.
  intros Hroom [(c & Hc & _ & Hp) Hmu Hx _ _ _] Hm Hl.
  destruct s as [m l mu p b pr inp]. cbn in *. subst mu.
  unfold main_step, loop_step, callback_step, wake, lost in *.
  cbn [m_pc l_pc mutex pipe spe printed stdin] in *.
  destruct m; try (by right; auto); try done; try (by destruct (fgets 254 inp)); destruct l;
    cbn in *; try done; destruct p; try done; try (by left); try (by destruct Hp);
    try (by rewrite send_to_empty in Hm).
  destruct Hp as [[Hp _] | (_ & ? & _)]; [by destruct (k - c)%nat | done].
Qed.

Lemma phase_stuck room input s k r : (1 <= room)%nat -> inv phase input s k r ->
  main_step room s = None -> loop_step s = None -> lost s \/ m_pc s = m_done \/ m_pc s = m_crashed.
Proof.
  intros Hroom [Hp Hmu Hx _ _ _] Hm Hl.
  destruct s as [m l mu p b pr inp]. cbn in *. subst mu.
  unfold main_step, loop_step, callback_step, wake, lost in *.
  cbn [m_pc l_pc mutex pipe spe printed stdin] in *.
  destruct m; try (by right; auto); try done; try (by destruct (fgets 254 inp)); destruct l;
    cbn in *; try done; unfold told in *; destruct p; try done; try (by left);
    try (by rewrite send_to_empty in Hm); intuition congruence.
Qed.

(** The answers that were sent and not read are in the pipe. *)
Lemma ahead_bounded room input s k r :
  (length (pipe s) <= room)%nat -> inv ahead input s k r -> (k <= r + room)%nat.
Proof.
  intros Hlen [(c & Hc & Hr & Hp) _ _ _ _ _].
  assert (c <= r)%nat as Hcr by (unfold ran in Hr; destruct (l_pc s); lia).
  assert (k - c <= length (pipe s))%nat; [| lia].
  destruct (m_pc s); destruct Hp as [[-> _] | (-> & _ & ->)] || destruct Hp as (-> & _ & ->) ||
    destruct Hp as [-> _]; rewrite ?length_app, ?repeat_length; lia.
Qed.

(** * Properties *)

(** C34: example2 loses wake-ups: main waits without a condition, so a callback
    that broadcasts before main sleeps is not seen.  After any number [k] of
    answers, and so at the very start, the system can reach a state in which
    neither thread can go on, the SPE having stopped [k + 1] times; and that is
    the only way to get stuck: a reachable state without a step is such a state,
    or main has returned, or it crashed at the end of the input.  All this with a
    pipe of any size that holds an answer. *)
Theorem example2_lost_wakeup (room : nat) (input : string) :
  (1 <= room)%nat ->
  (forall k rest, yes k input = Some rest ->
     exists s, reachable room false input s /\ lost s /\ main_step room s = None /\
       loop_step s = None /\ stdin s = rest /\ printed s = counted (S k)) /\
  (forall s, reachable room false input s -> main_step room s = None -> loop_step s = None ->
     lost s \/ m_pc s = m_done \/ m_pc s = m_crashed).
Proof.
  intros Hroom. split.
  - intros k rest Hy. eexists. split.
    { eapply (run_reachable room false input too_late).
      { by apply (ready_reachable room Hroom false input k rest). }
      unfold too_late, ready. cbn [run main_step loop_step callback_step wake m_pc l_pc mutex pipe
        spe printed stdin is_free]. rewrite resume_counter, <- counted_succ. reflexivity. }
    by split_and!.
  - intros s Hr. destruct (reachable_inv room input s Hr) as (k & r & Hi). by eapply phase_stuck.
Qed.

(** C33: what example2 does when it is in time: in every reachable state the SPE
    has printed 1, 2, 3, ... modulo 256, once for each stop, and never more than
    one stop ahead of the answers; main has returned only when the user has said
    yes [k] times and then no, the SPE has then stopped [k + 1] times, its
    thread has ended and nothing is left in the pipe; and for every such input
    main can return, with a pipe of any size that holds an answer. *)
Theorem example2_counts_answers (room : nat) (input : string) :
  (forall s, reachable room false input s -> exists k r, printed s = counted r /\ (r = k \/ r = S k) /\
     (exists rest, yes k input = Some rest) /\
     (m_pc s = m_done -> r = S k /\ l_pc s = l_exited /\ pipe s = [] /\
        exists rest, yes k input = Some rest /\ is_yes (fgets 254 rest).1 = false)) /\
  ((1 <= room)%nat -> forall k rest line rest',
     yes k input = Some rest -> fgets 254 rest = (line, rest') ->
     line <> EmptyString -> is_yes line = false ->
     exists s, reachable room false input s /\ m_pc s = m_done /\ printed s = counted (S k)).
Proof.
  split.
  - intros s Hr. destruct (reachable_inv room input s Hr) as (k & r & [Hp _ _ Hs _ Hpr]).
    exists k, r. split; [done |]. split; [| split].
    + unfold phase in Hp. destruct (m_pc s); intuition.
    + by eapply said_yes.
    + intros Hd. rewrite Hd in Hp, Hs. cbn in Hp, Hs.
      destruct Hp as (? & ? & ->), Hs as (rest & Hy & _ & Hno & _). split_and!; eauto.
  - intros Hroom k rest line rest' Hy Hl Hne Hno. destruct line as [| c line]; [done |].
    exists (System m_done l_exited None [] (counter (S k)) (counted (S k)) rest').
    split; [| by split].
    apply (reach_step _ _ _
      (System m_join l_exited None [] (counter (S k)) (counted (S k)) rest')); [| by apply step_main].
    eapply (run_reachable room false input in_time).
    { by apply (ready_reachable room Hroom false input k rest). }
    by rewrite (run_in_time room Hroom k rest c line rest' Hl), Hno.
Qed.

(** C35: what is left of this when a sleeping thread may wake up by itself, as POSIX
    allows, with a pipe that has room for [room] answers: the SPE is still never
    more than one stop ahead of the answers, main still returns only after [k]
    times yes and then no, with [k + 1] stops and nothing left in the pipe, and
    still gets stuck, but for such wake-ups, only in a lost wake-up, the full
    pipe being no new way.  But main no longer waits for the SPE: it can send as
    many answers as the pipe holds before the SPE runs at all, and ask for one
    more, which it cannot send; and it is never more than [room] answers ahead
    of the SPE's stops. *)
Theorem example2_spurious_wakeups (room : nat) (input : string) :
  (1 <= room)%nat ->
  (forall s, reachable room true input s -> exists k r,
     printed s = counted r /\ (r <= S k)%nat /\ (k <= r + room)%nat /\
     (length (pipe s) <= room)%nat /\ (exists rest, yes k input = Some rest) /\
     (m_pc s = m_done -> r = S k /\ l_pc s = l_exited /\ pipe s = [] /\
        exists rest, yes k input = Some rest /\ is_yes (fgets 254 rest).1 = false) /\
     (main_step room s = None -> loop_step s = None ->
        lost s \/ m_pc s = m_done \/ m_pc s = m_crashed)) /\
  (forall k rest, (k <= room)%nat -> yes k input = Some rest ->
     exists s, reachable room true input s /\ pipe s = repeat THREAD_CONTINUE k /\ printed s = []) /\
  (forall rest line rest', yes room input = Some rest -> fgets 254 rest = (line, rest') ->
     line <> EmptyString ->
     exists s, reachable room true input s /\ m_pc s = m_send (is_yes line) /\ printed s = [] /\
       pipe s = repeat THREAD_CONTINUE room /\ main_step room s = None).
Proof.
  intros Hroom. split; [| split].
  - intros s Hr. destruct (reachable_ahead room true input s Hr) as (k & r & Hi).
    pose proof (pipe_bounded room true input s Hr) as Hlen.
    pose proof (ahead_bounded room input s k r Hlen Hi) as Hk.
    pose proof (ahead_stuck room input s k r Hroom Hi).
    destruct Hi as [(c & Hc & Hrc & Hp) _ _ Hs _ Hpr].
    exists k, r. split_and!; [done | | done | done | by eapply said_yes | | done].
    + unfold ran in Hrc. destruct (l_pc s); lia.
    + intros Hd. rewrite Hd in Hp, Hs. cbn in Hp, Hs.
      destruct Hp as (? & Hl & ->), Hs as (rest & Hy & _ & Hno & _).
      rewrite Hl in Hrc. split_and!; eauto.
  - intros k rest Hk Hy. exists (early k rest).
    split; [by apply early_reachable | done].
  - intros rest [| c line] rest' Hy Hl Hne; [done |]. eexists. split.
    { apply (early_asks room input room rest c line rest' Hl). by apply early_reachable. }
    split_and!; try done. cbn. unfold write_pipe.
    by rewrite repeat_length, Nat.ltb_irrefl.
Qed.

(** ** The properties at a concrete input *)

(** Yes, and then the end of the input: after one answer main sleeps for ever. *)
Definition one_yes : string := String "y" (String "010" EmptyString).
(** Yes, yes, no. *)
Definition yes_yes_no : string := String "y" (String "010" (String "y" (String "010" "n"%string))).

Lemma example2_lost_wakeup_witness :
  exists s, reachable 128 false one_yes s /\ lost s /\ printed s = [1; 2].
Proof.
  assert ((1 <= 128)%nat) as Hroom by (apply Nat.leb_le; reflexivity).
  destruct (proj1 (example2_lost_wakeup 128 one_yes Hroom) 1%nat EmptyString eq_refl)
    as (s & Hr & Hl & _ & _ & _ & Hp).
  exists s. split; [exact Hr |]. split; [exact Hl | exact Hp].
Defined.

Lemma example2_counts_answers_witness :
  exists s, reachable 1 false yes_yes_no s /\ m_pc s = m_done /\ printed s = [1; 2; 3].
Proof.
  apply (proj2 (example2_counts_answers 1 yes_yes_no) (le_n 1) 2%nat "n"%string "n"%string
    EmptyString); [reflexivity | reflexivity | discriminate | reflexivity].
Defined.

(** With room for two answers: both are sent, and the third, which is no, has to
    wait, all before the SPE runs. *)
Lemma example2_spurious_wakeups_witness :
  (exists s, reachable 2 true yes_yes_no s /\
     pipe s = [THREAD_CONTINUE; THREAD_CONTINUE] /\ printed s = []) /\
  (exists s, reachable 2 true yes_yes_no s /\ m_pc s = m_send false /\ printed s = [] /\
     pipe s = [THREAD_CONTINUE; THREAD_CONTINUE] /\ main_step 2 s = None).
Proof.
  assert ((1 <= 2)%nat) as Hroom by (apply Nat.leb_le; reflexivity).
  destruct (example2_spurious_wakeups 2 yes_yes_no Hroom) as (_ & Hsent & Hfull). split.
  - apply (Hsent 2%nat "n"%string); [apply Nat.leb_le |]; reflexivity.
  - apply (Hfull "n"%string "n"%string EmptyString); [reflexivity | reflexivity | discriminate].
Defined.
