(* ===== verification/Dma.v ===== *)
(** include/speutils/spu_dmalib.h and include/speutils/spu_message.h: the
    wrappers an SPE program puts around its DMA engine (the MFC) and its
    mailboxes.

    The intrinsics of spu_mfcio.h are not part of the repository.  A call to one
    is appended to the log of the SPE; what a channel read returns, and what the
    local store holds, is an arbitrary function of the log (class [Mfc]).  The
    log says which buffers a transfer may still be using: the rule of the
    architecture that a buffer belongs to the MFC from the command until a tag
    status has been read that covers it. *)
From stdpp Require Import base list.
From Stdlib Require Import ZArith Lia.
From S2P Require Import Prelude.
From S2P Require Import Messages.

(** * The outside *)

(** The commands, with barrier and fence variants. *)
Inductive order := Plain | Barrier | Fence.
Inductive direction := In | Out.

Inductive event :=
| mfc (d : direction) (o : order) (ls ea size tag : Z)
| mfc_list (d : direction) (o : order) (ls ea list size tag : Z)
| mfc_getllar (ls ea : Z)
| mfc_putllc (ls ea : Z)
| mfc_putlluc (ls ea : Z)
| mfc_putqlluc (ls ea tag : Z)
| mfc_write_tag_mask (mask : Z)
| mfc_read_tag_status_any
| mfc_read_tag_status_all
| read_atomic_stat
| ls_store (addr k v : Z)          (* the program stores word [k] at [addr] *)
| ls_alloc (size : Z)              (* malloc or memalign *)
| spu_stat_out_mbox
| spu_stat_out_intr_mbox
| spu_stat_in_mbox
| spu_read_in_mbox
| write_out_mbox (v : Z)
| write_out_intr_mbox (v : Z)
| spu_stop (code : Z)
| pic_call (code task ack : Z)
| missing_program (id : Z).        (* a message is printed *)

Class Mfc := {
  channel : list event -> Z;                (* the value the last call returned *)
  ls_word : list event -> Z -> Z -> Z;      (* word [k] at [addr] *)
  addr_of_message : list event -> Z;        (* where the argument is kept *)
  MFC_PUTLLC_STATUS : Z
}.

(** * Transfers in flight *)

Record flight := Flight { f_dir : direction; f_ls : Z; f_tag : Z }.

(** The tag mask last written, and the transfers not known to be complete.
    [..._all] returns when every tag of the mask is complete, [..._any] when one
    of them is: that says which only when the mask has a single bit. *)
Definition flights_step (st : Z * list flight) (e : event) : Z * list flight :=
  let '(mask, fs) := st in
  match e with
  | mfc d _ ls _ _ tag => (mask, Flight d ls tag :: fs)
  | mfc_list d _ ls _ _ _ tag => (mask, Flight d ls tag :: fs)
  | mfc_putqlluc ls _ tag => (mask, Flight Out ls tag :: fs)
  | mfc_write_tag_mask m => (u32 m, fs)
  | mfc_read_tag_status_all =>
      (mask, List.filter (fun f => negb (Z.testbit mask (f_tag f))) fs)
  | mfc_read_tag_status_any =>
      (mask, List.filter (fun f => negb (mask =? 2 ^ f_tag f)) fs)
  | _ => st
  end.
Definition flights (l : list event) : Z * list flight := fold_left flights_step l (0, []).

(** A buffer may be read when no transfer fills it, and written when none uses
    it. *)
Definition readable (l : list event) (addr : Z) : bool :=
  forallb (fun f => negb ((f_ls f =? addr) && match f_dir f with In => true | Out => false end))
    (flights l).2.
Definition writable (l : list event) (addr : Z) : bool :=
  forallb (fun f => negb (f_ls f =? addr)) (flights l).2.

(** * The code *)

(** The log is the whole state of the wrappers. *)
#[local] Abbreviation log := (list event).

Definition emit (e : event) : M log unit := modify (fun l => l ++ [e]).

(** [1<<tag], an [int]. *)
Definition tag_mask (tag : Z) : res Z :=
  if (0 <=? tag) && (tag <? 31) then Ok (Z.shiftl 1 tag) else Fault BadShift.

Definition sizeof_list_element : Z := 8.

Section code.
Context `{Mfc}.

Definition emit_read (e : event) : M log Z := emit e;; gets channel.

Definition dmaGetnWait (localstore extern_adr size tag : Z) : M log unit :=
  uiMask ← lift (tag_mask tag);
  emit (mfc In Plain localstore extern_adr size tag);;
  emit (mfc_write_tag_mask uiMask);;
  _ ← emit_read mfc_read_tag_status_any;
  mret tt.

Definition dmaPutnWait (localstore extern_adr size tag : Z) : M log unit :=
  uiMask ← lift (tag_mask tag);
  emit (mfc Out Plain localstore extern_adr size tag);;
  emit (mfc_write_tag_mask uiMask);;
  _ ← emit_read mfc_read_tag_status_any;
  mret tt.

Definition dmaWaitTag (tag : Z) : M log unit :=
  uiMask ← lift (tag_mask tag);
  emit (mfc_write_tag_mask uiMask);;
  _ ← emit_read mfc_read_tag_status_all;
  mret tt.

(** Declared [int], without a return statement. *)
Definition dmaWaitAll (uiMask : Z) : M log unit :=
  emit (mfc_write_tag_mask uiMask);;
  _ ← emit_read mfc_read_tag_status_all;
  mret tt.

(** Declared [void], with [return status]: no caller can use the status. *)
Definition dmaWaitAny (uiMask : Z) : M log unit :=
  emit (mfc_write_tag_mask uiMask);;
  _ ← emit_read mfc_read_tag_status_any;
  mret tt.

Definition dmaGet (localstore extern_adr size tag : Z) : M log unit :=
  emit (mfc In Plain localstore extern_adr size tag).
Definition dmaGetb (localstore extern_adr size tag : Z) : M log unit :=
  emit (mfc In Barrier localstore extern_adr size tag).
Definition dmaGetf (localstore extern_adr size tag : Z) : M log unit :=
  emit (mfc In Fence localstore extern_adr size tag).

(** The number of entries becomes a number of bytes, in a [uint32_t]. *)
Definition list_bytes (list_size : Z) : Z := u32 (list_size * sizeof_list_element).

Definition dmaGetl (ls ea list list_size tag : Z) : M log unit :=
  let list_size := list_bytes list_size in
  emit (mfc_list In Plain ls ea list list_size tag).
Definition dmaGetlb (ls ea list list_size tag : Z) : M log unit :=
  let list_size := list_bytes list_size in
  emit (mfc_list In Barrier ls ea list list_size tag).
Definition dmaGetlf (ls ea list list_size tag : Z) : M log unit :=
  let list_size := list_bytes list_size in
  emit (mfc_list In Fence ls ea list list_size tag).

Definition atomicGet (localstore extern_adr : Z) : M log unit :=
  emit (mfc_getllar localstore extern_adr);;
  _ ← emit_read read_atomic_stat;
  mret tt.

Definition dmaPut (localstore extern_adr size tag : Z) : M log unit :=
  emit (mfc Out Plain localstore extern_adr size tag).
Definition dmaPutb (localstore extern_adr size tag : Z) : M log unit :=
  emit (mfc Out Barrier localstore extern_adr size tag).
Definition dmaPutf (localstore extern_adr size tag : Z) : M log unit :=
  emit (mfc Out Fence localstore extern_adr size tag).

Definition dmaPutl (ls ea list list_size tag : Z) : M log unit :=
  let list_size := list_bytes list_size in
  emit (mfc_list Out Plain ls ea list list_size tag).
Definition dmaPutlb (ls ea list list_size tag : Z) : M log unit :=
  let list_size := list_bytes list_size in
  emit (mfc_list Out Barrier ls ea list list_size tag).
Definition dmaPutlf (ls ea list list_size tag : Z) : M log unit :=
  let list_size := list_bytes list_size in
  emit (mfc_list Out Fence ls ea list list_size tag).

Definition atomicPutc (localstore extern_adr : Z) : M log Z :=
  emit (mfc_putllc localstore extern_adr);;
  stat ← emit_read read_atomic_stat;
  mret (Z.land stat MFC_PUTLLC_STATUS).

Definition atomicPutuc (localstore extern_adr : Z) : M log unit :=
  emit (mfc_putlluc localstore extern_adr);;
  _ ← emit_read read_atomic_stat;
  mret tt.

Definition atomicqPutuc (localstore extern_adr tag : Z) : M log unit :=
  emit (mfc_putqlluc localstore extern_adr tag).

(** spu_message.h.  The word written is [&message], the address of the
    parameter.  [fuel] bounds the spinning. *)
Definition stat_round (e : event) : M log (option unit) :=
  n ← emit_read e;
  mret (if n =? 0 then None else Some tt).

Definition send_message (fuel : nat) (message : Z) : M log unit :=
  loop fuel (stat_round spu_stat_out_mbox);;
  a ← gets addr_of_message;
  emit (write_out_mbox (u32 a)).

Definition send_message_int (fuel : nat) (message : Z) : M log unit :=
  loop fuel (stat_round spu_stat_out_intr_mbox);;
  a ← gets addr_of_message;
  emit (write_out_intr_mbox (u32 a)).

Definition wait_for_message_poll (fuel : nat) : M log Z :=
  loop fuel (stat_round spu_stat_in_mbox);;
  w ← emit_read spu_read_in_mbox;
  mret (s32 w).

Definition check_for_message : M log Z := emit_read spu_stat_in_mbox.

(** Loads and stores of the program itself. *)
Definition ls_load (addr k : Z) : M log Z := fun l =>
  if readable l addr then Ok (u32 (ls_word l addr k), l) else Fault DmaRace.
Definition ls_write (addr k v : Z) : M log unit := fun l =>
  if writable l addr then Ok (tt, l ++ [ls_store addr k (u32 v)]) else Fault DmaRace.
End code.

(** * Lemmas *)

Section flights.
Implicit Types (l : list event) (f : flight).

Lemma flights_snoc l e : flights (l ++ [e]) = flights_step (flights l) e.
Proof. unfold flights. by rewrite fold_left_app. Qed.

Lemma tag_mask_ok tag : 0 <= tag < 31 -> tag_mask tag = Ok (2 ^ tag).
Proof.
  intros Ht. unfold tag_mask.
  rewrite (proj2 (Z.leb_le _ _)), (proj2 (Z.ltb_lt _ _)) by lia.
  cbn [andb]. by rewrite Z.shiftl_1_l.
Qed.

Lemma tag_mask_bad tag : ~ 0 <= tag < 31 -> tag_mask tag = Fault BadShift.
Proof.
  intros Ht. unfold tag_mask.
  destruct (Z.leb_spec 0 tag), (Z.ltb_spec tag 31); (done || lia).
Qed.

Lemma mask_u32 tag : 0 <= tag < 31 -> u32 (2 ^ tag) = 2 ^ tag.
Proof.
  intros Ht. apply u32_small. split; [lia |]. apply Z.pow_lt_mono_r; lia.
Qed.

(** What is left in flight after a wait for one tag. *)
Definition other_tags (tag : Z) (fs : list flight) : list flight :=
  List.filter (fun f => negb (f_tag f =? tag)) fs.

Lemma filter_tag_all tag fs :
  0 <= tag -> Forall (fun f => 0 <= f_tag f) fs ->
  List.filter (fun f => negb (Z.testbit (2 ^ tag) (f_tag f))) fs = other_tags tag fs.
Proof.
  intros Ht Hfs. apply List.filter_ext_in. intros f Hf.
  apply list_elem_of_In in Hf. rewrite Forall_forall in Hfs. specialize (Hfs f Hf).
  f_equal. rewrite Z.pow2_bits_eqb by lia. apply Z.eqb_sym.
Qed.

Lemma filter_tag_any tag fs :
  0 <= tag -> Forall (fun f => 0 <= f_tag f) fs ->
  List.filter (fun f => negb (2 ^ tag =? 2 ^ f_tag f)) fs = other_tags tag fs.
Proof.
  intros Ht Hfs. apply List.filter_ext_in. intros f Hf.
  apply list_elem_of_In in Hf. rewrite Forall_forall in Hfs. specialize (Hfs f Hf).
  f_equal. destruct (Z.eqb_spec (f_tag f) tag) as [-> |]; [apply Z.eqb_refl |].
  apply Z.eqb_neq. intros Heq. apply Z.pow_inj_r in Heq; lia.
Qed.

Lemma elem_of_other_tags tag fs f :
  f ∈ other_tags tag fs <-> f ∈ fs /\ f_tag f <> tag.
Proof.
  unfold other_tags. rewrite list_elem_of_In, filter_In, <- list_elem_of_In.
  rewrite negb_true_iff, Z.eqb_neq. done.
Qed.

Lemma readable_spec l addr :
  readable l addr = true <->
  (forall f, f ∈ (flights l).2 -> f_ls f = addr -> f_dir f = Out).
Proof.
  unfold readable. rewrite forallb_forall. split; intros Hall f Hf.
  - intros Ha. apply list_elem_of_In, Hall in Hf. rewrite Ha, Z.eqb_refl in Hf.
    by destruct (f_dir f).
  - apply list_elem_of_In in Hf. destruct (Z.eqb_spec (f_ls f) addr) as [Ha |]; [| done].
    by rewrite (Hall f Hf Ha).
Qed.

Lemma writable_spec l addr :
  writable l addr = true <-> (forall f, f ∈ (flights l).2 -> f_ls f <> addr).
Proof.
  unfold writable. rewrite forallb_forall. split; intros Hall f Hf.
  - apply list_elem_of_In, Hall in Hf. by apply negb_true_iff, Z.eqb_neq in Hf.
  - apply list_elem_of_In, Hall in Hf. by apply negb_true_iff, Z.eqb_neq.
Qed.

(** Every transfer was given a tag the MFC has. *)
Definition tags_ok l : Prop := Forall (fun f => 0 <= f_tag f) (flights l).2.
End flights.

Section wrappers.
Context `{Mfc}.
Implicit Types (l : log).

Lemma emit_run e l : emit e l = Ok (tt, l ++ [e]).
Proof. done. Qed.
Lemma emit_read_run e l : emit_read e l = Ok (channel (l ++ [e]), l ++ [e]).
Proof. done. Qed.
End wrappers.
#[export] Hint Resolve emit_run emit_read_run : run.

Section wrappers.
Context `{Mfc}.
Implicit Types (l : log).

Lemma dmaWaitTag_run tag l :
  0 <= tag < 31 ->
  dmaWaitTag tag l = Ok (tt, (l ++ [mfc_write_tag_mask (2 ^ tag)]) ++ [mfc_read_tag_status_all]).
Proof. intros Ht. unfold dmaWaitTag. rewrite tag_mask_ok by done. by mrun. Qed.

Lemma flights_wait_all tag l :
  0 <= tag < 31 -> tags_ok l ->
  (flights ((l ++ [mfc_write_tag_mask (2 ^ tag)]) ++ [mfc_read_tag_status_all])).2 =
  other_tags tag (flights l).2.
Proof.
  intros Ht Hok. rewrite !flights_snoc. unfold tags_ok in Hok.
  destruct (flights l) as [m fs]. cbn [flights_step snd]. rewrite mask_u32 by done.
  by apply filter_tag_all; [lia |].
Qed.

Lemma flights_wait_any tag l :
  0 <= tag < 31 -> tags_ok l ->
  (flights ((l ++ [mfc_write_tag_mask (2 ^ tag)]) ++ [mfc_read_tag_status_any])).2 =
  other_tags tag (flights l).2.
Proof.
  intros Ht Hok. rewrite !flights_snoc. unfold tags_ok in Hok.
  destruct (flights l) as [m fs]. cbn [flights_step snd]. rewrite mask_u32 by done.
  by apply filter_tag_any; [lia |].
Qed.

Lemma other_tags_same tag d ls fs :
  other_tags tag (Flight d ls tag :: fs) = other_tags tag fs.
Proof. unfold other_tags. cbn. by rewrite Z.eqb_refl. Qed.

Lemma tags_ok_mfc d o ls ea size tag l :
  0 <= tag -> tags_ok l -> tags_ok (l ++ [mfc d o ls ea size tag]).
Proof.
  intros Ht Hok. unfold tags_ok in *. rewrite flights_snoc.
  destruct (flights l) as [m fs]. cbn. by constructor.
Qed.

(** A transfer and a wait for it, by either of the two blocking wrappers. *)
Lemma transfer_and_wait d ls ea size tag l :
  0 <= tag < 31 -> tags_ok l ->
  (flights ((l ++ [mfc d Plain ls ea size tag]) ++
      [mfc_write_tag_mask (2 ^ tag)] ++ [mfc_read_tag_status_any])).2 =
  other_tags tag (flights l).2.
Proof.
  intros Ht Hok. rewrite app_assoc, flights_wait_any; [| done | apply tags_ok_mfc; [lia | done]].
  rewrite flights_snoc. destruct (flights l) as [m fs]. cbn [flights_step snd].
  apply other_tags_same.
Qed.

Lemma stat_spin e k : forall l,
  (forall i, (i < k)%nat -> channel (l ++ repeat e (S i)) = 0) ->
  channel (l ++ repeat e (S k)) <> 0 ->
  forall fuel, (k < fuel)%nat -> loop fuel (stat_round e) l = Ok (tt, l ++ repeat e (S k)).
Proof.
  induction k as [| k IH]; intros l Hz Hnz [| fuel] Hf; try lia;
    cbn [loop]; unfold stat_round; mrun; cbn [repeat] in *.
  - by destruct (Z.eqb_spec (channel (l ++ [e])) 0).
  - pose proof (Hz O ltac:(lia)) as H0. cbn in H0. rewrite H0. cbn [Z.eqb]. rewrite run_ret. rewrite IH.
    + by rewrite <- app_assoc.
    + intros i Hi. rewrite <- app_assoc. apply (Hz (S i)). lia.
    + by rewrite <- app_assoc.
    + lia.
Qed.
End wrappers.

(** * Properties *)

Section properties.
Context `{Mfc}.
Implicit Types (l : log).

(** C27: after the blocking wrappers the buffer belongs to the program again:
    [dmaGetnWait], [dmaPutnWait] and [dmaWaitTag] with a tag from 0 to 30 leave
    no transfer with that tag in flight and the others as they were; with tag
    31, which the MFC has, and any other value they shift an [int] by too much. *)
Theorem dma_wait_settles (ls ea size tag : Z) l :
  tags_ok l ->
  if decide (0 <= tag < 31) then
    (exists l', dmaGetnWait ls ea size tag l = Ok (tt, l') /\
       (flights l').2 = other_tags tag (flights l).2 /\
       (mfc In Plain ls ea size tag) ∈ l') /\
    (exists l', dmaPutnWait ls ea size tag l = Ok (tt, l') /\
       (flights l').2 = other_tags tag (flights l).2 /\
       (mfc Out Plain ls ea size tag) ∈ l') /\
    (exists l', dmaWaitTag tag l = Ok (tt, l') /\
       (flights l').2 = other_tags tag (flights l).2)
  else
    dmaGetnWait ls ea size tag l = Fault BadShift /\
    dmaPutnWait ls ea size tag l = Fault BadShift /\
    dmaWaitTag tag l = Fault BadShift.
Proof.
  intros Hok. case_decide as Ht.
  - split_and!.
    + eexists. unfold dmaGetnWait. rewrite tag_mask_ok by done. mrun.
      split; [reflexivity |]. rewrite <- (app_assoc _ [_] [_]). split.
      * by apply transfer_and_wait.
      * apply elem_of_app. left. apply elem_of_app. right. by left.
    + eexists. unfold dmaPutnWait. rewrite tag_mask_ok by done. mrun.
      split; [reflexivity |]. rewrite <- (app_assoc _ [_] [_]). split.
      * by apply transfer_and_wait.
      * apply elem_of_app. left. apply elem_of_app. right. by left.
    + eexists. rewrite dmaWaitTag_run by done. split; [done |]. by apply flights_wait_all.
  - unfold dmaGetnWait, dmaPutnWait, dmaWaitTag. rewrite tag_mask_bad by done. by mrun.
Qed.

(** The six wrappers for transfer lists. *)
Definition list_transfer (d : direction) (o : order) : Z -> Z -> Z -> Z -> Z -> M log unit :=
  match d, o with
  | In, Plain => dmaGetl | In, Barrier => dmaGetlb | In, Fence => dmaGetlf
  | Out, Plain => dmaPutl | Out, Barrier => dmaPutlb | Out, Fence => dmaPutlf
  end.

Lemma list_transfer_run d o ls ea list n tag l :
  list_transfer d o ls ea list n tag l =
  Ok (tt, l ++ [mfc_list d o ls ea list ((8 * n) mod 2 ^ 32) tag]).
Proof.
  assert (list_bytes n = (8 * n) mod 2 ^ 32) as <-.
  { unfold list_bytes, u32, sizeof_list_element. by rewrite Z.mul_comm. }
  by destruct d, o.
Qed.

Lemma bytes_of_entries n : (8 * n) mod 2 ^ 32 = 8 * (n mod 2 ^ 29).
Proof. replace (2 ^ 32) with (8 * 2 ^ 29) by done. by rewrite Z.mul_mod_distr_l by lia. Qed.

(** C40: the transfer lists: each of the six wrappers queues one command with the
    size of the list in bytes, eight times the number [n] of entries modulo 2^32.
    So a list is transferred whole exactly when it has fewer than 2^29 entries;
    of a longer one the first [n mod 2^29] entries are, none when that is 0, and
    the MFC cannot tell lists of [n] and of [m] entries at the same address
    apart exactly when they agree modulo 2^29.  Whatever its size, the command is
    settled by [dmaWaitTag] for its tag, with what else was under way for it,
    and transfers of other tags are left under way. *)
Theorem dma_list_sizes (ls ea list n tag : Z) l d o :
  0 <= n < 2 ^ 32 ->
  list_transfer d o ls ea list n tag l =
    Ok (tt, l ++ [mfc_list d o ls ea list ((8 * n) mod 2 ^ 32) tag]) /\
  ((8 * n) mod 2 ^ 32 = 8 * n <-> n < 2 ^ 29) /\
  (forall m, list_transfer d o ls ea list m tag l = list_transfer d o ls ea list n tag l <->
     m mod 2 ^ 29 = n mod 2 ^ 29) /\
  (0 <= tag < 31 -> tags_ok l ->
   exists l', (list_transfer d o ls ea list n tag;; dmaWaitTag tag) l = Ok (tt, l') /\
     (flights l').2 = other_tags tag (flights l).2 /\
     (flights (l ++ [mfc_list d o ls ea list ((8 * n) mod 2 ^ 32) tag])).2 =
       Flight d ls tag :: (flights l).2).
Proof.
  intros Hn. split_and!; [apply list_transfer_run | | |].
  - rewrite bytes_of_entries. pose proof (Z.mod_pos_bound n (2 ^ 29) eq_refl) as Hb.
    split; [lia |]. intros Hlt. by rewrite (Z.mod_small n) by lia.
  - intros m. rewrite !list_transfer_run, !bytes_of_entries. split; [| by intros ->].
    intros [= Heq]. apply app_inv_head in Heq. injection Heq as Heq. lia.
  - intros Ht Hok. eexists. split_and!.
    + rewrite (M_bind_ok _ _ _ _ _ (list_transfer_run d o ls ea list n tag l)).
      by apply dmaWaitTag_run.
    + rewrite flights_wait_all; [| done |].
      * rewrite flights_snoc. destruct (flights l) as [m fs]. cbn [flights_step snd].
        unfold other_tags. cbn. by rewrite Z.eqb_refl.
      * unfold tags_ok in *. rewrite flights_snoc. destruct (flights l) as [m fs].
        cbn [flights_step snd] in *. constructor; [cbn; lia | done].
    + rewrite flights_snoc. by destruct (flights l).
Qed.

(** The SPE's [send_message] and [send_message_int] wait until the mailbox
    has room and then write one word, which is the address their argument is
    kept at: the message itself has no influence on what is sent. *)
Theorem send_message_sends_address (k fuel : nat) (message other : Z) l :
  (forall i, (i < k)%nat -> channel (l ++ repeat spu_stat_out_mbox (S i)) = 0) ->
  channel (l ++ repeat spu_stat_out_mbox (S k)) <> 0 -> (k < fuel)%nat ->
  let l' := l ++ repeat spu_stat_out_mbox (S k) in
  send_message fuel message l = Ok (tt, l' ++ [write_out_mbox (u32 (addr_of_message l'))]) /\
  send_message fuel other l = send_message fuel message l.
Proof.
  intros Hz Hnz Hf l'. split; [| done]. unfold send_message.
  erewrite M_bind_ok by (by apply (stat_spin _ k)). by mrun.
Qed.
End properties.

(** ** The properties at concrete logs *)

(** An MFC whose every channel has something to read. *)
#[local] Instance sample_mfc : Mfc := {|
  channel _ := 1; ls_word _ _ _ := 0; addr_of_message _ := 0x3ff0; MFC_PUTLLC_STATUS := 1
|}.

Lemma dma_wait_settles_witness :
  exists l', dmaGetnWait 256 4096 128 3 [mfc Out Plain 512 8192 16 5] = Ok (tt, l') /\
    (flights l').2 = [Flight Out 512 5].
Proof.
  assert (tags_ok [mfc Out Plain 512 8192 16 5]) as Hok.
  { constructor; [cbn; lia | constructor]. }
  destruct (proj1 (dma_wait_settles 256 4096 128 3 [mfc Out Plain 512 8192 16 5] Hok))
    as (l' & Hrun & Hf & _).
  exists l'. split; [exact Hrun | rewrite Hf; reflexivity].
Defined.

(** 2^29 + 1 entries: one is transferred. *)
Lemma dma_list_sizes_witness :
  dmaGetl 256 4096 512 (2 ^ 29 + 1) 3 [mfc Out Plain 512 8192 16 5] =
    Ok (tt, [mfc Out Plain 512 8192 16 5; mfc_list In Plain 256 4096 512 8 3]) /\
  exists l', (dmaGetl 256 4096 512 (2 ^ 29 + 1) 3;; dmaWaitTag 3) [mfc Out Plain 512 8192 16 5] =
      Ok (tt, l') /\
    (flights l').2 = [Flight Out 512 5].
Proof.
  destruct (dma_list_sizes 256 4096 512 (2 ^ 29 + 1) 3 [mfc Out Plain 512 8192 16 5] In Plain
    ltac:(lia)) as (Hrun & _ & _ & Hw).
  split; [exact Hrun |].
  destruct Hw as (l' & Hl & Hf & _); [lia | |].
  - constructor; [cbn; lia | constructor].
  - exists l'. split; [exact Hl | rewrite Hf; reflexivity].
Defined.

Lemma send_message_sends_address_witness :
  send_message 1 0x05050505 [] =
  Ok (tt, [spu_stat_out_mbox; write_out_mbox 0x3ff0]).
Proof.
  assert (forall i, (i < 0)%nat -> channel ([] ++ repeat spu_stat_out_mbox (S i)) = 0) as Hz
    by (intros; lia).
  etrans; [apply (send_message_sends_address 0 1 0x05050505 0 [] Hz) | reflexivity].
  - cbn. lia.
  - lia.
Defined.
