(* ===== verification/TaskManager.v ===== *)
(** spu/src/spu_taskmanager.c, spu_taskmanager.h, spu_taskpipe.c and
    spu_taskpipe.h: the program that runs on each SPE, which fetches the tasks
    of its queue, executes them in a pipeline of four stages and acknowledges
    them.

    Local store is reached through its addresses: what it holds is a function of
    the log of Dma.v, and the accesses of the program are checked against the
    transfers in flight. *)
From stdpp Require Import base list gmap.
From Stdlib Require Import ZArith Lia.
From S2P Require Import Prelude.
From S2P Require Import Messages.
From S2P Require Import LinkedList.
From S2P Require Import Dma.

(** * The code *)

Definition STAGES : Z := 4.
Definition SPU_TASK_BUFFER_SIZE : Z := 32.
Definition FREE_TASK_BUFFER_SLOT : Z := 0x31415926.

(** [enum states]. *)
Definition WAIT : Z := 0.
Definition FETCH : Z := 1.
Definition STORE : Z := 2.
Definition WORK : Z := 3.
Definition SNOOZE : Z := 4.

Record task_state_s := Task_state {
  ts_current : Z; in_back : Z; out_back : Z; front : Z }.

(** [task] and [ack] are local store addresses. *)
Record pipe_entry_s := Pipe_entry {
  task : Z; pe_entry : Z; pe_id : Z; pe_stage : Z; ack : Z; pe_active : Z }.

Definition increment (value boundary : Z) : res Z :=
  value ← to_int (value + 1);
  mret (if boundary <=? value then 0 else value).

Definition in_tasks_remaining (state : task_state_s) : Z :=
  if negb (in_back state =? front state) then 1 else 0.

(** The static variables.  [plist] is the list [programs] points to, with its
    nodes, and [progs] the [program_s] structures in local store. *)
Record spu := Spu {
  events : list event;
  current_task : Z; current_state : Z;
  tstate : task_state_s; cycle : Z; pipe : list pipe_entry_s;
  fifo : Z; atomic_at : Z;
  plist : lstate; progs : gmap Z program_s }.

Definition set_events v s := Spu v (current_task s) (current_state s) (tstate s)
  (cycle s) (pipe s) (fifo s) (atomic_at s) (plist s) (progs s).
Definition set_tstate v s := Spu (events s) (current_task s) (current_state s) v
  (cycle s) (pipe s) (fifo s) (atomic_at s) (plist s) (progs s).
Definition set_cycle v s := Spu (events s) (current_task s) (current_state s) (tstate s)
  v (pipe s) (fifo s) (atomic_at s) (plist s) (progs s).
Definition set_pipe v s := Spu (events s) (current_task s) (current_state s) (tstate s)
  (cycle s) v (fifo s) (atomic_at s) (plist s) (progs s).
Definition set_blocks f a s := Spu (events s) (current_task s) (current_state s) (tstate s)
  (cycle s) (pipe s) f a (plist s) (progs s).
Definition set_state v s := Spu (events s) (current_task s) v (tstate s)
  (cycle s) (pipe s) (fifo s) (atomic_at s) (plist s) (progs s).
Definition set_plist v s := Spu (events s) (current_task s) (current_state s) (tstate s)
  (cycle s) (pipe s) (fifo s) (atomic_at s) v (progs s).
Definition set_progs v s := Spu (events s) (current_task s) (current_state s) (tstate s)
  (cycle s) (pipe s) (fifo s) (atomic_at s) (plist s) v.

Definition set_front v t := Task_state (ts_current t) (in_back t) (out_back t) v.
Definition set_in_back v t := Task_state (ts_current t) v (out_back t) (front t).
Definition set_out_back v t := Task_state (ts_current t) (in_back t) v (front t).

Definition set_active v e :=
  Pipe_entry (task e) (pe_entry e) (pe_id e) (pe_stage e) (ack e) v.
Definition set_entry v e :=
  Pipe_entry (task e) v (pe_id e) (pe_stage e) (ack e) (pe_active e).

(** ** Access *)

(** The wrappers and the list run on their part of the state. *)
Definition dma {A : Type} (m : M (list event) A) : M spu A :=
  l ← gets events;
  r ← lift (m l);
  modify (set_events r.2);;
  mret r.1.
Definition on_list {A : Type} (m : M lstate A) : M spu A :=
  l ← gets plist;
  r ← lift (m l);
  modify (set_plist r.2);;
  mret r.1.
Definition entry_at (i : Z) : M spu pipe_entry_s := fun s => lift (aget (pipe s) i) s.
Definition upd_entry (i : Z) (f : pipe_entry_s -> pipe_entry_s) : M spu unit :=
  e ← entry_at i;
  p ← gets pipe;
  p ← lift (aset p i (f e));
  modify (set_pipe p).
Definition upd_tstate (f : task_state_s -> task_state_s) : M spu unit :=
  modify (fun s => set_tstate (f (tstate s)) s).
Definition prog_at (p : Z) : M spu program_s := fun s => lift (load (progs s) p) s.

(** [(cycle + k) % STAGES]. *)
Definition context (k : Z) : M spu Z :=
  c ← gets cycle; mret (u32 (c + k) mod STAGES).

Section code.
Context `{Mfc}.

(** Word [k] of the object at [addr], and a store to it. *)
Definition word (addr k : Z) : M spu Z :=
  if addr =? 0 then fail NullDeref else dma (ls_load addr k).
Definition put_word (addr k v : Z) : M spu unit :=
  if addr =? 0 then fail NullDeref else dma (ls_write addr k v).
(** [int *task]. *)
Definition task_word (addr k : Z) : M spu Z := w ← word addr k; mret (s32 w).
(** [malloc] and [memalign]. *)
Definition alloc (size : Z) : M spu Z := dma (emit_read (ls_alloc size)).

(** The members of [*fifo]. *)
Definition fifo_double (k : Z) : M spu Z :=
  f ← gets fifo;
  hi ← word f k; lo ← word f (k + 1);
  mret (of_words hi lo).
Definition fifo_task_fifo : M spu Z := fifo_double 0.
Definition fifo_ack_fifo : M spu Z := fifo_double 2.
Definition fifo_atomic : M spu Z := fifo_double 4.
Definition fifo_max_entries : M spu Z := f ← gets fifo; word f 6.

(** ** The stages *)

Definition check_tasks : M spu unit :=
  a ← gets atomic_at;
  ea ← fifo_atomic;
  dma (atomicGet a ea);;
  state ← word a 1;
  if negb (state =? 0) then
    count ← word a 0;
    upd_tstate (set_front (s32 count))
  else mret tt.

Definition stage1 : M spu unit :=
  check_tasks;;
  t ← gets tstate;
  if negb (in_tasks_remaining t =? 0) then
    c ← context 0;
    e ← entry_at c;
    ea ← fifo_task_fifo;
    off ← lift (to_int (in_back t * TASK_SIZE));
    dma (dmaGet (task e) (u64 (ea + off)) TASK_SIZE (pe_id e));;
    upd_entry c (set_active 1);;
    n ← fifo_max_entries;
    b ← lift (increment (in_back t) (s32 n));
    upd_tstate (set_in_back b);;
    upd_entry c (set_entry (u32 b))
  else mret tt.

(** A store of [size] bytes at offset [off] of an object of [avail] bytes. *)
Definition field_store (avail off size : Z) : res unit :=
  if off + size <=? avail then Ok tt else Fault OutOfBounds.

(** [malloc(sizeof(program))]: [program] is a pointer, of 4 bytes.  The new
    structure is on no list. *)
Definition register_program (tsk : Z) : M spu unit :=
  p ← alloc 4;
  if p =? 0 then fail NullDeref else
  t1 ← task_word tsk 1;
  v ← lift (to_int (t1 + 15));
  lift (field_store 4 16 4);;
  t3 ← task_word tsk 3;
  lift (field_store 4 4 4);;
  lift (field_store 4 0 4);;
  t2 ← task_word tsk 2;
  EA ← fail BadShift;      (* task[2]<<32, of a 32-bit int *)
  modify (fun s => set_progs (<[p := Program_s 0 t3 (Z.lor EA t3) (Z.land v (-16))]> (progs s)) s).

(** The search of stage2 goes on with [listNextEntry(program)], where
    [program] was never assigned. *)
Definition stage2_search (id : Z) : M spu Z :=
  p ← on_list listFirstEntry;
  pr ← prog_at p;
  if negb (prog_id pr =? id) then fail DanglingDeref else mret p.

Definition stage2 : M spu unit :=
  c ← context 1;
  e ← entry_at c;
  if negb (pe_active e =? 0) then
    dma (dmaWaitTag (pe_id e));;
    cmd ← task_word (task e) 0;
    if cmd =? s32 REGISTER_PROGRAM then register_program (task e)
    else if cmd =? s32 ADD then mret tt
    else
      prog ← stage2_search cmd;
      if prog =? 0 then dma (emit (missing_program cmd))
      else
        pr ← prog_at prog;
        if LS pr =? 0 then
          _ ← alloc (prog_size pr);      (* compared with LS, not assigned *)
          pr ← prog_at prog;
          if negb (LS pr =? 0) then dma (dmaGet (LS pr) (EA pr) (prog_size pr) (pe_id e))
          else mret tt
        else mret tt
  else mret tt.

(** [for (i = 0; i < task[2]; i++) res += task[3] + i + task[4];], [n] more
    rounds from [i] on. *)
Fixpoint add_loop (n : nat) (i a b res : Z) : Prelude.res Z :=
  match n with
  | O => Ok res
  | S n =>
      t ← to_int (a + i);
      t ← to_int (t + b);
      res ← to_int (res + t);
      add_loop n (i + 1) a b res
  end.

(** [fuel] bounds the search. *)
Fixpoint stage3_search (fuel : nat) (p id : Z) : M spu Z :=
  match fuel with
  | O => fun _ => OutOfFuel
  | S fuel =>
      pr ← prog_at p;
      if prog_id pr =? id then mret p
      else
        p ← on_list listNextEntry;
        if p =? 0 then mret 0 else stage3_search fuel p id
  end.

(** [indet] is what the variable [res] holds in this call before it is assigned. *)
Definition stage3 (fuel : nat) (indet : Z) : M spu unit :=
  c ← context 2;
  e ← entry_at c;
  if negb (pe_active e =? 0) then
    cmd ← task_word (task e) 0;
    if cmd =? s32 ADD then
      n ← task_word (task e) 2;
      a ← task_word (task e) 3;
      b ← task_word (task e) 4;
      res ← lift (add_loop (Z.to_nat n) 0 a b indet);
      put_word (ack e) 1 res
    else if cmd =? s32 NOOP then mret tt
    else
      p ← on_list listFirstEntry;
      prog ← stage3_search fuel p cmd;
      if prog =? 0 then dma (emit (missing_program cmd))
      else
        pr ← prog_at prog;
        (if LS pr =? 0 then
           _ ← alloc (prog_size pr);     (* compared with LS, not assigned *)
           pr ← prog_at prog;
           if negb (LS pr =? 0) then dma (dmaGetnWait (LS pr) (EA pr) (prog_size pr) (pe_id e))
           else mret tt
         else mret tt);;
        pr ← prog_at prog;
        if LS pr =? 0 then fail NullDeref
        else dma (emit (pic_call (LS pr) (task e) (ack e)))
  else mret tt.

Definition stage4 : M spu unit :=
  c ← context 3;
  e ← entry_at c;
  if negb (pe_active e =? 0) then
    t ← gets tstate;
    n ← fifo_max_entries;
    b ← lift (increment (out_back t) (s32 n));
    upd_tstate (set_out_back b);;
    upd_entry c (set_active 0);;
    ea ← fifo_ack_fifo;
    dma (dmaPut (ack e) (u64 (ea + u32 (pe_entry e * sizeof_ack_s))) sizeof_ack_s (pe_id e));;
    upd_entry c (set_active 0)
  else mret tt.

(** [res] is a local variable: each call of stage3 finds another value in it.
    [indet k] is what the call finds that makes the addition number [k], the one
    after [k] results have been stored. *)
Fixpoint additions (l : list event) : nat :=
  match l with
  | [] => O
  | ls_store _ _ _ :: l => S (additions l)
  | _ :: l => additions l
  end.
Definition call_stage3 (fuel : nat) (indet : nat -> Z) : M spu unit :=
  l ← gets events;
  stage3 fuel (indet (additions l)).

(** One round of [do ... while (tstate.front != tstate.out_back)]. *)
Definition stages (fuel : nat) (indet : nat -> Z) : M spu unit :=
  stage1;; stage2;; call_stage3 fuel indet;; stage4;;
  modify (fun s => set_cycle (u32 (cycle s - 1)) s).
Definition pipeline_round (fuel : nat) (indet : nat -> Z) : M spu (option unit) :=
  stages fuel indet;;
  t ← gets tstate;
  mret (if negb (front t =? out_back t) then None else Some tt).
Definition pipeline (fuel : nat) (indet : nat -> Z) : M spu unit :=
  loop fuel (pipeline_round fuel indet).

(** ** Start and main loop *)

Fixpoint init_entries (addr tasksize i : Z) (n : nat) : M spu unit :=
  match n with
  | O => mret tt
  | S n =>
      a ← alloc sizeof_ack_s;
      p ← gets pipe;
      old ← entry_at i;
      p ← lift (aset p i (Pipe_entry (addr + i * tasksize) (pe_entry old) i (u32 (-1)) a 0));
      modify (set_pipe p);;
      init_entries addr tasksize (i + 1) n
  end.
Definition allocate_pipe_entries (entries tasksize : Z) : M spu unit :=
  addr ← alloc (entries * tasksize);
  init_entries addr tasksize 0 (Z.to_nat entries).

(** [main] up to its loop.  The result of [listInit] is compared with
    [programs] and dropped. *)
Definition main_start (argp envp : Z) : M spu unit :=
  allocate_pipe_entries STAGES TASK_SIZE;;
  a ← alloc sizeof_atomic_s;
  f ← alloc envp;
  modify (set_blocks f a);;
  dma (dmaGetnWait f argp (u32 envp) 0);;
  n ← fifo_max_entries;
  let b := s32 (u32 (n - 1)) in
  upd_tstate (fun t => set_front b (set_in_back b (set_out_back b t)));;
  modify (set_state WAIT);;
  l ← alloc 16;
  _ ← lift (listInit (negb (l =? 0)) (Lstate ∅ Null));
  mret tt.

Definition main_round (fuel : nat) (indet : nat -> Z) : M spu (option Z) :=
  st ← gets current_state;
  (if st =? WAIT then pipeline fuel indet
   else if st =? SNOOZE then
     dma (send_message fuel 0x05050505);;
     dma (emit (spu_stop READ_MBOX))
   else mret tt);;
  t ← gets current_task;
  mret (if negb (u32 t =? STOP) then None else Some 0).

Definition main (fuel : nat) (indet : nat -> Z) (argp envp : Z) : M spu Z :=
  main_start argp envp;;
  loop fuel (main_round fuel indet).
End code.
