(* ===== verification/TaskPipeline.v ===== *)
(** The pipeline of the SPE program, as a queue: what each stage does to the
    context it works on, and the invariant of a cycle.  Tasks enter in the order
    of their slots, leave in that order, and no buffer is touched while a
    transfer may be using it. *)
From stdpp Require Import base list gmap.
From Stdlib Require Import ZArith Lia.
From S2P Require Import Prelude.
From S2P Require Import Messages.
From S2P Require Import LinkedList.
From S2P Require Import Dma.
From S2P Require Import TaskManager.

(** * Lemmas: access *)

Section access.
Context `{Mfc}.
Implicit Types (s : spu).

(** The state with events appended to its log. *)
Definition logged s (es : list event) : spu := set_events (events s ++ es) s.

Lemma logged_nil s : logged s [] = s.
Proof. unfold logged. rewrite app_nil_r. by destruct s. Qed.

Lemma logged_logged s es es' : logged (logged s es) es' = logged s (es ++ es').
Proof. unfold logged. cbn. by rewrite app_assoc. Qed.

Lemma dma_run {A : Type} (m : M (list event) A) s a es :
  m (events s) = Ok (a, events s ++ es) -> dma m s = Ok (a, logged s es).
Proof. intros Hm. unfold dma. mstep. rewrite Hm. by mrun. Qed.

Lemma dma_fault {A : Type} (m : M (list event) A) s f :
  m (events s) = Fault f -> dma m s = Fault f.
Proof. intros Hm. unfold dma. mstep. rewrite Hm. by mrun. Qed.

Lemma dma_emit_run e s : dma (emit e) s = Ok (tt, logged s [e]).
Proof. by apply dma_run. Qed.

Lemma word_run addr k s :
  addr <> 0 -> readable (events s) addr = true ->
  word addr k s = Ok (u32 (ls_word (events s) addr k), s).
Proof.
  intros Ha Hr. unfold word. rewrite (proj2 (Z.eqb_neq _ _)) by done.
  rewrite (dma_run _ _ (u32 (ls_word (events s) addr k)) []).
  - by rewrite logged_nil.
  - unfold ls_load. by rewrite Hr, app_nil_r.
Qed.

Lemma task_word_run addr k s :
  addr <> 0 -> readable (events s) addr = true ->
  task_word addr k s = Ok (s32 (ls_word (events s) addr k), s).
Proof.
  intros Ha Hr. unfold task_word. erewrite M_bind_ok by (by apply word_run).
  rewrite run_ret. by rewrite s32_u32.
Qed.

Lemma put_word_run addr k v s :
  addr <> 0 -> writable (events s) addr = true ->
  put_word addr k v s = Ok (tt, logged s [ls_store addr k (u32 v)]).
Proof.
  intros Ha Hw. unfold put_word. rewrite (proj2 (Z.eqb_neq _ _)) by done.
  apply dma_run. unfold ls_write. by rewrite Hw.
Qed.

Lemma alloc_run size s :
  alloc size s = Ok (channel (events s ++ [ls_alloc size]), logged s [ls_alloc size]).
Proof. by apply dma_run. Qed.

Lemma context_run k s : context k s = Ok (u32 (cycle s + k) mod 4, s).
Proof. done. Qed.

Lemma entry_at_run i e s :
  0 <= i -> pipe s !! Z.to_nat i = Some e -> entry_at i s = Ok (e, s).
Proof.
  intros Hi He. unfold entry_at, lift. by rewrite (proj2 (aget_lookup _ _ _)) by done.
Qed.

Lemma upd_entry_run i f e s :
  0 <= i -> pipe s !! Z.to_nat i = Some e ->
  upd_entry i f s = Ok (tt, set_pipe (<[Z.to_nat i := f e]> (pipe s)) s).
Proof.
  intros Hi He. unfold upd_entry. erewrite M_bind_ok by (by apply entry_at_run). mstep.
  rewrite aset_ok; [by mrun |]. apply lookup_lt_Some in He. lia.
Qed.

Lemma upd_tstate_run f s : upd_tstate f s = Ok (tt, set_tstate (f (tstate s)) s).
Proof. done. Qed.
End access.

#[export] Hint Resolve dma_emit_run context_run upd_tstate_run alloc_run : run.

(** The four contexts rotate: the cycle counts down, so that the entry in one
    stage is the entry of the next stage one cycle later. *)
Lemma context_mod c k : u32 (c + k) mod 4 = (c + k) mod 4.
Proof.
  unfold u32. rewrite (Z.mod_eq (c + k) (2 ^ 32)) by lia.
  replace (c + k - 2 ^ 32 * ((c + k) / 2 ^ 32))
    with (c + k + (- ((c + k) / 2 ^ 32) * 2 ^ 30) * 4) by lia.
  by apply Z.mod_add.
Qed.

Lemma next_context c k : u32 (u32 (c - 1) + k) mod 4 = (c + (k - 1)) mod 4.
Proof.
  rewrite context_mod. replace (c + (k - 1)) with (c - 1 + k) by lia.
  rewrite <- (Zplus_mod_idemp_l (u32 (c - 1))), <- (Zplus_mod_idemp_l (c - 1)).
  f_equal. f_equal. pose proof (context_mod (c - 1) 0) as Hm. by rewrite Z.add_0_r in Hm.
Qed.

Lemma contexts_distinct c j k :
  0 <= j < 4 -> 0 <= k < 4 -> (c + j) mod 4 = (c + k) mod 4 -> j = k.
Proof. intros Hj Hk Heq. pose proof (Z.div_mod (c + j) 4). pose proof (Z.div_mod (c + k) 4). lia. Qed.

Lemma increment_run b n :
  0 <= b < n -> n < 2 ^ 31 -> increment b n = Ok ((b + 1) mod n).
Proof.
  intros Hb Hn. unfold increment. rewrite to_int_ok by lia. cbn. f_equal.
  destruct (Z.leb_spec n (b + 1)).
  - replace (b + 1) with n by lia. by rewrite Z.mod_same by lia.
  - by rewrite Z.mod_small by lia.
Qed.

(** * What the log says *)

(** The addresses tasks were fetched from and acknowledgements stored to, with
    the buffers used: a task has 128 bytes, an acknowledgement 16. *)
Definition fetches (l : list event) : list Z :=
  omap (fun e => match e with mfc In Plain _ ea 128 _ => Some ea | _ => None end) l.
Definition stores (l : list event) : list Z :=
  omap (fun e => match e with mfc Out Plain _ ea 16 _ => Some ea | _ => None end) l.

Lemma fetches_app l l' : fetches (l ++ l') = fetches l ++ fetches l'.
Proof. apply omap_app. Qed.
Lemma stores_app l l' : stores (l ++ l') = stores l ++ stores l'.
Proof. apply omap_app. Qed.

(** * The pipeline *)

(** Where the buffers of the program are, what the copy of its [fifo_s] says,
    and the log when that copy was made. *)
Record buffers := Buffers {
  b_task : Z -> Z; b_ack : Z -> Z; b_fifo : Z; b_atomic : Z; b_desc : fifo_s;
  b_start : list event }.

(** Where slot [i] is fetched from and acknowledged to. *)
Definition task_ea (B : buffers) (i : Z) : Z := u64 (task_fifo (b_desc B) + i * 128).
Definition ack_ea (B : buffers) (i : Z) : Z := u64 (ack_fifo (b_desc B) + i * 16).

(** What the pipeline does to memory: the fetch of a slot, the store of an
    acknowledgement and of its result, the copy of the line. *)
Definition pipe_event (B : buffers) (e : event) : Prop :=
  match e with
  | mfc In Plain ls ea size tag => 0 <= tag < 4 /\ ls = b_task B tag /\ size = 128 /\
      exists i, 0 <= i < max_entries (b_desc B) /\ ea = task_ea B i
  | mfc Out Plain ls ea size tag => 0 <= tag < 4 /\ ls = b_ack B tag /\ size = 16 /\
      exists i, 0 <= i < max_entries (b_desc B) /\ ea = ack_ea B i
  | mfc_getllar ls ea => ls = b_atomic B /\ ea = atomic (b_desc B)
  | ls_store addr k _ => k = 1 /\ exists i, 0 <= i < 4 /\ addr = b_ack B i
  | read_atomic_stat | mfc_write_tag_mask _ | mfc_read_tag_status_all | ls_alloc _ => True
  | _ => False
  end.

(** The logs of a run of the pipeline. *)
Definition grown (B : buffers) (l : list event) : Prop :=
  exists es, l = b_start B ++ es /\ Forall (pipe_event B) es.

Lemma grown_start B : grown B (b_start B).
Proof. exists []. by rewrite app_nil_r. Qed.

Lemma grown_app B l es : grown B l -> Forall (pipe_event B) es -> grown B (l ++ es).
Proof.
  intros (es0 & -> & H0) Hes. exists (es0 ++ es). rewrite app_assoc.
  split; [done |]. by apply Forall_app.
Qed.

(** The buffers are distinct objects, and during a run of the pipeline nothing
    is written over the copy of the [fifo_s]. *)
Record buffers_ok `{Mfc} (B : buffers) : Prop := {
  b_null i : 0 <= i < 4 -> b_task B i <> 0 /\ b_ack B i <> 0;
  b_null' : b_fifo B <> 0 /\ b_atomic B <> 0;
  b_task_inj i j : 0 <= i < 4 -> 0 <= j < 4 -> b_task B i = b_task B j -> i = j;
  b_ack_inj i j : 0 <= i < 4 -> 0 <= j < 4 -> b_ack B i = b_ack B j -> i = j;
  b_apart i j : 0 <= i < 4 -> 0 <= j < 4 -> b_task B i <> b_ack B j;
  b_apart' i : 0 <= i < 4 ->
    b_task B i <> b_fifo B /\ b_ack B i <> b_fifo B /\
    b_task B i <> b_atomic B /\ b_ack B i <> b_atomic B;
  b_words l : grown B l -> let w k := u32 (ls_word l (b_fifo B) k) in
    of_words (w 0) (w 1) = task_fifo (b_desc B) /\
    of_words (w 2) (w 3) = ack_fifo (b_desc B) /\
    of_words (w 4) (w 5) = atomic (b_desc B) /\
    w 6 = max_entries (b_desc B);
  b_entries : 0 < max_entries (b_desc B) < 2 ^ 24 }.

Section pipeline.
Context `{Mfc} (B : buffers) (HB : buffers_ok B).
Implicit Types (s : spu) (o : option Z).

Local Abbreviation N := (max_entries (b_desc B)).

(** Context [i] holds the task of slot [en], or nothing. *)
Definition entry_is s (i : Z) o : Prop :=
  exists e, pipe s !! Z.to_nat i = Some e /\
    task e = b_task B i /\ ack e = b_ack B i /\ pe_id e = i /\
    match o with
    | None => pe_active e = 0
    | Some en => pe_active e <> 0 /\ pe_entry e = en
    end.

(** Each transfer in flight is the fetch or the store of one context, under the
    tag of that context. *)
Record flights_ok (l : list event) : Prop := {
  fo_flights f : f ∈ (flights l).2 -> exists i, 0 <= i < 4 /\
    (f = Flight In (b_task B i) i \/ f = Flight Out (b_ack B i) i);
  fo_grown : grown B l }.
(** No transfer has the tag of context [i]. *)
Definition quiet (i : Z) (l : list event) : Prop :=
  forall f, f ∈ (flights l).2 -> f_tag f <> i.

Lemma flights_ok_tags l : flights_ok l -> tags_ok l.
Proof.
  intros Hl. unfold tags_ok. apply Forall_forall. intros f Hf.
  destruct (fo_flights l Hl f Hf) as (i & Hi & [-> | ->]); cbn; lia.
Qed.

Lemma fifo_readable l : flights_ok l -> readable l (b_fifo B) = true.
Proof.
  intros Hl. apply readable_spec. intros f Hf Ha.
  destruct (fo_flights l Hl f Hf) as (i & Hi & [-> | ->]); [| done].
  destruct (b_apart' B HB i Hi) as (? & _). done.
Qed.

Lemma atomic_readable l : flights_ok l -> readable l (b_atomic B) = true.
Proof.
  intros Hl. apply readable_spec. intros f Hf Ha.
  destruct (fo_flights l Hl f Hf) as (i & Hi & [-> | ->]); [| done].
  destruct (b_apart' B HB i Hi) as (_ & _ & ? & _). done.
Qed.

Lemma task_readable l i :
  0 <= i < 4 -> flights_ok l -> quiet i l -> readable l (b_task B i) = true.
Proof.
  intros Hi Hl Hq. apply readable_spec. intros f Hf Ha. specialize (Hq f Hf).
  destruct (fo_flights l Hl f Hf) as (j & Hj & [-> | ->]); [| done].
  cbn in *. apply (b_task_inj B HB) in Ha; [by subst | done | done].
Qed.

Lemma ack_writable l i :
  0 <= i < 4 -> flights_ok l -> quiet i l -> writable l (b_ack B i) = true.
Proof.
  intros Hi Hl Hq. apply writable_spec. intros f Hf Ha. specialize (Hq f Hf).
  destruct (fo_flights l Hl f Hf) as (j & Hj & [-> | ->]); cbn in *.
  - by apply (b_apart B HB j i Hj Hi).
  - apply (b_ack_inj B HB) in Ha; [by subst | done | done].
Qed.

(** Events that are not transfers leave the flights alone. *)
Definition neutral (e : event) : Prop := forall st, flights_step st e = st.

Lemma flights_neutral l es : Forall neutral es -> flights (l ++ es) = flights l.
Proof.
  intros Hes. revert l. induction es as [| e es IH]; intros l; [by rewrite app_nil_r |].
  apply Forall_cons in Hes as [He Hes].
  replace (l ++ e :: es) with ((l ++ [e]) ++ es) by (by rewrite <- app_assoc).
  by rewrite IH, flights_snoc, He.
Qed.

Lemma flights_ok_grow l es :
  Forall (pipe_event B) es -> (flights (l ++ es)).2 = (flights l).2 ->
  flights_ok l -> flights_ok (l ++ es).
Proof.
  intros Hes Heq [Hf Hg]. split; [intros f; rewrite Heq; apply Hf | by apply grown_app].
Qed.
Lemma quiet_same i l l' : (flights l').2 = (flights l).2 -> quiet i l -> quiet i l'.
Proof. intros Heq Hl f. rewrite Heq. apply Hl. Qed.

(** *** Reading the description *)

Lemma run_fifo_word k s :
  fifo s = b_fifo B -> flights_ok (events s) ->
  word (b_fifo B) k s = Ok (u32 (ls_word (events s) (b_fifo B) k), s).
Proof.
  intros Hf Hl. apply word_run; [apply (b_null' B HB) | by apply fifo_readable].
Qed.

Lemma run_fifo_double k s :
  fifo s = b_fifo B -> flights_ok (events s) ->
  fifo_double k s = Ok (of_words (u32 (ls_word (events s) (b_fifo B) k))
                          (u32 (ls_word (events s) (b_fifo B) (k + 1))), s).
Proof.
  intros Hf Hl. unfold fifo_double. mstep. rewrite Hf.
  erewrite M_bind_ok by (by apply run_fifo_word).
  by erewrite M_bind_ok by (by apply run_fifo_word).
Qed.

Lemma run_max_entries s :
  fifo s = b_fifo B -> flights_ok (events s) -> fifo_max_entries s = Ok (N, s).
Proof.
  intros Hf Hl. unfold fifo_max_entries. mstep. rewrite Hf, run_fifo_word by done.
  destruct (b_words B HB (events s) (fo_grown _ Hl)) as (_ & _ & _ & Hn). by rewrite <- Hn.
Qed.

Lemma run_task_fifo s :
  fifo s = b_fifo B -> flights_ok (events s) ->
  fifo_task_fifo s = Ok (task_fifo (b_desc B), s).
Proof.
  intros Hf Hl. unfold fifo_task_fifo. rewrite run_fifo_double by done.
  destruct (b_words B HB (events s) (fo_grown _ Hl)) as (Ht & _). by rewrite <- Ht.
Qed.

Lemma run_ack_fifo s :
  fifo s = b_fifo B -> flights_ok (events s) ->
  fifo_ack_fifo s = Ok (ack_fifo (b_desc B), s).
Proof.
  intros Hf Hl. unfold fifo_ack_fifo. rewrite run_fifo_double by done.
  destruct (b_words B HB (events s) (fo_grown _ Hl)) as (_ & Ht & _). by rewrite <- Ht.
Qed.

Lemma run_atomic s :
  fifo s = b_fifo B -> flights_ok (events s) ->
  fifo_atomic s = Ok (atomic (b_desc B), s).
Proof.
  intros Hf Hl. unfold fifo_atomic. rewrite run_fifo_double by done.
  destruct (b_words B HB (events s) (fo_grown _ Hl)) as (_ & _ & Ht & _). by rewrite <- Ht.
Qed.

(** *** The stages *)

(** What the SPE reads in the line of the host, after the log [l]. *)
Definition polled (l : list event) : Z := s32 (ls_word l (b_atomic B) 0).
Definition poll_active (l : list event) : bool := negb (u32 (ls_word l (b_atomic B) 1) =? 0).
Definition poll : list event := [mfc_getllar (b_atomic B) (atomic (b_desc B)); read_atomic_stat].

Definition checked s : spu :=
  let s' := logged s poll in
  if poll_active (events s') then set_tstate (set_front (polled (events s')) (tstate s)) s'
  else s'.

Lemma flights_poll l : flights (l ++ poll) = flights l.
Proof. apply flights_neutral. by repeat constructor; intros []. Qed.

Lemma flights_poll' l : flights_ok l -> flights_ok (l ++ poll).
Proof. apply flights_ok_grow; [by repeat constructor | by rewrite flights_poll]. Qed.

Lemma run_check_tasks s :
  fifo s = b_fifo B -> atomic_at s = b_atomic B -> flights_ok (events s) ->
  check_tasks s = Ok (tt, checked s).
Proof.
  intros Hf Ha Hl. unfold check_tasks. mstep.
  erewrite M_bind_ok by (by apply run_atomic). rewrite Ha.
  erewrite M_bind_ok; cycle 1.
  { apply (dma_run _ _ tt poll). unfold atomicGet. mrun. rewrite run_ret.
    unfold poll. by rewrite <- app_assoc. }
  assert (flights_ok (events (logged s poll))) as Hl'.
  { by apply flights_poll'. }
  assert (forall k, word (b_atomic B) k (logged s poll) =
    Ok (u32 (ls_word (events (logged s poll)) (b_atomic B) k), logged s poll)) as Hw.
  { intros k. apply word_run; [apply (b_null' B HB) | by apply atomic_readable]. }
  erewrite M_bind_ok by apply Hw. unfold checked, poll_active, polled.
  destruct (negb _); [| done]. erewrite M_bind_ok by apply Hw.
  rewrite upd_tstate_run. by rewrite s32_u32.
Qed.

(** What no stage changes. *)
Record same_statics s s' : Prop := {
  ss_cycle : cycle s' = cycle s;
  ss_fifo : fifo s' = fifo s;
  ss_atomic : atomic_at s' = atomic_at s;
  ss_task : current_task s' = current_task s;
  ss_state : current_state s' = current_state s;
  ss_plist : plist s' = plist s }.

Lemma same_statics_trans s s' s'' :
  same_statics s s' -> same_statics s' s'' -> same_statics s s''.
Proof. intros [] []. split; congruence. Qed.

Definition new_front s : Z :=
  if poll_active (events s ++ poll) then polled (events s ++ poll) else front (tstate s).

Lemma checked_facts s :
  same_statics s (checked s) /\ pipe (checked s) = pipe s /\
  tstate (checked s) = set_front (new_front s) (tstate s) /\
  events (checked s) = events s ++ poll.
Proof.
  unfold checked, new_front. cbn [events logged set_events].
  destruct s as [l ct cs [? ? ? ?] ? ? ? ? ? ?]. cbn.
  destruct (poll_active _); by split_and!; [split |..].
Qed.

(** The fetch of slot [k] into context [i], or its acknowledgement from there. *)
Lemma flights_ok_mfc d l ls ea size i k :
  0 <= i < 4 -> 0 <= k < N -> flights_ok l ->
  (ls, ea, size) = match d with
                   | In => (b_task B i, task_ea B k, 128)
                   | Out => (b_ack B i, ack_ea B k, 16)
                   end ->
  flights_ok (l ++ [mfc d Plain ls ea size i]).
Proof.
  intros Hi Hk [Hf Hg] Heq. split.
  - intros f. rewrite flights_snoc. destruct (flights l) as [m fs] eqn:Hfl.
    cbn. intros [-> | Hin]%elem_of_cons; [| by apply (Hf f)].
    exists i. split; [done |]. destruct d; injection Heq as -> _ _; [by left | by right].
  - apply grown_app; [done |]. apply Forall_singleton.
    destruct d; injection Heq as -> -> ->; cbn; eauto 6.
Qed.

Lemma run_stage1 s :
  fifo s = b_fifo B -> atomic_at s = b_atomic B -> flights_ok (events s) ->
  0 <= in_back (tstate s) < N -> entry_is s (cycle s mod 4) None ->
  let c := cycle s mod 4 in
  exists s' o, stage1 s = Ok (tt, s') /\ same_statics s s' /\
    entry_is s' c o /\ (forall i, 0 <= i -> i <> c -> pipe s' !! Z.to_nat i = pipe s !! Z.to_nat i) /\
    out_back (tstate s') = out_back (tstate s) /\ front (tstate s') = new_front s /\
    match o with
    | None => in_back (tstate s') = in_back (tstate s) /\
        new_front s = in_back (tstate s) /\ events s' = events s ++ poll
    | Some en => en = (in_back (tstate s) + 1) mod N /\ in_back (tstate s') = en /\
        new_front s <> in_back (tstate s) /\
        events s' = (events s ++ poll) ++
          [mfc In Plain (b_task B c) (task_ea B (in_back (tstate s))) 128 c]
    end.
Proof.
  intros Hf Ha Hl Hb He c. assert (0 <= c < 4) as Hc by (apply Z.mod_pos_bound; lia).
  pose proof (b_entries B HB) as HN.
  unfold stage1. erewrite M_bind_ok by (by apply run_check_tasks).
  destruct (checked_facts s) as (Hss & Hpipe & Hts & Hev).
  set (s1 := checked s) in *. mstep. rewrite Hts. unfold in_tasks_remaining.
  cbn [in_back front set_front].
  destruct (Z.eqb_spec (in_back (tstate s)) (new_front s)) as [Heq | Hne]; cbn [negb Z.eqb].
  - exists s1, None. rewrite Hts. cbn. split_and!; try done.
    + destruct He as (e & He & ?). exists e. by rewrite Hpipe.
    + intros i _ _. by rewrite Hpipe.
  - destruct He as (e & He & Het & Hea & Hid & Hact).
    mstep. rewrite (ss_cycle _ _ Hss), context_mod, Z.add_0_r. fold c.
    erewrite M_bind_ok by (apply entry_at_run; [lia | rewrite Hpipe; exact He]).
    assert (fifo s1 = b_fifo B) as Hf1 by (by rewrite (ss_fifo _ _ Hss)).
    assert (flights_ok (events s1)) as Hl1 by (rewrite Hev; by apply flights_poll').
    erewrite M_bind_ok by (by apply run_task_fifo).
    unfold TASK_SIZE. rewrite to_int_ok by lia. mstep. unfold dmaGet. mstep.
    rewrite Het, Hid. set (ev := mfc _ _ _ _ _ _).
    assert (flights_ok (events (logged s1 [ev]))) as Hl2.
    { by apply (flights_ok_mfc In _ _ _ _ c (in_back (tstate s))). }
    erewrite M_bind_ok by (apply upd_entry_run; [lia | cbn; rewrite Hpipe; exact He]).
    erewrite M_bind_ok by (by apply run_max_entries).
    rewrite s32_small, increment_run by lia. do 2 mstep.
    cbn [pipe set_pipe set_tstate logged set_events].
    erewrite upd_entry_run; [| lia |]; cycle 1.
    { cbn. rewrite Hpipe. apply list_lookup_insert_eq. apply lookup_lt_Some in He. lia. }
    pose proof (Z.mod_pos_bound (in_back (tstate s) + 1) N).
    eexists _, (Some ((in_back (tstate s) + 1) mod N)).
    split; [reflexivity |]. cbn. rewrite Hpipe, Hev, Hts. split_and!; try done.
    + destruct Hss. by split.
    + eexists. split; [apply list_lookup_insert_eq; rewrite length_insert;
        apply lookup_lt_Some in He; lia |].
      cbn. split_and!; try done. rewrite u32_small; lia.
    + intros i Hi Hic. by rewrite !list_lookup_insert_ne by lia.
Qed.

Definition wait (c : Z) : list event := [mfc_write_tag_mask (2 ^ c); mfc_read_tag_status_all].

Lemma flights_wait c l :
  0 <= c < 4 -> flights_ok l -> (flights (l ++ wait c)).2 = other_tags c (flights l).2.
Proof.
  intros Hc Hl. unfold wait. rewrite <- (flights_wait_all c l) by (lia || by apply flights_ok_tags).
  by rewrite <- app_assoc.
Qed.

Lemma wait_ok c l : 0 <= c < 4 -> flights_ok l -> flights_ok (l ++ wait c).
Proof.
  intros Hc Hl. split.
  - intros f. rewrite flights_wait by done.
    rewrite elem_of_other_tags. intros [Hf _]. by apply (fo_flights l Hl).
  - apply grown_app; [apply Hl | by repeat constructor].
Qed.

Lemma wait_quiet c l : 0 <= c < 4 -> flights_ok l -> quiet c (l ++ wait c).
Proof.
  intros Hc Hl f. rewrite flights_wait by done. by rewrite elem_of_other_tags; intros [_ ?].
Qed.

Lemma wait_keeps_quiet c i l :
  0 <= c < 4 -> flights_ok l -> quiet i l -> quiet i (l ++ wait c).
Proof.
  intros Hc Hl Hq f. rewrite flights_wait by done.
  rewrite elem_of_other_tags. intros [Hf _]. by apply Hq.
Qed.

Lemma run_register_program c s :
  0 <= c < 4 -> flights_ok (events s) -> quiet c (events s) ->
  exists f, register_program (b_task B c) s = Fault f /\
    (f = NullDeref \/ f = SignedOverflow \/ f = OutOfBounds).
Proof.
  intros Hc Hl Hq. unfold register_program. mstep. case_match; [by eauto |].
  set (s1 := logged s [ls_alloc 4]).
  assert (flights (events s1) = flights (events s)) as Hfl.
  { apply flights_neutral. by repeat constructor; intros []. }
  assert (readable (events s1) (b_task B c) = true) as Hr.
  { apply task_readable; [done | |].
    - apply (flights_ok_grow (events s) [ls_alloc 4]); [| exact (f_equal snd Hfl) | done].
      by apply Forall_singleton.
    - eapply quiet_same; [by rewrite Hfl | done]. }
  erewrite M_bind_ok by (apply task_word_run; [by apply (b_null B HB) | done]).
  unfold to_int. destruct (int_in_range _).
  - mstep. eexists. split; [by mrun |]. by right; right.
  - eexists. split; [by mrun |]. by right; left.
Qed.

Lemma run_first_program {A : Type} (k : Z -> M spu A) s :
  list_ptr (plist s) = Null -> (on_list listFirstEntry ≫= k) s = Fault NullDeref.
Proof.
  intros Hp. apply M_bind_fault. unfold on_list. mstep.
  rewrite (listFirstEntry_null _ Hp). by mrun.
Qed.

(** The task of context [c], as the program reads it. *)
Definition command (l : list event) (c : Z) : Z := s32 (ls_word l (b_task B c) 0).

Lemma run_stage2 s o :
  flights_ok (events s) -> list_ptr (plist s) = Null ->
  let c := (cycle s + 1) mod 4 in
  entry_is s c o ->
  match o with
  | None => stage2 s = Ok (tt, s)
  | Some _ =>
      let s1 := logged s (wait c) in
      if command (events s1) c =? s32 REGISTER_PROGRAM then
        exists f, stage2 s = Fault f /\
          (f = NullDeref \/ f = SignedOverflow \/ f = OutOfBounds)
      else if command (events s1) c =? s32 ADD then stage2 s = Ok (tt, s1)
      else stage2 s = Fault NullDeref
  end.
Proof.
  intros Hl Hp c (e & He & Het & Hea & Hid & Hact).
  assert (0 <= c < 4) as Hc by (apply Z.mod_pos_bound; lia).
  unfold stage2. mstep. rewrite context_mod. fold c.
  erewrite !M_bind_ok by (apply entry_at_run; [lia | exact He]).
  destruct o as [en |]; [| by rewrite Hact].
  destruct Hact as [Hact _]. rewrite (proj2 (Z.eqb_neq _ _) Hact). cbn [negb].
  rewrite Hid, Het. cbv zeta. set (s1 := logged s (wait c)).
  assert (dma (dmaWaitTag c) s = Ok (tt, s1)) as Hwait.
  { apply dma_run. rewrite dmaWaitTag_run by lia. unfold wait. by rewrite <- app_assoc. }
  assert (flights_ok (events s1) /\ quiet c (events s1)) as [Hl1 Hq1].
  { split; [by apply wait_ok | by apply wait_quiet]. }
  erewrite !M_bind_ok by exact Hwait.
  erewrite !M_bind_ok by (apply task_word_run; [by apply (b_null B HB) | by apply task_readable]).
  fold (command (events s1) c).
  destruct (command (events s1) c =? s32 REGISTER_PROGRAM).
  { by apply run_register_program. }
  destruct (command (events s1) c =? s32 ADD); [done |].
  apply M_bind_fault. by apply run_first_program.
Qed.

(** The addition of stage3, or the overflow of one of its sums. *)
Definition added (l : list event) (c indet : Z) : Prelude.res Z :=
  let w k := s32 (ls_word l (b_task B c) k) in
  add_loop (Z.to_nat (w 2)) 0 (w 3) (w 4) indet.

Lemma add_loop_fault n : forall i a b r f, add_loop n i a b r = Fault f -> f = SignedOverflow.
Proof.
  induction n as [| n IH]; intros i a b r f; cbn [add_loop]; [done |].
  unfold to_int, mbind, res_bind.
  do 3 (destruct (int_in_range _); [| congruence]). apply IH.
Qed.

Lemma add_loop_fuel n : forall i a b r, add_loop n i a b r <> OutOfFuel.
Proof.
  induction n as [| n IH]; intros i a b r; cbn [add_loop]; [done |].
  unfold to_int, mbind, res_bind.
  do 3 (destruct (int_in_range _); [| done]). apply IH.
Qed.

Lemma run_stage3 fuel indet s o :
  flights_ok (events s) -> list_ptr (plist s) = Null ->
  let c := (cycle s + 2) mod 4 in
  entry_is s c o -> (o <> None -> quiet c (events s)) ->
  match o with
  | None => stage3 fuel indet s = Ok (tt, s)
  | Some _ =>
      if command (events s) c =? s32 ADD then
        match added (events s) c indet with
        | Ok r => stage3 fuel indet s = Ok (tt, logged s [ls_store (b_ack B c) 1 (u32 r)])
        | _ => stage3 fuel indet s = Fault SignedOverflow
        end
      else if command (events s) c =? s32 NOOP then stage3 fuel indet s = Ok (tt, s)
      else stage3 fuel indet s = Fault NullDeref
  end.
Proof.
  intros Hl Hp c (e & He & Het & Hea & Hid & Hact) Hq.
  assert (0 <= c < 4) as Hc by (apply Z.mod_pos_bound; lia).
  unfold stage3. mstep. rewrite context_mod. fold c.
  erewrite !M_bind_ok by (apply entry_at_run; [lia | exact He]).
  destruct o as [en |]; [| by rewrite Hact].
  destruct Hact as [Hact _]. rewrite (proj2 (Z.eqb_neq _ _) Hact). cbn [negb].
  specialize (Hq ltac:(done)). rewrite Het, Hea.
  assert (forall k, task_word (b_task B c) k s =
    Ok (s32 (ls_word (events s) (b_task B c) k), s)) as Hw.
  { intros k. apply task_word_run; [by apply (b_null B HB) | by apply task_readable]. }
  erewrite !M_bind_ok by apply Hw. fold (command (events s) c).
  destruct (command (events s) c =? s32 ADD).
  - erewrite !M_bind_ok by apply Hw. fold (added (events s) c indet).
    unfold added. destruct (add_loop _ _ _ _ _) as [r | f |] eqn:Hr.
    + mstep. apply put_word_run; [by apply (b_null B HB) | by apply ack_writable].
    + apply add_loop_fault in Hr as ->. by mstep.
    + by apply add_loop_fuel in Hr.
  - destruct (command (events s) c =? s32 NOOP); [done |]. by apply run_first_program.
Qed.

Lemma run_stage4 s o :
  fifo s = b_fifo B -> flights_ok (events s) -> 0 <= out_back (tstate s) < N ->
  let c := (cycle s + 3) mod 4 in
  entry_is s c o -> (forall en, o = Some en -> 0 <= en < N) ->
  exists s', stage4 s = Ok (tt, s') /\ same_statics s s' /\ entry_is s' c None /\
    (forall i, 0 <= i -> i <> c -> pipe s' !! Z.to_nat i = pipe s !! Z.to_nat i) /\
    in_back (tstate s') = in_back (tstate s) /\ front (tstate s') = front (tstate s) /\
    match o with
    | None => s' = s
    | Some en => out_back (tstate s') = (out_back (tstate s) + 1) mod N /\
        events s' = events s ++ [mfc Out Plain (b_ack B c) (ack_ea B en) 16 c]
    end.
Proof.
  intros Hf Hl Hb c He Hen. pose proof He as (e & Hp & Het & Hea & Hid & Hact).
  assert (0 <= c < 4) as Hc by (apply Z.mod_pos_bound; lia).
  pose proof (b_entries B HB) as HN.
  unfold stage4. mstep. rewrite context_mod. fold c.
  erewrite M_bind_ok by (apply entry_at_run; [lia | exact Hp]).
  destruct o as [en |]; cycle 1.
  { rewrite Hact. exists s. by split_and!. }
  destruct Hact as [Hact Hent]. rewrite (proj2 (Z.eqb_neq _ _) Hact). cbn [negb].
  specialize (Hen en eq_refl). mstep. erewrite M_bind_ok by (by apply run_max_entries).
  rewrite s32_small, increment_run by lia. do 2 mstep.
  erewrite M_bind_ok by (apply upd_entry_run; [lia | exact Hp]).
  erewrite M_bind_ok by (by apply run_ack_fifo). unfold dmaPut. mstep.
  erewrite upd_entry_run; [| lia |]; cycle 1.
  { cbn. apply list_lookup_insert_eq. apply lookup_lt_Some in Hp. lia. }
  rewrite Hea, Hid, Hent. change sizeof_ack_s with 16. rewrite u32_small by lia.
  fold (ack_ea B en). eexists. split; [reflexivity |]. cbn. split_and!; try done.
  - eexists. split; [apply list_lookup_insert_eq; rewrite length_insert;
      apply lookup_lt_Some in Hp; lia |]. by cbn.
  - intros i Hi Hic. by rewrite !list_lookup_insert_ne by lia.
Qed.

(** *** One cycle of the pipeline *)

Lemma quiet_mfc d l ls ea size i j :
  i <> j -> quiet j l -> quiet j (l ++ [mfc d Plain ls ea size i]).
Proof.
  intros Hne Hq f. rewrite flights_snoc. destruct (flights l) as [m fs] eqn:Hfl.
  cbn. intros [-> | Hin]%elem_of_cons; [done |]. apply (Hq f). by rewrite Hfl.
Qed.

Lemma flights_neutral1 l e : neutral e -> flights (l ++ [e]) = flights l.
Proof. intros He. by rewrite flights_snoc, He. Qed.

(** The slots that follow the slot [b], from the [m]-th on. *)
Definition slots_after (b m k : Z) : list Z := map (fun j => (b + 1 + j) mod N) (seqZ m k).

Lemma slots_cons b m k :
  0 < k -> slots_after b m k = (b + 1 + m) mod N :: slots_after b (m + 1) (k - 1).
Proof. intros Hk. unfold slots_after. by rewrite seqZ_cons. Qed.

Lemma slots_snoc b m k :
  0 <= k -> slots_after b m (k + 1) = slots_after b m k ++ [(b + 1 + (m + k)) mod N].
Proof.
  intros Hk. unfold slots_after.
  rewrite seqZ_app by lia. rewrite map_app. cbn. done.
Qed.

(** The pipeline between two cycles: [m] tasks acknowledged and [n] fetched
    since it was idle at slot [b], the ones between in the contexts, oldest in
    the last stage; [fs] and [ss] are what the log held at first. *)
Record piped (b : Z) (fs ss : list Z) (m n : Z) o1 o2 o3 s : Prop := {
  pi_fifo : fifo s = b_fifo B;
  pi_atomic : atomic_at s = b_atomic B;
  pi_progs : list_ptr (plist s) = Null;
  pi_free : entry_is s (cycle s mod 4) None;
  pi_1 : entry_is s ((cycle s + 1) mod 4) o1;
  pi_2 : entry_is s ((cycle s + 2) mod 4) o2;
  pi_3 : entry_is s ((cycle s + 3) mod 4) o3;
  pi_flights : flights_ok (events s);
  pi_quiet2 : o2 <> None -> quiet ((cycle s + 2) mod 4) (events s);
  pi_quiet3 : o3 <> None -> quiet ((cycle s + 3) mod 4) (events s);
  pi_range : 0 <= m <= n;
  pi_queue : omap (fun o => o) [o3; o2; o1] = slots_after b m (n - m);
  pi_in : in_back (tstate s) = (b + n) mod N;
  pi_out : out_back (tstate s) = (b + m) mod N;
  pi_fetched : fetches (events s) = fs ++ map (task_ea B) (slots_after (b - 1) 0 n);
  pi_stored : stores (events s) = ss ++ map (ack_ea B) (slots_after b 0 m) }.

Definition bit o : Z := match o with Some _ => 1 | None => 0 end.

Lemma entry_is_same s s' i o :
  pipe s' !! Z.to_nat i = pipe s !! Z.to_nat i -> entry_is s i o -> entry_is s' i o.
Proof. intros Hp (e & He & ?). exists e. by rewrite Hp. Qed.

Lemma succ_slot b m : 0 < N -> ((b + m) mod N + 1) mod N = (b + 1 + m) mod N.
Proof. intros HN. rewrite Zplus_mod_idemp_l. f_equal. lia. Qed.

Lemma contexts_apart c j k :
  0 <= j < 4 -> 0 <= k < 4 -> j <> k -> (c + j) mod 4 <> (c + k) mod 4.
Proof. intros Hj Hk Hne Heq. by apply contexts_distinct in Heq. Qed.

(** What a cycle appends to the log, by stage: the slot before [en] is fetched
    into the free context, the fetch of the next context is waited for, the third
    is executed, and the fourth acknowledged. *)
Definition fetched (c : Z) o : list event :=
  match o with
  | Some en => [mfc In Plain (b_task B (c mod 4)) (task_ea B ((en - 1) mod N)) 128 (c mod 4)]
  | None => []
  end.
Definition waited (c : Z) o : list event :=
  match o with Some _ => wait ((c + 1) mod 4) | None => [] end.
Definition executed (indet c : Z) o (l es : list event) : Prop :=
  let i := (c + 2) mod 4 in
  match o with
  | Some _ => (es = [] /\ command l i <> s32 ADD) \/
      exists r, command l i = s32 ADD /\ added l i indet = Ok r /\
        es = [ls_store (b_ack B i) 1 (u32 r)]
  | None => es = []
  end.
Definition ack_put (c : Z) o : list event :=
  let i := (c + 3) mod 4 in
  match o with Some en => [mfc Out Plain (b_ack B i) (ack_ea B en) 16 i] | None => [] end.

(** The number of additions so far; only stage3 adds to it. *)
Lemma additions_app l l' : additions (l ++ l') = (additions l + additions l')%nat.
Proof. induction l as [| [] l IH]; cbn; by rewrite ?IH. Qed.
Lemma additions_waited c o : additions (waited c o) = O.
Proof. by destruct o. Qed.
Lemma additions_fetched c o : additions (fetched c o) = O.
Proof. by destruct o. Qed.
Lemma additions_ack c o : additions (ack_put c o) = O.
Proof. by destruct o. Qed.

(** The stages after the first, on the contexts of the cycle. *)
Lemma stage2_effect s o :
  flights_ok (events s) -> list_ptr (plist s) = Null ->
  entry_is s ((cycle s + 1) mod 4) o ->
  match stage2 s with
  | Ok (_, s') => let es := waited (cycle s) o in
      s' = logged s es /\ fetches es = [] /\ stores es = [] /\
      flights_ok (events s') /\
      (forall i, quiet i (events s) -> quiet i (events s')) /\
      (o <> None -> quiet ((cycle s + 1) mod 4) (events s'))
  | Fault f => f <> DmaRace
  | OutOfFuel => False
  end.
Proof.
  intros Hl Hp He. pose proof (run_stage2 s o Hl Hp He) as Hrun.
  assert (0 <= (cycle s + 1) mod 4 < 4) as Hc by (apply Z.mod_pos_bound; lia).
  destruct o as [en |]; cycle 1.
  { rewrite Hrun. cbn [waited]. rewrite logged_nil. by split_and!. }
  cbv zeta in Hrun. case_match.
  { destruct Hrun as (f & -> & [-> | [-> | ->]]); done. }
  case_match; [| by rewrite Hrun]. rewrite Hrun.
  cbn [waited]. split_and!; [done | done | done | | |]; cbn [events logged set_events].
  - by apply wait_ok.
  - intros i Hq. by apply wait_keeps_quiet.
  - intros _. by apply wait_quiet.
Qed.

Lemma stage3_effect fuel indet s o :
  flights_ok (events s) -> list_ptr (plist s) = Null ->
  entry_is s ((cycle s + 2) mod 4) o ->
  (o <> None -> quiet ((cycle s + 2) mod 4) (events s)) ->
  match stage3 fuel indet s with
  | Ok (_, s') => exists es, s' = logged s es /\ fetches es = [] /\ stores es = [] /\
      flights (events s') = flights (events s) /\ Forall (pipe_event B) es /\
      executed indet (cycle s) o (events s) es
  | Fault f => f <> DmaRace
  | OutOfFuel => False
  end.
Proof.
  intros Hl Hp He Hq. pose proof (run_stage3 fuel indet s o Hl Hp He Hq) as Hrun.
  destruct o as [en |]; cycle 1.
  { rewrite Hrun. exists []. rewrite logged_nil. by split_and!. }
  case_match.
  - destruct (added _ _ _) as [r | |] eqn:Hadd; rewrite Hrun; [| done..].
    eexists. split; [done |]. split_and!; [done | done | | |].
    + apply flights_neutral1. by intros [].
    + apply Forall_singleton. split; [done |]. eexists. split; [| done].
      apply Z.mod_pos_bound. lia.
    + right. exists r. split_and!; [by apply Z.eqb_eq | done | done].
  - case_match; rewrite Hrun; [| done]. exists []. rewrite logged_nil. split_and!; try done.
    left. split; [done |]. by apply Z.eqb_neq.
Qed.

Lemma shift_context c k : (u32 (c - 1) + k) mod 4 = (c + (k - 1)) mod 4.
Proof. rewrite <- context_mod. apply next_context. Qed.

Lemma contexts_apart0 c k : 0 < k < 4 -> (c + k) mod 4 <> c mod 4.
Proof. intros Hk. rewrite <- (Z.add_0_r c) at 2. apply contexts_apart; lia. Qed.

(** The abstract cycle: the queue between fetch and acknowledgement takes one
    task at its end, if the line says there is one, and loses the oldest if it
    has reached the last stage. *)
Lemma queue_step b m n o0 o1 o2 o3 :
  0 < N -> 0 <= m <= n ->
  omap (fun o => o) [o3; o2; o1] = slots_after b m (n - m) ->
  (forall en, o0 = Some en -> en = (b + 1 + n) mod N) ->
  omap (fun o => o) [o2; o1; o0] = slots_after b (m + bit o3) (n + bit o0 - (m + bit o3)) /\
  m + bit o3 <= n /\ (forall en, o3 = Some en -> en = (b + 1 + m) mod N).
Proof.
  intros HN Hm Hq H0.
  assert (omap (fun o => o) [o3; o2; o1; o0] = slots_after b m (n + bit o0 - m)) as Hq'.
  { change [o3; o2; o1; o0] with ([o3; o2; o1] ++ [o0]). rewrite omap_app, Hq.
    destruct o0 as [en |]; cbn.
    - rewrite (H0 en eq_refl). replace (n + 1 - m) with (n - m + 1) by lia.
      rewrite slots_snoc by lia. by replace (m + (n - m)) with n by lia.
    - by rewrite app_nil_r, Z.add_0_r. }
  destruct o3 as [en |]; cbn [bit].
  - assert (0 < n - m) as Hlen.
    { apply (f_equal length) in Hq. unfold slots_after in Hq.
      rewrite length_map, length_seqZ in Hq. cbn in Hq. lia. }
    assert (0 < n + bit o0 - m) as Hlen' by (destruct o0; cbn; lia).
    rewrite slots_cons in Hq' by done. cbn in Hq'. injection Hq' as Hen Hq'.
    split_and!; [| lia | by intros ? [= <-]].
    cbn. rewrite Hq'. f_equal. lia.
  - split_and!; [| lia | done]. rewrite !Z.add_0_r. exact Hq'.
Qed.

(** The first stage: it fetches the next slot unless the line says there is
    none. *)
Lemma stage1_effect b fs ss m n o1 o2 o3 s :
  piped b fs ss m n o1 o2 o3 s ->
  let c := cycle s in
  exists s1 o0, stage1 s = Ok (tt, s1) /\ same_statics s s1 /\
    entry_is s1 (c mod 4) o0 /\
    (forall k o, 0 < k < 4 -> entry_is s ((c + k) mod 4) o -> entry_is s1 ((c + k) mod 4) o) /\
    out_back (tstate s1) = out_back (tstate s) /\ front (tstate s1) = new_front s /\
    flights_ok (events s1) /\
    (forall k, 0 < k < 4 -> quiet ((c + k) mod 4) (events s) -> quiet ((c + k) mod 4) (events s1)) /\
    fetches (events s1) = fs ++ map (task_ea B) (slots_after (b - 1) 0 (n + bit o0)) /\
    stores (events s1) = stores (events s) /\ in_back (tstate s1) = (b + (n + bit o0)) mod N /\
    (forall en, o0 = Some en -> en = (b + 1 + n) mod N) /\
    (o0 = None <-> new_front s = in_back (tstate s)) /\
    events s1 = (events s ++ poll) ++ fetched c o0.
Proof.
  intros [Hf Ha Hp H0 H1 H2 H3 Hl Hq2 Hq3 Hr Hqu Hin Hout Hfe Hst] c.
  pose proof (b_entries B HB) as HN.
  assert (0 <= in_back (tstate s) < N) as Hib by (rewrite Hin; apply Z.mod_pos_bound; lia).
  destruct (run_stage1 s Hf Ha Hl Hib H0)
    as (s1 & o0 & Hrun1 & Hs1 & He0 & Hoth1 & Hout1 & Hfr1 & Hcase).
  exists s1, o0. do 3 (split; [done |]). split.
  { intros k o Hk. apply entry_is_same, Hoth1; [apply Z.mod_pos_bound; lia |].
    by apply contexts_apart0. }
  do 2 (split; [done |]).
  assert (forall i, quiet i (events s) -> quiet i (events s ++ poll)) as Hqp.
  { intros i. apply quiet_same. by rewrite flights_poll. }
  destruct o0 as [en |]; cbn [bit].
  - destruct Hcase as (Hen & Hib1 & Hne & Hev). rewrite Hev, !fetches_app, !stores_app.
    split_and!.
    + eapply flights_ok_mfc; [apply Z.mod_pos_bound; lia | exact Hib | by apply flights_poll' | done].
    + intros k Hk Hq. apply quiet_mfc; [| by apply Hqp].
      apply not_eq_sym. by apply contexts_apart0.
    + rewrite Hfe, slots_snoc, map_app by lia. cbn. rewrite app_nil_r, Hin, <- app_assoc.
      do 4 f_equal. f_equal. lia.
    + cbn. by rewrite !app_nil_r.
    + rewrite Hib1, Hen, Hin, Zplus_mod_idemp_l. f_equal. lia.
    + intros ? [= <-]. rewrite Hen, Hin. apply succ_slot. lia.
    + by split.
    + unfold fetched. do 3 f_equal. rewrite Hen, Zminus_mod_idemp_l.
      rewrite <- (Z.mod_small (in_back (tstate s)) N) at 1 by done. do 2 f_equal. lia.
  - destruct Hcase as (Hib1 & Heq & Hev). rewrite Hev, !Z.add_0_r, fetches_app, stores_app.
    cbn. rewrite !app_nil_r. split_and!; try done; try by auto.
    + by apply flights_poll'.
    + by rewrite Hib1.
Qed.

(** The outcome of a cycle: it may fail, but not by touching a buffer in use. *)
Definition no_race (Q : spu -> Prop) (r : Prelude.res (unit * spu)) : Prop :=
  match r with Ok (_, s') => Q s' | Fault f => f <> DmaRace | OutOfFuel => False end.

(** The two stages in the middle only add to the log: nothing is fetched or
    acknowledged, and what was fetched for stage2 is there. *)
Lemma stages23_effect fuel indet o1 o2 s (rest : M spu unit) Q :
  flights_ok (events s) -> list_ptr (plist s) = Null ->
  entry_is s ((cycle s + 1) mod 4) o1 -> entry_is s ((cycle s + 2) mod 4) o2 ->
  (o2 <> None -> quiet ((cycle s + 2) mod 4) (events s)) ->
  (forall es es3, fetches es = [] -> stores es = [] -> flights_ok (events s ++ es) ->
     (forall i, quiet i (events s) -> quiet i (events s ++ es)) ->
     (o1 <> None -> quiet ((cycle s + 1) mod 4) (events s ++ es)) ->
     es = waited (cycle s) o1 ++ es3 ->
     executed (indet (additions (events s))) (cycle s) o2 (events s ++ waited (cycle s) o1) es3 ->
     no_race Q (rest (logged s es))) ->
  no_race Q ((stage2;; call_stage3 fuel indet;; rest) s).
Proof.
  intros Hl Hp H1 H2 Hq2 Hrest. pose proof (stage2_effect s o1 Hl Hp H1) as Hrun2.
  unfold no_race, mbind at 1, M_bind at 1.
  destruct (stage2 s) as [[[] s2] | |]; [| done..].
  set (es2 := waited (cycle s) o1) in *.
  destruct Hrun2 as (-> & Hfe2 & Hst2 & Hl2 & Hqk2 & Hqn2).
  set (s2 := logged s es2) in *.
  assert (additions (events s2) = additions (events s)) as Hadd.
  { cbn. unfold es2. by rewrite additions_app, additions_waited, Nat.add_0_r. }
  set (x := indet (additions (events s))) in *.
  assert (call_stage3 fuel indet s2 = stage3 fuel x s2) as Hcall.
  { unfold call_stage3. mstep. by rewrite Hadd. }
  pose proof (stage3_effect fuel x s2 o2 Hl2 Hp H2 (fun Ho => Hqk2 _ (Hq2 Ho))) as Hrun3.
  unfold mbind at 1, M_bind at 1. rewrite Hcall.
  destruct (stage3 fuel x s2) as [[[] s3] | |]; [| done..].
  destruct Hrun3 as (es3 & -> & Hfe3 & Hst3 & Hfl3 & Hpe3 & Hex3).
  assert (events (logged s2 es3) = events s ++ (es2 ++ es3)) as Hev.
  { cbn. by rewrite app_assoc. }
  rewrite Hev in Hfl3.
  assert (logged s2 es3 = logged s (es2 ++ es3)) as ->.
  { unfold s2, logged. cbn. unfold set_events. cbn. by rewrite app_assoc. }
  assert (forall i, quiet i (events s2) -> quiet i (events s ++ es2 ++ es3)) as Hqk3.
  { intros i. apply quiet_same. by rewrite Hfl3. }
  apply (Hrest _ es3).
  - by rewrite fetches_app, Hfe2.
  - by rewrite stores_app, Hst2.
  - rewrite app_assoc. apply flights_ok_grow; [done | by rewrite <- app_assoc, Hfl3 | done].
  - intros i Hq. by apply Hqk3, Hqk2.
  - intros Ho. by apply Hqk3, Hqn2.
  - done.
  - exact Hex3.
Qed.

(** The last stage: it acknowledges the oldest slot, if it has reached it. *)
Lemma stage4_effect b m o3 s :
  fifo s = b_fifo B -> flights_ok (events s) -> out_back (tstate s) = (b + m) mod N ->
  let c := cycle s in
  entry_is s ((c + 3) mod 4) o3 -> (forall en, o3 = Some en -> en = (b + 1 + m) mod N) ->
  let tail := ack_put c o3 in
  exists s', stage4 s = Ok (tt, s') /\ same_statics s s' /\
    entry_is s' ((c + 3) mod 4) None /\
    (forall k o, 0 <= k < 3 -> entry_is s ((c + k) mod 4) o -> entry_is s' ((c + k) mod 4) o) /\
    in_back (tstate s') = in_back (tstate s) /\ front (tstate s') = front (tstate s) /\
    out_back (tstate s') = (b + (m + bit o3)) mod N /\
    events s' = events s ++ tail /\ fetches tail = [] /\
    stores tail = map (ack_ea B) (slots_after b m (bit o3)) /\ flights_ok (events s') /\
    (forall k, 0 <= k < 3 -> quiet ((c + k) mod 4) (events s) ->
       quiet ((c + k) mod 4) (events s')).
Proof.
  intros Hf Hl Hout c H3 Hen tail. pose proof (b_entries B HB) as HN.
  destruct (run_stage4 s o3 Hf Hl) as (s4 & Hrun & Hs4 & He4 & Hoth4 & Hin4 & Hfr4 & Hcase).
  { rewrite Hout. apply Z.mod_pos_bound. lia. }
  { exact H3. }
  { intros en He. rewrite (Hen en He). apply Z.mod_pos_bound. lia. }
  fold c in He4, Hoth4, Hcase.
  assert (forall k o, 0 <= k < 3 -> entry_is s ((c + k) mod 4) o ->
    entry_is s4 ((c + k) mod 4) o) as Hk4.
  { intros k o Hk. apply entry_is_same, Hoth4; [apply Z.mod_pos_bound; lia |].
    apply contexts_apart; lia. }
  exists s4. destruct o3 as [en |]; cbn [bit].
  - destruct Hcase as [Hob Hev]. do 6 (split; [done |]). split; [| split; [exact Hev |]].
    { rewrite Hob, Hout, Zplus_mod_idemp_l. f_equal. lia. }
    rewrite Hev, slots_cons by lia. unfold tail, ack_put.
    rewrite (Hen en eq_refl). split_and!; [done | done | |].
    + apply (flights_ok_mfc Out _ _ _ _ _ ((b + 1 + m) mod N)); try done;
        apply Z.mod_pos_bound; lia.
    + intros k Hk. apply quiet_mfc, contexts_apart; lia.
  - subst s4. unfold tail, ack_put. rewrite app_nil_r. split_and!; try done.
    rewrite Hout. f_equal. lia.
Qed.

Definition cycle_log (indet c : Z) o0 o1 o2 o3 (l l' : list event) : Prop :=
  let l2 := ((l ++ poll) ++ fetched c o0) ++ waited c o1 in
  exists es, executed indet c o2 l2 es /\ l' = (l2 ++ es) ++ ack_put c o3.

Lemma run_stages fuel indet b fs ss m n o1 o2 o3 s :
  piped b fs ss m n o1 o2 o3 s ->
  no_race (fun s' => exists o0,
      piped b fs ss (m + bit o3) (n + bit o0) o0 o1 o2 s' /\
      front (tstate s') = new_front s /\ cycle s' = u32 (cycle s - 1) /\
      (o0 = None <-> new_front s = in_back (tstate s)) /\
      current_task s' = current_task s /\ current_state s' = current_state s /\
      cycle_log (indet (additions (events s))) (cycle s) o0 o1 o2 o3 (events s) (events s'))
    (stages fuel indet s).
Proof.
  intros HP. pose proof (b_entries B HB) as HN.
  destruct (stage1_effect _ _ _ _ _ _ _ _ _ HP) as (s1 & o0 & Hrun1 & Hs1 & He0 & Hk1 & Hout1 &
    Hfr1 & Hl1 & Hqt1 & Hfe1 & Hst1 & Hin1 & Hen0 & Hiff & Hev1).
  destruct HP as [Hf Ha Hp H0 H1 H2 H3 Hl Hq2 Hq3 Hr Hqu Hin Hout Hfe Hst].
  destruct (queue_step b m n o0 o1 o2 o3) as (Hqu' & Hm' & Hen3); [lia | done | done | done |].
  pose proof (ss_cycle _ _ Hs1) as Hc1. set (c := cycle s) in *.
  unfold stages. erewrite M_bind_ok by exact Hrun1.
  apply (stages23_effect fuel indet o1 o2); rewrite ?Hc1; [done | | by apply Hk1 | by apply Hk1 | |].
  { by rewrite (ss_plist _ _ Hs1). }
  { intros Ho. apply (Hqt1 2); [lia | by apply Hq2]. }
  intros es es3 Hfe2 Hst2 Hl2 Hqk Hqn Hes Hex.
  assert (additions (events s1) = additions (events s)) as Hadd.
  { by rewrite Hev1, !additions_app, additions_fetched, !Nat.add_0_r. }
  rewrite Hadd in Hex. set (s3 := logged s1 es).
  destruct (stage4_effect b m o3 s3) as (s4 & Hrun4 & Hs4 & He4 & Hk4 & Hin4 & Hfr4 &
    Hout4 & Hev4 & Hfe4 & Hst4 & Hl4 & Hqk4); try done.
  { change (fifo s3) with (fifo s1). by rewrite (ss_fifo _ _ Hs1). }
  { change (tstate s3) with (tstate s1). by rewrite Hout1. }
  { change (cycle s3) with (cycle s1). rewrite Hc1. by apply (Hk1 3 o3 ltac:(lia)). }
  change (cycle s3) with (cycle s1) in *. rewrite Hc1 in *.
  erewrite M_bind_ok by exact Hrun4. rewrite run_modify. set (s' := set_cycle _ s4).
  assert (same_statics s s4) as [Hc4 Hf4 Ha4 Ht4 Hs4' Hp4].
  { eapply same_statics_trans; [exact Hs1 |]. by destruct Hs4. }
  assert (cycle s' = u32 (c - 1)) as Hcyc by (cbn; by rewrite Hc4).
  change (no_race ?Q (Ok (tt, s'))) with (Q s'). cbv beta.
  exists o0. split; [| split_and!; try done; try by etrans]; cycle 1.
  { exists es3. rewrite <- Hev1. split; [done |]. change (events s') with (events s4).
    rewrite Hev4. cbn [s3 events logged set_events]. by rewrite Hes, app_assoc. }
  split; try rewrite Hcyc; try rewrite shift_context; try (by etrans).
  - change (plist s') with (plist s4). by rewrite Hp4.
  - rewrite <- (Z.add_0_r (u32 (c - 1))), shift_context.
    replace ((c + (0 - 1)) mod 4) with ((c + 3) mod 4); [exact He4 |].
    replace (c + 3) with (c + (0 - 1) + 1 * 4) by lia. apply Z.mod_add. lia.
  - apply (Hk4 0); [lia |]. by rewrite Z.add_0_r.
  - apply (Hk4 1); [lia |]. by apply Hk1.
  - apply (Hk4 2); [lia |]. by apply Hk1.
  - exact Hl4.
  - intros Ho. apply (Hqk4 1); [lia |]. by apply Hqn.
  - intros Ho. apply (Hqk4 2); [lia |]. apply Hqk, (Hqt1 2); [lia |]. by apply Hq2.
  - destruct o0, o3; cbn in *; lia.
  - change (events s') with (events s4). rewrite Hev4, fetches_app, Hfe4, app_nil_r.
    unfold s3. cbn [events logged set_events]. by rewrite fetches_app, Hfe2, app_nil_r.
  - change (events s') with (events s4). rewrite Hev4, stores_app, Hst4.
    unfold s3. cbn [events logged set_events]. rewrite stores_app, Hst2, app_nil_r.
    rewrite Hst1, Hst, <- app_assoc, <- map_app. do 2 f_equal.
    unfold slots_after. rewrite <- map_app. f_equal. by rewrite seqZ_app by (destruct o3; cbn; lia).
Qed.

(** *** The loop *)

Lemma piped_loop fuel indet b fs ss k : forall m n o1 o2 o3 s,
  piped b fs ss m n o1 o2 o3 s ->
  match loop k (pipeline_round fuel indet) s with
  | Ok (_, s') => exists m' n' o1' o2' o3', piped b fs ss m' n' o1' o2' o3' s' /\
      m <= m' /\ n <= n' /\ front (tstate s') = out_back (tstate s')
  | Fault f => f <> DmaRace
  | OutOfFuel => True
  end.
Proof.
  induction k as [| k IH]; intros m n o1 o2 o3 s HP; cbn [loop]; [done |].
  pose proof (run_stages fuel indet _ _ _ _ _ _ _ _ _ HP) as Hrun.
  unfold pipeline_round. unfold mbind at 1, M_bind at 1.
  destruct (stages fuel indet s) as [[[] s1] | |]; [| done..].
  destruct Hrun as (o0 & HP1 & _). mstep. rewrite run_ret.
  destruct (Z.eqb_spec (front (tstate s1)) (out_back (tstate s1))) as [Heq |]; cbn [negb].
  - exists (m + bit o3), (n + bit o0), o0, o1, o2. split_and!; try done; destruct o0, o3; cbn; lia.
  - specialize (IH _ _ _ _ _ s1 HP1). destruct (loop k _ s1) as [[u s2] | |]; [| done..].
    destruct IH as (m' & n' & p1 & p2 & p3 & HP2 & ? & ? & ?).
    exists m', n', p1, p2, p3. split_and!; try done; destruct o0, o3; cbn in *; lia.
Qed.

Lemma piped_depth b fs ss m n o1 o2 o3 s :
  piped b fs ss m n o1 o2 o3 s -> n - m = bit o1 + bit o2 + bit o3.
Proof.
  intros HP. pose proof (pi_range _ _ _ _ _ _ _ _ _ HP). pose proof (pi_queue _ _ _ _ _ _ _ _ _ HP) as Hq.
  apply (f_equal length) in Hq. unfold slots_after in Hq.
  rewrite length_map, length_seqZ in Hq. destruct o1, o2, o3; cbn in *; lia.
Qed.
End pipeline.
