(* ===== verification/TaskLoop.v ===== *)
(** The pipeline of the SPE program when local store is a memory: what was
    fetched is what is read, so that the tasks of a run are those of main memory,
    and the loop ends when the line of the host stands still. *)
From stdpp Require Import base list gmap.
From Stdlib Require Import ZArith Lia.
From S2P Require Import Prelude.
From S2P Require Import Messages.
From S2P Require Import LinkedList.
From S2P Require Import Dma.
From S2P Require Import TaskManager.
From S2P Require Import TaskPipeline.

(** * What the buffers hold *)

(** The address the buffer at [a] was last filled from. *)
Definition fill (a : Z) (h : option Z) (e : event) : option Z :=
  match e with mfc In _ ls ea _ _ => if ls =? a then Some ea else h | _ => h end.
Definition filled (a : Z) (l : list event) : option Z := fold_left (fill a) l None.
(** The word last stored in the acknowledgement at [a]. *)
Definition put_result (a : Z) (h : option Z) (e : event) : option Z :=
  match e with ls_store b _ v => if b =? a then Some v else h | _ => h end.
Definition result (a : Z) (l : list event) : option Z := fold_left (put_result a) l None.

(** The acknowledgements sent, each with the word last stored in it. *)
Definition send (st : list event * list (Z * option Z)) (e : event) :=
  let '(l, out) := st in
  (l ++ [e], match e with mfc Out _ ls ea _ _ => out ++ [(ea, result ls l)] | _ => out end).
Definition sent (l : list event) : list (Z * option Z) := (fold_left send l ([], [])).2.

(** The task in the words [w]: the addition of stage3. *)
Definition task_result (w : Z -> Z) (indet : Z) : res Z :=
  add_loop (Z.to_nat (s32 (w 2))) 0 (s32 (w 3)) (s32 (w 4)) indet.

(** A task the program can execute: an addition that does not overflow. *)
Definition good (indet : Z) (w : Z -> Z) : Prop :=
  s32 (w 0) = s32 ADD /\ exists r, task_result w indet = Ok r.

Section memory.
Context `{Mfc} (B : buffers) (HB : buffers_ok B).
Implicit Types (s : spu) (o : option Z) (l : list event).

Local Abbreviation N := (max_entries (b_desc B)).

(** The events since the run of the pipeline began. *)
Definition run_of l : list event := drop (length (b_start B)) l.
Definition holds_slot l (i : Z) : option Z := filled (b_task B i) (run_of l).
Definition holds_result l (i : Z) : option Z := result (b_ack B i) (run_of l).

Lemma run_of_app l es : grown B l -> run_of (l ++ es) = run_of l ++ es.
Proof.
  intros (es0 & -> & _). unfold run_of.
  by rewrite <- app_assoc, !drop_app_length.
Qed.

(** DMA copies: a buffer filled in this run from one of the slots [stable] holds
    its words in main memory, which are [main]. *)
Definition copies (stable : Z -> Prop) (main : Z -> Z -> Z) : Prop := forall l i j k,
  grown B l -> 0 <= i < 4 -> 0 <= k < 32 -> stable j ->
  holds_slot l i = Some (task_ea B j) ->
  u32 (ls_word l (b_task B i) k) = u32 (main (task_ea B j) k).

(** Slot [j] is one of them, and its task an addition that does not overflow. *)
Definition is_addition (stable : Z -> Prop) (main : Z -> Z -> Z) (indet j : Z) : Prop :=
  stable j /\ s32 (main (task_ea B j) 0) = s32 ADD /\
  exists r, task_result (main (task_ea B j)) indet = Ok r.

(** The line of the host says slot [F] whenever it is polled. *)
Definition line_says (F : Z) : Prop := forall l, grown B l ->
  poll_active B (l ++ poll B) = true /\ polled B (l ++ poll B) = F.

(** ** The state of the buffers after a cycle *)

(** What stage3 stores for the task in slot [j]. *)
Definition outcome (main : Z -> Z -> Z) (indet j : Z) : option Z :=
  match task_result (main (task_ea B j)) indet with Ok r => Some (u32 r) | _ => None end.

(** What [res] holds in the addition number [j] of this run. *)
Definition res_at (indet : nat -> Z) (j : Z) : Z :=
  indet (additions (b_start B) + Z.to_nat j)%nat.

(** The contexts on their way to stage2 and stage3 hold the slots before theirs,
    the one on its way to stage4 the result; the results of the first [m] slots
    after [b] have been sent. *)
Record holding (main : Z -> Z -> Z) (indet : nat -> Z) (b m : Z) o1 o2 o3 s : Prop := {
  ho_1 en : o1 = Some en ->
    holds_slot (events s) ((cycle s + 1) mod 4) = Some (task_ea B ((en - 1) mod N));
  ho_2 en : o2 = Some en ->
    holds_slot (events s) ((cycle s + 2) mod 4) = Some (task_ea B ((en - 1) mod N));
  ho_3 en : o3 = Some en ->
    holds_result (events s) ((cycle s + 3) mod 4) =
      outcome main (res_at indet m) ((en - 1) mod N);
  ho_additions :
    additions (events s) = (additions (b_start B) + Z.to_nat (m + bit o3))%nat;
  ho_sent : sent (run_of (events s)) =
    map (fun j => (ack_ea B ((b + 1 + j) mod N), outcome main (res_at indet j) ((b + j) mod N))) (seqZ 0 m) }.

Lemma holds_slot_app l es i :
  grown B l -> holds_slot (l ++ es) i = fold_left (fill (b_task B i)) es (holds_slot l i).
Proof. intros Hl. unfold holds_slot, filled. by rewrite run_of_app, fold_left_app. Qed.
Lemma holds_result_app l es i :
  grown B l -> holds_result (l ++ es) i = fold_left (put_result (b_ack B i)) es (holds_result l i).
Proof. intros Hl. unfold holds_result, result. by rewrite run_of_app, fold_left_app. Qed.

Lemma send_fst l : (fold_left send l ([], [])).1 = l.
Proof.
  induction l as [| e l IH] using rev_ind; [done |].
  rewrite fold_left_app. cbn. destruct (fold_left send l _) as [l' out]. cbn in *. by subst.
Qed.
Lemma sent_snoc l e :
  sent (l ++ [e]) =
  match e with mfc Out _ ls ea _ _ => sent l ++ [(ea, result ls l)] | _ => sent l end.
Proof.
  unfold sent. rewrite fold_left_app. pose proof (send_fst l) as Hl.
  destruct (fold_left send l _) as [l' out]. cbn in *. subst l'. by destruct e as [[] | | | | | | | | | | | | | | | | | | | |].
Qed.
Lemma sent_quiet l es :
  Forall (fun e => match e with mfc Out _ _ _ _ _ => False | _ => True end) es ->
  sent (l ++ es) = sent l.
Proof.
  induction es as [| e es IH] using rev_ind; intros Hes; [by rewrite app_nil_r |].
  apply Forall_app in Hes as [Hes [He _]%Forall_cons]. rewrite app_assoc, sent_snoc, <- IH by done.
  by destruct e as [[] | | | | | | | | | | | | | | | | | | | |].
Qed.

(** What the stages read is what main memory holds. *)
Lemma reads_main stable main l i j indet :
  copies stable main -> grown B l -> 0 <= i < 4 -> stable j -> holds_slot l i = Some (task_ea B j) ->
  command B l i = s32 (main (task_ea B j) 0) /\
  added B l i indet = task_result (main (task_ea B j)) indet.
Proof.
  intros Hm Hl Hi Hj Hh.
  assert (forall k, 0 <= k < 32 -> s32 (ls_word l (b_task B i) k) = s32 (main (task_ea B j) k)) as Hw.
  { intros k Hk. rewrite <- s32_u32, (Hm l i j k Hl Hi Hk Hj Hh). apply s32_u32. }
  unfold command, added, task_result. by rewrite !Hw by lia.
Qed.

(** ** One cycle *)

(** What a cycle appends, but for the acknowledgement. *)
Lemma cycle_before indet c o0 o1 o2 o3 l l' :
  cycle_log B indet c o0 o1 o2 o3 l l' -> exists es, 
    executed B indet c o2 (l ++ (poll B ++ fetched B c o0) ++ waited c o1) es /\
    l' = (l ++ ((poll B ++ fetched B c o0) ++ waited c o1) ++ es) ++ ack_put B c o3.
Proof.
  intros (es & Hex & ->). exists es. rewrite <- !app_assoc in *. done.
Qed.

Lemma before_grown c o0 o1 l :
  grown B l -> grown B (l ++ (poll B ++ fetched B c o0) ++ waited c o1).
Proof.
  intros Hl. pose proof (b_entries B HB). apply grown_app; [done |].
  rewrite !Forall_app. split_and!.
  - by repeat constructor.
  - destruct o0 as [en |]; [| done]. apply Forall_singleton.
    split_and!; [by apply Z.mod_pos_bound | by apply Z.mod_pos_bound | done | done |].
    eexists. split; [| done]. apply Z.mod_pos_bound. lia.
  - destruct o1 as [en |]; [| done]. by repeat constructor.
Qed.

Lemma before_slot c o0 o1 l j :
  grown B l -> 0 < j < 4 ->
  holds_slot (l ++ (poll B ++ fetched B c o0) ++ waited c o1) ((c + j) mod 4) =
  holds_slot l ((c + j) mod 4).
Proof.
  intros Hl Hj. rewrite holds_slot_app, !fold_left_app by done.
  destruct o0 as [e0 |]; cbn; [| by destruct o1].
  rewrite (proj2 (Z.eqb_neq _ _)); [by destruct o1 |]. intros Heq.
  apply (b_task_inj B HB) in Heq; [| by apply Z.mod_pos_bound | by apply Z.mod_pos_bound].
  revert Heq. apply not_eq_sym, contexts_apart0. lia.
Qed.

Lemma executed_store indet c o2 l es :
  executed B indet c o2 l es ->
  es = [] \/ exists r, es = [ls_store (b_ack B ((c + 2) mod 4)) 1 (u32 r)] /\
    added B l ((c + 2) mod 4) indet = Ok r.
Proof.
  destruct o2; cbn; [intros [[-> _] | (r & _ & Hr & ->)] | intros ->]; eauto.
Qed.

Lemma cycle_slots indet c o0 o1 o2 o3 l l' i :
  cycle_log B indet c o0 o1 o2 o3 l l' -> grown B l -> 0 <= i < 4 ->
  holds_slot l' i =
  match o0 with
  | Some en => if i =? c mod 4 then Some (task_ea B ((en - 1) mod N)) else holds_slot l i
  | None => holds_slot l i
  end.
Proof.
  intros Hc Hl Hi. apply cycle_before in Hc as (es & Hex & ->).
  rewrite <- app_assoc, holds_slot_app by done. rewrite !fold_left_app.
  assert (fold_left (fill (b_task B i)) (fetched B c o0) (holds_slot l i) =
    match o0 with
    | Some en => if i =? c mod 4 then Some (task_ea B ((en - 1) mod N)) else holds_slot l i
    | None => holds_slot l i
    end) as Hf.
  { destruct o0 as [en |]; [| done]. cbn.
    destruct (Z.eqb_spec i (c mod 4)) as [-> | Hne]; [by rewrite Z.eqb_refl |].
    rewrite (proj2 (Z.eqb_neq _ _)); [done |]. intros Heq.
    apply (b_task_inj B HB) in Heq; [done | by apply Z.mod_pos_bound | done]. }
  change (fold_left (fill (b_task B i)) (poll B) (holds_slot l i)) with (holds_slot l i).
  rewrite Hf. apply executed_store in Hex as [-> | (r & -> & _)]; by destruct o1, o3.
Qed.

Lemma before_results c o0 o1 es l i :
  grown B l ->
  holds_result (l ++ ((poll B ++ fetched B c o0) ++ waited c o1) ++ es) i =
  fold_left (put_result (b_ack B i)) es (holds_result l i).
Proof.
  intros Hl. rewrite holds_result_app by done. rewrite !fold_left_app. by destruct o0, o1.
Qed.

(** A result is stored in the third context only, so that the one that is sent,
    of the fourth, is that of an earlier cycle. *)
Lemma stored_elsewhere indet c o2 l es h i :
  executed B indet c o2 l es -> 0 <= i < 4 -> i <> (c + 2) mod 4 ->
  fold_left (put_result (b_ack B i)) es h = h.
Proof.
  intros Hex Hi Hne. apply executed_store in Hex as [-> | (r & -> & _)]; [done |]. cbn.
  rewrite (proj2 (Z.eqb_neq _ _)); [done |]. intros Heq.
  apply (b_ack_inj B HB) in Heq; [done | by apply Z.mod_pos_bound | done].
Qed.

Lemma cycle_sent indet c o0 o1 o2 o3 l l' :
  cycle_log B indet c o0 o1 o2 o3 l l' -> grown B l ->
  sent (run_of l') = sent (run_of l) ++
    match o3 with
    | Some en => [(ack_ea B en, holds_result l ((c + 3) mod 4))]
    | None => []
    end.
Proof.
  intros Hc Hl. apply cycle_before in Hc as (es & Hex & ->).
  rewrite <- app_assoc, run_of_app, app_assoc by done.
  set (es1 := ((poll B ++ fetched B c o0) ++ waited c o1) ++ es).
  assert (sent (run_of l ++ es1) = sent (run_of l)) as Hq.
  { apply sent_quiet. unfold es1. rewrite !Forall_app.
    apply executed_store in Hex as [-> | (r & -> & _)]; destruct o0, o1; by repeat constructor. }
  destruct o3 as [en |]; cbn [ack_put]; [| by rewrite !app_nil_r, Hq].
  rewrite sent_snoc, Hq. do 3 f_equal. rewrite <- run_of_app by done.
  change (result _ (run_of ?x)) with (holds_result x ((c + 3) mod 4)).
  unfold es1. rewrite before_results by done.
  eapply stored_elsewhere; [exact Hex | by apply Z.mod_pos_bound |].
  apply contexts_apart; lia.
Qed.

(** The contexts of the next cycle. *)
Lemma holding_step stable main indet b fs ss m n o0 o1 o2 o3 s s' :
  copies stable main -> piped B b fs ss m n o1 o2 o3 s -> holding main indet b m o1 o2 o3 s ->
  let x := indet (additions (events s)) in
  cycle_log B x (cycle s) o0 o1 o2 o3 (events s) (events s') ->
  cycle s' = u32 (cycle s - 1) ->
  (forall en, o2 = Some en -> is_addition stable main x ((en - 1) mod N)) ->
  (forall en, o3 = Some en -> en = (b + 1 + m) mod N) ->
  holding main indet b (m + bit o3) o0 o1 o2 s'.
Proof.
  intros Hm HP [H1 H2 H3 Hn Hs] x Hlog Hcyc Hadd Hen3. pose proof (b_entries B HB) as HN.
  pose proof (fo_grown _ _ (pi_flights _ _ _ _ _ _ _ _ _ _ HP)) as Hl.
  pose proof (pi_range _ _ _ _ _ _ _ _ _ _ HP) as Hr.
  set (c := cycle s) in *. assert (forall k, 0 <= (c + k) mod 4 < 4) as Hk.
  { intros k. by apply Z.mod_pos_bound. }
  split; rewrite ?Hcyc, ?shift_context; change (1 - 1) with 0; change (2 - 1) with 1;
    change (3 - 1) with 2.
  - intros en ->. rewrite (cycle_slots _ _ _ _ _ _ _ _ _ Hlog Hl (Hk _)).
    rewrite Z.add_0_r. by rewrite Z.eqb_refl.
  - intros en Ho. rewrite (cycle_slots _ _ _ _ _ _ _ _ _ Hlog Hl (Hk _)).
    rewrite (proj2 (Z.eqb_neq _ _)) by (apply contexts_apart0; lia).
    rewrite (H1 en Ho). by destruct o0.
  - intros en Ho. apply cycle_before in Hlog as (es & Hex & ->).
    pose proof (before_grown c o0 o1 _ Hl) as Hg.
    destruct (Hadd en Ho) as (Hst & Hcmd & r & Hr').
    pose proof (before_slot c o0 o1 _ 2 Hl ltac:(lia)) as Hslot. rewrite (H2 en Ho) in Hslot.
    destruct (reads_main stable main _ _ _ x Hm Hg (Hk 2) Hst Hslot) as [Hc' Ha'].
    rewrite Ho in Hex. destruct Hex as [[_ Hne] | (r' & _ & Hr2 & ->)].
    { destruct Hne. by rewrite Hc'. }
    rewrite Ha', Hr' in Hr2. injection Hr2 as <-. unfold outcome, res_at. rewrite <- Hn. fold x.
    rewrite Hr'.
    rewrite <- app_assoc, holds_result_app, !fold_left_app by done.
    cbn [fold_left put_result]. rewrite Z.eqb_refl. by destruct o3.
  - apply cycle_before in Hlog as (es & Hex & ->).
    assert (additions es = Z.to_nat (bit o2)) as He.
    { destruct o2 as [en |]; cbn [executed bit] in *; [| by rewrite Hex].
      destruct Hex as [[_ Hne] | (r & _ & _ & ->)]; [| done].
      destruct (Hadd en eq_refl) as (Hst & Hcmd & _). destruct Hne.
      pose proof (before_slot c o0 o1 _ 2 Hl ltac:(lia)) as Hslot.
      rewrite (H2 en eq_refl) in Hslot. pose proof (before_grown c o0 o1 _ Hl) as Hg.
      by destruct (reads_main stable main _ _ _ x Hm Hg (Hk 2) Hst Hslot) as [-> _]. }
    rewrite !additions_app, additions_fetched, additions_waited, additions_ack, He, Hn.
    cbn. destruct o2, o3; cbn; lia.
  - rewrite (cycle_sent _ _ _ _ _ _ _ _ Hlog Hl), Hs.
    destruct o3 as [en |]; cbn [bit]; [| by rewrite app_nil_r, Z.add_0_r].
    rewrite (H3 en eq_refl), (Hen3 en eq_refl). rewrite seqZ_app, map_app by lia. cbn.
    rewrite Zminus_mod_idemp_l. by replace (b + 1 + m - 1) with (b + m) by lia.
Qed.

(** An entry of the queue is the slot after one of those on their way. *)
Lemma piped_slot b fs ss m n o1 o2 o3 s en :
  piped B b fs ss m n o1 o2 o3 s -> Some en ∈ [o3; o2; o1] ->
  exists j, m <= j < n /\ en = (b + 1 + j) mod N /\ (en - 1) mod N = (b + j) mod N.
Proof.
  intros HP Hen. pose proof (pi_queue _ _ _ _ _ _ _ _ _ _ HP) as Hq.
  assert (en ∈ slots_after B b m (n - m)) as Hin.
  { rewrite <- Hq. apply list_elem_of_omap. by exists (Some en). }
  apply list_elem_of_In, in_map_iff in Hin as (j & <- & Hj%list_elem_of_In).
  apply elem_of_seqZ in Hj. exists j. split_and!; [lia | lia | done |].
  rewrite Zminus_mod_idemp_l. f_equal. lia.
Qed.

(** The number of the task stage3 looks at. *)
Lemma piped_third b fs ss m n o1 o2 o3 s en :
  piped B b fs ss m n o1 o2 o3 s -> o2 = Some en ->
  m + bit o3 < n /\ (en - 1) mod N = (b + (m + bit o3)) mod N.
Proof.
  intros HP ->. pose proof (pi_queue _ _ _ _ _ _ _ _ _ _ HP) as Hq.
  pose proof (piped_depth B _ _ _ _ _ _ _ _ _ HP) as Hd. split.
  { destruct o1, o3; cbn in *; lia. }
  assert (0 < n - m) by (destruct o1, o3; cbn in Hd; lia).
  rewrite slots_cons in Hq by done. destruct o3 as [e3 |]; cbn [omap list_omap bit] in *.
  - rewrite slots_cons in Hq by (destruct o1; cbn in Hd; lia).
    injection Hq as _ -> _. rewrite Zminus_mod_idemp_l. f_equal. lia.
  - injection Hq as -> _. rewrite Zminus_mod_idemp_l. f_equal. lia.
Qed.

(** ** Additions return *)

Lemma stage2_returns s o :
  flights_ok B (events s) -> list_ptr (plist s) = Null ->
  entry_is B s ((cycle s + 1) mod 4) o ->
  (o <> None -> command B (events s ++ waited (cycle s) o) ((cycle s + 1) mod 4) = s32 ADD) ->
  stage2 s = Ok (tt, logged s (waited (cycle s) o)).
Proof.
  intros Hl Hp He Hc. pose proof (run_stage2 B HB s o Hl Hp He) as Hrun.
  destruct o as [en |]; cbn [waited] in *; [| by rewrite logged_nil].
  cbv zeta in Hrun. cbn [events logged set_events] in Hrun. by rewrite Hc in Hrun.
Qed.

Lemma stage3_returns fuel indet s o :
  flights_ok B (events s) -> list_ptr (plist s) = Null ->
  entry_is B s ((cycle s + 2) mod 4) o -> (o <> None -> quiet ((cycle s + 2) mod 4) (events s)) ->
  (o <> None -> command B (events s) ((cycle s + 2) mod 4) = s32 ADD /\
     exists r, added B (events s) ((cycle s + 2) mod 4) indet = Ok r) ->
  exists es, stage3 fuel indet s = Ok (tt, logged s es) /\ flights_ok B (events s ++ es).
Proof.
  intros Hl Hp He Hq Hc. pose proof (run_stage3 B HB fuel indet s o Hl Hp He Hq) as Hrun.
  pose proof (stage3_effect B HB fuel indet s o Hl Hp He Hq) as Heff.
  assert (exists s', stage3 fuel indet s = Ok (tt, s')) as [s' Hs'].
  { destruct o as [en |]; [| by eauto]. destruct Hc as [Hc [r Hr]]; [done |].
    rewrite Hc, Z.eqb_refl, Hr in Hrun. by eauto. }
  rewrite Hs' in *. destruct Heff as (es & -> & _ & _ & Hfl & Hes & _).
  exists es. split; [done |]. apply flights_ok_grow; [done | | done].
  exact (f_equal snd Hfl).
Qed.

(** They fail when the task stage2 looks at is not an addition. *)
Lemma stages_fault fuel indet b fs ss m n e1 o2 o3 s :
  let c := cycle s in
  piped B b fs ss m n (Some e1) o2 o3 s ->
  (forall o0, (o0 = None <-> new_front B s = in_back (tstate s)) ->
     (forall en, o0 = Some en -> en = (b + 1 + n) mod N) ->
     command B (((events s ++ poll B) ++ fetched B c o0) ++ waited c (Some e1)) ((c + 1) mod 4)
       <> s32 ADD) ->
  exists f, stages fuel indet s = Fault f /\
    (f = NullDeref \/ f = SignedOverflow \/ f = OutOfBounds).
Proof.
  intros c HP Hread.
  destruct (stage1_effect B HB _ _ _ _ _ _ _ _ _ HP) as (s1 & o0 & Hrun1 & Hs1 & _ & Hk1 & _ &
    _ & Hl1 & _ & _ & _ & _ & Hen0 & Hiff & Hev1).
  specialize (Hread o0 Hiff Hen0). fold c in Hev1. rewrite <- Hev1 in Hread.
  pose proof (ss_cycle _ _ Hs1) as Hc1. fold c in Hc1.
  assert (list_ptr (plist s1) = Null) as Hp1 by (rewrite (ss_plist _ _ Hs1); apply HP).
  pose proof (run_stage2 B HB s1 (Some e1) Hl1 Hp1) as Hrun2. cbv zeta in Hrun2. rewrite Hc1 in Hrun2.
  specialize (Hrun2 (Hk1 1 _ ltac:(lia) (pi_1 _ _ _ _ _ _ _ _ _ _ HP))).
  cbn [events logged set_events waited] in *. rewrite (proj2 (Z.eqb_neq _ _) Hread) in Hrun2.
  unfold stages. erewrite M_bind_ok by exact Hrun1.
  destruct (_ =? s32 REGISTER_PROGRAM).
  - destruct Hrun2 as (f & Hf & Hor). exists f. split; [by apply M_bind_fault | done].
  - exists NullDeref. split; [by apply M_bind_fault | by left].
Qed.

(** The stages return when the tasks they read are additions without overflow. *)
Lemma stages_return fuel indet b fs ss m n o1 o2 o3 s :
  let c := cycle s in
  piped B b fs ss m n o1 o2 o3 s ->
  (forall o0, (o0 = None <-> new_front B s = in_back (tstate s)) ->
     (forall en, o0 = Some en -> en = (b + 1 + n) mod N) ->
     let l := ((events s ++ poll B) ++ fetched B c o0) ++ waited c o1 in
     (o1 <> None -> command B l ((c + 1) mod 4) = s32 ADD) /\
     (o2 <> None -> command B l ((c + 2) mod 4) = s32 ADD /\
        exists r, added B l ((c + 2) mod 4) (indet (additions (events s))) = Ok r)) ->
  exists s', stages fuel indet s = Ok (tt, s').
Proof.
  intros c HP Hread.
  destruct (stage1_effect B HB _ _ _ _ _ _ _ _ _ HP) as (s1 & o0 & Hrun1 & Hs1 & He0 & Hk1 & Hout1 &
    Hfr1 & Hl1 & Hqt1 & _ & _ & _ & Hen0 & Hiff & Hev1).
  destruct (queue_step B b m n None o1 o2 o3) as (_ & _ & Hen3);
    [apply (b_entries B HB) | apply HP | apply HP | done |].
  specialize (Hread o0 Hiff Hen0). cbv zeta in Hread. fold c in Hev1. rewrite <- Hev1 in Hread. destruct Hread as [Hread1 Hread2].
  destruct HP as [Hf Ha Hp H0 H1 H2 H3 Hl Hq2 Hq3 Hr Hqu Hin Hout Hfe Hst].
  pose proof (ss_cycle _ _ Hs1) as Hc1. fold c in Hc1.
  assert (list_ptr (plist s1) = Null) as Hp1 by (by rewrite (ss_plist _ _ Hs1)).
  unfold stages. erewrite M_bind_ok by exact Hrun1.
  erewrite M_bind_ok; cycle 1.
  { apply (stage2_returns _ o1); rewrite ?Hc1; try done. by apply Hk1. }
  rewrite Hc1. set (s2 := logged s1 (waited c o1)).
  assert (flights_ok B (events s2) /\ (forall i, quiet i (events s1) -> quiet i (events s2))) as [Hl2 Hqk2].
  { destruct o1; [| unfold s2; by rewrite logged_nil].
    assert (0 <= (c + 1) mod 4 < 4) by (by apply Z.mod_pos_bound).
    split; [by apply wait_ok | intros i; by apply (wait_keeps_quiet B)]. }
  set (x := indet (additions (events s))) in *.
  assert (call_stage3 fuel indet s2 = stage3 fuel x s2) as Hcall.
  { unfold call_stage3, x. mstep. unfold s2. cbn [events logged set_events].
    by rewrite Hev1, !additions_app, additions_fetched, additions_waited, !Nat.add_0_r. }
  destruct (stage3_returns fuel x s2 o2 Hl2) as (es & Hrun3 & Hl3);
    change (cycle s2) with (cycle s1); rewrite ?Hc1; try done.
  { by apply (Hk1 2). }
  { intros Ho. apply Hqk2, (Hqt1 2); [lia | by apply Hq2]. }
  erewrite M_bind_ok by (rewrite Hcall; exact Hrun3). set (s3 := logged s2 es).
  destruct (stage4_effect B HB b m o3 s3) as (s4 & Hrun4 & _); try done.
  { change (fifo s3) with (fifo s1). by rewrite (ss_fifo _ _ Hs1). }
  { change (tstate s3) with (tstate s1). by rewrite Hout1. }
  { change (cycle s3) with (cycle s1). rewrite Hc1. by apply (Hk1 3 o3 ltac:(lia)). }
  erewrite M_bind_ok by exact Hrun4. by eexists.
Qed.

Lemma stages_returns stable main fuel indet b fs ss m n o1 o2 o3 s :
  copies stable main -> piped B b fs ss m n o1 o2 o3 s -> holding main indet b m o1 o2 o3 s ->
  (forall j, m <= j < n -> is_addition stable main (res_at indet j) ((b + j) mod N)) ->
  exists s', stages fuel indet s = Ok (tt, s').
Proof.
  intros Hm HP Hh Hadd. eapply stages_return; [exact HP |]. intros o0 _ _.
  pose proof (fo_grown _ _ (pi_flights _ _ _ _ _ _ _ _ _ _ HP)) as Hl.
  assert (forall j en x, 0 < j < 4 -> is_addition stable main x ((en - 1) mod N) ->
    holds_slot (events s) ((cycle s + j) mod 4) = Some (task_ea B ((en - 1) mod N)) ->
    let l := ((events s ++ poll B) ++ fetched B (cycle s) o0) ++ waited (cycle s) o1 in
    command B l ((cycle s + j) mod 4) = s32 ADD /\
    exists r, added B l ((cycle s + j) mod 4) x = Ok r) as Hread.
  { intros j en x Hj [Hstab ?] Hs. rewrite <- !app_assoc, (app_assoc (poll B)). cbv zeta.
    rewrite <- (before_slot (cycle s) o0 o1 _ j Hl Hj) in Hs.
    by destruct (reads_main stable main _ _ _ x Hm (before_grown _ _ _ _ Hl)
      ltac:(by apply Z.mod_pos_bound) Hstab Hs) as [-> ->]. }
  split; intros Ho.
  - destruct o1 as [en |]; [| done]. destruct (piped_slot b fs ss m n (Some en) o2 o3 s en HP)
      as (j & Hj & _ & Hslot); [apply list_elem_of_In; cbn; by auto |].
    apply (Hread 1 en (res_at indet j)); [lia | rewrite Hslot; by apply Hadd |].
    by apply (ho_1 _ _ _ _ _ _ _ _ Hh).
  - destruct o2 as [en |]; [| done]. destruct (piped_third _ _ _ _ _ _ _ _ _ _ HP eq_refl) as [Hlt Hslot].
    rewrite (ho_additions _ _ _ _ _ _ _ _ Hh).
    apply (Hread 2 en); [lia | rewrite Hslot; apply Hadd |].
    { pose proof (pi_range _ _ _ _ _ _ _ _ _ _ HP). destruct o3; cbn in *; lia. }
    by apply (ho_2 _ _ _ _ _ _ _ _ Hh).
Qed.

(** ** The loop *)

(** Work left: the slots not fetched and the contexts not acknowledged. *)
Definition work (left : Z) o1 o2 o3 : Z := 4 * left + 3 * bit o1 + 2 * bit o2 + bit o3.

Lemma slots_distinct b d i j :
  0 <= d < N -> 0 <= i <= d -> 0 <= j <= d -> (b + i) mod N = (b + j) mod N -> i = j.
Proof.
  intros Hd Hi Hj Heq. assert ((i - j) mod N = 0) as Hz.
  { replace (i - j) with ((b + i) - (b + j)) by lia.
    rewrite Zminus_mod, Heq, Z.sub_diag. apply Z.mod_0_l. lia. }
  apply Z.mod_divide in Hz as [q Hq]; [| lia].
  assert (q < 1) by nia. assert (-1 < q) by nia. assert (q = 0) as -> by lia. lia.
Qed.

(** What is left to fetch decreases, unless all [d] slots have been fetched. *)
Lemma fetch_progress b d n o0 nf ib :
  0 <= d < N -> 0 <= n <= d -> nf = (b + d) mod N -> ib = (b + n) mod N ->
  (o0 = None <-> nf = ib) -> n + bit o0 <= d /\ (o0 = None -> n = d).
Proof.
  intros Hd Hn -> -> Hiff. destruct o0 as [en |]; cbn [bit].
  - split; [| done]. destruct (decide (n = d)) as [-> |]; [| lia].
    destruct Hiff as [_ Hiff]. by specialize (Hiff eq_refl).
  - split; [lia |]. intros _. apply (slots_distinct b d); [done | lia | lia |].
    symmetry. by apply Hiff.
Qed.

Lemma loop_completes stable main fuel indet F b d fs ss k :
  copies stable main -> line_says F -> 0 <= d < N -> F = (b + d) mod N ->
  (forall j, 0 <= j < d -> is_addition stable main (res_at indet j) ((b + j) mod N)) ->
  forall m n o1 o2 o3 s, m <= n <= d ->
  piped B b fs ss m n o1 o2 o3 s -> holding main indet b m o1 o2 o3 s ->
  work (d - n) o1 o2 o3 < Z.of_nat k ->
  exists s', loop k (pipeline_round fuel indet) s = Ok (tt, s') /\
    piped B b fs ss d d None None None s' /\ holding main indet b d None None None s'.
Proof.
  intros Hm Hline Hd HF Hadd. induction k as [| k IH]; intros m n o1 o2 o3 s Hn HP Hh Hw.
  { unfold work in Hw. destruct o1, o2, o3; cbn in Hw; lia. }
  pose proof (pi_range _ _ _ _ _ _ _ _ _ _ HP) as Hr.
  assert (forall j, m <= j < n -> is_addition stable main (res_at indet j) ((b + j) mod N)) as Hadd'.
  { intros j Hj. apply Hadd. lia. }
  cbn [loop]. unfold pipeline_round.
  destruct (stages_returns stable main fuel indet _ _ _ _ _ _ _ _ _ Hm HP Hh Hadd') as [s1 Hrun].
  pose proof (run_stages B HB fuel indet _ _ _ _ _ _ _ _ _ HP) as Hs. rewrite Hrun in Hs.
  destruct Hs as (o0 & HP1 & Hfr & Hcyc & Hiff & _ & _ & Hlog).
  erewrite M_bind_ok by exact Hrun. mstep. rewrite run_ret.
  destruct (queue_step B b m n None o1 o2 o3) as (_ & _ & Hen3); [lia | done | apply HP | done |].
  assert (holding main indet b (m + bit o3) o0 o1 o2 s1) as Hh1.
  { eapply holding_step; try done. intros en He. rewrite (ho_additions _ _ _ _ _ _ _ _ Hh).
    destruct (piped_third _ _ _ _ _ _ _ _ _ _ HP He) as [Hlt ->]. apply Hadd'.
    destruct o3; cbn in *; lia. }
  assert (new_front B s = F) as HnF.
  { unfold new_front.
    by destruct (Hline _ (fo_grown _ _ (pi_flights _ _ _ _ _ _ _ _ _ _ HP))) as [-> ->]. }
  rewrite HnF in Hfr.
  destruct (fetch_progress b d n o0 _ _ Hd ltac:(lia) (eq_trans HnF HF)
    (pi_in _ _ _ _ _ _ _ _ _ _ HP) Hiff) as [Hn' Hdone].
  pose proof (piped_depth B _ _ _ _ _ _ _ _ _ HP) as Hdep.
  pose proof (piped_depth B _ _ _ _ _ _ _ _ _ HP1) as Hdep1.
  pose proof (pi_range _ _ _ _ _ _ _ _ _ _ HP1) as Hr1.
  destruct (Z.eqb_spec (front (tstate s1)) (out_back (tstate s1))) as [Heq | Hne]; cbn [negb].
  - exists s1. split; [done |]. rewrite Hfr, (pi_out _ _ _ _ _ _ _ _ _ _ HP1), HF in Heq.
    assert (m + bit o3 = d) as Hmd.
    { symmetry. apply (slots_distinct b d); [done | lia | lia | done]. }
    assert (n + bit o0 = d /\ o0 = None /\ o1 = None /\ o2 = None) as (Hnd & -> & -> & ->).
    { destruct o0, o1, o2; cbn in *; split_and!; try done; lia. }
    rewrite Hmd, Hnd in HP1. by rewrite Hmd in Hh1.
  - eapply (IH (m + bit o3) (n + bit o0)); try done; [lia |].
    unfold work in *. destruct o0 as [en |]; cbn [bit] in *; [destruct o1, o2, o3; cbn in *; lia |].
    specialize (Hdone eq_refl). subst n.
    destruct (decide (bit o1 + bit o2 + bit o3 = 0)) as [Hz |].
    + destruct Hne. rewrite Hfr, (pi_out _ _ _ _ _ _ _ _ _ _ HP1), HF. f_equal.
      destruct o1, o2, o3; cbn in *; lia.
    + destruct o1, o2, o3; cbn in *; lia.
Qed.
End memory.
