(* ===== verification/Machine.v ===== *)
(** An SPE whose local store and main memory are memories: DMA commands copy
    between them, and the host may write to main memory between any two events.
    It is an instance of what TaskPipeline.v and TaskLoop.v ask of the outside,
    so that what they prove of the log holds of the contents of memory.

    Commands take effect when they are issued.  A program that touches no buffer
    in use, as the pipeline does, cannot tell; list commands and conditional puts,
    which it does not issue, do nothing here. *)
From stdpp Require Import base list.
From Stdlib Require Import ZArith Lia.
From S2P Require Import Prelude.
From S2P Require Import Messages.
From S2P Require Import Dma.
From S2P Require Import TaskManager.
From S2P Require Import TaskPipeline.
From S2P Require Import TaskLoop.

(** * Memories *)

(** The words at the addresses that are multiples of 4. *)
Definition memory : Type := Z -> Z.

Definition within (a base n : Z) : Prop := base <= a < base + n.
Definition apart (a n b m : Z) : Prop := a + n <= b \/ b + m <= a.

(** [size] bytes copied from [from] in [src] to [to] in [dst]. *)
Definition copy (to from size : Z) (src dst : memory) : memory := fun a =>
  if (to <=? a) && (a <? to + size) then src (from + (a - to)) else dst a.

Lemma copy_inside to from size src dst a :
  within a to size -> copy to from size src dst a = src (from + (a - to)).
Proof.
  intros [? ?]. unfold copy. by rewrite (proj2 (Z.leb_le _ _)), (proj2 (Z.ltb_lt _ _)).
Qed.
Lemma copy_outside to from size src dst a :
  ~ within a to size -> copy to from size src dst a = dst a.
Proof. unfold within, copy. intros Ha. zcases. Qed.

(** Main memory and local store after an event. *)
Definition transfer (e : event) (m : memory * memory) : memory * memory :=
  let '(main, ls) := m in
  match e with
  | mfc In _ l ea size _ => (main, copy l ea size main ls)
  | mfc Out _ l ea size _ => (copy ea l size ls main, ls)
  | mfc_getllar l ea => (main, copy l ea 128 main ls)
  | mfc_putlluc l ea => (copy ea l 128 ls main, ls)
  | mfc_putqlluc l ea _ => (copy ea l 128 ls main, ls)
  | ls_store addr k v => (main, copy (addr + 4 * k) 0 4 (fun _ => v) ls)
  | _ => (main, ls)
  end.

Section machine.
Context (init : memory * memory) (host : list event -> memory -> memory)
  (heap message : list event -> Z).

Definition machine_step (st : list event * (memory * memory)) (e : event) :=
  let '(l, m) := st in (l ++ [e], transfer e (host l m.1, m.2)).
Definition after (l : list event) : memory * memory :=
  (fold_left machine_step l ([], init)).2.

#[local] Instance machine : Mfc := {|
  channel := heap;
  ls_word l a k := (after l).2 (a + 4 * k);
  addr_of_message := message;
  MFC_PUTLLC_STATUS := 1
|}.

Lemma after_snoc l e : after (l ++ [e]) = transfer e (host l (after l).1, (after l).2).
Proof.
  assert (forall l, (fold_left machine_step l ([], init)).1 = l) as Hfst.
  { clear. intros l. induction l as [| e l IH] using rev_ind; [done |].
    rewrite fold_left_app. cbn. destruct (fold_left machine_step l _) as [l' m].
    cbn in *. by subst. }
  unfold after. rewrite fold_left_app. specialize (Hfst l).
  destruct (fold_left machine_step l _) as [l' m]. cbn in *. by subst.
Qed.

(** * Layout *)

Section layout.
Context (B : buffers).
Local Abbreviation N := (max_entries (b_desc B)).

(** The objects of the program do not overlap, nor do the parts of the queue. *)
Record layout : Prop := {
  la_task i j : 0 <= i < 4 -> 0 <= j < 4 -> i <> j -> apart (b_task B i) 128 (b_task B j) 128;
  la_ack i j : 0 <= i < 4 -> 0 <= j < 4 -> i <> j -> apart (b_ack B i) 16 (b_ack B j) 16;
  la_task_ack i j : 0 <= i < 4 -> 0 <= j < 4 -> apart (b_task B i) 128 (b_ack B j) 16;
  la_line i : 0 <= i < 4 ->
    apart (b_task B i) 128 (b_atomic B) 128 /\ apart (b_ack B i) 16 (b_atomic B) 128;
  la_fifo i : 0 <= i < 4 ->
    apart (b_task B i) 128 (b_fifo B) 48 /\ apart (b_ack B i) 16 (b_fifo B) 48 /\
    apart (b_atomic B) 128 (b_fifo B) 48;
  la_null i : 0 <= i < 4 -> b_task B i <> 0 /\ b_ack B i <> 0;
  la_null' : b_fifo B <> 0 /\ b_atomic B <> 0;
  la_tasks : 0 <= task_fifo (b_desc B) /\ task_fifo (b_desc B) + 128 * N <= 2 ^ 64;
  la_acks : 0 <= ack_fifo (b_desc B) /\ ack_fifo (b_desc B) + 16 * N <= 2 ^ 64;
  la_main : apart (task_fifo (b_desc B)) (128 * N) (ack_fifo (b_desc B)) (16 * N) /\
    apart (task_fifo (b_desc B)) (128 * N) (atomic (b_desc B)) 128 /\
    apart (ack_fifo (b_desc B)) (16 * N) (atomic (b_desc B)) 128;
  la_entries : 0 < N < 2 ^ 24 }.

(** The copy of the [fifo_s] when the run begins. *)
Definition described : Prop :=
  let w k := u32 ((after (b_start B)).2 (b_fifo B + 4 * k)) in
  of_words (w 0) (w 1) = task_fifo (b_desc B) /\
  of_words (w 2) (w 3) = ack_fifo (b_desc B) /\
  of_words (w 4) (w 5) = atomic (b_desc B) /\
  w 6 = max_entries (b_desc B).

(** The host leaves the addresses in [R] alone during the run. *)
Definition steady (R : Z -> Prop) : Prop :=
  forall l m a, grown B l -> R a -> host l m a = m a.

Context (HL : layout).

Lemma grown_ind (P : list event -> Prop) :
  P (b_start B) -> (forall l e, grown B l -> pipe_event B e -> P l -> P (l ++ [e])) ->
  forall l, grown B l -> P l.
Proof.
  intros H0 Hs l (es & -> & Hes).
  induction es as [| e es IH] using rev_ind; [by rewrite app_nil_r |].
  apply Forall_app in Hes as [Hes [He _]%Forall_cons]. rewrite app_assoc.
  apply Hs; [by exists es | done | by apply IH].
Qed.

Lemma task_ea_eq j : 0 <= j < N -> task_ea B j = task_fifo (b_desc B) + 128 * j.
Proof.
  intros Hj. pose proof la_tasks HL. unfold task_ea. rewrite u64_small; lia.
Qed.
Lemma ack_ea_eq j : 0 <= j < N -> ack_ea B j = ack_fifo (b_desc B) + 16 * j.
Proof.
  intros Hj. pose proof la_acks HL. unfold ack_ea. rewrite u64_small; lia.
Qed.

(** ** What a run leaves alone *)

(** Local store outside of the task buffers, the acknowledgements and the line. *)
Lemma ls_frame l e a :
  pipe_event B e ->
  (forall i, 0 <= i < 4 -> ~ within a (b_task B i) 128 /\ ~ within a (b_ack B i) 16) ->
  ~ within a (b_atomic B) 128 -> (after (l ++ [e])).2 a = (after l).2 a.
Proof.
  intros He Ho Hl. rewrite after_snoc. cbn [snd].
  destruct e as [[] [] ls ea size tag | | ls ea | | | | | | | | addr k v | | | | | | | | | |];
    try done; cbn [transfer snd].
  - destruct He as (Ht & -> & -> & _). apply copy_outside. by apply Ho.
  - destruct He as [-> ->]. by apply copy_outside.
  - destruct He as (-> & i & Hi & ->). apply copy_outside.
    destruct (Ho i Hi) as [_ Ha]. unfold within in *. lia.
Qed.

(** An acknowledgement but for its second word. *)
Lemma ack_frame l e i k :
  pipe_event B e -> 0 <= i < 4 -> 0 <= k < 4 -> k <> 1 ->
  (after (l ++ [e])).2 (b_ack B i + 4 * k) = (after l).2 (b_ack B i + 4 * k).
Proof.
  intros He Hi Hk Hne. rewrite after_snoc. cbn [snd].
  destruct e as [[] [] ls ea size tag | | ls ea | | | | | | | | addr w v | | | | | | | | | |];
    try done; cbn [transfer snd].
  - destruct He as (Ht & -> & -> & _). apply copy_outside.
    pose proof (la_task_ack HL tag i Ht Hi). unfold within, apart in *. lia.
  - destruct He as [-> ->]. apply copy_outside.
    destruct (la_line HL i Hi). unfold within, apart in *. lia.
  - destruct He as (-> & j & Hj & ->). apply copy_outside. unfold within.
    destruct (decide (i = j)) as [-> | Hij]; [lia |].
    pose proof (la_ack HL i j Hi Hj Hij). unfold apart in *. lia.
Qed.

(** Main memory outside of the acknowledgements. *)
Lemma main_frame R l e a :
  steady R -> grown B l -> pipe_event B e -> R a ->
  ~ within a (ack_fifo (b_desc B)) (16 * N) -> (after (l ++ [e])).1 a = (after l).1 a.
Proof.
  intros HR Hl He Ha Ho. rewrite after_snoc.
  destruct e as [[] [] ls ea size tag | | | | | | | | | | | | | | | | | | | |];
    try done; cbn [transfer fst]; try by apply (HR l).
  destruct He as (Ht & -> & -> & j & Hj & ->). rewrite copy_outside; [by apply (HR l) |].
  rewrite ack_ea_eq by done. unfold within in *. lia.
Qed.

Lemma main_steady R l a :
  steady R -> R a -> ~ within a (ack_fifo (b_desc B)) (16 * N) -> grown B l ->
  (after l).1 a = (after (b_start B)).1 a.
Proof.
  intros HR Ha Ho Hl. revert l Hl. apply grown_ind; [done |].
  intros l e Hl He IH. rewrite <- IH. by eapply main_frame.
Qed.

(** ** The outside of the pipeline *)

Lemma apart_self a n : 0 < n -> ~ apart a n a n.
Proof. unfold apart. lia. Qed.

(** Buffers laid out so are distinct, on any machine. *)
Lemma layout_buffers_ok (M : Mfc) :
  (forall l, grown B l -> let w k := u32 (@ls_word M l (b_fifo B) k) in
     of_words (w 0) (w 1) = task_fifo (b_desc B) /\ of_words (w 2) (w 3) = ack_fifo (b_desc B) /\
     of_words (w 4) (w 5) = atomic (b_desc B) /\ w 6 = N) ->
  @buffers_ok M B.
Proof.
  intros Hw. split; [.. | exact Hw | apply HL].
  - apply HL.
  - apply HL.
  - intros i j Hi Hj Heq. destruct (decide (i = j)) as [| Hne]; [done |].
    pose proof (la_task HL i j Hi Hj Hne) as Ha. rewrite Heq in Ha. by apply apart_self in Ha.
  - intros i j Hi Hj Heq. destruct (decide (i = j)) as [| Hne]; [done |].
    pose proof (la_ack HL i j Hi Hj Hne) as Ha. rewrite Heq in Ha. by apply apart_self in Ha.
  - intros i j Hi Hj. pose proof (la_task_ack HL i j Hi Hj). unfold apart in *. lia.
  - intros i Hi. pose proof (la_line HL i Hi). pose proof (la_fifo HL i Hi).
    unfold apart in *. lia.
Qed.

(** The words of the description are away from what the pipeline writes. *)
Lemma fifo_outside k : 0 <= k < 8 ->
  (forall i, 0 <= i < 4 -> ~ within (b_fifo B + 4 * k) (b_task B i) 128 /\
     ~ within (b_fifo B + 4 * k) (b_ack B i) 16) /\
  ~ within (b_fifo B + 4 * k) (b_atomic B) 128.
Proof.
  intros Hk. split.
  - intros i Hi. destruct (la_fifo HL i Hi). unfold apart, within in *. lia.
  - destruct (la_fifo HL 0 ltac:(lia)). unfold apart, within in *. lia.
Qed.

Lemma machine_buffers_ok : described -> buffers_ok B.
Proof.
  intros Hd. apply layout_buffers_ok. intros l Hl.
  assert (forall k, 0 <= k < 8 -> (after l).2 (b_fifo B + 4 * k) =
    (after (b_start B)).2 (b_fifo B + 4 * k)) as Hw.
  { intros k Hk. revert l Hl. apply grown_ind; [done |]. intros l e _ He IH.
    rewrite <- IH. by apply ls_frame; [| apply fifo_outside | apply fifo_outside]. }
  cbn [ls_word machine]. by rewrite !Hw by lia.
Qed.

(** The slots the host leaves alone, and their words. *)
Definition stable_slot (R : Z -> Prop) (j : Z) : Prop :=
  0 <= j < N /\ forall a, within a (task_fifo (b_desc B) + 128 * j) 128 -> R a.
Definition words (m : memory) (ea k : Z) : Z := m (ea + 4 * k).

Lemma run_of_start : run_of B (b_start B) = [].
Proof. unfold run_of. apply drop_all. Qed.

Lemma machine_copies R :
  steady R -> copies B (stable_slot R) (words (after (b_start B)).1).
Proof.
  intros HR l i j k Hl Hi Hk [Hj HRj] Hh. f_equal. cbn [ls_word machine]. unfold words.
  revert l Hl Hh. apply (grown_ind (fun l => holds_slot B l i = Some (task_ea B j) ->
    (after l).2 (b_task B i + 4 * k) = (after (b_start B)).1 (task_ea B j + 4 * k))).
  { unfold holds_slot. by rewrite run_of_start. }
  intros l e Hl He IH. rewrite holds_slot_app by done. cbn [fold_left].
  rewrite after_snoc.
  destruct e as [[] [] ls ea size tag | | ls ea | | | | | | | | addr w v | | | | | | | | | |];
    try done; cbn [fill transfer snd]; try exact IH.
  - destruct He as (Ht & -> & -> & _). destruct (Z.eqb_spec (b_task B tag) (b_task B i)) as [Heq | Hne].
    + intros [= ->]. rewrite Heq, copy_inside by (unfold within; lia).
      replace (b_task B i + 4 * k - b_task B i) with (4 * k) by lia.
      rewrite task_ea_eq by done. rewrite (HR l) by (done || apply HRj; unfold within; lia).
      apply (main_steady R); try done; [apply HRj; unfold within; lia |].
      pose proof (la_main HL). unfold apart, within in *. lia.
    + intros Hh. rewrite copy_outside; [by apply IH |].
      assert (tag <> i) as Hti by (by intros ->).
      pose proof (la_task HL tag i Ht Hi Hti). unfold apart, within in *. lia.
  - destruct He as [-> ->]. intros Hh. rewrite copy_outside; [by apply IH |].
    destruct (la_line HL i Hi). unfold apart, within in *. lia.
  - destruct He as (-> & i' & Hi' & ->). intros Hh. rewrite copy_outside; [by apply IH |].
    pose proof (la_task_ack HL i i' Hi Hi'). unfold apart, within in *. lia.
Qed.

(** The line, when the host leaves it alone and it holds [F]. *)
Lemma machine_line R F :
  steady R -> R (atomic (b_desc B)) -> R (atomic (b_desc B) + 4) ->
  s32 ((after (b_start B)).1 (atomic (b_desc B))) = F ->
  u32 ((after (b_start B)).1 (atomic (b_desc B) + 4)) <> 0 -> line_says B F.
Proof.
  intros HR H0 H1 HF Hs l Hl.
  assert (forall k, k = 0 \/ k = 1 -> (after (l ++ poll B)).2 (b_atomic B + 4 * k) =
    (after (b_start B)).1 (atomic (b_desc B) + 4 * k)) as Hw.
  { intros k Hk. unfold poll.
    change [?x; ?y] with ([x] ++ [y]). rewrite app_assoc, after_snoc. cbn [transfer snd].
    rewrite after_snoc. cbn [transfer snd]. rewrite copy_inside by (unfold within; lia).
    replace (b_atomic B + 4 * k - b_atomic B) with (4 * k) by lia.
    assert (R (atomic (b_desc B) + 4 * k)) as HRk.
    { destruct Hk as [-> | ->]; [by rewrite Z.add_0_r | done]. }
    rewrite (HR l) by done. apply (main_steady R); try done.
    pose proof (la_main HL). unfold apart, within in *. lia. }
  unfold poll_active, polled. cbn [ls_word machine]. rewrite !Hw by auto.
  rewrite Z.mul_0_r, Z.add_0_r. change (4 * 1) with 4.
  split; [| done]. by rewrite (proj2 (Z.eqb_neq _ _)).
Qed.

(** ** What is delivered *)

Lemma result_stored l i x :
  grown B l -> 0 <= i < 4 -> holds_result B l i = Some x -> (after l).2 (b_ack B i + 4) = x.
Proof.
  intros Hl Hi. revert l Hl. apply (grown_ind (fun l =>
    holds_result B l i = Some x -> (after l).2 (b_ack B i + 4) = x)).
  { unfold holds_result. by rewrite run_of_start. }
  intros l e Hl He IH. rewrite holds_result_app by done. cbn [fold_left]. rewrite after_snoc.
  destruct e as [[] [] ls ea size tag | | ls ea | | | | | | | | addr w v | | | | | | | | | |];
    try done; cbn [put_result transfer snd]; try exact IH.
  - destruct He as (Ht & -> & -> & _). intros Hh. rewrite copy_outside; [by apply IH |].
    pose proof (la_task_ack HL tag i Ht Hi). unfold apart, within in *. lia.
  - destruct He as [-> ->]. intros Hh. rewrite copy_outside; [by apply IH |].
    destruct (la_line HL i Hi). unfold apart, within in *. lia.
  - destruct He as (-> & i' & Hi' & ->).
    destruct (Z.eqb_spec (b_ack B i') (b_ack B i)) as [Heq | Hne].
    + intros [= ->]. rewrite copy_inside; [done |]. unfold within. lia.
    + intros Hh. rewrite copy_outside; [by apply IH |].
      assert (i' <> i) as Hii by (by intros ->).
      pose proof (la_ack HL i' i Hi' Hi Hii). unfold apart, within in *. lia.
Qed.

Lemma first_word l i :
  grown B l -> 0 <= i < 4 -> (after l).2 (b_ack B i) = (after (b_start B)).2 (b_ack B i).
Proof.
  intros Hl Hi. revert l Hl. apply grown_ind; [done |]. intros l e _ He IH.
  rewrite <- IH. pose proof (ack_frame l e i 0 He Hi) as Hf.
  rewrite Z.mul_0_r, Z.add_0_r in Hf. apply Hf; lia.
Qed.

Definition in_acks (a : Z) : Prop := within a (ack_fifo (b_desc B)) (16 * N).

(** What one event does to the acknowledgement of slot [j]. *)
Lemma ack_step R l e j k :
  steady R -> (forall a, in_acks a -> R a) -> grown B l -> pipe_event B e ->
  0 <= j < N -> 0 <= k < 4 ->
  (exists i, 0 <= i < 4 /\
     sent (run_of B (l ++ [e])) = sent (run_of B l) ++ [(ack_ea B j, holds_result B l i)] /\
     (after (l ++ [e])).1 (ack_ea B j + 4 * k) = (after l).2 (b_ack B i + 4 * k)) \/
  ((after (l ++ [e])).1 (ack_ea B j + 4 * k) = (after l).1 (ack_ea B j + 4 * k) /\
   (sent (run_of B (l ++ [e])) = sent (run_of B l) \/
    exists j' h, ack_ea B j' <> ack_ea B j /\
      sent (run_of B (l ++ [e])) = sent (run_of B l) ++ [(ack_ea B j', h)])).
Proof.
  intros HR Hacks Hl He Hj Hk. rewrite run_of_app, sent_snoc, after_snoc by done.
  assert (R (ack_ea B j + 4 * k)) as HRj.
  { apply Hacks. unfold in_acks, within. rewrite ack_ea_eq by done. lia. }
  destruct e as [[] [] ls ea size tag | | | | | | | | | | | | | | | | | | | |];
    try done; cbn [transfer fst]; try (right; split; [by apply (HR l) | by left]).
  destruct He as (Ht & -> & -> & j' & Hj' & ->).
  destruct (decide (j' = j)) as [-> | Hne].
  - left. exists tag. split; [exact Ht |]. split; [reflexivity |].
    rewrite copy_inside by (unfold within; lia). cbn. f_equal. lia.
  - right. rewrite !ack_ea_eq by done. split.
    + rewrite copy_outside by (unfold within; lia). apply (HR l); [done |].
      by rewrite <- ack_ea_eq.
    + right. exists j', (result (b_ack B tag) (run_of B l)). rewrite !ack_ea_eq by done.
      split; [lia | done].
Qed.

(** The acknowledgements of the slots that were sent: their second word is the
    result, their first one what local store held before the run. *)
Lemma delivered R l j x :
  steady R -> (forall a, in_acks a -> R a) -> grown B l -> 0 <= j < N ->
  NoDup (sent (run_of B l)).*1 -> (ack_ea B j, Some x) ∈ sent (run_of B l) ->
  (after l).1 (ack_ea B j + 4) = x /\
  exists i, 0 <= i < 4 /\ (after l).1 (ack_ea B j) = (after (b_start B)).2 (b_ack B i).
Proof.
  intros HR Hacks Hl Hj. revert l Hl. apply (grown_ind (fun l =>
    NoDup (sent (run_of B l)).*1 -> (ack_ea B j, Some x) ∈ sent (run_of B l) -> _)).
  { rewrite run_of_start. intros _ Hin. by apply elem_of_nil in Hin. }
  intros l e Hl He IH Hnd Hin.
  pose proof (ack_step R l e j 0 HR Hacks Hl He Hj ltac:(lia)) as H0.
  pose proof (ack_step R l e j 1 HR Hacks Hl He Hj ltac:(lia)) as H1.
  rewrite Z.mul_0_r, !Z.add_0_r in H0. change (4 * 1) with 4 in H1.
  assert (forall y h, sent (run_of B (l ++ [e])) = sent (run_of B l) ++ [(y, h)] ->
    NoDup (sent (run_of B l)).*1 /\ y ∉ (sent (run_of B l)).*1) as Hsnoc.
  { intros y h Heq. rewrite Heq, fmap_app in Hnd. apply NoDup_app in Hnd as (? & Hd & _).
    split; [done |]. intros Hy. apply (Hd y Hy). by apply list_elem_of_singleton. }
  destruct H1 as [(i & Hi & Hs & Hm) | [Hm Hs]].
  - destruct (Hsnoc _ _ Hs) as [_ Hnew]. rewrite Hs in Hin.
    apply elem_of_app in Hin as [Hin | Hin%list_elem_of_singleton].
    { destruct Hnew. apply list_elem_of_fmap. by exists (ack_ea B j, Some x). }
    injection Hin as Hx. rewrite Hm. split; [by apply result_stored |].
    destruct H0 as [(i0 & Hi0 & _ & Hm0) | [_ [Hs0 | (j' & h & Hne & Hs0)]]].
    + exists i0. split; [done |]. rewrite Hm0. rewrite ?Z.mul_0_r, ?Z.add_0_r. by apply first_word.
    + rewrite Hs in Hs0. apply (f_equal length) in Hs0. rewrite length_app in Hs0. cbn in Hs0. lia.
    + rewrite Hs in Hs0. apply app_inj_tail in Hs0 as [_ Heq]. injection Heq as Heq _. by destruct Hne.
  - assert (NoDup (sent (run_of B l)).*1 /\ (ack_ea B j, Some x) ∈ sent (run_of B l)) as [Hnd' Hin'].
    { destruct Hs as [Hs | (j' & h & Hne & Hs)]; [by rewrite <- Hs |].
      split; [by destruct (Hsnoc _ _ Hs) |]. rewrite Hs in Hin.
      apply elem_of_app in Hin as [Hin | Hin%list_elem_of_singleton]; [done |].
      injection Hin as Heq _. by destruct Hne. }
    destruct (IH Hnd' Hin') as [Hx (i & Hi & H0i)]. split; [by rewrite Hm |].
    exists i. split; [done |]. rewrite <- H0i.
    destruct H0 as [(i0 & Hi0 & Hs0 & _) | [-> _]]; [| done].
    destruct Hs as [Hs | (j' & h & Hne & Hs)].
    + rewrite Hs in Hs0. apply (f_equal length) in Hs0. rewrite length_app in Hs0. cbn in Hs0. lia.
    + rewrite Hs in Hs0. apply app_inj_tail in Hs0 as [_ Heq]. injection Heq as Heq _. by destruct Hne.
Qed.

(** The acknowledgements of other slots are as they were. *)
Lemma undelivered R l j k :
  steady R -> (forall a, in_acks a -> R a) -> grown B l -> 0 <= j < N -> 0 <= k < 4 ->
  ack_ea B j ∉ (sent (run_of B l)).*1 ->
  (after l).1 (ack_ea B j + 4 * k) = (after (b_start B)).1 (ack_ea B j + 4 * k).
Proof.
  intros HR Hacks Hl Hj Hk. revert l Hl. apply (grown_ind (fun l =>
    ack_ea B j ∉ (sent (run_of B l)).*1 -> _)); [done |].
  intros l e Hl He IH Hnot.
  destruct (ack_step R l e j k HR Hacks Hl He Hj Hk) as [(i & _ & Hs & _) | [-> Hs]].
  - destruct Hnot. rewrite Hs, fmap_app. apply elem_of_app. right. by apply list_elem_of_singleton.
  - apply IH. intros Hin. destruct Hnot. destruct Hs as [-> | (j' & h & _ & ->)]; [done |].
    rewrite fmap_app. apply elem_of_app. by left.
Qed.
End layout.
End machine.
