(* ===== verification/SpuExamples.v ===== *)
(** spu/src/pic_test.c, a program for the task manager to call, which prints its
    name; and example/spu_example1.c and example/spu_example2.c: two SPE programs that fetch
    a counter from main memory, show it and add one, once for each message of
    the host in the first, once for each restart in the second.

    RDY is defined nowhere in the repository; the first program stores it in a
    variable whose address is what it sends, so its value plays no part. *)
From Stdlib Require Import String Ascii.
From stdpp Require Import base list.
From Stdlib Require Import ZArith Lia.
From S2P Require Import Prelude.
From S2P Require Import Messages.
From S2P Require Import Dma.
From S2P Require Import TaskPipeline.
From S2P Require Import Machine.
#[local] Close Scope string_scope.

(** * The code *)

(** The log of the SPE, and the values it printed. *)
Record spe := Spe { events : list event; printed : list Z }.

Definition on_log {A : Type} (m : M (list event) A) : M spe A :=
  l ← gets events;
  r ← lift (m l);
  modify (fun s => Spe r.2 (printed s));;
  mret r.1.
Definition print (v : Z) : M spe unit :=
  modify (fun s => Spe (events s) (printed s ++ [v])).

Definition pic_test_line : string := ("pic_test" ++ String "010" "")%string.

Section code.
Context `{Mfc}.

(** The word at [addr], and a store to it. *)
Definition load (addr : Z) : M spe Z :=
  if addr =? 0 then fail NullDeref else on_log (ls_load addr 0).
Definition store (addr v : Z) : M spe unit :=
  if addr =? 0 then fail NullDeref else on_log (ls_write addr 0 v).

(** ** pic_test.c

    What it prints is all it does: it reads none of its four arguments, and has no
    [return].  [out] is the standard output, line by line. *)

Definition pic_test_main (arguments buffers buildtin ack : Z) : M (list string) unit :=
  modify (fun out => out ++ [pic_test_line]).

(** ** spu_example1.c *)

Definition sizeof_example1_s : Z := 4.

(** One round of [do ... while (msg != STOP)].  [polls] bounds the spinning on
    the mailboxes, [msg] is where the variable of that name is kept. *)
Definition example1_round (polls : nat) (msg ex1 : Z) : M spe (option unit) :=
  v ← load ex1;
  print (s32 v);;
  on_log (send_message_int polls msg);;
  m ← on_log (wait_for_message_poll polls);
  (if negb (u32 m =? STOP) then
     v ← load ex1;
     v ← lift (to_int (s32 v + 1));
     store ex1 v
   else mret tt);;
  mret (if negb (u32 m =? STOP) then None else Some tt).

Definition example1_main (fuel polls : nat) (msg argp envp : Z) : M spe Z :=
  ex1 ← on_log (emit_read (ls_alloc sizeof_example1_s));
  on_log (dmaGetnWait ex1 argp (u32 envp) 0);;
  loop fuel (example1_round polls msg ex1);;
  mret 0.

(** ** spu_example2.c *)

Definition sizeof_example2_s : Z := 1.

(** The [uint8_t] at [addr] is the first byte of its word, the most significant. *)
Definition load_byte (addr : Z) : M spe Z := w ← load addr; mret (Z.shiftr w 24).
Definition store_byte (addr v : Z) : M spe unit :=
  w ← load addr;
  store addr (Z.lor (Z.shiftl (v mod 2 ^ 8) 24) (Z.land w (Z.ones 24))).

(** One round of [do ... while (1)]: up to the stop, and after it. *)
Definition example2_show (ex2 : Z) : M spe unit :=
  v ← load_byte ex2;
  print v;;
  on_log (emit (spu_stop 0)).
Definition example2_add (ex2 : Z) : M spe unit :=
  v ← load_byte ex2;
  store_byte ex2 (v + 1).
Definition example2_round (ex2 : Z) : M spe (option unit) :=
  example2_show ex2;;
  example2_add ex2;;
  mret None.

Definition example2_start (argp envp : Z) : M spe Z :=
  ex2 ← on_log (emit_read (ls_alloc sizeof_example2_s));
  on_log (dmaGetnWait ex2 argp (u32 envp) 0);;
  mret ex2.
Definition example2_main (fuel : nat) (argp envp : Z) : M spe unit :=
  ex2 ← example2_start argp envp;
  loop fuel (example2_round ex2).
End code.

(** * Lemmas *)

(** Local store keeps the word at [addr] until the program stores another or a
    transfer overwrites it. *)
Definition idle_event (e : event) : Prop :=
  match e with
  | spu_stat_out_intr_mbox | spu_stat_in_mbox | spu_read_in_mbox | write_out_intr_mbox _
  | spu_stop _ => True
  | _ => False
  end.
Class LocalStore `{Mfc} (addr : Z) : Prop := {
  stored l v : ls_word (l ++ [ls_store addr 0 v]) addr 0 = v;
  kept l e : idle_event e -> ls_word (l ++ [e]) addr 0 = ls_word l addr 0 }.

(** A memory does. *)
Lemma machine_local_store init host heap message addr :
  @LocalStore (machine init host heap message) addr.
Proof.
  split; cbn [ls_word machine]; rewrite Z.mul_0_r, Z.add_0_r.
  - intros l v. rewrite after_snoc. cbn [transfer snd].
    rewrite copy_inside; [done |]. unfold within. lia.
  - intros l e He. rewrite after_snoc. by destruct e.
Qed.

Section running.
Context `{Mfc} (addr : Z) {HL : LocalStore addr} (Haddr : addr <> 0).
Implicit Types (s : spe) (l : list event).

(** No transfer is in flight. *)
Definition settled l : Prop := (flights l).2 = [].

Lemma settled_quiet l e : idle_event e -> settled l -> settled (l ++ [e]).
Proof.
  unfold settled. rewrite flights_snoc. destruct (flights l) as [m fs]. by destruct e.
Qed.
Lemma settled_store l a k v : settled l -> settled (l ++ [ls_store a k v]).
Proof. unfold settled. rewrite flights_snoc. by destruct (flights l) as [m fs]. Qed.

Lemma run_on_log {A : Type} (m : M (list event) A) s a l :
  m (events s) = Ok (a, l) -> on_log m s = Ok (a, Spe l (printed s)).
Proof. intros Hm. unfold on_log. mstep. rewrite Hm. by mrun. Qed.

Lemma run_load s :
  settled (events s) -> load addr s = Ok (u32 (ls_word (events s) addr 0), s).
Proof.
  intros Hs. unfold load. rewrite (proj2 (Z.eqb_neq _ _) Haddr).
  rewrite (run_on_log _ s (u32 (ls_word (events s) addr 0)) (events s)); [by destruct s |].
  unfold ls_load.
  rewrite (proj2 (readable_spec _ _)); [done |]. intros f Hf. rewrite Hs in Hf.
  by apply elem_of_nil in Hf.
Qed.

Lemma run_store s v :
  settled (events s) ->
  store addr v s = Ok (tt, Spe (events s ++ [ls_store addr 0 (u32 v)]) (printed s)).
Proof.
  intros Hs. unfold store. rewrite (proj2 (Z.eqb_neq _ _) Haddr).
  apply run_on_log. unfold ls_write. rewrite (proj2 (writable_spec _ _)); [done |].
  intros f Hf. rewrite Hs in Hf. by apply elem_of_nil in Hf.
Qed.

Lemma run_show v s : print v s = Ok (tt, Spe (events s) (printed s ++ [v])).
Proof. done. Qed.
End running.

(** The object is fetched into settled local store. *)
Lemma run_fetch `{Mfc} size argp envp s :
  settled (events s) -> tags_ok (events s) ->
  let a := channel (events s ++ [ls_alloc size]) in
  let l := ((((events s ++ [ls_alloc size]) ++ [mfc In Plain a argp (u32 envp) 0]) ++
    [mfc_write_tag_mask 1]) ++ [mfc_read_tag_status_any]) in
  on_log (emit_read (ls_alloc size)) s = Ok (a, Spe (events s ++ [ls_alloc size]) (printed s)) /\
  on_log (dmaGetnWait a argp (u32 envp) 0) (Spe (events s ++ [ls_alloc size]) (printed s)) =
    Ok (tt, Spe l (printed s)) /\ settled l.
Proof.
  intros Hs Ht a l. split; [by apply run_on_log |]. split.
  - apply (run_on_log _ (Spe (events s ++ [ls_alloc size]) (printed s))).
    unfold dmaGetnWait. rewrite tag_mask_ok by lia. by mrun.
  - unfold l. rewrite <- (app_assoc _ [mfc_write_tag_mask 1]).
    assert (flights (events s ++ [ls_alloc size]) = flights (events s)) as Hf.
    { rewrite flights_snoc. by destruct (flights (events s)). }
    unfold settled. change 1 with (2 ^ 0). cbn [app]. rewrite (transfer_and_wait In a) by
      (lia || by unfold tags_ok; rewrite Hf).
    rewrite Hf, Hs. done.
Qed.

(** ** The conversation of spu_example1 *)

Definition is_received (e : event) : bool := match e with spu_read_in_mbox => true | _ => false end.
Definition is_interrupt (e : event) : bool :=
  match e with write_out_intr_mbox _ => true | _ => false end.
Definition received (l : list event) : nat := length (List.filter is_received l).
Definition interrupts (l : list event) : nat := length (List.filter is_interrupt l).

Lemma count_store (p : event -> bool) l a k v :
  p (ls_store a k v) = false ->
  length (List.filter p (l ++ [ls_store a k v])) = length (List.filter p l).
Proof. intros Hp. rewrite List.filter_app, length_app. cbn. rewrite Hp. cbn. lia. Qed.

(** The host keeps up: there is room for an interrupt and always a message, the
    [i]-th one [word i]. *)
Record host_answers `{Mfc} (word : nat -> Z) : Prop := {
  ha_room l : channel (l ++ [spu_stat_out_intr_mbox]) <> 0;
  ha_mail l : channel (l ++ [spu_stat_in_mbox]) <> 0;
  ha_word l : channel (l ++ [spu_read_in_mbox]) = word (received l) }.

Section conversation.
Context `{Mfc} (addr : Z) {HL : LocalStore addr} (Haddr : addr <> 0)
  (word : nat -> Z) (Hhost : host_answers word).
Implicit Types (s : spe) (l : list event).

(** The messages of one round. *)
Definition round_log l : list event :=
  let l1 := l ++ [spu_stat_out_intr_mbox] in
  ((l1 ++ [write_out_intr_mbox (u32 (addr_of_message l1))]) ++ [spu_stat_in_mbox]) ++
    [spu_read_in_mbox].

Lemma run_round_mail polls msg l pr :
  (0 < polls)%nat ->
  (on_log (send_message_int polls msg);; on_log (wait_for_message_poll polls)) (Spe l pr) =
  Ok (s32 (word (received l)), Spe (round_log l) pr).
Proof.
  intros Hp. set (l1 := l ++ [spu_stat_out_intr_mbox]).
  set (l2 := l1 ++ [write_out_intr_mbox (u32 (addr_of_message l1))]).
  erewrite M_bind_ok; cycle 1.
  { apply (run_on_log _ (Spe l pr) tt l2). unfold send_message_int.
    erewrite M_bind_ok by (apply (stat_spin _ 0); [intros; lia | apply Hhost | done]). by mrun. }
  apply (run_on_log _ (Spe l2 pr)). unfold wait_for_message_poll.
  erewrite M_bind_ok by (apply (stat_spin _ 0); [intros; lia | apply Hhost | done]).
  mrun. rewrite run_ret. cbn [events repeat]. rewrite (ha_word word Hhost). unfold round_log.
  do 4 f_equal. unfold l2, l1, received. rewrite !List.filter_app, !length_app. cbn. lia.
Qed.

Lemma round_log_facts l :
  settled l -> settled (round_log l) /\ ls_word (round_log l) addr 0 = ls_word l addr 0 /\
  received (round_log l) = S (received l) /\ interrupts (round_log l) = S (interrupts l).
Proof.
  intros Hs. unfold round_log. split; [by repeat apply settled_quiet |].
  split; [by rewrite !kept |]. unfold received, interrupts.
  rewrite !List.filter_app, !length_app. cbn. lia.
Qed.

Lemma run_example1_round polls msg s :
  (0 < polls)%nat -> settled (events s) ->
  let v := s32 (ls_word (events s) addr 0) in
  let m := word (received (events s)) in
  example1_round polls msg addr s =
  if u32 m =? STOP then Ok (Some tt, Spe (round_log (events s)) (printed s ++ [v]))
  else if v + 1 <? 2 ^ 31 then
    Ok (None, Spe (round_log (events s) ++ [ls_store addr 0 (u32 (v + 1))]) (printed s ++ [v]))
  else Fault SignedOverflow.
Proof.
  intros Hp Hs v m. destruct (round_log_facts (events s) Hs) as (Hs' & Hw & _).
  unfold example1_round. erewrite M_bind_ok by (by apply run_load).
  erewrite M_bind_ok by apply run_show. rewrite s32_u32. fold v.
  rewrite <- M_bind_assoc. erewrite M_bind_ok by (by apply run_round_mail).
  rewrite u32_s32. fold m. destruct (Z.eqb_spec (u32 m) STOP) as [Hm | Hm]; cbn [negb].
  { by mrun. }
  rewrite !M_bind_assoc. erewrite M_bind_ok by (by apply (run_load addr)).
  cbn [events]. rewrite Hw, s32_u32. fold v. rewrite M_bind_assoc. unfold to_int, int_in_range.
  pose proof (s32_range (ls_word (events s) addr 0)) as Hr. fold v in Hr.
  rewrite (proj2 (Z.leb_le _ _)) by lia. destruct (Z.ltb_spec (v + 1) (2 ^ 31)); cbn [andb].
  - mstep. erewrite M_bind_ok by (by apply (run_store addr)). by rewrite run_ret.
  - by mstep.
Qed.

Lemma run_example1_loop polls msg k : forall fuel s,
  (0 < polls)%nat -> (k < fuel)%nat -> settled (events s) ->
  let v := s32 (ls_word (events s) addr 0) in
  let r := received (events s) in
  (forall i, (i < k)%nat -> u32 (word (r + i)%nat) <> STOP) -> u32 (word (r + k)%nat) = STOP ->
  v + Z.of_nat k < 2 ^ 31 ->
  exists l, loop fuel (example1_round polls msg addr) s =
      Ok (tt, Spe l (printed s ++ seqZ v (Z.of_nat k + 1))) /\
    s32 (ls_word l addr 0) = v + Z.of_nat k /\
    interrupts l = (interrupts (events s) + k + 1)%nat.
Proof.
  induction k as [| k IH]; intros [| fuel] s Hp Hf Hs v r Hgo Hstop Hv; try lia; cbn [loop];
    rewrite run_example1_round by done; fold v; fold r;
    destruct (round_log_facts (events s) Hs) as (Hs' & Hw & Hr & Hi).
  - rewrite Nat.add_0_r in Hstop. rewrite Hstop, Z.eqb_refl. eexists. split; [reflexivity |].
    rewrite Hw, Hi. fold v. split; lia.
  - pose proof (Hgo 0%nat ltac:(lia)) as H0. rewrite Nat.add_0_r in H0.
    rewrite (proj2 (Z.eqb_neq _ _) H0), (proj2 (Z.ltb_lt _ _)) by lia.
    set (s1 := Spe _ _).
    assert (s32 (ls_word (events s1) addr 0) = v + 1) as Hv1.
    { cbn [events s1]. rewrite stored, s32_u32. apply s32_small.
      pose proof (s32_range (ls_word (events s) addr 0)). lia. }
    assert (received (events s1) = S r) as Hr1.
    { cbn [events s1]. unfold r. rewrite <- Hr. by apply count_store. }
    assert (interrupts (events s1) = S (interrupts (events s))) as Hi1.
    { cbn [events s1]. rewrite <- Hi. by apply count_store. }
    destruct (IH fuel s1 Hp ltac:(lia)) as (l & Hrun & Hl & Hn);
      rewrite ?Hv1, ?Hr1; try lia.
    + by apply settled_store.
    + intros i Hi2. replace (S r + i)%nat with (r + S i)%nat by lia. apply Hgo. lia.
    + by replace (S r + k)%nat with (r + S k)%nat by lia.
    + exists l. rewrite Hrun, Hv1, Hl, Hn. split_and!; [| lia | lia].
      cbn [printed s1]. rewrite <- app_assoc. do 4 f_equal.
      rewrite (seqZ_cons v) by lia. do 2 f_equal; lia.
Qed.
End conversation.

(** ** The counter of spu_example2 *)

Definition byte (w : Z) : Z := Z.shiftr (u32 w) 24.
Definition is_stop (e : event) : bool := match e with spu_stop c => c =? 0 | _ => false end.
Definition stops (l : list event) : nat := length (List.filter is_stop l).

Lemma byte_range w : 0 <= byte w < 2 ^ 8.
Proof.
  unfold byte. pose proof (u32_range w). rewrite Z.shiftr_div_pow2 by lia. split.
  - apply Z.div_pos; lia.
  - apply Z.div_lt_upper_bound; lia.
Qed.

Lemma byte_u32 w : byte (u32 w) = byte w.
Proof. unfold byte. by rewrite u32_u32. Qed.

Lemma byte_stored b w : byte (Z.lor (Z.shiftl (b mod 2 ^ 8) 24) (Z.land w (Z.ones 24))) = b mod 2 ^ 8.
Proof.
  pose proof (Z.mod_pos_bound b (2 ^ 8) ltac:(lia)) as Hb. set (x := b mod 2 ^ 8) in *.
  assert (0 <= Z.land w (Z.ones 24) < 2 ^ 24) as Hl.
  { rewrite Z.land_ones by lia. apply Z.mod_pos_bound. lia. }
  assert (Z.shiftr (Z.lor (Z.shiftl x 24) (Z.land w (Z.ones 24))) 24 = x) as Hs.
  { rewrite Z.shiftr_lor, Z.shiftr_shiftl_l, Z.shiftl_0_r by lia.
    rewrite (Z.shiftr_div_pow2 (Z.land _ _)), Z.div_small, Z.lor_0_r by lia. done. }
  unfold byte. rewrite u32_small; [done |].
  rewrite Z.shiftr_div_pow2 in Hs by lia.
  assert (0 <= Z.lor (Z.shiftl x 24) (Z.land w (Z.ones 24))).
  { apply Z.lor_nonneg. split; [apply Z.shiftl_nonneg |]; lia. }
  set (y := Z.lor _ _) in *. pose proof (Z.div_mod y (2 ^ 24) ltac:(lia)) as Hy.
  pose proof (Z.mod_pos_bound y (2 ^ 24)). lia.
Qed.

(** [n] rounds of the endless loop. *)
Fixpoint example2_rounds `{Mfc} (n : nat) (ex2 : Z) : M spe unit :=
  match n with
  | O => mret tt
  | S n => example2_round ex2;; example2_rounds n ex2
  end.

Section counter.
Context `{Mfc} (addr : Z) {HL : LocalStore addr} (Haddr : addr <> 0).
Implicit Types (s : spe) (l : list event).

Lemma run_example2_round s :
  settled (events s) ->
  exists l, example2_round addr s =
      Ok (None, Spe l (printed s ++ [byte (ls_word (events s) addr 0)])) /\
    settled l /\ byte (ls_word l addr 0) = (byte (ls_word (events s) addr 0) + 1) mod 2 ^ 8 /\
    stops l = S (stops (events s)).
Proof.
  intros Hs. set (l1 := events s ++ [spu_stop 0]).
  assert (settled l1) as Hs1 by (by apply settled_quiet).
  assert (ls_word l1 addr 0 = ls_word (events s) addr 0) as Hw1 by (by apply kept).
  unfold example2_round, example2_show, example2_add, load_byte, store_byte.
  rewrite !M_bind_assoc. erewrite M_bind_ok by (by apply (run_load addr)). mstep.
  rewrite M_bind_assoc. erewrite M_bind_ok by apply run_show.
  erewrite M_bind_ok by (by apply run_on_log). cbn [events printed].
  rewrite !M_bind_assoc. erewrite M_bind_ok by (by apply (run_load addr)). mstep.
  rewrite !M_bind_assoc. erewrite M_bind_ok by (by apply (run_load addr)).
  erewrite M_bind_ok by (by apply (run_store addr)). cbn [events printed]. rewrite run_ret.
  eexists. split; [reflexivity |]. split; [by apply settled_store |]. split.
  - rewrite stored, byte_u32, byte_stored. by rewrite <- Hw1.
  - unfold stops, l1. rewrite !List.filter_app, !length_app. cbn. lia.
Qed.

Lemma run_example2_rounds n : forall s,
  settled (events s) -> let b := byte (ls_word (events s) addr 0) in
  exists l, example2_rounds n addr s =
      Ok (tt, Spe l (printed s ++ map (fun i => (b + i) mod 2 ^ 8) (seqZ 0 (Z.of_nat n)))) /\
    settled l /\ stops l = (stops (events s) + n)%nat.
Proof.
  induction n as [| n IH]; intros s Hs b; cbn [example2_rounds].
  { exists (events s). cbn. rewrite app_nil_r. split_and!; [by destruct s | done | lia]. }
  destruct (run_example2_round s Hs) as (l1 & Hrun & Hs1 & Hb & Hn).
  erewrite M_bind_ok by exact Hrun. destruct (IH (Spe l1 (printed s ++ [b])) Hs1) as (l & Hrest & Hl & Hst).
  exists l. fold b. rewrite Hrest. cbn [events printed] in *. split_and!; [| done | rewrite Hst; cbn [events]; rewrite Hn; lia].
  fold b in Hb. rewrite Hb, <- app_assoc. do 4 f_equal. rewrite (seqZ_cons 0 (Z.of_nat (S n))) by lia.
  cbn [map app]. rewrite Z.add_0_r. rewrite (Z.mod_small b) by apply byte_range. f_equal.
  replace (Z.pred (Z.of_nat (S n))) with (Z.of_nat n) by lia.
  change (Z.succ 0) with (1 + 0). rewrite <- (fmap_add_seqZ 1). change (fmap ?f ?l) with (map f l). rewrite map_map.
  apply map_ext. intros i. rewrite Zplus_mod_idemp_l. f_equal. lia.
Qed.

Lemma example2_endless fuel : forall s,
  settled (events s) -> loop fuel (example2_round addr) s = OutOfFuel.
Proof.
  induction fuel as [| fuel IH]; intros s Hs; cbn [loop]; [done |].
  destruct (run_example2_round s Hs) as (l & -> & Hl & _). by apply IH.
Qed.
End counter.

(** * Properties *)

(** The log when the object of [size] bytes at [argp] has been fetched. *)
Definition fetched `{Mfc} (size argp envp : Z) (l : list event) : list event :=
  ((((l ++ [ls_alloc size]) ++ [mfc In Plain (channel (l ++ [ls_alloc size])) argp (u32 envp) 0]) ++
    [mfc_write_tag_mask 1]) ++ [mfc_read_tag_status_any]).

Section properties.
Context `{Mfc} (argp envp : Z) (s : spe).
Context (Hs : settled (events s)) (Ht : tags_ok (events s)).

(** Spu_example1 counts: when the host reads its interrupts and answers [k]
    times with something else than STOP and then with STOP, the program fetches
    its integer [v], shows [v], [v + 1], ..., [v + k], raises [k + 1] interrupts,
    leaves [v + k] in its copy, and returns 0; at the largest [int] it would
    overflow. *)
Theorem spu_example1_counts (word : nat -> Z) (k fuel polls : nat) (msg : Z) :
  let addr := channel (events s ++ [ls_alloc sizeof_example1_s]) in
  let l := fetched sizeof_example1_s argp envp (events s) in
  let v := s32 (ls_word l addr 0) in
  LocalStore addr -> addr <> 0 -> host_answers word -> (0 < polls)%nat -> (k < fuel)%nat ->
  received (events s) = 0%nat ->
  (forall i, (i < k)%nat -> u32 (word i) <> STOP) -> u32 (word k) = STOP ->
  v + Z.of_nat k < 2 ^ 31 ->
  exists l', example1_main fuel polls msg argp envp s =
      Ok (0, Spe l' (printed s ++ seqZ v (Z.of_nat k + 1))) /\
    s32 (ls_word l' addr 0) = v + Z.of_nat k /\
    interrupts l' = (interrupts (events s) + k + 1)%nat.
Proof.
  intros addr l v HL Haddr Hhost Hp Hf Hr0 Hgo Hstop Hv.
  destruct (run_fetch sizeof_example1_s argp envp s Hs Ht) as (Ha & Hd & Hl).
  assert (received l = 0%nat /\ interrupts l = interrupts (events s)) as [Hrl Hil].
  { unfold l, fetched, received, interrupts in *. rewrite !List.filter_app, !length_app. cbn. lia. }
  unfold example1_main. erewrite M_bind_ok by exact Ha. erewrite M_bind_ok by exact Hd.
  destruct (run_example1_loop addr Haddr word Hhost polls msg k fuel (Spe l (printed s)))
    as (l' & Hrun & Hw & Hi); cbn [events]; rewrite ?Hrl; try done.
  exists l'. erewrite M_bind_ok by exact Hrun. rewrite run_ret. split_and!; [done | done |].
  rewrite Hi. cbn [events]. lia.
Qed.

(** Spu_example2 is an endless counter of one byte: after [n] rounds it has
    fetched its byte [b], shown [b], [b + 1], ... modulo 256, and stopped [n]
    times with code 0; and it never returns. *)
Theorem spu_example2_counts (n fuel : nat) :
  let addr := channel (events s ++ [ls_alloc sizeof_example2_s]) in
  let l := fetched sizeof_example2_s argp envp (events s) in
  let b := byte (ls_word l addr 0) in
  LocalStore addr -> addr <> 0 ->
  (exists l', (ex2 ← example2_start argp envp; example2_rounds n ex2) s =
      Ok (tt, Spe l' (printed s ++ map (fun i => (b + i) mod 2 ^ 8) (seqZ 0 (Z.of_nat n)))) /\
    stops l' = (stops (events s) + n)%nat) /\
  example2_main fuel argp envp s = OutOfFuel.
Proof.
  intros addr l b HL Haddr.
  destruct (run_fetch sizeof_example2_s argp envp s Hs Ht) as (Ha & Hd & Hl).
  assert (example2_start argp envp s = Ok (addr, Spe l (printed s))) as Hstart.
  { unfold example2_start. erewrite M_bind_ok by exact Ha. by erewrite M_bind_ok by exact Hd. }
  split.
  - destruct (run_example2_rounds addr Haddr n (Spe l (printed s)) Hl) as (l' & Hrun & _ & Hst).
    exists l'. erewrite M_bind_ok by exact Hstart. split; [exact Hrun |]. rewrite Hst. cbn [events].
    unfold l, fetched, stops. rewrite !List.filter_app, !length_app. cbn. lia.
  - unfold example2_main. erewrite M_bind_ok by exact Hstart. by apply (example2_endless addr Haddr).
Qed.
End properties.

(** * Witnesses *)

(** The integer 5 in main memory, and a host that says 7, 7 and then STOP. *)
Definition answering (l : list event) : Z :=
  match List.last l (spu_stop 1) with
  | ls_alloc _ => 4096
  | spu_read_in_mbox => if (received l <? 3)%nat then 7 else STOP
  | _ => 1
  end.
#[local] Instance example_spe : Mfc :=
  machine (fun _ => 5, fun _ => 0) (fun _ m => m) answering (fun _ => 0x3ff0).

Lemma answering_ok : host_answers (fun i => if (i <? 2)%nat then 7 else STOP).
Proof.
  split; intros l; cbn [channel example_spe machine]; unfold answering; rewrite List.last_last;
    [done | done |].
  unfold received. rewrite List.filter_app, length_app. cbn [List.filter is_received length].
  rewrite Nat.add_1_r. reflexivity.
Qed.

Lemma spu_example1_counts_witness :
  exists l', example1_main 3 1 0x3ff0 0x8000 4 (Spe [] []) = Ok (0, Spe l' [5; 6; 7]) /\
    interrupts l' = 3%nat.
Proof.
  destruct (spu_example1_counts 0x8000 4 (Spe [] []) eq_refl ltac:(by constructor)
    (fun i => if (i <? 2)%nat then 7 else STOP) 2 3 1 0x3ff0) as (l' & Hrun & _ & Hi).
  - apply machine_local_store.
  - vm_compute. congruence.
  - exact answering_ok.
  - lia.
  - lia.
  - reflexivity.
  - intros i Hi. destruct (Nat.ltb_spec i 2); [vm_compute; congruence | lia].
  - reflexivity.
  - vm_compute. reflexivity.
  - exists l'. split; [exact Hrun | exact Hi].
Defined.

Lemma spu_example2_counts_witness :
  exists l', (ex2 ← example2_start 0x8000 1; example2_rounds 3 ex2) (Spe [] []) =
    Ok (tt, Spe l' [0; 1; 2]) /\ stops l' = 3%nat.
Proof.
  destruct (spu_example2_counts 0x8000 1 (Spe [] []) eq_refl ltac:(by constructor) 3 1)
    as [(l' & Hrun & Hst) _].
  - apply machine_local_store.
  - vm_compute. congruence.
  - exists l'. split; [exact Hrun | exact Hst].
Defined.
