(* ===== verification/TaskSpec.v ===== *)
(** The SPE program as a whole: how it starts, that its main loop never ends,
    and the properties of its pipeline. *)
From stdpp Require Import base list gmap.
From Stdlib Require Import ZArith Lia.
From S2P Require Import Prelude.
From S2P Require Import Messages.
From S2P Require Import LinkedList.
From S2P Require Import Dma.
From S2P Require Import TaskManager.
From S2P Require Import TaskPipeline.
From S2P Require Import TaskLoop.

(** * The main loop *)

(** Nothing assigns [current_task]. *)
Definition no_task (s : spu) : Prop := current_task s = 0.

Section keeps_program.
Context `{Mfc}.
Local Abbreviation keeps m := (Prelude.keeps no_task m).

Lemma keeps_entry_at i : keeps (entry_at i).
Proof. unfold entry_at. eauto with keeps. Qed.
Lemma keeps_prog_at p : keeps (prog_at p).
Proof. unfold prog_at. eauto with keeps. Qed.
Hint Resolve keeps_entry_at keeps_prog_at : keeps.
Lemma keeps_dma {A : Type} (m : M (list event) A) : keeps (dma m).
Proof. unfold dma. eauto 10 with keeps. Qed.
Lemma keeps_on_list {A : Type} (m : M lstate A) : keeps (on_list m).
Proof. unfold on_list. eauto 10 with keeps. Qed.
Hint Resolve keeps_dma keeps_on_list : keeps.
Lemma keeps_word a k : keeps (word a k).
Proof. unfold word. eauto with keeps. Qed.
Lemma keeps_put_word a k v : keeps (put_word a k v).
Proof. unfold put_word. eauto with keeps. Qed.
Hint Resolve keeps_word keeps_put_word : keeps.
Lemma keeps_task_word a k : keeps (task_word a k).
Proof. unfold task_word. eauto 10 with keeps. Qed.
Lemma keeps_alloc n : keeps (alloc n).
Proof. unfold alloc. eauto with keeps. Qed.
Lemma keeps_context k : keeps (context k).
Proof. unfold context. eauto 10 with keeps. Qed.
Lemma keeps_upd_entry i f : keeps (upd_entry i f).
Proof. unfold upd_entry. eauto 20 with keeps. Qed.
Lemma keeps_upd_tstate f : keeps (upd_tstate f).
Proof. unfold upd_tstate. eauto with keeps. Qed.
Lemma keeps_fifo_double k : keeps (fifo_double k).
Proof. unfold fifo_double. eauto 20 with keeps. Qed.
Lemma keeps_max_entries : keeps fifo_max_entries.
Proof. unfold fifo_max_entries. eauto 20 with keeps. Qed.
Hint Resolve keeps_task_word keeps_alloc keeps_context keeps_upd_entry keeps_upd_tstate
  keeps_fifo_double keeps_max_entries : keeps.
Lemma keeps_check_tasks : keeps check_tasks.
Proof. unfold check_tasks, fifo_atomic. eauto 20 with keeps. Qed.
Hint Resolve keeps_check_tasks : keeps.
Lemma keeps_stage1 : keeps stage1.
Proof. unfold stage1, fifo_task_fifo. eauto 30 with keeps. Qed.
Lemma keeps_register p : keeps (register_program p).
Proof. unfold register_program. eauto 40 with keeps. Qed.
Lemma keeps_search2 id : keeps (stage2_search id).
Proof. unfold stage2_search. eauto 20 with keeps. Qed.
Lemma keeps_search3 fuel : forall p id, keeps (stage3_search fuel p id).
Proof. induction fuel as [| fuel IH]; intros p id; cbn [stage3_search]; [done |]. eauto 20 with keeps. Qed.
Hint Resolve keeps_stage1 keeps_register keeps_search2 keeps_search3 : keeps.
Lemma keeps_stage2 : keeps stage2.
Proof. unfold stage2. eauto 40 with keeps. Qed.
Lemma keeps_stage3 fuel indet : keeps (stage3 fuel indet).
Proof. unfold stage3. eauto 60 with keeps. Qed.
Lemma keeps_stage4 : keeps stage4.
Proof. unfold stage4, fifo_ack_fifo. eauto 40 with keeps. Qed.
Lemma keeps_call_stage3 fuel indet : keeps (call_stage3 fuel indet).
Proof. unfold call_stage3. apply keeps_bind; [eauto with keeps | intros l; apply keeps_stage3]. Qed.
Hint Resolve keeps_stage2 keeps_call_stage3 keeps_stage4 : keeps.
Lemma keeps_pipeline fuel indet : keeps (pipeline fuel indet).
Proof. unfold pipeline, pipeline_round, stages. eauto 40 with keeps. Qed.
Hint Resolve keeps_pipeline : keeps.
Lemma keeps_main_round fuel indet : keeps (main_round fuel indet).
Proof. unfold main_round. eauto 40 with keeps. Qed.
Lemma keeps_init_entries a t n : forall i, keeps (init_entries a t i n).
Proof. induction n as [| n IH]; intros i; cbn [init_entries]; eauto 40 with keeps. Qed.
Hint Resolve keeps_init_entries : keeps.
Lemma keeps_main_start argp envp : keeps (main_start argp envp).
Proof. unfold main_start, allocate_pipe_entries. eauto 60 with keeps. Qed.
End keeps_program.

(** * Start *)

(** The static variables before [main]. *)
Definition boot : spu :=
  Spu [] 0 WAIT (Task_state 0 0 0 0) 0 (repeat (Pipe_entry 0 0 0 0 0 0) 4) 0 0
    (Lstate ∅ Null) ∅.

Section start.
Context `{Mfc} (argp envp : Z) (desc : fifo_s).

(** The log at each allocation of [main], and the buffers it yields. *)
Definition alloc_log (k : nat) : list event :=
  ls_alloc 512 :: repeat (ls_alloc 16) k.
Definition atomic_log : list event := alloc_log 4 ++ [ls_alloc 128].
Definition fifo_log : list event := atomic_log ++ [ls_alloc envp].
(** The log when the description of the queue has arrived, and when the loop of
    [main] begins. *)
Definition fetched_log : list event :=
  fifo_log ++ [mfc In Plain (channel fifo_log) argp (u32 envp) 0; mfc_write_tag_mask 1;
               mfc_read_tag_status_any].
Definition boot_log : list event := fetched_log ++ [ls_alloc 16].

Definition boot_buffers : buffers := Buffers
  (fun i => channel (alloc_log 0) + i * 128)
  (fun i => channel (alloc_log (S (Z.to_nat i))))
  (channel fifo_log) (channel atomic_log) desc fetched_log.

Lemma boot_flights : flights boot_log = (1, []).
Proof. reflexivity. Qed.

Lemma boot_flights_ok : flights_ok boot_buffers boot_log.
Proof.
  split; [| apply grown_app; [apply grown_start | by apply Forall_singleton]].
  intros f. rewrite boot_flights. intros Hin. by apply elem_of_nil in Hin.
Qed.

(** The contexts [allocate_pipe_entries] makes. *)
Definition boot_pipe : list pipe_entry_s :=
  map (fun i => Pipe_entry (b_task boot_buffers i) 0 i (u32 (-1)) (b_ack boot_buffers i) 0)
    [0; 1; 2; 3].

Lemma run_allocate :
  allocate_pipe_entries STAGES TASK_SIZE boot =
  Ok (tt, set_pipe boot_pipe (logged boot (alloc_log 4))).
Proof. reflexivity. Qed.

(** The pipeline starts idle, at the last slot. *)
Lemma run_main_start :
  buffers_ok boot_buffers -> channel boot_log <> 0 ->
  exists s, main_start argp envp boot = Ok (tt, s) /\
    current_task s = 0 /\ current_state s = WAIT /\ events s = boot_log /\
    front (tstate s) = max_entries desc - 1 /\ cycle s = 0 /\
    piped boot_buffers (max_entries desc - 1) (fetches boot_log) (stores boot_log)
      0 0 None None None s.
Proof.
  intros HB Hlist. pose proof (b_entries _ HB) as HN. cbn in HN.
  unfold main_start. erewrite M_bind_ok by exact run_allocate.
  do 3 mstep. set (s1 := set_blocks _ _ _).
  assert (events s1 = fifo_log) as Hev1 by reflexivity.
  erewrite M_bind_ok; cycle 1.
  { apply (dma_run _ _ tt [mfc In Plain (channel fifo_log) argp (u32 envp) 0;
      mfc_write_tag_mask 1; mfc_read_tag_status_any]).
    unfold dmaGetnWait. rewrite tag_mask_ok by lia. mrun. rewrite run_ret, Hev1.
    by rewrite <- !app_assoc. }
  set (s2 := logged s1 _).
  assert (flights_ok boot_buffers (events s2)) as Hl2.
  { unfold s2. cbn [events logged set_events]. rewrite Hev1. split; [| apply grown_start].
    intros f. change (flights _).2 with (@nil flight). intros Hin. by apply elem_of_nil in Hin. }
  erewrite M_bind_ok by (by apply (run_max_entries boot_buffers HB)).
  assert (s32 (u32 (max_entries desc - 1)) = max_entries desc - 1) as Hb.
  { rewrite s32_u32. apply s32_small. lia. }
  cbn [b_desc boot_buffers]. rewrite Hb. do 3 mstep.
  assert (channel (events (set_state WAIT (set_tstate
    (set_front (max_entries desc - 1) (set_in_back (max_entries desc - 1)
       (set_out_back (max_entries desc - 1) (tstate s2)))) s2)) ++ [ls_alloc 16]) = channel boot_log)
    as Hch.
  { cbn [events set_state set_tstate s2 logged set_events]. by rewrite Hev1. }
  rewrite Hch, (proj2 (Z.eqb_neq _ _) Hlist). cbn [negb].
  change (listInit true (Lstate ∅ Null)) with (Ok (tt, Lstate ∅ (Valid (List 0 0 0 0)))).
  mstep. rewrite run_ret. set (s3 := logged _ _).
  assert (events s3 = boot_log) as Hev3.
  { unfold s3, s2. cbn [events set_state set_tstate logged set_events]. by rewrite Hev1. }
  exists s3. split_and!; try done.
  assert (forall i, 0 <= i < 4 -> entry_is boot_buffers s3 i None) as He.
  { intros i Hi.
    exists (Pipe_entry (b_task boot_buffers i) 0 i (u32 (-1)) (b_ack boot_buffers i) 0).
    split; [| by split_and!].
    change (pipe s3) with boot_pipe.
    destruct (decide (i = 0)) as [-> |]; [done |]. destruct (decide (i = 1)) as [-> |]; [done |].
    destruct (decide (i = 2)) as [-> |]; [done |]. by replace i with 3 by lia. }
  split; try done; try (rewrite Hev3).
  - by apply (He 0).
  - by apply (He 1).
  - by apply (He 2).
  - by apply (He 3).
  - apply boot_flights_ok.
  - cbn [b_desc boot_buffers]. rewrite Z.add_0_r, Z.mod_small by lia. done.
  - cbn [b_desc boot_buffers]. rewrite Z.add_0_r, Z.mod_small by lia. done.
  - cbn. by rewrite app_nil_r.
Qed.
End start.

(** * The addition *)

Lemma triangle_succ n : 0 <= n -> (n + 1) * (n + 1 - 1) / 2 = n * (n - 1) / 2 + n.
Proof.
  intros Hn. replace ((n + 1) * (n + 1 - 1)) with (n * (n - 1) + n * 2) by lia.
  by rewrite Z.div_add.
Qed.

Lemma triangle_nonneg n : 0 <= n -> 0 <= n * (n - 1) / 2.
Proof. intros Hn. apply Z.div_pos; [| lia]. destruct (decide (n = 0)) as [-> |]; [lia | nia]. Qed.

Lemma add_loop_sum n : forall i a b r,
  0 <= i -> 0 <= a -> 0 <= b -> 0 <= r ->
  a + i + Z.of_nat n + b < 2 ^ 31 ->
  r + Z.of_nat n * (a + i + b) + Z.of_nat n * (Z.of_nat n - 1) / 2 < 2 ^ 31 ->
  add_loop n i a b r =
  Ok (r + Z.of_nat n * (a + i + b) + Z.of_nat n * (Z.of_nat n - 1) / 2).
Proof.
  induction n as [| n IH]; intros i a b r Hi Ha Hb Hr Hs Hlt; cbn [add_loop].
  { f_equal. change (Z.of_nat 0) with 0. change (0 * (0 - 1) / 2) with 0. lia. }
  replace (Z.of_nat (S n)) with (Z.of_nat n + 1) in * by lia.
  rewrite triangle_succ in * by lia. pose proof (triangle_nonneg (Z.of_nat n) ltac:(lia)).
  assert (0 <= Z.of_nat n * (a + i + b)) by nia.
  rewrite (to_int_ok (a + i)) by lia. cbn [mbind res_bind].
  rewrite (to_int_ok (a + i + b)) by lia. cbn [mbind res_bind].
  rewrite (to_int_ok (r + _)) by lia. cbn [mbind res_bind].
  rewrite IH; try lia. f_equal. lia.
Qed.

(** Idle at [b], with the line at [F], [d] slots ahead. *)
Lemma run_pipeline_idle `{Mfc} (B : buffers) (stable : Z -> Prop) (main : Z -> Z -> Z) (fuel : nat)
    (indet : nat -> Z) (F b d : Z) (fs ss : list Z) (s : spu) :
  let N := max_entries (b_desc B) in
  buffers_ok B -> copies B stable main -> line_says B F ->
  0 <= d < N -> F = (b + d) mod N -> 4 * d < Z.of_nat fuel ->
  (forall j, 0 <= j < d -> is_addition B stable main (res_at B indet j) ((b + j) mod N)) ->
  piped B b fs ss 0 0 None None None s ->
  sent (run_of B (events s)) = [] -> additions (events s) = additions (b_start B) ->
  exists s', pipeline fuel indet s = Ok (tt, s') /\
    piped B F (fetches (events s')) (stores (events s')) 0 0 None None None s' /\
    fetches (events s') = fs ++ map (fun j => task_ea B ((b + j) mod N)) (seqZ 0 d) /\
    stores (events s') = ss ++ map (fun j => ack_ea B ((b + 1 + j) mod N)) (seqZ 0 d) /\
    sent (run_of B (events s')) =
      map (fun j => (ack_ea B ((b + 1 + j) mod N), outcome B main (res_at B indet j) ((b + j) mod N)))
        (seqZ 0 d).
Proof.
  intros N HB Hm Hline Hd HF Hfuel Hadd HP Hs0 Hn0.
  destruct (loop_completes B HB stable main fuel indet F b d fs ss fuel Hm Hline Hd HF Hadd 0 0 None None None s)
    as (s' & Hrun & HP' & Hh); [lia | done | | unfold work; cbn; lia |].
  { split; try done; cbn; lia. }
  exists s'. split; [done |]. split; [| split; [| split]].
  - destruct HP'. split; try done; cbn; rewrite ?app_nil_r; try done.
    + rewrite pi_in, HF, Z.add_0_r, Z.mod_mod by lia. done.
    + rewrite pi_out, HF, Z.add_0_r, Z.mod_mod by lia. done.
  - rewrite (pi_fetched _ _ _ _ _ _ _ _ _ _ HP'). f_equal. unfold slots_after.
    rewrite map_map. apply map_ext. intros j. do 2 f_equal. lia.
  - rewrite (pi_stored _ _ _ _ _ _ _ _ _ _ HP'). unfold slots_after. by rewrite map_map.
  - apply Hh.
Qed.

(** * Properties *)

(** [main] reads the description of its queue, and enters its loop with all
    four contexts empty, nothing in flight, and its three indices at the last
    slot, whatever addresses the allocations gave. *)
Theorem main_starts_idle `{Mfc} (argp envp : Z) (desc : fifo_s) :
  buffers_ok (boot_buffers argp envp desc) -> channel (boot_log argp envp) <> 0 ->
  exists s, main_start argp envp boot = Ok (tt, s) /\
    current_state s = WAIT /\ front (tstate s) = max_entries desc - 1 /\
    piped (boot_buffers argp envp desc) (max_entries desc - 1)
      (fetches (boot_log argp envp)) (stores (boot_log argp envp)) 0 0 None None None s.
Proof.
  intros HB Hl. destruct (run_main_start argp envp desc HB Hl) as (s & Hrun & _ & Hst & _ & Hf & _ & HP).
  by exists s.
Qed.

(** C9: the pipeline is a queue, and safe, whatever the host writes to its line
    and whatever the tasks are: from any state between two cycles, a run of the
    pipeline that returns has fetched consecutive slots and acknowledged
    consecutive slots, in order and at most three behind; and one that does not
    fails for another reason than touching a buffer that a transfer is using. *)
Theorem pipeline_in_order `{Mfc} (B : buffers) (fuel : nat) (indet : nat -> Z) (b m n : Z)
    (fs ss : list Z) (o1 o2 o3 : option Z) (s : spu) :
  buffers_ok B -> piped B b fs ss m n o1 o2 o3 s ->
  match pipeline fuel indet s with
  | Ok (_, s') => exists m' n', m <= m' /\ n <= n' /\ 0 <= n' - m' <= 3 /\
      fetches (events s') = fs ++ map (task_ea B) (slots_after B (b - 1) 0 n') /\
      stores (events s') = ss ++ map (ack_ea B) (slots_after B b 0 m') /\
      front (tstate s') = out_back (tstate s') /\
      exists o1' o2' o3', piped B b fs ss m' n' o1' o2' o3' s'
  | Fault f => f <> DmaRace
  | OutOfFuel => True
  end.
Proof.
  intros HB HP. pose proof (piped_loop B HB fuel indet b fs ss fuel m n o1 o2 o3 s HP) as Hrun.
  unfold pipeline. destruct (loop _ _ s) as [[u s'] | |]; [| done..].
  destruct Hrun as (m' & n' & p1 & p2 & p3 & HP' & Hm & Hn & Hfr).
  pose proof (piped_depth B b fs ss m' n' p1 p2 p3 s' HP') as Hd.
  exists m', n'. split_and!; try done; [destruct p1, p2, p3; cbn in Hd; lia.. | | | by eauto].
  - apply HP'.
  - apply HP'.
Qed.

(** C10: the pipeline finishes what it is given, and computes it: when DMA copies
    the slots that stay the same in main memory, the line of the host keeps saying
    slot [F], [d] slots after the one where the pipeline is idle, and the [d] slots
    from there on hold additions that do not overflow with what [res] holds when
    their turn comes (another value at each call of [stage3]: nothing assigns it),
    [4 d + 1] cycles are enough for it to return, idle at [F].  It then has fetched
    those slots, and acknowledged the [d] slots up to [F], each with the result of
    the task in the slot before it, computed from what [res] held in that call. *)
Theorem pipeline_completes `{Mfc} (B : buffers) (stable : Z -> Prop) (main : Z -> Z -> Z) (fuel : nat)
    (indet : nat -> Z) (F b d : Z) (fs ss : list Z) (s : spu) :
  let N := max_entries (b_desc B) in
  buffers_ok B -> copies B stable main -> line_says B F ->
  0 <= d < N -> F = (b + d) mod N -> 4 * d < Z.of_nat fuel ->
  (forall j, 0 <= j < d -> is_addition B stable main (res_at B indet j) ((b + j) mod N)) ->
  piped B b fs ss 0 0 None None None s ->
  sent (run_of B (events s)) = [] -> additions (events s) = additions (b_start B) ->
  exists s', pipeline fuel indet s = Ok (tt, s') /\
    piped B F (fetches (events s')) (stores (events s')) 0 0 None None None s' /\
    fetches (events s') = fs ++ map (fun j => task_ea B ((b + j) mod N)) (seqZ 0 d) /\
    stores (events s') = ss ++ map (fun j => ack_ea B ((b + 1 + j) mod N)) (seqZ 0 d) /\
    sent (run_of B (events s')) =
      map (fun j => (ack_ea B ((b + 1 + j) mod N), outcome B main (res_at B indet j) ((b + j) mod N)))
        (seqZ 0 d).
Proof. apply run_pipeline_idle. Qed.

(** C39: the addition: stage3 on a task [ADD, _, n, a, b] whose sums stay in
    range stores, as the result, [n (a + b) + n (n - 1) / 2] more than what the
    variable [res] held, which nothing ever assigned: the result that is
    acknowledged depends on an indeterminate value. *)
Theorem stage3_addition `{Mfc} (B : buffers) (fuel : nat) (indet n a b en : Z) (s : spu) :
  let c := (cycle s + 2) mod 4 in
  let w k := s32 (ls_word (events s) (b_task B c) k) in
  buffers_ok B -> flights_ok B (events s) -> list_ptr (plist s) = Null ->
  entry_is B s c (Some en) -> quiet c (events s) ->
  w 0 = s32 ADD -> w 2 = n -> w 3 = a -> w 4 = b ->
  0 <= n -> 0 <= a -> 0 <= b -> 0 <= indet -> a + n + b < 2 ^ 31 ->
  indet + n * (a + b) + n * (n - 1) / 2 < 2 ^ 31 ->
  stage3 fuel indet s =
  Ok (tt, logged s [ls_store (b_ack B c) 1 (indet + n * (a + b) + n * (n - 1) / 2)]).
Proof.
  intros c w HB Hl Hp He Hq H0 H2 H3 H4 Hn Ha Hb Hi Hs Hlt.
  pose proof (run_stage3 B HB fuel indet s (Some en) Hl Hp He (fun _ => Hq)) as Hrun.
  cbv zeta in Hrun. fold c in Hrun. unfold command in Hrun.
  change (s32 (ls_word (events s) (b_task B c) 0)) with (w 0) in Hrun.
  rewrite H0, Z.eqb_refl in Hrun. unfold added in Hrun. cbv zeta in Hrun.
  fold (w 2) in Hrun. fold (w 3) in Hrun. fold (w 4) in Hrun. rewrite H2, H3, H4 in Hrun.
  pose proof (triangle_nonneg n Hn). assert (0 <= n * (a + b)) by nia.
  rewrite add_loop_sum in Hrun; rewrite ?Z2Nat.id, ?Z.add_0_r in *; try lia.
  rewrite Hrun. by rewrite u32_small by lia.
Qed.

(** Any task that is not an addition stops the SPE program: when stage2
    meets REGISTER_PROGRAM it overflows the four bytes it allocated for the
    program (or fails on the way there), and on NOOP and on every other command
    it looks for a program in a list that was never assigned. *)
Theorem stage2_other_commands `{Mfc} (B : buffers) (en : Z) (s : spu) :
  let c := (cycle s + 1) mod 4 in
  let cmd := command B (events s ++ wait c) c in
  buffers_ok B -> flights_ok B (events s) -> list_ptr (plist s) = Null ->
  entry_is B s c (Some en) -> cmd <> s32 ADD ->
  if cmd =? s32 REGISTER_PROGRAM then
    exists f, stage2 s = Fault f /\ (f = NullDeref \/ f = SignedOverflow \/ f = OutOfBounds)
  else stage2 s = Fault NullDeref.
Proof.
  intros c cmd HB Hl Hp He Hne.
  pose proof (run_stage2 B HB s (Some en) Hl Hp He) as Hrun. cbv zeta in Hrun.
  change (events (logged s (wait ((cycle s + 1) mod 4)))) with (events s ++ wait c) in Hrun.
  fold c in Hrun. fold cmd in Hrun. destruct (cmd =? s32 REGISTER_PROGRAM); [done |].
  by rewrite (proj2 (Z.eqb_neq _ _) Hne) in Hrun.
Qed.

Lemma main_loop_never_returns `{Mfc} fuel indet k : forall s v s',
  current_task s = 0 -> loop k (main_round fuel indet) s <> Ok (v, s').
Proof.
  induction k as [| k IH]; intros s v s' Ht; cbn [loop]; [done |].
  destruct (main_round fuel indet s) as [[o s1] | |] eqn:Hr; [| done..].
  pose proof (keeps_main_round _ _ _ _ _ Hr Ht) as H1. unfold no_task in H1.
  destruct o as [x |]; [| by apply IH].
  unfold main_round in Hr. mstep_in Hr. apply M_bind_inv in Hr as ([] & s2 & _ & Hr).
  mstep_in Hr. injection Hr as Ho ->. rewrite H1 in Ho. done.
Qed.

(** The SPE program never ends: [main] does not return, whatever the host
    sends; the message STOP, which its loop tests for, is compared with a
    variable nothing assigns. *)
Theorem main_never_returns `{Mfc} (fuel : nat) (indet : nat -> Z) (argp envp v : Z) (s s' : spu) :
  current_task s = 0 -> main fuel indet argp envp s <> Ok (v, s').
Proof.
  intros Ht Hrun. unfold main in Hrun. apply M_bind_inv in Hrun as ([] & s1 & Hs & Hl).
  pose proof (keeps_main_start _ _ _ _ _ Hs Ht).
  by eapply main_loop_never_returns.
Qed.

(** * A concrete SPE *)

(** Allocations that never fail, a queue of [n] slots, a line that says slot
    [F], and tasks that add 3 times 5 and 7 (or with the command [cmd]). *)
Definition board (cmd n F : Z) : Mfc := {|
  channel l := 4096 * Z.of_nat (length l);
  ls_word _ a k :=
    if a =? 28672 then
      List.nth (Z.to_nat k) [0; 0x10000; 0; 0x20000; 0; 0x30000; n; 1] 0
    else if a =? 24576 then List.nth (Z.to_nat k) [F; 1] 0
    else List.nth (Z.to_nat k) [cmd; 0; 3; 5; 7] 0;
  addr_of_message _ := 0x3ff0;
  MFC_PUTLLC_STATUS := 1
|}.

Definition board_desc (n : Z) : fifo_s := Fifo_s 0x10000 0x20000 0x30000 n 1 0.

Lemma board_buffers_ok cmd n F :
  0 < n < 2 ^ 24 -> @buffers_ok (board cmd n F) (@boot_buffers (board cmd n F) 0x8000 48 (board_desc n)).
Proof.
  intros Hn.
  assert (forall k, length (repeat (ls_alloc 16) k) = k) as Hr by apply repeat_length.
  split; cbn [b_task b_ack b_fifo b_atomic b_desc boot_buffers];
    unfold fifo_log, atomic_log, alloc_log; cbn [channel board]; intros;
    rewrite ?length_app, ?length_cons, ?Hr in *; cbn [length] in *; try lia.
  - split_and!; try reflexivity. cbn -[u32]. apply u32_small. lia.
  - cbn. lia.
Qed.

Lemma board_log_ok cmd n F : @channel (board cmd n F) (@boot_log (board cmd n F) 0x8000 48) <> 0.
Proof. vm_compute. congruence. Qed.

Lemma board_boot cmd n F :
  0 < n < 2 ^ 24 -> exists s, @main_start (board cmd n F) 0x8000 48 boot = Ok (tt, s) /\
  @piped (@boot_buffers (board cmd n F) 0x8000 48 (board_desc n)) (n - 1) [] [] 0 0 None None None s /\
  events s = @boot_log (board cmd n F) 0x8000 48.
Proof.
  intros Hn.
  destruct (@run_main_start (board cmd n F) 0x8000 48 (board_desc n) (board_buffers_ok cmd n F Hn)
    (board_log_ok cmd n F)) as (s & Hrun & _ & _ & Hev & _ & _ & HP).
  exists s. split; [exact Hrun |]. split; [exact HP | exact Hev].
Qed.

Lemma board_line cmd n F :
  0 <= F < 2 ^ 31 -> @line_says (board cmd n F) (@boot_buffers (board cmd n F) 0x8000 48 (board_desc n)) F.
Proof.
  intros HF l _. split; [reflexivity |]. change (polled _ _) with (s32 F).
  apply s32_small. lia.
Qed.

(** Every slot of main memory holds the same task. *)
Definition board_main (cmd : Z) (_ k : Z) : Z := List.nth (Z.to_nat k) [cmd; 0; 3; 5; 7] 0.

Lemma board_copies cmd n F :
  @copies (board cmd n F) (@boot_buffers (board cmd n F) 0x8000 48 (board_desc n))
    (fun _ => True) (board_main cmd).
Proof.
  intros l i ea k _ Hi Hk _ _. change (b_task _ i) with (4096 + i * 128).
  cbv beta iota delta [ls_word board].
  rewrite (proj2 (Z.eqb_neq (4096 + i * 128) 28672)), (proj2 (Z.eqb_neq (4096 + i * 128) 24576)) by lia.
  done.
Qed.

Lemma board_addition n F indet j : 0 <= indet < 100 ->
  @is_addition (@boot_buffers (board ADD n F) 0x8000 48 (board_desc n))
    (fun _ => True) (board_main ADD) indet j.
Proof.
  intros Hi. split; [exact I |]. split; [reflexivity |]. eexists. unfold task_result.
  change (Z.to_nat (s32 (board_main ADD _ 2))) with 3%nat.
  change (s32 (board_main ADD _ 3)) with 5. change (s32 (board_main ADD _ 4)) with 7.
  apply add_loop_sum; change (Z.of_nat 3) with 3; change (3 * (3 - 1) / 2) with 3; lia.
Qed.

(** The queue of four slots whose line says slot 2. *)
Definition add_board : Mfc := board ADD 4 2.
Definition add_buffers : buffers := @boot_buffers add_board 0x8000 48 (board_desc 4).

Lemma add_buffers_ok : @buffers_ok add_board add_buffers.
Proof. apply board_buffers_ok. lia. Qed.

Lemma main_starts_idle_witness :
  exists s, @main_start add_board 0x8000 48 boot = Ok (tt, s) /\ front (tstate s) = 3.
Proof.
  destruct (@main_starts_idle add_board 0x8000 48 (board_desc 4) add_buffers_ok
    (board_log_ok ADD 4 2))
    as (s & Hrun & _ & Hf & _).
  exists s. split; [exact Hrun | exact Hf].
Defined.

(** What [res] holds at the successive calls of [stage3] on this board. *)
Definition leftover (k : nat) : Z := 13 * (Z.of_nat k mod 7).

Lemma leftover_bound k : 0 <= leftover k < 100.
Proof. unfold leftover. pose proof (Z.mod_pos_bound (Z.of_nat k) 7 ltac:(lia)). lia. Qed.

Lemma pipeline_in_order_witness :
  exists s, @main_start add_board 0x8000 48 boot = Ok (tt, s) /\
    match @pipeline add_board 30 (fun _ => 0) s with Fault DmaRace => False | _ => True end.
Proof.
  destruct (board_boot ADD 4 2 ltac:(lia)) as (s & Hrun & HP & _). exists s. split; [exact Hrun |].
  pose proof (@pipeline_in_order add_board add_buffers 30 (fun _ => 0) 3 0 0 _ _ None None None s
    add_buffers_ok HP) as Hp.
  destruct (@pipeline add_board 30 (fun _ => 0) s) as [[u s'] | f |]; [exact I | | exact I].
  destruct f; try exact I. apply Hp. reflexivity.
Defined.

Lemma pipeline_completes_witness :
  exists s s', @main_start add_board 0x8000 48 boot = Ok (tt, s) /\
    @pipeline add_board 13 leftover s = Ok (tt, s') /\
    sent (run_of add_buffers (events s')) =
      [(0x20000, Some 39); (0x20010, Some 52); (0x20020, Some 65)].
Proof.
  destruct (board_boot ADD 4 2 ltac:(lia)) as (s & Hrun & HP & Hev). exists s.
  destruct (@pipeline_completes add_board add_buffers (fun _ => True) (board_main ADD) 13 leftover 2 3 3 [] [] s add_buffers_ok
    (board_copies ADD 4 2) (board_line ADD 4 2 ltac:(lia)) ltac:(cbn; lia) eq_refl ltac:(lia)
    (fun j _ => board_addition 4 2 _ _ (leftover_bound _)) HP) as (s' & Hp & _ & _ & _ & Hst).
  { rewrite Hev. reflexivity. }
  { rewrite Hev. reflexivity. }
  exists s'. split; [exact Hrun |]. split; [exact Hp |].
  rewrite Hst. vm_compute. reflexivity.
Defined.

(** A context with a task, ready for stage [k]. *)
Definition staged (M : Mfc) (k : Z) : spu :=
  Spu (@fetched_log M 0x8000 48) 0 WAIT (Task_state 0 0 0 0) 0
    (<[Z.to_nat k := Pipe_entry (4096 + k * 128) 1 k 0 (4096 * (k + 2)) 1]>
       (@boot_pipe M 0x8000 48 (board_desc 4))) 28672 24576 (Lstate ∅ Null) ∅.

Lemma staged_entry (M : Mfc) B k :
  0 <= k < 4 -> b_task B k = 4096 + k * 128 -> b_ack B k = 4096 * (k + 2) ->
  @entry_is B (staged M k) k (Some 1).
Proof.
  intros Hk Ht Ha. exists (Pipe_entry (4096 + k * 128) 1 k 0 (4096 * (k + 2)) 1).
  split; [| by rewrite Ht, Ha].
  cbn [staged pipe]. apply list_lookup_insert_eq. change (length _) with 4%nat. lia.
Qed.

Lemma staged_flights_ok (M : Mfc) desc :
  @flights_ok (@boot_buffers M 0x8000 48 desc) (@fetched_log M 0x8000 48).
Proof. split; [| apply grown_start]. intros f Hf. by apply elem_of_nil in Hf. Qed.

Lemma stage3_addition_witness :
  @stage3 add_board 1 10 (staged add_board 2) =
  Ok (tt, logged (staged add_board 2) [ls_store 16384 1 49]).
Proof.
  etrans; [apply (@stage3_addition add_board add_buffers 1 10 3 5 7 1) | reflexivity].
  - exact add_buffers_ok.
  - apply staged_flights_ok.
  - reflexivity.
  - apply (staged_entry add_board add_buffers 2); [lia | reflexivity | reflexivity].
  - intros f Hf. apply elem_of_nil in Hf. destruct Hf.
  - reflexivity.
  - reflexivity.
  - reflexivity.
  - reflexivity.
  - lia.
  - lia.
  - lia.
  - lia.
  - lia.
  - vm_compute. reflexivity.
Defined.

Lemma stage2_other_commands_witness :
  @stage2 (board NOOP 4 2) (staged (board NOOP 4 2) 1) = Fault NullDeref.
Proof.
  apply (@stage2_other_commands (board NOOP 4 2) (@boot_buffers (board NOOP 4 2) 0x8000 48 (board_desc 4)) 1
    (staged (board NOOP 4 2) 1)).
  - apply board_buffers_ok. lia.
  - apply staged_flights_ok.
  - reflexivity.
  - apply (staged_entry (board NOOP 4 2) _ 1); [lia | reflexivity | reflexivity].
  - vm_compute. congruence.
Defined.

Lemma main_never_returns_witness :
  match @main add_board 100 leftover 0x8000 48 boot with Ok _ => False | _ => True end.
Proof.
  destruct (@main add_board 100 leftover 0x8000 48 boot) as [[v s'] | f |] eqn:Hr; [| exact I..].
  exact (@main_never_returns add_board 100 leftover 0x8000 48 v boot s' eq_refl Hr).
Defined.
