(* ===== verification/System.v ===== *)
(** Both sides of a queue: the host of HostFifo.v, the SPE of TaskManager.v and
    the memory they share.  The host publishes a slot in the line the SPE polls;
    the SPE acknowledges slots in the words the monitoring thread tests. *)
From stdpp Require Import base list.
From Stdlib Require Import ZArith Lia.
From S2P Require Import Prelude.
From S2P Require Import Messages.
From S2P Require Import Fifo.
From S2P Require Import Ring.
From S2P Require Import LinkedList.
From S2P Require Import SpeThread.
From S2P Require Import Dma.
From S2P Require TaskManager.
From S2P Require TaskPipeline.
From S2P Require TaskLoop.
From S2P Require TaskSpec.
From S2P Require Import Machine.
From S2P Require Import HostFifo.
From S2P Require Import HostQueue.
From S2P Require Import HostCalls.
From S2P Require Import HostSpec.

(** * The two sides *)

(** The line holds the last slot that was published. *)
Definition line_published (q : queue) : Prop :=
  q_atomic q = Atomic_s ((front (q_ring q) - 1) mod size (q_ring q)) 1.

(** The SPE is idle at the slot before the oldest pending one. *)
Record in_step `{Mfc} (B : TaskPipeline.buffers) (q : queue) (fs ss : list Z)
    (sp : TaskManager.spu) : Prop := {
  is_size : max_entries (TaskPipeline.b_desc B) = size (q_ring q);
  is_idle : TaskPipeline.piped B ((back (q_ring q) - 1) mod size (q_ring q)) fs ss 0 0
    None None None sp }.

(** The queue, as it lies in main memory. *)
Record in_memory (B : TaskPipeline.buffers) (q : queue) (m : memory) : Prop := {
  im_tasks k : 0 <= k < 32 * size (q_ring q) ->
    q_tasks q !! Z.to_nat k = Some (m (task_fifo (TaskPipeline.b_desc B) + 4 * k));
  im_acks k : 0 <= k < 4 * size (q_ring q) ->
    q_acks q !! Z.to_nat k = Some (m (ack_fifo (TaskPipeline.b_desc B) + 4 * k));
  im_count : m (atomic (TaskPipeline.b_desc B)) = at_count (q_atomic q);
  im_state : m (atomic (TaskPipeline.b_desc B) + 4) = at_state (q_atomic q) }.
(** Its addresses: the host leaves them alone while the SPE runs. *)
Definition queue_area (B : TaskPipeline.buffers) (a : Z) : Prop :=
  let N := max_entries (TaskPipeline.b_desc B) in
  within a (task_fifo (TaskPipeline.b_desc B)) (128 * N) \/
  within a (ack_fifo (TaskPipeline.b_desc B)) (16 * N) \/
  within a (atomic (TaskPipeline.b_desc B)) 128.

(** The words of slot [j], and that its task is an addition that does not
    overflow. *)
Definition slot_word (q : queue) (j k : Z) : Z :=
  default 0 (q_tasks q !! Z.to_nat (32 * j + k)).
Definition adds (q : queue) (indet j : Z) : Prop :=
  s32 (slot_word q j 0) = s32 ADD /\
  exists r, TaskLoop.task_result (slot_word q j) indet = Ok r.

(** What the transfers of stage4 did to the queue: the slots that were pending
    are acknowledged, and nothing else is. *)
Record acknowledged (q q1 : queue) : Prop := {
  ack_ring : q_ring q1 = q_ring q;
  ack_tasks : q_tasks q1 = q_tasks q;
  ack_line : q_atomic q1 = q_atomic q;
  ack_length : length (q_acks q1) = length (q_acks q);
  ack_acks i : 0 <= i < size (q_ring q) ->
    acked (q_acks q1) i <-> i ∈ pending (q_ring q) }.

(** * Lemmas *)

Lemma lookup_map_seqZ (f : Z -> Z) n k :
  0 <= k < n -> map f (seqZ 0 n) !! Z.to_nat k = Some (f k).
Proof.
  intros Hk. apply list_lookup_fmap_Some. exists k. split; [done |].
  apply lookup_seqZ. lia.
Qed.

Lemma imap_map_seqZ {A : Type} (f : Z -> A) (g : nat -> Z -> A) (h : Z -> Z) n :
  (forall j, 0 <= j < n -> f j = g (Z.to_nat j) (h j)) ->
  map f (seqZ 0 n) = imap g (map h (seqZ 0 n)).
Proof.
  intros Hfg. apply list_eq. intros k. rewrite list_lookup_imap, !list_lookup_fmap.
  destruct (seqZ 0 n !! k) as [j |] eqn:Hj; [| done]. cbn.
  apply lookup_seqZ in Hj as [-> Hk]. rewrite Hfg by lia. do 2 f_equal. lia.
Qed.

Section system.
Context `{Mfc}.
Implicit Types (q : queue) (sp : TaskManager.spu).

(** From the slot before the oldest pending one to the last published one. *)
Lemma last_pending r :
  (front r - 1) mod size r = ((back r - 1) mod size r + count r) mod size r.
Proof.
  unfold count. rewrite Zplus_mod_idemp_l, Zplus_mod_idemp_r. f_equal. lia.
Qed.

(** The SPE's part: it fetches, and acknowledges, a slot for each pending one. *)
Lemma run_pending stable main B q fuel indet fs ss sp :
  queue_wf q -> in_step B q fs ss sp -> TaskPipeline.buffers_ok B ->
  TaskLoop.copies B stable main ->
  (forall j i, pending (q_ring q) !! j = Some i ->
     TaskLoop.is_addition B stable main (TaskLoop.res_at B indet (Z.of_nat j))
       ((i - 1) mod size (q_ring q))) ->
  TaskLoop.line_says B ((front (q_ring q) - 1) mod size (q_ring q)) ->
  4 * count (q_ring q) < Z.of_nat fuel ->
  TaskManager.events sp = TaskPipeline.b_start B ->
  exists sp', TaskManager.pipeline fuel indet sp = Ok (tt, sp') /\
    TaskPipeline.piped B ((front (q_ring q) - 1) mod size (q_ring q))
      (TaskPipeline.fetches (TaskManager.events sp'))
      (TaskPipeline.stores (TaskManager.events sp')) 0 0 None None None sp' /\
    TaskLoop.sent (TaskLoop.run_of B (TaskManager.events sp')) =
      imap (fun j i => (TaskPipeline.ack_ea B i,
        TaskLoop.outcome B main (TaskLoop.res_at B indet (Z.of_nat j))
          ((i - 1) mod size (q_ring q)))) (pending (q_ring q)).
Proof.
  intros Hq [Hsz Hidle] HB Hm Hadd Hline Hfuel Hev.
  pose proof (count_range _ (qwf_ring q Hq)) as Hc.
  assert (forall j, ((back (q_ring q) + j) mod size (q_ring q) - 1) mod size (q_ring q) =
    ((back (q_ring q) - 1) mod size (q_ring q) + j) mod size (q_ring q)) as Hprev.
  { intros j. rewrite Zminus_mod_idemp_l, Zplus_mod_idemp_l. f_equal. lia. }
  destruct (TaskSpec.run_pipeline_idle B stable main fuel indet _
    ((back (q_ring q) - 1) mod size (q_ring q)) (count (q_ring q)) fs ss sp HB Hm Hline)
    as (sp' & Hrun & HP & _ & _ & Hs); rewrite ?Hsz in *; try done.
  { apply last_pending. }
  { intros j Hj. rewrite <- Hprev. rewrite <- (Z2Nat.id j) at 1 by lia.
    apply Hadd. rewrite pending_seqZ.
    by apply (lookup_map_seqZ (fun j => (back (q_ring q) + j) mod size (q_ring q))). }
  { by rewrite Hev, run_of_start. }
  { by rewrite Hev. }
  exists sp'. split_and!; [done | done |].
  rewrite Hs, pending_seqZ. apply imap_map_seqZ. intros j Hj.
  rewrite Hprev, Z2Nat.id by lia. do 2 f_equal.
  rewrite <- Z.add_assoc, Zplus_mod_idemp_l. f_equal. lia.
Qed.

(** The host's part: a pass releases every acknowledged slot. *)
Lemma run_release q q1 s1 i fuel :
  host_wf s1 -> has_queue s1 i q1 -> acknowledged q q1 ->
  (forall j q', has_queue s1 j q' -> size (q_ring q') < Z.of_nat fuel) ->
  exists s2 q2, fifothread_pass fuel s1 = Ok (tt, s2) /\ host_wf s2 /\ has_queue s2 i q2 /\
    queued q2 = [] /\ front (q_ring q2) = front (q_ring q) /\
    back (q_ring q2) = front (q_ring q) /\ size (q_ring q2) = size (q_ring q) /\
    q_atomic q2 = q_atomic q.
Proof.
  intros Hs Hq1 [Hr Ht Hl _ Hacks] Hfuel. pose proof (hwf_spes s1 Hs).
  destruct (run_drain_from fuel (Z.to_nat (spes s1)) 0 s1 Hs)
    as (s2 & Hrun & Hs2 & _ & _ & _ & Hall); [lia | lia | done |].
  pose proof Hq1 as ([? _] & _ & _ & _ & Hqw).
  destruct (Hall i q1) as (q2 & Hq2 & k & Hk & -> & Hack & Hstop); [done | done |].
  assert (acks_pending q1) as Hp.
  { intros j Hj Ha. rewrite Hr in *. by apply Hacks. }
  pose proof (acked_run_pending q1 k Hqw Hp Hk Hack) as Hkc.
  pose proof (count_range _ (qwf_ring q1 Hqw)).
  assert (k = count (q_ring q1)) as ->.
  { destruct (decide (k < count (q_ring q1))); [| lia]. destruct Hstop; [lia |].
    rewrite Hr in *. apply Hacks; [apply slot_range; rewrite <- Hr; apply Hqw |].
    unfold pending. apply list_elem_of_In, in_map_iff. exists (Z.to_nat k).
    rewrite Z2Nat.id by lia. split; [done |]. apply in_seq. lia. }
  exists s2, (releases (Z.to_nat (count (q_ring q1))) q1). split_and!; try done.
  - rewrite queued_releases by (done || lia). apply drop_ge.
    unfold queued. rewrite length_map.
    pose proof (length_pending _ (qwf_ring q1 Hqw)). lia.
  - rewrite releases_ring by done. by rewrite Hr.
  - rewrite releases_ring, Z2Nat.id by (done || lia). rewrite Hr in *. unfold set_back, slot, count. cbn.
    rewrite Zplus_mod_idemp_r. destruct (qwf_ring q1 Hqw) as (? & ? & ?). rewrite Hr in *.
    replace (back (q_ring q) + (front (q_ring q) - back (q_ring q))) with (front (q_ring q)) by lia.
    by apply Z.mod_small.
  - rewrite releases_ring by done. by rewrite Hr.
  - rewrite <- Hl. clear. by induction (Z.to_nat _).
Qed.
End system.

(** ** In memory *)

Lemma task_result_ext w w' indet :
  (forall k, 0 <= k < 32 -> w k = w' k) ->
  TaskLoop.task_result w indet = TaskLoop.task_result w' indet.
Proof. intros Hw. unfold TaskLoop.task_result. by rewrite !Hw by lia. Qed.

(** The queue with the acknowledgements that are in memory. *)
Definition collect (B : TaskPipeline.buffers) (q : queue) (m : memory) : queue :=
  Queue (q_ring q) (q_tasks q)
    (map (fun k => m (ack_fifo (TaskPipeline.b_desc B) + 4 * k)) (seqZ 0 (4 * size (q_ring q))))
    (q_atomic q).

Section in_machine.
Context (init : memory * memory) (host : list event -> memory -> memory)
  (heap message : list event -> Z) (B : TaskPipeline.buffers) (q : queue).
#[local] Instance here : Mfc := machine init host heap message.
Local Abbreviation at_ l := (after init host l).
Local Abbreviation start := (TaskPipeline.b_start B).
Local Abbreviation N := (max_entries (TaskPipeline.b_desc B)).
Context (HL : layout B) (HR : steady host B (queue_area B)) (Hq : queue_wf q)
  (Hsz : N = size (q_ring q)) (Hmem : in_memory B q (at_ start).1).

Lemma slot_in_memory j k :
  0 <= j < N -> 0 <= k < 32 ->
  words (at_ start).1 (TaskPipeline.task_ea B j) k = slot_word q j k.
Proof.
  intros Hj Hk. unfold words, slot_word. rewrite (task_ea_eq B HL) by done.
  rewrite (im_tasks _ _ _ Hmem) by lia. cbn. f_equal. lia.
Qed.

Lemma adds_addition indet j :
  0 <= j < N -> adds q indet j ->
  TaskLoop.is_addition B (stable_slot B (queue_area B)) (words (at_ start).1) indet j /\
  TaskLoop.outcome B (words (at_ start).1) indet j =
    match TaskLoop.task_result (slot_word q j) indet with Ok r => Some (u32 r) | _ => None end.
Proof.
  intros Hj [Hc [r Hr]].
  assert (TaskLoop.task_result (words (at_ start).1 (TaskPipeline.task_ea B j)) indet =
    TaskLoop.task_result (slot_word q j) indet) as Heq.
  { apply task_result_ext. intros k Hk. by apply slot_in_memory. }
  unfold TaskLoop.outcome. rewrite Heq. split; [| done]. split; [| split].
  - split; [done |]. intros a Ha. left. unfold within in *. lia.
  - by rewrite slot_in_memory by lia.
  - exists r. by rewrite Heq.
Qed.

Lemma stays l a :
  TaskPipeline.grown B l -> queue_area B a ->
  ~ within a (ack_fifo (TaskPipeline.b_desc B)) (16 * N) ->
  (at_ l).1 a = (at_ start).1 a.
Proof. intros Hl Ha Ho. by apply (main_steady init host B HL (queue_area B)). Qed.

Lemma collect_in_memory l :
  TaskPipeline.grown B l -> in_memory B (collect B q (at_ l).1) (at_ l).1.
Proof.
  intros Hl. pose proof (la_main B HL) as Hapart. pose proof (la_entries B HL).
  split; cbn [q_ring q_tasks q_acks q_atomic collect].
  - intros k Hk. rewrite (im_tasks _ _ _ Hmem) by done. f_equal. symmetry.
    apply stays; [done | left; unfold within; lia |]. unfold within, apart in *. lia.
  - intros k Hk.
    exact (lookup_map_seqZ (fun k => (at_ l).1 (ack_fifo (TaskPipeline.b_desc B) + 4 * k)) _ k Hk).
  - rewrite <- (im_count _ _ _ Hmem). apply stays; [done | |];
      unfold queue_area, within, apart in *; lia.
  - rewrite <- (im_state _ _ _ Hmem). apply stays; [done | |];
      unfold queue_area, within, apart in *; lia.
Qed.

(** The acknowledgements of a run, as the host finds them. *)
Lemma collect_acks l r :
  TaskPipeline.grown B l -> acks_pending q ->
  (forall i, 0 <= i < 4 -> (at_ start).2 (TaskPipeline.b_ack B i) <> ACK_CLEAR) ->
  TaskLoop.sent (TaskLoop.run_of B l) =
    imap (fun j i => (TaskPipeline.ack_ea B i, Some (r j))) (pending (q_ring q)) ->
  let q1 := collect B q (at_ l).1 in
  acknowledged q q1 /\
  (forall j i, pending (q_ring q) !! j = Some i ->
     q_acks q1 !! Z.to_nat (4 * i + 1) = Some (r j)).
Proof.
  intros Hl Hp Hjunk Hsent q1. pose proof (la_entries B HL) as HN.
  assert (forall i, i ∈ pending (q_ring q) -> 0 <= i < N) as Hrange.
  { intros i (k & Hk & ->)%elem_of_pending. rewrite Hsz. apply slot_range, Hq. }
  assert ((TaskLoop.sent (TaskLoop.run_of B l)).*1 =
    map (TaskPipeline.ack_ea B) (pending (q_ring q))) as Hfst.
  { rewrite Hsent. change (fmap fst ?x) with (map fst x). rewrite fmap_imap.
    apply list_eq. intros k. rewrite list_lookup_imap, list_lookup_fmap. by destruct (_ !! k). }
  assert (NoDup (TaskLoop.sent (TaskLoop.run_of B l)).*1) as Hnd.
  { rewrite Hfst. apply NoDup_fmap_2_strong; [| apply NoDup_pending, Hq].
    intros i j Hi Hj Heq. rewrite !(ack_ea_eq B HL) in Heq by auto. lia. }
  assert (forall a, in_acks B a -> queue_area B a) as Hacks by (intros a Ha; by right; left).
  assert (forall j i, pending (q_ring q) !! j = Some i ->
    (at_ l).1 (TaskPipeline.ack_ea B i + 4) = r j /\
    exists i', 0 <= i' < 4 /\ (at_ l).1 (TaskPipeline.ack_ea B i) =
      (at_ start).2 (TaskPipeline.b_ack B i')) as Hdel.
  { intros j i Hi. apply (delivered init host B HL (queue_area B)); try done.
    { by eapply Hrange, list_elem_of_lookup_2. }
    rewrite Hsent. apply (list_elem_of_lookup_2 _ j). by rewrite list_lookup_imap, Hi. }
  assert (forall i k, 0 <= i < N -> 0 <= k < 4 ->
    q_acks q1 !! Z.to_nat (4 * i + k) = Some ((at_ l).1 (TaskPipeline.ack_ea B i + 4 * k))) as Hlook.
  { intros i k Hi Hk. rewrite (ack_ea_eq B HL) by done. cbn [q_acks q1 collect].
    rewrite (lookup_map_seqZ (fun k => (at_ l).1 (ack_fifo (TaskPipeline.b_desc B) + 4 * k))) by lia.
    do 2 f_equal. lia. }
  split; [split; try done |].
  - cbn [q_acks q1 collect]. rewrite length_map, length_seqZ.
    pose proof (qwf_acks q Hq). lia.
  - intros i Hi. rewrite <- Hsz in Hi. unfold acked.
    pose proof (Hlook i 0 Hi ltac:(lia)) as H0. rewrite Z.mul_0_r, !Z.add_0_r in H0. rewrite H0.
    split.
    + intros (w & [= <-] & Hne). destruct (decide (i ∈ pending (q_ring q))) as [| Hnot]; [done |].
      apply Hp; [lia |]. exists ((at_ l).1 (TaskPipeline.ack_ea B i)). split; [| done].
      rewrite (im_acks _ _ _ Hmem) by lia. f_equal.
      assert (TaskPipeline.ack_ea B i ∉ (TaskLoop.sent (TaskLoop.run_of B l)).*1) as Hun.
      { rewrite Hfst. intros (j & Heq & Hj%list_elem_of_In)%list_elem_of_In%in_map_iff.
        rewrite !(ack_ea_eq B HL) in Heq by auto. assert (i = j) as -> by lia. done. }
      pose proof (undelivered init host B HL (queue_area B) l i 0 HR Hacks Hl Hi ltac:(lia) Hun) as Hu.
      rewrite Z.mul_0_r, Z.add_0_r in Hu. rewrite Hu, (ack_ea_eq B HL) by done. f_equal. lia.
    + intros [j Hin]%list_elem_of_lookup_1. destruct (Hdel j i Hin) as (_ & i' & Hi' & Hw). eexists. split; [done |].
      rewrite Hw. by apply Hjunk.
  - intros j i Hi. rewrite (Hlook i 1) by (eauto using list_elem_of_lookup_2 || lia).
    change (4 * 1) with 4. by destruct (Hdel j i Hi) as [-> _].
Qed.

(** What the host published is what the SPE polls. *)
Lemma line_in_memory :
  line_published q -> TaskLoop.line_says B ((front (q_ring q) - 1) mod size (q_ring q)).
Proof.
  intros Hline. pose proof (la_entries B HL) as HN.
  apply (machine_line init host heap message B HL (queue_area B)); try done;
    try (right; right; unfold within; lia).
  - rewrite (im_count _ _ _ Hmem), Hline. cbn. apply s32_small.
    pose proof (Z.mod_pos_bound (front (q_ring q) - 1) (size (q_ring q))). lia.
  - by rewrite (im_state _ _ _ Hmem), Hline.
Qed.

(** The SPE's part of a trip, in memory. *)
Lemma run_in_memory fs ss sp fuel indet :
  acks_pending q -> line_published q -> in_step B q fs ss sp ->
  TaskManager.events sp = start -> described init host B ->
  (forall i, 0 <= i < 4 -> (at_ start).2 (TaskPipeline.b_ack B i) <> ACK_CLEAR) ->
  (forall j i, pending (q_ring q) !! j = Some i ->
     adds q (TaskLoop.res_at B indet (Z.of_nat j)) ((i - 1) mod size (q_ring q))) ->
  4 * count (q_ring q) < Z.of_nat fuel ->
  exists sp', TaskManager.pipeline fuel indet sp = Ok (tt, sp') /\
    TaskPipeline.piped B ((front (q_ring q) - 1) mod size (q_ring q))
      (TaskPipeline.fetches (TaskManager.events sp'))
      (TaskPipeline.stores (TaskManager.events sp')) 0 0 None None None sp' /\
    let q1 := collect B q (at_ (TaskManager.events sp')).1 in
    in_memory B q1 (at_ (TaskManager.events sp')).1 /\ acknowledged q q1 /\
    (forall j i, pending (q_ring q) !! j = Some i -> exists r,
       TaskLoop.task_result (slot_word q ((i - 1) mod size (q_ring q)))
         (TaskLoop.res_at B indet (Z.of_nat j)) = Ok r /\
       q_acks q1 !! Z.to_nat (4 * i + 1) = Some (u32 r)).
Proof.
  intros Hp Hline Hstep Hev Hd Hjunk Hadd Hfuel. pose proof (la_entries B HL) as HN.
  assert (forall i, 0 <= (i - 1) mod size (q_ring q) < N) as Hprev.
  { intros i. rewrite Hsz in *. apply Z.mod_pos_bound. lia. }
  set (w := words (at_ start).1).
  set (x j := TaskLoop.res_at B indet (Z.of_nat j)).
  assert (forall j i, pending (q_ring q) !! j = Some i -> let k := (i - 1) mod size (q_ring q) in
    TaskLoop.is_addition B (stable_slot B (queue_area B)) w (x j) k /\
    exists v, TaskLoop.task_result (slot_word q k) (x j) = Ok v /\
      TaskLoop.outcome B w (x j) k = Some (u32 v)) as Hout.
  { intros j i Hi k. destruct (Hadd j i Hi) as [Hc [v Hv]].
    destruct (adds_addition (x j) k (Hprev i) (Hadd j i Hi)) as [Ha Ho].
    split; [done |]. exists v. split; [done |]. unfold w. rewrite Ho. unfold k, x. by rewrite Hv. }
  destruct (run_pending (stable_slot B (queue_area B)) w B q fuel indet fs ss sp Hq Hstep)
    as (sp' & Hrun & HP & Hsent); try done.
  { by apply machine_buffers_ok. }
  { by apply machine_copies. }
  { intros j i Hi. by apply Hout. }
  { by apply line_in_memory. }
  exists sp'. split; [done |]. split; [done |].
  pose proof (TaskPipeline.fo_grown _ _ (TaskPipeline.pi_flights _ _ _ _ _ _ _ _ _ _ HP)) as Hg.
  set (r j := default 0 (i ← pending (q_ring q) !! j;
    TaskLoop.outcome B w (x j) ((i - 1) mod size (q_ring q)))).
  destruct (collect_acks (TaskManager.events sp') r Hg Hp Hjunk) as [Hack Hres].
  { rewrite Hsent. apply imap_ext. intros j i Hi.
    destruct (Hout j i Hi) as (_ & v & _ & Ho). f_equal. unfold r. rewrite Hi. cbn.
    unfold x in *. by rewrite Ho. }
  split; [by apply collect_in_memory |]. split; [done |].
  intros j i Hi. destruct (Hout j i Hi) as (_ & v & Hv & Ho). exists v. split; [done |].
  rewrite (Hres j) by done. unfold r. rewrite Hi. cbn. by rewrite Ho.
Qed.
End in_machine.

(** ** The description of the queue *)

Section description.
Context (init : memory * memory) (host : list event -> memory -> memory)
  (heap message : list event -> Z) (argp : Z) (desc : fifo_s).
#[local] Instance there : Mfc := machine init host heap message.
Local Abbreviation B := (TaskSpec.boot_buffers argp sizeof_fifo_s desc).

(** Allocations do not touch main memory, and the host leaves the structure alone. *)
Lemma after_allocs l a :
  Forall (fun e => match e with ls_alloc _ => True | _ => False end) l ->
  (forall l m, host l m a = m a) -> (after init host l).1 a = init.1 a.
Proof.
  intros Hl Ha. induction l as [| e l IH] using rev_ind; [done |].
  apply Forall_app in Hl as [Hl [He _]%Forall_cons]. rewrite after_snoc.
  destruct e; try done. cbn [transfer fst]. rewrite Ha. by apply IH.
Qed.

Lemma fetched_word k :
  0 <= k < 12 -> (forall l m, host l m (argp + 4 * k) = m (argp + 4 * k)) ->
  (after init host (TaskPipeline.b_start B)).2 (TaskPipeline.b_fifo B + 4 * k) =
  init.1 (argp + 4 * k).
Proof.
  intros Hk Ha. cbn [TaskPipeline.b_start TaskPipeline.b_fifo TaskSpec.boot_buffers].
  unfold TaskSpec.fetched_log. change [?x; ?y; ?z] with ([x] ++ [y] ++ [z]).
  rewrite !app_assoc, !after_snoc. cbn [transfer snd fst].
  rewrite copy_inside; [| unfold within; change (u32 sizeof_fifo_s) with 48; lia].
  rewrite Z.add_simpl_l, Ha.
  apply after_allocs; [by repeat constructor | exact Ha].
Qed.

Lemma laid_out_described :
  (forall l m k, 0 <= k < 12 -> host l m (argp + 4 * k) = m (argp + 4 * k)) ->
  laid_out init.1 argp 0 fifo_s_members (fifo_s_values desc) ->
  Forall (fun v => 0 <= v < 2 ^ 64) [task_fifo desc; ack_fifo desc; atomic desc] ->
  0 <= max_entries desc < 2 ^ 32 -> described init host B.
Proof.
  intros Ha Hl Hr Hm. unfold described. rewrite !fetched_word by (lia || (intros; apply Ha; lia)).
  by apply laid_out_reads.
Qed.
End description.

(** ** The next run *)

(** The same buffers, for the run that begins with the log [l]. *)
Definition rebase (B : TaskPipeline.buffers) (l : list event) : TaskPipeline.buffers :=
  TaskPipeline.Buffers (TaskPipeline.b_task B) (TaskPipeline.b_ack B) (TaskPipeline.b_fifo B)
    (TaskPipeline.b_atomic B) (TaskPipeline.b_desc B) l.

Lemma in_step_rebase `{Mfc} B q fs ss sp :
  in_step B q fs ss sp -> in_step (rebase B (TaskManager.events sp)) q fs ss sp.
Proof.
  intros [Hsz []]. split; [done |]. split; try done.
  destruct pi_flights as [Hf _]. split; [exact Hf | apply TaskPipeline.grown_start].
Qed.

(** * Properties *)

(** C4: tasks come back with their results, through memory.  A queue lies in main
    memory, its line says the last slot published, and an SPE is idle at the slot
    before the oldest pending one; DMA copies, and the host leaves the queue alone
    while the SPE runs.  If the tasks in the slots before the pending ones are
    additions that do not overflow, each with what the unassigned [res] holds in
    the call of [stage3] that executes it, the SPE program returns within
    [4 d + 1] cycles for [d] pending slots.  Then each pending slot, and no other,
    is acknowledged in memory, with the result of the task in the slot before it;
    one pass of the monitoring thread over that memory empties the queue; and
    host and SPE are in step for the next tasks. *)
Theorem tasks_round_trip (init : memory * memory) (host : list event -> memory -> memory)
    (heap message : list event -> Z) (B : TaskPipeline.buffers) (q : queue) (fs ss : list Z)
    (sp : TaskManager.spu) (fuel : nat) (indet : nat -> Z) :
  let M := machine init host heap message in
  let m l := after init host l in
  queue_wf q -> acks_pending q -> line_published q -> @in_step M B q fs ss sp ->
  TaskManager.events sp = TaskPipeline.b_start B ->
  layout B -> described init host B -> steady host B (queue_area B) ->
  in_memory B q (m (TaskPipeline.b_start B)).1 ->
  (forall i, 0 <= i < 4 -> (m (TaskPipeline.b_start B)).2 (TaskPipeline.b_ack B i) <> ACK_CLEAR) ->
  (forall j i, pending (q_ring q) !! j = Some i ->
     adds q (TaskLoop.res_at B indet (Z.of_nat j)) ((i - 1) mod size (q_ring q))) ->
  4 * count (q_ring q) < Z.of_nat fuel ->
  exists sp' q1, @TaskManager.pipeline M fuel indet sp = Ok (tt, sp') /\
    in_memory B q1 (m (TaskManager.events sp')).1 /\ acknowledged q q1 /\
    (forall j i, pending (q_ring q) !! j = Some i -> exists r,
       TaskLoop.task_result (slot_word q ((i - 1) mod size (q_ring q)))
         (TaskLoop.res_at B indet (Z.of_nat j)) = Ok r /\
       q_acks q1 !! Z.to_nat (4 * i + 1) = Some (u32 r)) /\
    (forall s1 i n, host_wf s1 -> has_queue s1 i q1 ->
       (forall j q', has_queue s1 j q' -> size (q_ring q') < Z.of_nat n) ->
       exists s2 q2, fifothread_pass n s1 = Ok (tt, s2) /\ host_wf s2 /\ has_queue s2 i q2 /\
         queued q2 = [] /\ line_published q2 /\
         @in_step M (rebase B (TaskManager.events sp')) q2
           (TaskPipeline.fetches (TaskManager.events sp'))
           (TaskPipeline.stores (TaskManager.events sp')) sp').
Proof.
  intros M m Hq Hp Hline Hstep Hev HL Hd HR Hmem Hjunk Hadd Hfuel. subst m. cbv beta in *.
  destruct (run_in_memory init host heap message B q HL HR Hq (is_size _ _ _ _ _ Hstep) Hmem
    fs ss sp fuel indet Hp Hline Hstep Hev Hd Hjunk Hadd Hfuel)
    as (sp' & Hrun & HP & Hin & Hack & Hres).
  exists sp', (collect B q (after init host (TaskManager.events sp')).1).
  split_and!; try done. intros s1 i n Hs1 Hq1 Hn.
  destruct (run_release q _ s1 i n Hs1 Hq1 Hack Hn)
    as (s2 & q2 & Hpass & Hs2 & Hq2 & He & Hf & Hb & Hz & Ha).
  exists s2, q2. split_and!; try done.
  - unfold line_published. by rewrite Ha, Hf, Hz.
  - apply in_step_rebase. split; rewrite ?Hb, Hz; [apply Hstep | done].
Qed.

(** Submitting keeps the two in step: when an SPE is idle at the slot before
    the oldest pending one of queue [i], it still is after a submission to the
    queue, and the line says the last slot published: the one of the new task. *)
Theorem submission_in_step `{Mfc} (B : TaskPipeline.buffers) (s : host) (k : Z) (n : nat)
    (stwcx : list bool) (command handle : Z) (args : list Z) (p : spe_s) (q : queue)
    (fs ss : list Z) (sp : TaskManager.spu) :
  let i := (current_spe s + k) mod spes s in
  host_wf s -> first_free s k -> k <= Z.of_nat n -> true ∈ stwcx ->
  spe s !! Z.to_nat i = Some p -> holds p q -> isKicked p = 1 -> in_step B q fs ss sp ->
  exists s' q', submit (repeat (mret tt) n) stwcx command handle args s = Ok (i, s') /\
    has_queue s' i q' /\ line_published q' /\ in_step B q' fs ss sp /\
    exists task, queued q' = queued q ++ [task].
Proof.
  intros i Hs Hff Hn Hst Hp Hh Hk [Hsz Hidle].
  destruct (run_submit_first s k n stwcx command handle args p q Hs Hff Hn Hst Hp Hh Hk)
    as (s' & p' & t & Hrun & Hch & _ & _ & Hq & _).
  eexists s', _. split; [exact Hrun |]. pose proof (ch_queue _ _ _ _ Hch) as Hq'.
  split; [exact Hq' |].
  assert (ring_wf (q_ring q)) as Hw.
  { destruct (hwf_queues s Hs i) as (q0 & H0).
    { apply Z.mod_pos_bound. destruct (hwf_spes s Hs). lia. }
    pose proof H0 as (_ & p0 & Hp0 & Hh0 & Hq0). rewrite Hp in Hp0. injection Hp0 as <-.
    destruct Hh as [Hr _], Hh0 as [Hr0 _]. rewrite Hr in Hr0. injection Hr0 as ->.
    apply Hq0. }
  split_and!; [| split | by exists t]; cbn [q_ring q_atomic with_ring published with_task].
  - unfold line_published. cbn. rewrite ringIncFront_eq by done. cbn.
    destruct Hw as (? & ? & ?). rewrite Zminus_mod_idemp_l. f_equal.
    rewrite <- (Z.mod_small (front (q_ring q)) (size (q_ring q))) at 1 by lia. f_equal. lia.
  - by rewrite ringIncFront_size.
  - rewrite ringIncFront_size, ringIncFront_eq by done. done.
Qed.


(** C37: the first task is not executed: after [fifoInit] the first task of a
    queue is written to slot 0, which is published; an SPE program that has just
    started fetches the last slot instead, which nothing was ever written to,
    and acknowledges slot 0. *)
Theorem first_task_not_executed `{Mfc} (s : host) (k : Z) (n : nat) (stwcx : list bool)
    (command handle : Z) (args : list Z) (p : spe_s) (q : queue) (argp : Z) (indet : nat -> Z)
    (desc : fifo_s) (fuel : nat) (stable : Z -> Prop) (main : Z -> Z -> Z) :
  let i := (current_spe s + k) mod spes s in
  let words := map u32 (command :: handle :: take 29 args) in
  let e := max_entries desc in
  let B := TaskSpec.boot_buffers argp 48 desc in
  let log := TaskSpec.boot_log argp 48 in
  host_wf s -> first_free s k -> k <= Z.of_nat n -> true ∈ stwcx ->
  spe s !! Z.to_nat i = Some p -> holds p q -> isKicked p = 1 -> fresh_queue e q ->
  TaskPipeline.buffers_ok B -> channel log <> 0 ->
  TaskLoop.copies B stable main -> TaskLoop.is_addition B stable main (indet O) (e - 1) ->
  TaskLoop.line_says B 0 -> 4 < Z.of_nat fuel ->
  exists s' q' sp sp',
    submit (repeat (mret tt) n) stwcx command handle args s = Ok (i, s') /\
    has_queue s' i q' /\ take (length words) (slot_words (q_tasks q') 0) = words /\
    slot_words (q_tasks q') (e - 1) = slot_words (q_tasks q) (e - 1) /\
    q_atomic q' = Atomic_s 0 1 /\
    TaskManager.main_start argp 48 TaskSpec.boot = Ok (tt, sp) /\
    TaskManager.pipeline fuel indet sp = Ok (tt, sp') /\
    TaskPipeline.fetches (TaskManager.events sp') =
      TaskPipeline.fetches log ++ [TaskPipeline.task_ea B (e - 1)] /\
    TaskPipeline.stores (TaskManager.events sp') =
      TaskPipeline.stores log ++ [TaskPipeline.ack_ea B 0] /\
    TaskLoop.sent (TaskLoop.run_of B (TaskManager.events sp')) =
      [(TaskPipeline.ack_ea B 0, TaskLoop.outcome B main (indet O) (e - 1))].
Proof.
  intros i words e B log Hs Hff Hn Hst Hp Hh Hk Hf HB Hlog Hm Hadd Hline Hfuel.
  destruct (run_submit_first s k n stwcx command handle args p q Hs Hff Hn Hst Hp Hh Hk)
    as (s' & p' & t & Hrun & Hch & _ & _ & Hqd & Ht & _).
  destruct (TaskSpec.run_main_start argp 48 desc HB Hlog) as (sp & Hstart & _ & _ & Hev & _ & _ & HP).
  pose proof (fq_wf e q Hf) as Hqw. pose proof (fq_ring e q Hf) as Hr.
  assert (1 < e) as He.
  { destruct Hff as (_ & (q0 & (_ & p0 & Hp0 & Hh0 & Hq0) & Hfree) & _). fold i in Hp0.
    rewrite Hp in Hp0. injection Hp0 as <-. destruct Hh as [Hr1 _], Hh0 as [Hr0 _].
    rewrite Hr1 in Hr0. injection Hr0 as Hr0. rewrite <- Hr0, Hr in Hfree.
    rewrite ringHasFree_count in Hfree by (rewrite <- Hr; apply Hqw).
    destruct (qwf_ring q Hqw) as [Hz _]. rewrite Hr in Hz. cbn in Hz.
    unfold count in Hfree. cbn in Hfree. rewrite Z.mod_0_l in Hfree by lia. zcases. }
  assert (length words <= 31)%nat as Hwords.
  { unfold words. rewrite length_map. cbn. rewrite length_take. lia. }
  destruct (TaskSpec.run_pipeline_idle B stable main fuel indet 0 (e - 1) 1
    (TaskPipeline.fetches log) (TaskPipeline.stores log) sp HB Hm Hline)
    as (sp' & Hpipe & _ & Hfe & Hse & Hsent);
    cbn [TaskPipeline.b_desc B TaskSpec.boot_buffers]; fold e; try done; try lia.
  { replace (e - 1 + 1) with (1 * e) by lia. by rewrite Z.mod_mul by lia. }
  { intros j Hj. assert (j = 0) as -> by lia. rewrite Z.add_0_r, Z.mod_small by lia. exact Hadd. }
  { by rewrite Hev. }
  { by rewrite Hev. }
  cbn [TaskPipeline.b_desc B TaskSpec.boot_buffers] in Hfe, Hse, Hsent; fold e in Hfe, Hse, Hsent.
  change (seqZ 0 1) with [0] in Hfe, Hse, Hsent. cbn [map] in Hfe, Hse, Hsent.
  assert ((e - 1 + 0) mod e = e - 1) as Hlast by (rewrite Z.mod_small; lia).
  assert ((e - 1 + 1 + 0) mod e = 0) as Hzero.
  { replace (e - 1 + 1 + 0) with (1 * e) by lia. apply Z.mod_mul. lia. }
  rewrite Hlast in Hfe, Hsent. rewrite Hzero in Hse, Hsent.
  eexists s', _, sp, sp'. split; [exact Hrun |]. split; [apply (ch_queue _ _ _ _ Hch) |].
  cbn [q_tasks q_atomic with_ring published with_task]. rewrite Hr. cbn [front].
  pose proof (qwf_tasks q Hqw) as Hlen. rewrite Hr in Hlen. cbn in Hlen.
  split_and!; try done.
  - apply slot_words_same; [lia | fold words; lia | lia].
  - apply slot_words_other; [lia | lia | lia | fold words; lia].
  - cbn [q_ring with_task]. by rewrite Hr.
Qed.

(** C26: the two processors agree on the description of a queue.  When main memory
    holds the host's [fifo_s] where the members of the structure lie, and the host
    leaves it alone, the 48 bytes [main] fetches give the SPE, in every accessor
    it uses, the values the host wrote: [main] enters its loop with all four
    contexts empty, nothing in flight, and its three indices at the last slot of
    that queue. *)
Theorem description_reaches_spe (init : memory * memory) (host : list event -> memory -> memory)
    (heap message : list event -> Z) (argp : Z) (desc : fifo_s) :
  let M := machine init host heap message in
  let B := @TaskSpec.boot_buffers M argp sizeof_fifo_s desc in
  layout B -> heap (@TaskSpec.boot_log M argp sizeof_fifo_s) <> 0 ->
  (forall l m k, 0 <= k < 12 -> host l m (argp + 4 * k) = m (argp + 4 * k)) ->
  laid_out init.1 argp 0 fifo_s_members (fifo_s_values desc) ->
  0 <= atomic desc < 2 ^ 64 ->
  exists s, @TaskManager.main_start M argp sizeof_fifo_s TaskSpec.boot = Ok (tt, s) /\
    TaskManager.current_state s = TaskManager.WAIT /\
    TaskManager.front (TaskManager.tstate s) = max_entries desc - 1 /\
    TaskPipeline.piped B (max_entries desc - 1) [] [] 0 0 None None None s /\
    (forall i, 0 <= i < max_entries desc ->
       TaskPipeline.task_ea B i = task_fifo desc + i * TASK_SIZE /\
       TaskPipeline.ack_ea B i = ack_fifo desc + i * ACK_SIZE).
Proof.
  intros M B HL Hlog Ha Hl Hat.
  pose proof (la_entries B HL) as HN. pose proof (la_tasks B HL). pose proof (la_acks B HL).
  cbn [TaskPipeline.b_desc B TaskSpec.boot_buffers] in *.
  assert (described init host B) as Hd.
  { apply laid_out_described; try done; [| lia].
    repeat (apply Forall_cons; split); try lia; done. }
  pose proof (machine_buffers_ok init host heap message B HL Hd) as HB.
  destruct (@TaskSpec.run_main_start M argp sizeof_fifo_s desc HB Hlog)
    as (s & Hrun & _ & Hst & _ & Hf & _ & HP).
  exists s. split_and!; try done. intros i Hi. unfold TASK_SIZE, ACK_SIZE.
  rewrite (task_ea_eq B HL), (ack_ea_eq B HL) by done. cbn. lia.
Qed.

(** * Witnesses *)

(** Two pending tasks in a queue of four slots, in a memory: slots 3 and 0, the
    ones the SPE executes for them, hold additions. *)
Definition example_main : memory := fun a =>
  if (0x8000 <=? a) && (a <? 0x8000 + 48) then
    List.nth (Z.to_nat ((a - 0x8000) / 4)) [0; 0x10000; 0; 0x20000; 0; 0x30000; 4; 1] 0
  else if (0x10000 + 3 * 128 <=? a) && (a <? 0x10000 + 4 * 128) then
    List.nth (Z.to_nat ((a - (0x10000 + 3 * 128)) / 4)) [ADD; 0; 3; 5; 7] 0
  else if (0x10000 <=? a) && (a <? 0x10000 + 128) then
    List.nth (Z.to_nat ((a - 0x10000) / 4)) [ADD; 0; 2; 1; 1] 0
  else if (0x20000 <=? a) && (a <? 0x20000 + 64) then ACK_CLEAR
  else if a =? 0x30000 then 1 else if a =? 0x30004 then 1 else 0.
#[local] Instance example_machine : Mfc :=
  machine (example_main, fun _ => 0) (fun _ m => m) (fun l => 4096 * (1 + Z.of_nat (length l)))
    (fun _ => 0).
Definition boot_example : TaskPipeline.buffers :=
  TaskSpec.boot_buffers 0x8000 48 (TaskSpec.board_desc 4).
Definition example_buffers : TaskPipeline.buffers :=
  rebase boot_example (TaskSpec.boot_log 0x8000 48).
Definition two_pending : queue :=
  Queue (Ring_context 2 0 4)
    (map (fun k => example_main (0x10000 + 4 * k)) (seqZ 0 128))
    (map (fun k => example_main (0x20000 + 4 * k)) (seqZ 0 16)) (Atomic_s 1 1).

Lemma four i : 0 <= i < 4 -> i = 0 \/ i = 1 \/ i = 2 \/ i = 3.
Proof. lia. Qed.
Ltac four_cases := repeat match goal with
  | H : 0 <= _ < 4 |- _ => apply four in H as [-> | [-> | [-> | ->]]] end.

Lemma example_layout l : layout (rebase boot_example l).
Proof.
  split; try (intros i j Hi Hj Hne; four_cases; try congruence; vm_compute; intuition congruence);
    try (intros i j Hi Hj; four_cases; vm_compute; intuition congruence);
    try (intros i Hi; four_cases; vm_compute; intuition congruence);
    vm_compute; intuition congruence.
Qed.

Lemma example_laid_out :
  laid_out example_main 0x8000 0 fifo_s_members (fifo_s_values (TaskSpec.board_desc 4)).
Proof.
  cbn [laid_out fifo_s_members fifo_s_values].
  split_and!; try exact I; intros [| [| j]] w Hw; try discriminate Hw;
    injection Hw as <-; vm_compute; reflexivity.
Qed.

Lemma description_reaches_spe_witness :
  exists s, TaskManager.main_start 0x8000 sizeof_fifo_s TaskSpec.boot = Ok (tt, s) /\
    TaskManager.front (TaskManager.tstate s) = 3.
Proof.
  destruct (description_reaches_spe (example_main, fun _ => 0) (fun _ m => m)
    (fun l => 4096 * (1 + Z.of_nat (length l))) (fun _ => 0) 0x8000 (TaskSpec.board_desc 4))
    as (s & Hrun & _ & Hf & _).
  - exact (example_layout _).
  - vm_compute. congruence.
  - intros l m k _. reflexivity.
  - exact example_laid_out.
  - cbn. lia.
  - exists s. split; [exact Hrun | exact Hf].
Defined.

Lemma example_boot :
  exists sp, TaskManager.main_start 0x8000 48 TaskSpec.boot = Ok (tt, sp) /\
    TaskManager.events sp = TaskSpec.boot_log 0x8000 48 /\
    in_step example_buffers two_pending [] [] sp.
Proof.
  destruct (TaskSpec.run_main_start 0x8000 48 (TaskSpec.board_desc 4))
    as (sp & Hstart & _ & _ & Hev & _ & _ & HP).
  - apply machine_buffers_ok; [exact (example_layout _) |].
    split_and!; vm_compute; reflexivity.
  - vm_compute. congruence.
  - exists sp. split; [exact Hstart |]. split; [exact Hev |].
    unfold example_buffers. rewrite <- Hev. apply in_step_rebase. split; [reflexivity | exact HP].
Qed.

Lemma example_in_memory : in_memory example_buffers two_pending example_main.
Proof.
  split; try reflexivity; cbn [size q_ring q_tasks q_acks two_pending]; intros k Hk.
  - exact (lookup_map_seqZ (fun k => example_main (0x10000 + 4 * k)) 128 k Hk).
  - exact (lookup_map_seqZ (fun k => example_main (0x20000 + 4 * k)) 16 k Hk).
Qed.

Lemma two_pending_acks : acks_pending two_pending.
Proof.
  intros i Hi (w & Hw & Hne). exfalso. apply Hne. cbn in Hi. four_cases; vm_compute in Hw; by injection Hw as <-.
Qed.

Lemma example_junk i : 0 <= i < 4 ->
  snd (after (example_main, fun _ => 0) (fun _ m => m) (TaskSpec.boot_log 0x8000 48))
    (TaskPipeline.b_ack example_buffers i) <> ACK_CLEAR.
Proof. intros Hi. four_cases; vm_compute; congruence. Qed.

Lemma tasks_round_trip_witness :
  exists sp sp' q1, TaskManager.main_start 0x8000 48 TaskSpec.boot = Ok (tt, sp) /\
    TaskManager.pipeline 9 TaskSpec.leftover sp = Ok (tt, sp') /\
    in_memory example_buffers q1
      (after (example_main, fun _ => 0) (fun _ m => m) (TaskManager.events sp')).1 /\
    q_acks q1 !! 1%nat = Some 39 /\ q_acks q1 !! 5%nat = Some 18.
Proof.
  destruct example_boot as (sp & Hstart & Hev & Hstep). exists sp.
  destruct (tasks_round_trip (example_main, fun _ => 0) (fun _ m => m)
    (fun l => 4096 * (1 + Z.of_nat (length l))) (fun _ => 0) example_buffers two_pending
    [] [] sp 9 TaskSpec.leftover) as (sp' & q1 & Hrun & Hmem & _ & Hres & _).
  - split; [| done | reflexivity | reflexivity]. split; cbn; lia.
  - apply two_pending_acks.
  - reflexivity.
  - exact Hstep.
  - exact Hev.
  - apply example_layout.
  - split_and!; vm_compute; reflexivity.
  - intros l m a _ _. reflexivity.
  - exact example_in_memory.
  - exact example_junk.
  - intros j i Hi. change (pending _) with [0; 1] in Hi.
    destruct j as [| [| j]]; [| | discriminate Hi]; injection Hi as <-;
      (split; [reflexivity |]); eexists; vm_compute; reflexivity.
  - reflexivity.
  - exists sp', q1. split; [exact Hstart |]. split; [exact Hrun |]. split; [exact Hmem |].
    destruct (Hres 0%nat 0 eq_refl) as (r & Hr & Hq). vm_compute in Hr. injection Hr as <-.
    destruct (Hres 1%nat 1 eq_refl) as (r & Hr & Hq1). vm_compute in Hr. injection Hr as <-.
    split; [exact Hq | exact Hq1].
Defined.

(** A board whose every slot holds the same addition. *)
Lemma submission_in_step_witness :
  exists s' q', submit (repeat (mret tt) 1) [true] ADD 5 [6] (demo 4 2) = Ok (1, s') /\
    has_queue s' 1 q' /\ line_published q'.
Proof.
  destruct (TaskSpec.board_boot ADD 4 0) as (sp & Hstart & HP & _); [lia |].
  destruct (demo_entry 4 2 1) as (p & q & Hp & Hq & Hh & Hk & Hf); [lia | lia | lia |].
  destruct (@submission_in_step (TaskSpec.board ADD 4 0)
    (@TaskSpec.boot_buffers (TaskSpec.board ADD 4 0) 0x8000 48 (TaskSpec.board_desc 4))
    (demo 4 2) 1 1 [true] ADD 5 [6] p q [] [] sp)
    as (s' & q' & Hrun & Hq' & Hline & _).
  - apply demo_fresh; lia.
  - apply demo_first_free; lia.
  - lia.
  - apply list_elem_of_In. left. reflexivity.
  - exact Hp.
  - exact Hh.
  - exact Hk.
  - split; rewrite (fq_ring 4 q Hf); [reflexivity | exact HP].
  - exists s', q'. split; [exact Hrun |]. split; [exact Hq' | exact Hline].
Defined.

Lemma first_task_not_executed_witness :
  exists s' sp sp', submit (repeat (mret tt) 1) [true] ADD 5 [6] (demo 4 2) = Ok (1, s') /\
    @TaskManager.main_start (TaskSpec.board ADD 4 0) 0x8000 48 TaskSpec.boot = Ok (tt, sp) /\
    @TaskManager.pipeline (TaskSpec.board ADD 4 0) 5 TaskSpec.leftover sp = Ok (tt, sp') /\
    TaskPipeline.fetches (TaskManager.events sp') = [0x10000 + 3 * 128] /\
    TaskPipeline.stores (TaskManager.events sp') = [0x20000].
Proof.
  destruct (demo_entry 4 2 1) as (p & q & Hp & Hq & Hh & Hk & Hf); [lia | lia | lia |].
  destruct (@first_task_not_executed (TaskSpec.board ADD 4 0) (demo 4 2) 1 1 [true] ADD 5 [6]
    p q 0x8000 TaskSpec.leftover (TaskSpec.board_desc 4) 5 (fun _ => True) (TaskSpec.board_main ADD))
    as (s' & q' & sp & sp' & Hrun & _ & _ & _ & _ & Hstart & Hpipe & Hfe & Hse & _).
  - apply demo_fresh; lia.
  - apply demo_first_free; lia.
  - lia.
  - apply list_elem_of_In. left. reflexivity.
  - exact Hp.
  - exact Hh.
  - exact Hk.
  - exact Hf.
  - apply TaskSpec.board_buffers_ok. lia.
  - apply TaskSpec.board_log_ok.
  - apply TaskSpec.board_copies.
  - apply TaskSpec.board_addition, TaskSpec.leftover_bound.
  - apply TaskSpec.board_line. lia.
  - reflexivity.
  - exists s', sp, sp'. split; [exact Hrun |]. split; [exact Hstart |]. split; [exact Hpipe |].
    rewrite Hfe, Hse. split; vm_compute; reflexivity.
Defined.
