(* ===== verification/Live.v ===== *)
(** The host's threads, the SPE and its DMA engine at the same time.

    The machine of Machine.v lets a transfer take effect when it is issued, and
    the host write between runs.  Here nothing waits for anything: a transfer
    copies at any time between the command and the tag status that covers it, in
    any order, and between any two events of the SPE the two threads of the host
    do any number of steps: one access to the shared memory or one call of
    shared/ring.c each.  Everything else that shares main memory, the other queues
    and their SPEs among it, may do anything at any time outside of this queue.  A
    schedule says which. *)
From stdpp Require Import base list.
From Stdlib Require Import ZArith Lia.
From S2P Require Import Prelude.
From S2P Require Import Messages.
From S2P Require Import Ring.
From S2P Require Import HostFifo.
From S2P Require Import Dma.
From S2P Require Import Machine.

(** * The steps *)

(** A command of the DMA engine that has not taken effect. *)
Record xfer := Xfer {
  t_dir : direction; t_ls : Z; t_ea : Z; t_size : Z; t_tag : Z }.

(** The thread that submits is between two tasks, or writes one to the slot it
    found free, or has published it and not yet moved the front of its ring. *)
Inductive writer := Idle | Writing | Announced.

Inductive step :=
| Claim                (* selectfifo: ringHasFree says yes *)
| Write (k v : Z)      (* fifoBegin, fifoAdd: word [k] of the front slot *)
| Announce             (* send_front: the conditional store *)
| Advance              (* fifoKick: ringIncFront *)
| Clear                (* fifothread: [ack[0] != ACK_CLEAR], then ACK_CLEAR *)
| Release              (* fifothread: ringIncBack *)
| Complete (k : nat)   (* transfer [k] takes effect *)
| Elsewhere (m : memory). (* others write what is not of this queue: it is as in [m] *)

(** Both memories, the DMA engine, and what the threads of the host keep to
    themselves: the ring, the point the submitting thread has reached, and
    whether the oldest acknowledgement was cleared and its slot not yet released.
    [lv_tasks] and [lv_released] are history: the words of each task published,
    after those the last slot held at first, and the number of slots released. *)
Record live := Live {
  lv_main : memory; lv_ls : memory;
  lv_mask : Z; lv_moving : list xfer;
  lv_ring : ring_context_s; lv_writer : writer; lv_cleared : bool;
  lv_tasks : list (Z -> Z); lv_released : Z }.

Definition poke (a v : Z) (m : memory) : memory := fun x => if x =? a then v else m x.

Definition set_main (m : memory) (lv : live) : live :=
  Live m (lv_ls lv) (lv_mask lv) (lv_moving lv) (lv_ring lv) (lv_writer lv) (lv_cleared lv)
    (lv_tasks lv) (lv_released lv).
Definition set_ls (m : memory) (lv : live) : live :=
  Live (lv_main lv) m (lv_mask lv) (lv_moving lv) (lv_ring lv) (lv_writer lv) (lv_cleared lv)
    (lv_tasks lv) (lv_released lv).
Definition set_mask (v : Z) (lv : live) : live :=
  Live (lv_main lv) (lv_ls lv) v (lv_moving lv) (lv_ring lv) (lv_writer lv) (lv_cleared lv)
    (lv_tasks lv) (lv_released lv).
Definition set_moving (ts : list xfer) (lv : live) : live :=
  Live (lv_main lv) (lv_ls lv) (lv_mask lv) ts (lv_ring lv) (lv_writer lv) (lv_cleared lv)
    (lv_tasks lv) (lv_released lv).
Definition set_host (r : ring_context_s) (w : writer) (c : bool) (lv : live) : live :=
  Live (lv_main lv) (lv_ls lv) (lv_mask lv) (lv_moving lv) r w c (lv_tasks lv) (lv_released lv).
Definition set_history (ts : list (Z -> Z)) (n : Z) (lv : live) : live :=
  Live (lv_main lv) (lv_ls lv) (lv_mask lv) (lv_moving lv) (lv_ring lv) (lv_writer lv)
    (lv_cleared lv) ts n.

Definition writing (lv : live) : bool :=
  match lv_writer lv with Writing => true | _ => false end.
Definition announced (lv : live) : bool :=
  match lv_writer lv with Announced => true | _ => false end.

Definition take_effect (t : xfer) (lv : live) : live :=
  match t_dir t with
  | In => set_ls (copy (t_ls t) (t_ea t) (t_size t) (lv_main lv) (lv_ls lv)) lv
  | Out => set_main (copy (t_ea t) (t_ls t) (t_size t) (lv_ls lv) (lv_main lv)) lv
  end.
Definition complete (k : nat) (lv : live) : live :=
  match lv_moving lv !! k with
  | Some t => set_moving (delete k (lv_moving lv)) (take_effect t lv)
  | None => lv
  end.

(** The next step of a thread, with the queue where [d] says.  A step that the
    code would not take does nothing. *)
Definition do_claim (lv : live) : live :=
  match lv_writer lv with
  | Idle => if ringHasFree (lv_ring lv) =? 0 then lv
            else set_host (lv_ring lv) Writing (lv_cleared lv) lv
  | _ => lv
  end.
(** [fifoAdd] leaves the 32nd word of a slot alone. *)
Definition do_write (d : fifo_s) (k v : Z) (lv : live) : live :=
  if writing lv && (0 <=? k) && (k <? 31)
  then set_main (poke (task_fifo d + 128 * ringGetFront (lv_ring lv) + 4 * k) v (lv_main lv)) lv
  else lv.
(** The state is set and the count stored; at the first task, when the state
    changes, the count is already the one to be stored. *)
Definition do_announce (d : fifo_s) (lv : live) : live :=
  let front := ringGetFront (lv_ring lv) in
  if writing lv then
    set_host (lv_ring lv) Announced (lv_cleared lv)
      (set_history (lv_tasks lv ++ [words (lv_main lv) (task_fifo d + 128 * front)]) (lv_released lv)
         (set_main (poke (atomic d + 4) 1 (poke (atomic d) front (lv_main lv))) lv))
  else lv.
Definition do_advance (lv : live) : live :=
  if announced lv then set_host (ringIncFront (lv_ring lv)) Idle (lv_cleared lv) lv else lv.
Definition do_clear (d : fifo_s) (lv : live) : live :=
  let ack := ack_fifo d + 16 * ringGetBack (lv_ring lv) in
  if negb (lv_cleared lv) && negb (lv_main lv ack =? ACK_CLEAR)
  then set_host (lv_ring lv) (lv_writer lv) true (set_main (poke ack ACK_CLEAR (lv_main lv)) lv)
  else lv.
Definition do_release (lv : live) : live :=
  if lv_cleared lv
  then set_history (lv_tasks lv) (lv_released lv + 1)
         (set_host (ringIncBack (lv_ring lv)) (lv_writer lv) false lv)
  else lv.
(** The slots of a queue, its acknowledgements and its line. *)
Definition inside (a base n : Z) : bool := (base <=? a) && (a <? base + n).
Definition of_queue (d : fifo_s) (a : Z) : bool :=
  inside a (task_fifo d) (128 * max_entries d) || inside a (ack_fifo d) (16 * max_entries d)
  || inside a (atomic d) 128.
Definition do_elsewhere (d : fifo_s) (m : memory) (lv : live) : live :=
  set_main (fun a => if of_queue d a then lv_main lv a else m a) lv.
Definition host_step (d : fifo_s) (st : step) (lv : live) : live :=
  match st with
  | Claim => do_claim lv
  | Write k v => do_write d k v lv
  | Announce => do_announce d lv
  | Advance => do_advance lv
  | Clear => do_clear d lv
  | Release => do_release lv
  | Complete k => complete k lv
  | Elsewhere m => do_elsewhere d m lv
  end.
Definition play (d : fifo_s) (ss : list step) (lv : live) : live :=
  fold_left (fun lv st => host_step d st lv) ss lv.

(** The transfers that [p] selects take effect; [n] is at least their number. *)
Fixpoint complete_all (p : xfer -> bool) (n : nat) (lv : live) : live :=
  match n with
  | O => lv
  | S n =>
      match list_find (fun t => p t = true) (lv_moving lv) with
      | Some (k, _) => complete_all p n (complete k lv)
      | None => lv
      end
  end.
Definition settle (p : xfer -> bool) (lv : live) : live :=
  complete_all p (length (lv_moving lv)) lv.

(** What the SPE's event does at once.  As in Machine.v, transfer lists and
    conditional puts, which the task program does not use, do nothing. *)
Definition issue (e : event) (lv : live) : live :=
  match e with
  | mfc d _ l ea size tag => set_moving (lv_moving lv ++ [Xfer d l ea size tag]) lv
  | mfc_getllar l ea => set_ls (copy l ea 128 (lv_main lv) (lv_ls lv)) lv
  | mfc_putlluc l ea => set_main (copy ea l 128 (lv_ls lv) (lv_main lv)) lv
  | mfc_putqlluc l ea tag => set_moving (lv_moving lv ++ [Xfer Out l ea 128 tag]) lv
  | mfc_write_tag_mask m => set_mask (u32 m) lv
  | mfc_read_tag_status_all => settle (fun t => Z.testbit (lv_mask lv) (t_tag t)) lv
  | mfc_read_tag_status_any => settle (fun t => lv_mask lv =? 2 ^ t_tag t) lv
  | ls_store addr k v => set_ls (poke (addr + 4 * k) v (lv_ls lv)) lv
  | _ => lv
  end.

(** * The machine *)

Section live.
Context (init : live) (sched : list event -> list step) (d : fifo_s)
  (heap message : list event -> Z).

(** [sched l] is what happens between the last event of [l] and the next. *)
Definition live_step (st : list event * live) (e : event) : list event * live :=
  (st.1 ++ [e], play d (sched (st.1 ++ [e])) (issue e st.2)).
Definition live_after (l : list event) : live :=
  (fold_left live_step l ([], play d (sched []) init)).2.

Definition live_machine : Mfc := {|
  channel := heap;
  ls_word l a k := lv_ls (live_after l) (a + 4 * k);
  addr_of_message := message;
  MFC_PUTLLC_STATUS := 1
|}.

Lemma live_snoc l e :
  live_after (l ++ [e]) = play d (sched (l ++ [e])) (issue e (live_after l)).
Proof.
  assert (forall l, (fold_left live_step l ([], play d (sched []) init)).1 = l) as Hfst.
  { clear. intros l. induction l as [| e l IH] using rev_ind; [done |].
    rewrite fold_left_app. cbn. by rewrite IH. }
  unfold live_after. rewrite fold_left_app. cbn. by rewrite Hfst.
Qed.

(** What every step and every event keeps, every log keeps. *)
Lemma live_ind (P : list event -> live -> Prop) :
  P [] (play d (sched []) init) ->
  (forall l e, P l (live_after l) -> P (l ++ [e]) (live_after (l ++ [e]))) ->
  forall l, P l (live_after l).
Proof. intros H0 Hs l. induction l as [| e l IH] using rev_ind; [exact H0 | by apply Hs]. Qed.
End live.

(** * Lemmas *)

Ltac at_step :=
  cbv beta iota zeta delta
    [host_step do_claim do_write do_announce do_advance do_clear do_release do_elsewhere].

Lemma poke_eq a v m : poke a v m a = v.
Proof. unfold poke. by rewrite Z.eqb_refl. Qed.
Lemma poke_ne a v m x : x <> a -> poke a v m x = m x.
Proof. intros Hx. unfold poke. by rewrite (proj2 (Z.eqb_neq _ _)). Qed.

Lemma inside_spec a base n : inside a base n = true <-> within a base n.
Proof. unfold inside, within. rewrite andb_true_iff, Z.leb_le, Z.ltb_lt. done. Qed.
Lemma of_queue_spec d a : of_queue d a = true <->
  within a (task_fifo d) (128 * max_entries d) \/ within a (ack_fifo d) (16 * max_entries d) \/
  within a (atomic d) 128.
Proof. unfold of_queue. rewrite !orb_true_iff, !inside_spec. tauto. Qed.

Section steps.
Context (d : fifo_s).
Implicit Types (lv : live).

Lemma play_ind (P : live -> Prop) :
  (forall st lv, P lv -> P (host_step d st lv)) -> forall ss lv, P lv -> P (play d ss lv).
Proof. intros Hs ss. induction ss as [| st ss IH]; intros lv HP; [done |]. apply IH, Hs, HP. Qed.

Lemma play_app ss ss' lv : play d (ss ++ ss') lv = play d ss' (play d ss lv).
Proof. apply fold_left_app. Qed.

Lemma complete_length k t lv :
  lv_moving lv !! k = Some t -> S (length (lv_moving (complete k lv))) = length (lv_moving lv).
Proof.
  intros Hk. unfold complete. rewrite Hk. cbn. rewrite length_delete by (by eexists).
  apply lookup_lt_Some in Hk. lia.
Qed.

(** After [settle] nothing selected is left, and what was kept by completing a
    transfer still holds. *)
Lemma settle_spec (p : xfer -> bool) (P : live -> Prop) lv :
  P lv -> (forall lv k t, P lv -> lv_moving lv !! k = Some t -> p t = true -> P (complete k lv)) ->
  P (settle p lv) /\ (forall t, t ∈ lv_moving (settle p lv) -> p t = false).
Proof.
  intros HP Hc. unfold settle. remember (length (lv_moving lv)) as n eqn:Hn.
  assert (length (lv_moving lv) <= n)%nat as Hle by lia. clear Hn. revert lv HP Hle.
  induction n as [| n IH]; intros lv HP Hle; cbn [complete_all].
  - split; [done |]. destruct (lv_moving lv); [| cbn in Hle; lia].
    intros t Ht. by apply elem_of_nil in Ht.
  - destruct (list_find _ _) as [[k t] |] eqn:Hf.
    + apply list_find_Some in Hf as (Hk & Ht & _). apply IH; [by eapply Hc |].
      pose proof (complete_length k t lv Hk). lia.
    + split; [done |]. intros t Ht. apply list_find_None in Hf.
      rewrite Forall_forall in Hf. specialize (Hf t Ht). by destruct (p t).
Qed.

Lemma complete_moving k lv t : t ∈ lv_moving (complete k lv) -> t ∈ lv_moving lv.
Proof.
  unfold complete. destruct (lv_moving lv !! k) as [t' |] eqn:Hk; [| done].
  cbn. intros Ht. apply list_elem_of_lookup in Ht as [i Hi].
  rewrite lookup_delete in Hi || idtac. apply list_elem_of_lookup.
  destruct (decide (i < k)%nat).
  - exists i. by rewrite list_lookup_delete_lt in Hi.
  - exists (S i). by rewrite list_lookup_delete_ge in Hi by lia.
Qed.

(** No step between two events starts a transfer or changes the tag mask. *)
Lemma play_dma ss lv :
  lv_mask (play d ss lv) = lv_mask lv /\
  (forall t, t ∈ lv_moving (play d ss lv) -> t ∈ lv_moving lv).
Proof.
  apply (play_ind (fun x => lv_mask x = lv_mask lv /\ (forall t, t ∈ lv_moving x -> t ∈ lv_moving lv)));
    [| done].
  intros st lv' [Hm Ht].
  destruct st; at_step; repeat case_match; try by split.
  split; [| intros t Hin; by eapply Ht, complete_moving].
  rewrite <- Hm. unfold complete. by destruct (_ !! k) as [[[] ? ? ? ?] |].
Qed.
End steps.
