(* ===== verification/LiveHost.v ===== *)
(** The calls of src/spefifo.c as steps of the machine of Live.v: a submission
    is a claim, the writes of its words, the store of the line and the move of the
    ring; a pass of the monitoring thread is a number of clearings and releases.
    Live.v lets other steps happen between any two of them. *)
From stdpp Require Import base list.
From Stdlib Require Import ZArith Lia.
From S2P Require Import Prelude.
From S2P Require Import Messages.
From S2P Require Import Ring.
From S2P Require Import HostFifo.
From S2P Require Import HostQueue.
From S2P Require Import HostCalls.
From S2P Require Import HostSpec.
From S2P Require Import Dma.
From S2P Require Import TaskPipeline.
From S2P Require TaskLoop.
From S2P Require Import Machine.
From S2P Require Import System.
From S2P Require Import Live.

(** * The calls *)

Fixpoint writes (k : Z) (ws : list Z) : list step :=
  match ws with
  | [] => []
  | v :: ws => Write k v :: writes (k + 1) ws
  end.
(** [fifoBegin], [fifoAdd] and [fifoKick] for a task of the words [ws]. *)
Definition submission (ws : list Z) : list step :=
  Claim :: writes 0 ws ++ [Announce; Advance].
(** The rounds of [fifothread] that find an acknowledgement. *)
Fixpoint drain_steps (n : nat) : list step :=
  match n with O => [] | S n => Clear :: Release :: drain_steps n end.

(** The queue [q] of the host is the one in the memory of the machine, and no
    call is under way. *)
Record represents (B : buffers) (q : queue) (lv : live) : Prop := {
  re_memory : in_memory B q (lv_main lv);
  re_ring : lv_ring lv = q_ring q;
  re_idle : lv_writer lv = Idle;
  re_clear : lv_cleared lv = false }.

(** * Lemmas *)

Fixpoint pokes (a : Z) (ws : list Z) (m : memory) : memory :=
  match ws with [] => m | v :: ws => pokes (a + 4) ws (poke a v m) end.

Lemma pokes_outside ws : forall a m x,
  (forall k : nat, (k < length ws)%nat -> x <> a + 4 * Z.of_nat k) -> pokes a ws m x = m x.
Proof.
  induction ws as [| v ws IH]; intros a m x Hx; cbn [pokes]; [done |].
  rewrite IH.
  - apply poke_ne. specialize (Hx 0%nat). cbn in Hx. lia.
  - intros k Hk. specialize (Hx (S k)). cbn in Hx. lia.
Qed.

Lemma pokes_inside ws : forall a m k v,
  ws !! k = Some v -> pokes a ws m (a + 4 * Z.of_nat k) = v.
Proof.
  induction ws as [| v ws IH]; intros a m k w Hk; cbn [pokes]; [done |].
  destruct k as [| k].
  - injection Hk as ->. rewrite Z.add_0_r. rewrite pokes_outside by lia. apply poke_eq.
  - replace (a + 4 * Z.of_nat (S k)) with (a + 4 + 4 * Z.of_nat k) by lia. by apply IH.
Qed.

Section calls.
Context (d : fifo_s).
Implicit Types (lv : live).

Lemma play_writes ws : forall k lv,
  writing lv = true -> 0 <= k -> k + Z.of_nat (length ws) <= 31 ->
  play d (writes k ws) lv =
  set_main (pokes (task_fifo d + 128 * ringGetFront (lv_ring lv) + 4 * k) ws (lv_main lv)) lv.
Proof.
  induction ws as [| v ws IH]; intros k lv Hw Hk Hl; cbn [writes pokes].
  { by destruct lv. }
  cbn [length] in Hl. cbn [play fold_left]. at_step.
  rewrite Hw, (proj2 (Z.leb_le 0 k)), (proj2 (Z.ltb_lt k 31)) by lia. cbn [andb].
  fold (play d (writes (k + 1) ws)). unfold play in IH. rewrite IH by (done || lia).
  cbn [lv_ring lv_main set_main].
  replace (task_fifo d + 128 * ringGetFront (lv_ring lv) + 4 * (k + 1))
    with (task_fifo d + 128 * ringGetFront (lv_ring lv) + 4 * k + 4) by lia.
  reflexivity.
Qed.

Lemma play_submission ws lv :
  lv_writer lv = Idle -> ringHasFree (lv_ring lv) <> 0 -> (length ws <= 31)%nat ->
  let f := ringGetFront (lv_ring lv) in
  let a := task_fifo d + 128 * f in
  let m := pokes a ws (lv_main lv) in
  play d (submission ws) lv =
  Live (poke (atomic d + 4) 1 (poke (atomic d) f m)) (lv_ls lv) (lv_mask lv) (lv_moving lv)
    (ringIncFront (lv_ring lv)) Idle (lv_cleared lv) (lv_tasks lv ++ [words m a]) (lv_released lv).
Proof.
  intros Hw Hf Hl f a m. unfold submission.
  change (Claim :: ?x) with ([Claim] ++ x). rewrite !play_app.
  change (play d [Claim] lv) with (host_step d Claim lv). at_step.
  rewrite Hw, (proj2 (Z.eqb_neq _ _) Hf).
  rewrite play_writes by (done || cbn; lia).
  cbn [lv_ring lv_main set_host]. fold f. rewrite Z.mul_0_r, Z.add_0_r. fold a m. reflexivity.
Qed.

(** A full queue leaves the submitting thread waiting. *)
Lemma play_idle ss lv :
  lv_writer lv = Idle -> Forall (fun st => match st with Write _ _ | Announce | Advance => True | _ => False end) ss ->
  play d ss lv = lv.
Proof.
  intros Hw. induction ss as [| st ss IH]; intros Hss; [done |].
  apply Forall_cons in Hss as [Hst Hss]. change (play d (st :: ss) lv) with (play d ss (host_step d st lv)).
  assert (host_step d st lv = lv) as ->; [| by apply IH].
  destruct st; try done; at_step; unfold writing, announced; by rewrite Hw.
Qed.

Lemma play_submission_full ws lv :
  lv_writer lv = Idle -> ringHasFree (lv_ring lv) = 0 -> play d (submission ws) lv = lv.
Proof.
  intros Hw Hf. unfold submission. change (Claim :: ?x) with ([Claim] ++ x). rewrite play_app.
  change (play d [Claim] lv) with (host_step d Claim lv). at_step. rewrite Hw, Hf.
  cbn [Z.eqb]. apply play_idle; [done |]. apply Forall_app. split; [| by repeat constructor].
  generalize 0. induction ws as [| v ws IH]; intros k; constructor; [done | apply IH].
Qed.

Lemma play_release lv :
  lv_cleared lv = false -> lv_main lv (ack_fifo d + 16 * ringGetBack (lv_ring lv)) <> ACK_CLEAR ->
  play d [Clear; Release] lv =
  Live (poke (ack_fifo d + 16 * ringGetBack (lv_ring lv)) ACK_CLEAR (lv_main lv)) (lv_ls lv)
    (lv_mask lv) (lv_moving lv) (ringIncBack (lv_ring lv)) (lv_writer lv) false (lv_tasks lv)
    (lv_released lv + 1).
Proof.
  intros Hc Hv. unfold play. cbn [fold_left]. at_step.
  by rewrite Hc, (proj2 (Z.eqb_neq _ _) Hv).
Qed.
End calls.

(** ** Over the queue in memory *)

Section queue.
Context (B : buffers) (HL : layout B).
Local Abbreviation desc := (b_desc B).
Local Abbreviation N := (max_entries desc).
Implicit Types (q : queue) (lv : live).

Lemma represents_submission q lv ws :
  represents B q lv -> queue_wf q -> size (q_ring q) = N -> ringHasFree (q_ring q) <> 0 ->
  (length ws <= 31)%nat ->
  represents B (with_ring (ringIncFront (q_ring q)) (published (with_task ws q)))
    (play desc (submission ws) lv).
Proof.
  intros [[Mt Ma Mc Ms] Hr Hi Hc] Hq Hsz Hf Hl. pose proof (la_main B HL) as Hap.
  destruct Hq as [(? & Hfr & _) Hs Ht Hk]. rewrite Hsz in *.
  rewrite play_submission by (done || by rewrite Hr). rewrite Hr.
  set (f := ringGetFront (q_ring q)). set (a := task_fifo desc + 128 * f).
  assert (0 <= f < N) as Hfb by exact Hfr.
  assert (forall x, ~ within x a 128 -> pokes a ws (lv_main lv) x = lv_main lv x) as Ho.
  { intros x Hx. apply pokes_outside. intros k Hk'. unfold within in Hx. lia. }
  split; cbn; try done. split; cbn; rewrite ?ringIncFront_size, ?Hsz.
  - intros k Hk'. unfold apart, within in *. rewrite !poke_ne by lia.
    destruct (decide (32 * f <= k < 32 * f + Z.of_nat (length ws))) as [Hin | Hout].
    + rewrite list_lookup_inserts by (subst f; unfold ringGetFront in *; lia).
      destruct (lookup_lt_is_Some_2 ws (Z.to_nat k - Z.to_nat (32 * front (q_ring q)))) as [v Hv].
      { subst f. unfold ringGetFront in *. lia. }
      rewrite Hv. f_equal. symmetry.
      replace (task_fifo desc + 4 * k) with
        (a + 4 * Z.of_nat (Z.to_nat k - Z.to_nat (32 * front (q_ring q)))).
      { by apply pokes_inside. }
      subst a f. unfold ringGetFront in *. lia.
    + assert (pokes a ws (lv_main lv) (task_fifo desc + 4 * k) = lv_main lv (task_fifo desc + 4 * k)) as ->.
      { apply pokes_outside. intros j Hj. subst a. lia. }
      rewrite <- Mt by lia. subst f. unfold ringGetFront in *.
      destruct (decide (k < 32 * front (q_ring q)));
        [apply list_lookup_inserts_lt | apply list_lookup_inserts_ge]; lia.
  - intros k Hk'. rewrite Ma by lia. f_equal. symmetry. unfold apart, within in *.
    rewrite !poke_ne by lia. apply Ho. subst a. lia.
  - rewrite poke_ne by lia. apply poke_eq.
  - apply poke_eq.
Qed.

Lemma represents_release q lv :
  represents B q lv -> queue_wf q -> size (q_ring q) = N -> acked (q_acks q) (back (q_ring q)) ->
  represents B (release q) (play desc [Clear; Release] lv).
Proof.
  intros [[Mt Ma Mc Ms] Hr Hi Hc] Hq Hsz (w & Hw & Hne). pose proof (la_main B HL) as Hap.
  destruct Hq as [(? & _ & Hb) Hs Ht Hk]. rewrite Hsz in *.
  set (b := back (q_ring q)) in *. assert (0 <= b < N) as Hbb by exact Hb.
  assert (ringGetBack (lv_ring lv) = b) as Hrb by (by rewrite Hr).
  assert (lv_main lv (ack_fifo desc + 16 * b) = w) as Hv.
  { rewrite Ma in Hw by lia. injection Hw as <-. f_equal. lia. }
  rewrite play_release by (done || by rewrite Hrb, Hv). rewrite Hrb, Hr.
  split; cbn; try done. split; cbn; rewrite ?ringIncBack_size, ?Hsz; unfold apart in *.
  - intros k Hk'. rewrite poke_ne by lia. by apply Mt.
  - intros k Hk'. fold b. destruct (decide (k = 4 * b)) as [-> | Hne'].
    + rewrite list_lookup_insert_eq by lia. f_equal. symmetry.
      replace (ack_fifo desc + 4 * (4 * b)) with (ack_fifo desc + 16 * b) by lia. apply poke_eq.
    + rewrite list_lookup_insert_ne by lia. rewrite poke_ne by lia. by apply Ma.
  - rewrite poke_ne by lia. done.
  - rewrite poke_ne by lia. done.
Qed.

Lemma represents_releases k : forall q lv,
  represents B q lv -> queue_wf q -> size (q_ring q) = N -> Z.of_nat k <= N ->
  (forall j, 0 <= j < Z.of_nat k -> acked (q_acks q) (slot (q_ring q) j)) ->
  represents B (releases k q) (play desc (drain_steps k) lv).
Proof.
  induction k as [| k IH]; intros q lv Hre Hq Hsz Hk Hall; [exact Hre |].
  assert (drain_steps (S k) = drain_steps k ++ [Clear; Release]) as ->.
  { clear. induction k as [| k IH]; [done |]. cbn in *. by rewrite <- IH. }
  rewrite play_app. change (releases (S k) q) with (release (releases k q)).
  assert (size (q_ring (releases k q)) = N) as Hsz' by (by rewrite releases_ring).
  apply represents_release; [| by apply releases_wf | done |].
  - apply IH; try done; [lia |]. intros j Hj. apply Hall. lia.
  - rewrite releases_ring by done. cbn [back set_back].
    apply releases_acked; [done | lia |]. apply Hall. lia.
Qed.
End queue.

(** ** What is published *)

(** Steps that publish nothing. *)
Definition silent (st : step) : Prop :=
  match st with Clear | Release | Complete _ | Elsewhere _ => True | _ => False end.
(** The words of a task the SPE can execute, whatever of the values [indet] the
    variable [res] holds when its turn comes. *)
Definition adds_up (indet : nat -> Z) (ws : list Z) : Prop :=
  (5 <= length ws <= 31)%nat /\ s32 (default 0 (ws !! 0%nat)) = s32 ADD /\
  forall n, exists r, TaskLoop.task_result (fun k => default 0 (ws !! Z.to_nat k)) (indet n) = Ok r.
(** Whole submissions of such tasks, and silent steps, in any order. *)
Definition polite (indet : nat -> Z) (ss : list step) : Prop := exists parts, ss = concat parts /\
  Forall (fun part => Forall silent part \/ exists ws, part = submission ws /\ adds_up indet ws) parts.

Lemma small_addition (w : Z -> Z) x :
  0 <= s32 (w 2) <= 2 ^ 9 -> 0 <= s32 (w 3) < 2 ^ 20 -> 0 <= s32 (w 4) < 2 ^ 20 ->
  0 <= x < 2 ^ 20 -> exists r, TaskLoop.task_result w x = Ok r.
Proof.
  intros Hn Ha Hb Hx. eexists. apply TaskSpec.add_loop_sum; rewrite ?Z2Nat.id; try lia.
  assert (s32 (w 2) * (s32 (w 2) - 1) / 2 <= 2 ^ 17).
  { apply Z.div_le_upper_bound; [lia | nia]. }
  nia.
Qed.

Section published.
Context (d : fifo_s) (indet : nat -> Z).
Implicit Types (lv : live).

Definition well_published lv : Prop :=
  lv_writer lv = Idle /\
  forall j w, lv_tasks lv !! j = Some w -> TaskLoop.good (indet j) w.

Lemma well_published_part part lv :
  Forall silent part \/ (exists ws, part = submission ws /\ adds_up indet ws) ->
  well_published lv -> well_published (play d part lv).
Proof.
  intros [Hs | (ws & -> & Hl & Hc & Hr)].
  - revert lv. induction part as [| st part IH]; intros lv [Hw Hg]; [done |].
    apply Forall_cons in Hs as [Hst Hs].
    change (play d (st :: part) lv) with (play d part (host_step d st lv)). apply IH; [done |].
    destruct st; try done; at_step; try (by case_match).
    unfold complete, well_published. by destruct (_ !! k) as [[[] ? ? ? ?] |].
  - intros [Hw Hg]. destruct (decide (ringHasFree (lv_ring lv) = 0)) as [Hf | Hf].
    { by rewrite play_submission_full. }
    rewrite play_submission by (done || lia). split; [done |]. cbn.
    intros j w0. rewrite lookup_app_Some, list_lookup_singleton_Some.
    set (a := _ + _). set (w := words _ _). intros [Hj | (_ & _ & <-)]; [by apply Hg |].
    assert (forall k, 0 <= k < 5 -> w k = default 0 (ws !! Z.to_nat k)) as Hk.
    { intros k Hk. destruct (lookup_lt_is_Some_2 ws (Z.to_nat k)) as [v Hv]; [lia |].
      rewrite Hv. unfold w, words. replace (4 * k) with (4 * Z.of_nat (Z.to_nat k)) by lia.
      by apply pokes_inside. }
    split; [by rewrite Hk |]. destruct (Hr j) as [r Hj]. exists r.
    unfold TaskLoop.task_result in *. rewrite !Hk by lia. done.
Qed.

Lemma well_published_play ss lv :
  polite indet ss -> well_published lv -> well_published (play d ss lv).
Proof.
  intros (parts & -> & Hp). revert lv. induction parts as [| part parts IH]; intros lv Hw; [done |].
  apply Forall_cons in Hp as [Hp Hps]. cbn [concat]. rewrite play_app.
  apply IH; [done |]. by apply well_published_part.
Qed.

Lemma polite_published (init : live) (sched : list event -> list step) l :
  (forall l, polite indet (sched l)) -> well_published init ->
  well_published (live_after init sched d l).
Proof.
  intros Hs Hi. revert l. apply (live_ind init sched d (fun _ => well_published)).
  { by apply well_published_play. }
  intros l e Hw. rewrite live_snoc. apply well_published_play; [done |].
  assert (forall p lv, well_published lv -> well_published (settle p lv)) as Hset.
  { intros p lv Hlv. apply (settle_spec p well_published lv Hlv).
    intros lv' k t [Hw' Hg'] _ _. unfold complete, well_published. by destruct (_ !! k) as [[[] ? ? ? ?] |]. }
  destruct e; cbn [issue]; try done; by apply Hset.
Qed.
End published.

(** ** The queue of a host, laid out in a memory *)

Definition memory_of (d : fifo_s) (q : queue) (m : memory) : memory := fun a =>
  let n := size (q_ring q) in
  if (task_fifo d <=? a) && (a <? task_fifo d + 128 * n) then
    default 0 (q_tasks q !! Z.to_nat ((a - task_fifo d) / 4))
  else if (ack_fifo d <=? a) && (a <? ack_fifo d + 16 * n) then
    default 0 (q_acks q !! Z.to_nat ((a - ack_fifo d) / 4))
  else if a =? atomic d then at_count (q_atomic q)
  else if a =? atomic d + 4 then at_state (q_atomic q)
  else m a.

Lemma memory_of_holds (B : buffers) (q : queue) (m : memory) :
  layout B -> queue_wf q -> size (q_ring q) = max_entries (b_desc B) ->
  in_memory B q (memory_of (b_desc B) q m).
Proof.
  intros HL [_ _ Ht Hk] Hsz. pose proof (la_main B HL) as Hap. unfold apart in Hap.
  unfold memory_of. split.
  - intros k Hk'. destruct (Z.leb_spec (task_fifo (b_desc B)) (task_fifo (b_desc B) + 4 * k)); [| lia].
    destruct (Z.ltb_spec (task_fifo (b_desc B) + 4 * k) (task_fifo (b_desc B) + 128 * size (q_ring q))); [| lia].
    cbn [andb]. rewrite Z.add_simpl_l, (Z.mul_comm 4), Z.div_mul by lia.
    destruct (lookup_lt_is_Some_2 (q_tasks q) (Z.to_nat k)) as [v ->]; [lia | done].
  - intros k Hk'. rewrite Hsz in *.
    assert ((task_fifo (b_desc B) <=? ack_fifo (b_desc B) + 4 * k) && (ack_fifo (b_desc B) + 4 * k <? task_fifo (b_desc B) + 128 * max_entries (b_desc B)) = false) as ->.
    { apply andb_false_iff. destruct Hap as (? & _). lia. }
    destruct (Z.leb_spec (ack_fifo (b_desc B)) (ack_fifo (b_desc B) + 4 * k)); [| lia].
    destruct (Z.ltb_spec (ack_fifo (b_desc B) + 4 * k) (ack_fifo (b_desc B) + 16 * max_entries (b_desc B))); [| lia].
    cbn [andb]. rewrite Z.add_simpl_l, (Z.mul_comm 4), Z.div_mul by lia.
    destruct (lookup_lt_is_Some_2 (q_acks q) (Z.to_nat k)) as [v ->]; [lia | done].
  - rewrite Hsz. zcases.
  - rewrite Hsz. zcases.
Qed.

(** * Property *)

(** C8: the calls of spefifo.h are sequences of steps: with queue [i] of the host the
    one in the memory of the machine, a submission that goes to it returns the
    queue that its steps leave in that memory, and a pass of the monitoring
    thread returns the queue that some number of its rounds leaves there. *)
Theorem host_calls_are_steps (B : buffers) (s : host) (i : Z) (p : spe_s) (q : queue) (lv : live) :
  layout B -> host_wf s -> 0 <= i < spes s -> spe s !! Z.to_nat i = Some p -> holds p q ->
  queue_wf q -> size (q_ring q) = max_entries (b_desc B) -> represents B q lv ->
  (forall k n stwcx command handle args, i = (current_spe s + k) mod spes s -> first_free s k ->
     k <= Z.of_nat n -> true ∈ stwcx -> isKicked p = 1 -> exists s' q',
     submit (repeat (mret tt) n) stwcx command handle args s = Ok (i, s') /\ has_queue s' i q' /\
     represents B q'
       (play (b_desc B) (submission (map u32 (command :: handle :: take 29 args))) lv)) /\
  (forall fuel, (forall j q', has_queue s j q' -> size (q_ring q') < Z.of_nat fuel) ->
     exists s' q' n, fifothread_pass fuel s = Ok (tt, s') /\ has_queue s' i q' /\
     represents B q' (play (b_desc B) (drain_steps n) lv)).
Proof.
  intros HL Hs Hi Hp Hh Hq Hsz Hre. split.
  - intros k n stwcx c h args -> Hff Hn Hst Hk.
    destruct (run_submit_first s k n stwcx c h args p q Hs Hff Hn Hst Hp Hh Hk)
      as (s' & p' & t & Hrun & Hch & _). eexists s', _. split; [exact Hrun |].
    split; [apply (ch_queue _ _ _ _ Hch) |]. apply represents_submission; try done.
    + destruct Hff as (_ & (q1 & Hq1 & Hfree) & _).
      assert (has_queue s ((current_spe s + k) mod spes s) q) as Hq2 by (split; [done | by exists p]).
      by rewrite (has_queue_agree _ _ _ _ Hq2 Hq1).
    + rewrite length_map. cbn. rewrite length_take. lia.
  - intros fuel Hf. pose proof (hwf_spes s Hs).
    assert (has_queue s i q) as Hq1 by (split; [done | by exists p]).
    destruct (run_drain_from fuel (Z.to_nat (spes s)) 0 s Hs)
      as (s' & Hrun & _ & _ & _ & _ & Hall); [lia | lia | done |].
    destruct (Hall i q) as (q' & Hq' & k & Hk & -> & Hack & _); [lia | done |].
    exists s', (releases (Z.to_nat k) q), (Z.to_nat k). split; [exact Hrun |].
    split; [done |]. apply represents_releases; try done; [lia |].
    intros j Hj. apply Hack. lia.
Qed.

(** * Witness *)

(** Queue 1 of a fresh host, in a memory. *)
Lemma host_calls_are_steps_witness :
  exists s' q' m, submit (repeat (mret tt) 1) [true] ADD 5 [6] (demo 4 2) = Ok (1, s') /\
    has_queue s' 1 q' /\ in_memory boot_example q' m.
Proof.
  destruct (demo_entry 4 2 1) as (p & q & Hp & Hq & Hh & Hk & Hf); [lia | lia | lia |].
  assert (layout boot_example) as HL by (destruct (example_layout []); by split).
  assert (size (q_ring q) = 4) as Hsz by (by rewrite (fq_ring 4 q Hf)).
  pose proof (memory_of_holds boot_example q (fun _ => 0) HL (fq_wf 4 q Hf) Hsz) as Hm.
  set (lv := Live (memory_of (b_desc boot_example) q (fun _ => 0)) (fun _ => 0) 0 [] (q_ring q)
    Idle false [] 0).
  destruct (proj1 (host_calls_are_steps boot_example (demo 4 2) 1 p q lv HL
    (proj1 (demo_fresh 4 2 ltac:(lia) ltac:(lia))) ltac:(rewrite (proj1 (demo_shape 4 2 ltac:(lia) ltac:(lia))); lia)
    Hp Hh (fq_wf 4 q Hf) Hsz ltac:(split; [exact Hm | reflexivity | reflexivity | reflexivity]))
    1 1%nat [true] ADD 5 [6]) as (s' & q' & Hrun & Hq' & Hre).
  - destruct (demo_shape 4 2) as [-> ->]; [lia | lia | reflexivity].
  - apply demo_first_free; lia.
  - lia.
  - apply list_elem_of_In. left. reflexivity.
  - exact Hk.
  - eexists s', q', _. split; [exact Hrun |]. split; [exact Hq' | exact (re_memory _ _ _ Hre)].
Defined.
