(* ===== verification/LiveInvariant.v ===== *)
(** The queue in shared memory while everything runs (Live.v): what the threads
    of the host, the DMA engine and the SPE rely on of each other, and that every
    step keeps it. *)
From stdpp Require Import base list.
From Stdlib Require Import ZArith Lia.
From S2P Require Import Prelude.
From S2P Require Import Messages.
From S2P Require Import Ring.
From S2P Require Import HostFifo.
From S2P Require Import Dma.
From S2P Require Import TaskPipeline.
From S2P Require TaskLoop.
From S2P Require Import Machine.
From S2P Require Import Live.

(** * Counting round the ring *)

Lemma mod_near n a b : 0 < n -> a mod n = b mod n -> - n < a - b < n -> a = b.
Proof.
  intros Hn Heq Hab. pose proof (Z.div_mod a n ltac:(lia)) as Ha.
  pose proof (Z.div_mod b n ltac:(lia)) as Hb. rewrite Heq in Ha.
  assert (a / n - b / n < 1) by nia. assert (-1 < a / n - b / n) by nia.
  assert (a / n = b / n) as Hq by lia. rewrite Hq in Ha. lia.
Qed.

Lemma mod_apart n a b : 0 < n -> a <> b -> - n < a - b < n -> a mod n <> b mod n.
Proof. intros Hn Hne Hab Heq. destruct Hne. by apply (mod_near n). Qed.

Section queue.
Context (B : buffers) (indet : nat -> Z).
Local Abbreviation desc := (b_desc B).
Local Abbreviation N := (max_entries desc).
Implicit Types (lv : live).

(** Where slot [i] and its acknowledgement are. *)
Definition task_at (i : Z) : Z := task_fifo desc + 128 * (i mod N).
Definition ack_at (i : Z) : Z := ack_fifo desc + 16 * (i mod N).

(** How many tasks were published; entry [j] of the queue is the task number
    [j + 1] of the history, since number 0 is what the last slot held at first. *)
Definition published_tasks lv : Z := Z.of_nat (length (lv_tasks lv)) - 1.

(** [v] is the result of task number [j], when [res] held [indet j] in the call
    of [stage3] that executed it. *)
Definition answered lv (j v : Z) : Prop := exists w r,
  lv_tasks lv !! Z.to_nat j = Some w /\ TaskLoop.task_result w (indet (Z.to_nat j)) = Ok r /\
  v = u32 r.

(** The host's side when the SPE has sent [m] acknowledgements.  Slot [j] holds
    the task number [j + 1]; the slot before the oldest pending one still holds
    its task, because the ring keeps one slot free. *)
Record sound (m : Z) lv : Prop := {
  so_ring : lv_ring lv = Ring_context ((published_tasks lv - Z.b2z (announced lv)) mod N)
    (lv_released lv mod N) N;
  so_counts : 0 <= lv_released lv <= m /\ m <= published_tasks lv /\
    published_tasks lv - lv_released lv <= N - 1;
  so_cleared : lv_cleared lv = true -> lv_released lv < m;
  so_room : lv_writer lv = Writing -> published_tasks lv - lv_released lv <= N - 2;
  so_announced : announced lv = true -> 0 < published_tasks lv;
  so_tasks j w : lv_released lv <= j -> lv_tasks lv !! Z.to_nat j = Some w ->
    forall k, 0 <= k < 32 -> lv_main lv (task_at (j - 1) + 4 * k) = w k;
  so_quiet : published_tasks lv = 0 ->
    lv_main lv (atomic desc + 4) = 0 /\ lv_main lv (atomic desc) = 0;
  so_line : 0 < published_tasks lv -> lv_main lv (atomic desc + 4) = 1 /\
    lv_main lv (atomic desc) = (published_tasks lv - 1) mod N;
  so_acks i : 0 <= i < N -> lv_main lv (ack_at i) <> ACK_CLEAR -> exists j,
    lv_released lv + Z.b2z (lv_cleared lv) <= j < m /\ i = j mod N /\
    answered lv j (lv_main lv (ack_at i + 4)) }.

(** The buffers of the contexts: what is in the one for tasks, or on its way
    there, and what is in the one for acknowledgements. *)
Inductive task_buffer := Nothing | Coming (j : Z) | There (j : Z).
Inductive ack_buffer := NoResult | Ready (j : Z) | Given (j : Z).

Definition get_of (i j : Z) : xfer := Xfer In (b_task B i) (task_at (j - 1)) 128 i.
Definition put_of (i j : Z) : xfer := Xfer Out (b_ack B i) (ack_at j) 16 i.

(** Whole: with the transfers that may still take effect.  A put that may is
    that of a slot no acknowledgement of which is in memory. *)
Record busy (tb : Z -> task_buffer) (ab : Z -> ack_buffer) (m : Z) lv : Prop := {
  bu_sound : sound m lv;
  bu_moving t : t ∈ lv_moving lv -> exists i j, 0 <= i < 4 /\
    ((t = get_of i j /\ tb i = Coming j) \/
     (t = put_of i j /\ ab i = Given j /\
      lv_released lv + Z.b2z (lv_cleared lv) <= j /\ lv_main lv (ack_at j) = ACK_CLEAR));
  bu_nodup : NoDup (lv_moving lv);
  bu_range i j : 0 <= i < 4 -> tb i = Coming j \/ tb i = There j ->
    m <= j < published_tasks lv;
  bu_task i j w : 0 <= i < 4 ->
    tb i = There j \/ tb i = Coming j /\ get_of i j ∉ lv_moving lv ->
    lv_tasks lv !! Z.to_nat j = Some w ->
    forall k, 0 <= k < 32 -> lv_ls lv (b_task B i + 4 * k) = w k;
  bu_ack i j : 0 <= i < 4 -> ab i = Ready j \/ ab i = Given j ->
    answered lv j (lv_ls lv (b_ack B i + 4));
  bu_given i j : 0 <= i < 4 -> ab i = Given j -> 0 <= j < m;
  bu_given_inj i i' j : 0 <= i < 4 -> 0 <= i' < 4 -> ab i = Given j -> ab i' = Given j -> i = i';
  bu_junk i : 0 <= i < 4 -> lv_ls lv (b_ack B i) <> ACK_CLEAR }.

(** The copy of the line in local store says that [F] tasks were published. *)
Definition seen (F : Z) lv : Prop :=
  F <= published_tasks lv /\ (F = 0 -> lv_ls lv (b_atomic B + 4) = 0) /\
  (0 < F -> lv_ls lv (b_atomic B + 4) = 1 /\ lv_ls lv (b_atomic B) = (F - 1) mod N).

(** * Lemmas *)

Section steps.
Context (HL : layout B).

Lemma slots_range : 0 < N < 2 ^ 24.
Proof. apply HL. Qed.
Lemma mod_N i : 0 <= i mod N < N.
Proof. apply Z.mod_pos_bound, slots_range. Qed.

Lemma answered_mono lv lv' j v :
  (exists ts, lv_tasks lv' = lv_tasks lv ++ ts) -> answered lv j v -> answered lv' j v.
Proof.
  intros [ts Hts] (w & r & Hw & Hr & ->). exists w, r. rewrite Hts.
  split_and!; try done. by apply lookup_app_l_Some.
Qed.

(** ** The ring *)

Lemma sound_ring_wf m lv : sound m lv -> ring_wf (lv_ring lv).
Proof.
  intros Hs. pose proof slots_range. rewrite (so_ring _ _ Hs).
  split_and!; cbn; try lia; apply mod_N.
Qed.

Lemma ring_front_announced m lv :
  sound m lv -> announced lv = false ->
  ringGetFront (lv_ring lv) = published_tasks lv mod N.
Proof. intros Hs Ha. rewrite (so_ring _ _ Hs), Ha. cbn. f_equal. lia. Qed.

Lemma ring_back m lv : sound m lv -> ringGetBack (lv_ring lv) = lv_released lv mod N.
Proof. intros Hs. by rewrite (so_ring _ _ Hs). Qed.

Lemma claim_room m lv :
  sound m lv -> announced lv = false -> ringHasFree (lv_ring lv) <> 0 ->
  published_tasks lv - lv_released lv <= N - 2.
Proof.
  intros Hs Ha Hf. pose proof (so_counts _ _ Hs) as Hc. pose proof slots_range.
  rewrite ringHasFree_count in Hf by (by eapply sound_ring_wf).
  rewrite (so_ring _ _ Hs), Ha in Hf. unfold count in Hf. cbn in Hf.
  rewrite Zminus_mod_idemp_l, Zminus_mod_idemp_r, Z.mod_small in Hf by lia. zcases.
Qed.

(** ** Addresses *)

Lemma task_ack_apart i k i' x :
  0 <= k < 32 -> 0 <= x < 16 -> task_at i + 4 * k <> ack_at i' + x.
Proof.
  intros Hk Hx. pose proof (mod_N i). pose proof (mod_N i'). pose proof (la_main B HL).
  unfold task_at, ack_at, apart in *. lia.
Qed.
Lemma task_line_apart i k x :
  0 <= k < 32 -> 0 <= x < 128 -> task_at i + 4 * k <> atomic desc + x.
Proof.
  intros Hk Hx. pose proof (mod_N i). pose proof (la_main B HL).
  unfold task_at, apart in *. lia.
Qed.
Lemma ack_line_apart i x y :
  0 <= x < 16 -> 0 <= y < 128 -> ack_at i + x <> atomic desc + y.
Proof.
  intros Hx Hy. pose proof (mod_N i). pose proof (la_main B HL).
  unfold ack_at, apart in *. lia.
Qed.
Lemma task_task_apart i i' k k' :
  i mod N <> i' mod N -> 0 <= k < 32 -> 0 <= k' < 32 -> task_at i + 4 * k <> task_at i' + 4 * k'.
Proof. unfold task_at. lia. Qed.
Lemma ack_ack_apart i i' x y :
  i mod N <> i' mod N -> 0 <= x < 16 -> 0 <= y < 16 -> ack_at i + x <> ack_at i' + y.
Proof. unfold ack_at. lia. Qed.

(** ** The steps of the host *)

Lemma sound_claim m lv : sound m lv -> sound m (host_step desc Claim lv).
Proof.
  intros Hs. at_step. destruct (lv_writer lv) eqn:Hw; try done.
  destruct (Z.eqb_spec (ringHasFree (lv_ring lv)) 0) as [| Hf]; [done |].
  assert (announced lv = false) as Ha by (unfold announced; by rewrite Hw).
  pose proof (claim_room m lv Hs Ha Hf) as Hroom.
  destruct Hs. split; cbn; try done. by rewrite Ha in so_ring0.
Qed.

Lemma sound_write m k v lv : sound m lv -> sound m (host_step desc (Write k v) lv).
Proof.
  intros Hs. at_step. destruct (writing lv) eqn:Hw; [| done].
  destruct (Z.leb_spec 0 k), (Z.ltb_spec k 31); try done. cbn [andb].
  assert (lv_writer lv = Writing) as Hwr by (unfold writing in Hw; by destruct (lv_writer lv)).
  assert (announced lv = false) as Ha by (unfold announced; by rewrite Hwr).
  pose proof (ring_front_announced m lv Hs Ha) as Hf. pose proof (so_room _ _ Hs Hwr) as Hroom.
  pose proof (so_counts _ _ Hs) as Hc. pose proof slots_range.
  rewrite Hf. fold (task_at (published_tasks lv)). destruct Hs as [S1 S2 S3 S4 S5 S6 S7 S8 S9].
  set (a := task_at (published_tasks lv) + 4 * k).
  assert (forall i x, 0 <= x < 16 -> poke a v (lv_main lv) (ack_at i + x) = lv_main lv (ack_at i + x)) as Hack.
  { intros i x Hx. apply poke_ne, not_eq_sym, task_ack_apart; lia. }
  assert (forall x, 0 <= x < 128 -> poke a v (lv_main lv) (atomic desc + x) = lv_main lv (atomic desc + x)) as Hline.
  { intros x Hx. apply poke_ne, not_eq_sym, task_line_apart; lia. }
  pose proof (Hline 0 ltac:(lia)) as Hline0. rewrite Z.add_0_r in Hline0.
  split; cbn [lv_ring lv_released lv_cleared lv_writer lv_tasks lv_main set_main]; try done.
  - intros j w Hj Hl k' Hk'. rewrite poke_ne; [by apply (S6 j) |].
    apply task_task_apart; [| done | lia]. apply lookup_lt_Some in Hl as Hlen.
    unfold published_tasks in *. apply mod_apart; lia.
  - intros Hp. rewrite Hline, Hline0 by lia. by apply S7.
  - intros Hp. rewrite Hline, Hline0 by lia. by apply S8.
  - intros i Hi. pose proof (Hack i 0 ltac:(lia)) as Ha0. rewrite Z.add_0_r in Ha0.
    rewrite Ha0, Hack by lia. intros Hv. destruct (S9 i Hi Hv) as (j & ? & ? & ?). by exists j.
Qed.

Lemma sound_announce m lv : sound m lv -> sound m (host_step desc Announce lv).
Proof.
  intros Hs. at_step. destruct (writing lv) eqn:Hw; [| done].
  assert (lv_writer lv = Writing) as Hwr by (unfold writing in Hw; by destruct (lv_writer lv)).
  assert (announced lv = false) as Ha by (unfold announced; by rewrite Hwr).
  pose proof (ring_front_announced m lv Hs Ha) as Hf. pose proof (so_room _ _ Hs Hwr) as Hroom.
  pose proof (so_counts _ _ Hs) as Hc. pose proof slots_range.
  rewrite Hf. fold (task_at (published_tasks lv)). destruct Hs as [S1 S2 S3 S4 S5 S6 S7 S8 S9].
  set (w0 := words _ _). set (m' := poke _ 1 _).
  assert (forall x, x <> atomic desc -> x <> atomic desc + 4 -> m' x = lv_main lv x) as Hm'.
  { intros x Hx Hx4. unfold m'. by rewrite !poke_ne. }
  set (lv' := set_host _ _ _ _).
  assert (published_tasks lv' = published_tasks lv + 1) as HP.
  { unfold published_tasks. cbn. rewrite length_app. cbn. lia. }
  split; rewrite ?HP; cbn [lv_ring lv_released lv_cleared lv_writer lv_tasks lv_main set_main
    set_host set_history lv'] in *; try done; try lia.
  - rewrite S1, Ha. cbn. do 2 f_equal. lia.
  - intros j w Hj Hl k Hk. rewrite Hm'; cycle 1.
    { pose proof (task_line_apart (j - 1) k 0 Hk). rewrite Z.add_0_r in *. lia. }
    { by apply task_line_apart. }
    apply lookup_app_Some in Hl as [Hl | [Hlen Hl]]; [by apply (S6 j) |].
    apply list_lookup_singleton_Some in Hl as [Hj0 <-]. unfold w0, words. do 2 f_equal.
    unfold published_tasks. f_equal. lia.
  - intros _. split; unfold m'; [apply poke_eq |]. rewrite poke_ne by lia. rewrite poke_eq.
    f_equal. lia.
  - intros i Hi. rewrite !Hm'; cycle 1.
    { pose proof (ack_line_apart i 4 0). lia. } { by apply ack_line_apart. }
    { pose proof (ack_line_apart i 0 0). lia. }
    { pose proof (ack_line_apart i 0 4). lia. }
    intros Hv. destruct (S9 i Hi Hv) as (j & Hj & Hij & Han). exists j. split; [exact Hj |]. split; [exact Hij |].
    eapply answered_mono; [| exact Han]. by eexists.
Qed.

(** Only one of the two stores of [send_front] changes the line: the state at the
    first task, when the front is the count already there, and the count
    afterwards.  That they are one step leaves out no interleaving. *)
Lemma announce_one_store m lv :
  sound m lv -> lv_writer lv = Writing ->
  exists a v, forall x,
    lv_main (host_step desc Announce lv) x = poke a v (lv_main lv) x.
Proof.
  intros Hs Hw. assert (announced lv = false) as Ha by (unfold announced; by rewrite Hw).
  at_step. unfold writing. rewrite Hw. cbn [lv_main set_main set_host set_history].
  rewrite (ring_front_announced m lv Hs Ha). pose proof (so_counts _ _ Hs) as Hc.
  destruct (decide (published_tasks lv = 0)) as [H0 | H0].
  - destruct (so_quiet _ _ Hs H0) as [_ Hcount]. exists (atomic desc + 4), 1. intros x.
    rewrite H0, Zmod_0_l. unfold poke. repeat case_match; try done.
    by replace x with (atomic desc) by lia.
  - destruct (so_line _ _ Hs) as [Hstate _]; [lia |].
    exists (atomic desc), (published_tasks lv mod N). intros x.
    unfold poke. repeat case_match; try done; [lia |]. by replace x with (atomic desc + 4) by lia.
Qed.

Lemma sound_advance m lv : sound m lv -> sound m (host_step desc Advance lv).
Proof.
  intros Hs. at_step. destruct (announced lv) eqn:Ha; [| done].
  pose proof (sound_ring_wf m lv Hs) as Hw. destruct Hs as [S1 S2 S3 S4 S5 S6 S7 S8 S9].
  split; cbn; try done. rewrite ringIncFront_eq by done. rewrite S1, Ha. cbn. unfold set_front. cbn.
  rewrite Zplus_mod_idemp_l. f_equal. f_equal.
  unfold published_tasks. cbn. lia.
Qed.

Lemma sound_clear m lv : sound m lv -> sound m (host_step desc Clear lv).
Proof.
  intros Hs. at_step. pose proof slots_range.
  rewrite (ring_back m lv Hs). fold (ack_at (lv_released lv)).
  destruct (lv_cleared lv) eqn:Hcl; [done |]. cbn [negb andb].
  destruct (Z.eqb_spec (lv_main lv (ack_at (lv_released lv))) ACK_CLEAR) as [| Hv]; [done |].
  cbn [negb]. destruct Hs as [S1 S2 S3 S4 S5 S6 S7 S8 S9].
  assert (ack_at (lv_released lv mod N) = ack_at (lv_released lv)) as Hmod.
  { unfold ack_at. by rewrite Z.mod_mod by lia. }
  destruct (S9 (lv_released lv mod N)) as (j0 & Hj0 & Heq & _); [apply mod_N | by rewrite Hmod |].
  rewrite Hcl in *. cbn in Hj0. apply mod_near in Heq; [subst j0 | lia | lia].
  set (m' := poke _ _ _).
  assert (forall x, 0 <= x < 128 -> m' (atomic desc + x) = lv_main lv (atomic desc + x)) as Hline.
  { intros x Hx. apply poke_ne. pose proof (ack_line_apart (lv_released lv) 0 x). lia. }
  pose proof (Hline 0 ltac:(lia)) as Hline0. rewrite Z.add_0_r in Hline0.
  split; cbn [lv_ring lv_released lv_cleared lv_writer lv_tasks lv_main set_main set_host]; try done; try lia.
  - intros j w Hj Hl k Hk. unfold m'. rewrite poke_ne; [by apply (S6 j) |].
    pose proof (task_ack_apart (j - 1) k (lv_released lv) 0). lia.
  - intros Hp. rewrite Hline, Hline0 by lia. by apply S7.
  - intros Hp. rewrite Hline, Hline0 by lia. by apply S8.
  - intros i Hi. unfold m'. destruct (decide (i = lv_released lv mod N)) as [-> | Hne].
    { rewrite Hmod, poke_eq. done. }
    assert (i mod N <> lv_released lv mod N) as Hne' by (by rewrite (Z.mod_small i) by lia).
    pose proof (ack_ack_apart i (lv_released lv) 0 0 Hne').
    pose proof (ack_ack_apart i (lv_released lv) 4 0 Hne'). rewrite !poke_ne by lia.
    intros Hv'. destruct (S9 i Hi Hv') as (j & Hj & Hij & ?). exists j. cbn in Hj |- *. split_and!; try done; try lia.
    destruct (decide (j = lv_released lv)) as [-> |]; [done | lia].
Qed.

Lemma sound_release m lv : sound m lv -> sound m (host_step desc Release lv).
Proof.
  intros Hs. at_step. destruct (lv_cleared lv) eqn:Hcl; [| done].
  pose proof (sound_ring_wf m lv Hs) as Hw. pose proof (so_cleared _ _ Hs Hcl) as Hlt.
  destruct Hs as [S1 S2 S3 S4 S5 S6 S7 S8 S9].
  split; cbn [lv_ring lv_released lv_cleared lv_writer lv_tasks lv_main set_main set_host set_history];
    try done; try (unfold published_tasks in *; cbn; lia).
  - rewrite ringIncBack_eq by done. rewrite S1. unfold set_back. cbn.
    by rewrite Zplus_mod_idemp_l.
  - intros j w Hj. apply S6. lia.
  - intros i Hi Hv. destruct (S9 i Hi Hv) as (j & Hj & ? & ?). rewrite Hcl in Hj. exists j.
    cbn in *. split_and!; try done; lia.
Qed.

(** Others write. *)
Lemma of_queue_task i k : 0 <= k < 32 -> of_queue desc (task_at i + 4 * k) = true.
Proof. intros Hk. apply of_queue_spec. left. pose proof (mod_N i). unfold task_at, within. lia. Qed.
Lemma of_queue_ack i x : 0 <= x < 16 -> of_queue desc (ack_at i + x) = true.
Proof.
  intros Hx. apply of_queue_spec. right. left. pose proof (mod_N i). unfold ack_at, within. lia.
Qed.
Lemma of_queue_line x : 0 <= x < 128 -> of_queue desc (atomic desc + x) = true.
Proof. intros Hx. apply of_queue_spec. right. right. unfold within. lia. Qed.

Lemma sound_elsewhere m f lv : sound m lv -> sound m (host_step desc (Elsewhere f) lv).
Proof.
  intros [S1 S2 S3 S4 S5 S6 S7 S8 S9]. at_step.
  pose proof (of_queue_line 0 ltac:(lia)) as Hl0. rewrite Z.add_0_r in Hl0.
  pose proof (of_queue_line 4 ltac:(lia)) as Hl4.
  split; cbn [lv_ring lv_released lv_cleared lv_writer lv_tasks lv_main set_main]; try done.
  - intros j w Hj Hl k Hk. rewrite of_queue_task by done. by apply (S6 j).
  - rewrite Hl0, Hl4. exact S7.
  - rewrite Hl0, Hl4. exact S8.
  - intros i Hi. pose proof (of_queue_ack i 0 ltac:(lia)) as Ha. rewrite Z.add_0_r in Ha.
    rewrite Ha, of_queue_ack by lia. by apply S9.
Qed.

Lemma sound_host_step m st lv :
  (forall k, st <> Complete k) -> sound m lv -> sound m (host_step desc st lv).
Proof.
  intros Hst Hs. destruct st; try by destruct (Hst k).
  - by apply sound_claim.
  - by apply sound_write.
  - by apply sound_announce.
  - by apply sound_advance.
  - by apply sound_clear.
  - by apply sound_release.
  - by apply sound_elsewhere.
Qed.

(** Main memory away from the queue. *)
Definition away (a : Z) : Prop :=
  ~ within a (task_fifo desc) (128 * N) /\ ~ within a (ack_fifo desc) (16 * N) /\
  ~ within a (atomic desc) 128.

Lemma away_spec a : away a <-> of_queue desc a = false.
Proof. rewrite <- not_true_iff_false, of_queue_spec. unfold away. tauto. Qed.

(** The steps of this queue leave it alone. *)
Lemma host_step_main st lv a :
  (forall k, st <> Complete k) -> ring_wf (lv_ring lv) -> size (lv_ring lv) = N -> away a ->
  lv_main (host_step desc st lv) a = match st with Elsewhere f => f a | _ => lv_main lv a end.
Proof.
  intros Hst (_ & Hf & Hb) Hsz Haway. pose proof Haway as (Ht & Hk & Hl).
  assert (0 <= ringGetFront (lv_ring lv) < N) as Hf' by (by rewrite <- Hsz).
  assert (0 <= ringGetBack (lv_ring lv) < N) as Hb' by (by rewrite <- Hsz).
  unfold within in *.
  destruct st; at_step; try by destruct (Hst k).
  - by repeat case_match.
  - destruct (writing lv); [| done]. destruct (Z.leb_spec 0 k), (Z.ltb_spec k 31); try done.
    cbn. apply poke_ne. lia.
  - destruct (writing lv); [| done]. cbn. rewrite !poke_ne; [done | lia..].
  - by case_match.
  - case_match; [| done]. cbn. apply poke_ne. lia.
  - by case_match.
  - cbn. by rewrite (proj1 (away_spec a)).
Qed.

(** What the SPE's buffers and transfers notice of them. *)
Record host_effect lv lv' : Prop := {
  he_ls : lv_ls lv' = lv_ls lv;
  he_moving : lv_moving lv' = lv_moving lv;
  he_mask : lv_mask lv' = lv_mask lv;
  he_tasks : exists ts, lv_tasks lv' = lv_tasks lv ++ ts;
  he_acks j : lv_released lv + Z.b2z (lv_cleared lv) <= j -> lv_main lv (ack_at j) = ACK_CLEAR ->
    lv_released lv' + Z.b2z (lv_cleared lv') <= j /\ lv_main lv' (ack_at j) = ACK_CLEAR }.

Lemma host_effect_refl lv : host_effect lv lv.
Proof. split; try done. exists []. by rewrite app_nil_r. Qed.

Lemma host_effect_host lv r w : host_effect lv (set_host r w (lv_cleared lv) lv).
Proof. split; try done. exists []. by rewrite app_nil_r. Qed.

Lemma host_step_effect m st lv :
  (forall k, st <> Complete k) -> sound m lv -> host_effect lv (host_step desc st lv).
Proof.
  intros Hst Hs. pose proof slots_range. destruct st as [| k v | | | | | k | f]; [.. | by destruct (Hst k) |];
    at_step.
  - destruct (lv_writer lv); try apply host_effect_refl.
    destruct (_ =? 0); [apply host_effect_refl |]. apply host_effect_host.
  - destruct (writing lv) eqn:Hw; [| apply host_effect_refl].
    destruct (Z.leb_spec 0 k), (Z.ltb_spec k 31); try apply host_effect_refl.
    assert (announced lv = false) as Ha by (unfold announced, writing in *; by destruct (lv_writer lv)).
    rewrite (ring_front_announced m lv Hs Ha). fold (task_at (published_tasks lv)).
    cbn [andb]. split; try done; [exists []; by rewrite app_nil_r |]. intros j Hj. cbn.
    pose proof (task_ack_apart (published_tasks lv) k j 0). by rewrite poke_ne by lia.
  - destruct (writing lv); [| apply host_effect_refl]. split; try done; [by eexists |].
    intros j. cbn. pose proof (ack_line_apart j 0 0). pose proof (ack_line_apart j 0 4).
    by rewrite !poke_ne by lia.
  - destruct (announced lv); [| apply host_effect_refl].
    apply host_effect_host.
  - destruct (lv_cleared lv) eqn:Hcl; [apply host_effect_refl |]. cbn [negb andb].
    rewrite (ring_back m lv Hs). fold (ack_at (lv_released lv)).
    destruct (Z.eqb_spec (lv_main lv (ack_at (lv_released lv))) ACK_CLEAR) as [| Hv];
      [apply host_effect_refl |]. cbn [negb]. split; try done.
    { exists []. by rewrite app_nil_r. }
    intros j Hj Hc. rewrite Hcl in Hj. cbn in Hj |- *. split.
    + destruct (decide (j = lv_released lv)) as [-> |]; [done | lia].
    + unfold poke. by destruct (_ =? _).
  - destruct (lv_cleared lv) eqn:Hcl; [| apply host_effect_refl]. split; try done.
    { exists []. by rewrite app_nil_r. }
    intros j Hj. rewrite Hcl in Hj. cbn in Hj |- *. split; [lia | done].
  - split; try done; [exists []; by rewrite app_nil_r |]. intros j Hj. cbn.
    pose proof (of_queue_ack j 0 ltac:(lia)) as Ha. rewrite Z.add_0_r in Ha. by rewrite Ha.
Qed.

Lemma busy_host tb ab m lv lv' :
  busy tb ab m lv -> sound m lv' -> host_effect lv lv' -> busy tb ab m lv'.
Proof.
  intros [C1 C2 C3 C4 C5 C6 C7 C8 C9] Hs [Hls Hmv _ [ts Hts] Hacks].
  assert (published_tasks lv <= published_tasks lv') as Hp.
  { unfold published_tasks. rewrite Hts, length_app. lia. }
  split; rewrite ?Hmv, ?Hls; try done.
  - intros t Ht. destruct (C2 t Ht) as (i & j & Hi & [Hg | (Ht' & Hab & Hj & Hc)]).
    + exists i, j. split; [done | by left].
    + exists i, j. split; [done |]. right. destruct (Hacks j Hj Hc). done.
  - intros i j Hi Ht. specialize (C4 i j Hi Ht). lia.
  - intros i j w Hi Ht Hw. apply (C5 i j w Hi Ht). rewrite Hts in Hw.
    rewrite lookup_app_l in Hw; [done |].
    pose proof (C4 i j Hi ltac:(intuition)) as Hr. unfold published_tasks in Hr.
    pose proof (so_counts _ _ C1). lia.
  - intros i j Hi Ha. eapply answered_mono; [| by apply (C6 i)]. by exists ts.
Qed.

(** ** The transfers *)

Lemma delete_NoDup {A : Type} (l : list A) k t :
  NoDup l -> l !! k = Some t ->
  NoDup (delete k l) /\ (forall x, x ∈ delete k l <-> x ∈ l /\ x <> t).
Proof.
  intros Hl Hk. pose proof (delete_Permutation l k t Hk) as Hp.
  rewrite Hp in Hl. apply NoDup_cons in Hl as [Hnot Hl]. split; [done |].
  intros x. rewrite Hp at 2. rewrite elem_of_cons. split.
  - intros Hx. split; [by right |]. by intros ->.
  - intros [[-> |] Hne]; done.
Qed.

Lemma copy_apart to from size src dst a n x :
  apart to size a n -> within x a n -> copy to from size src dst x = dst x.
Proof. intros Ha Hx. apply copy_outside. unfold apart, within in *. lia. Qed.

Lemma sound_ls m f lv : sound m lv -> sound m (set_ls f lv).
Proof. by intros []. Qed.
Lemma sound_moving m ts lv : sound m lv -> sound m (set_moving ts lv).
Proof. by intros []. Qed.
Lemma sound_mask m v lv : sound m lv -> sound m (set_mask v lv).
Proof. by intros []. Qed.

Lemma busy_get tb ab m lv k i j :
  busy tb ab m lv -> lv_moving lv !! k = Some (get_of i j) -> 0 <= i < 4 -> tb i = Coming j ->
  busy tb ab m (complete k lv).
Proof.
  intros [C1 C2 C3 C4 C5 C6 C7 C8 C9] Hk Hi Htb.
  destruct (delete_NoDup _ _ _ C3 Hk) as [Hnd Hin].
  unfold complete. rewrite Hk. set (ts := delete k _) in *.
  unfold take_effect. cbn [get_of t_dir t_ls t_ea t_size]. set (ls' := copy _ _ _ _ _).
  split; cbn [lv_ls lv_main lv_moving lv_tasks lv_released lv_cleared set_ls set_moving]; try done.
  - by apply sound_moving, sound_ls.
  - intros t [Ht _]%Hin. by apply C2.
  - intros i' j' w Hi' Ht Hw k' Hk'. destruct (decide (i' = i)) as [-> | Hne].
    + assert (j' = j) as -> by (destruct Ht as [? | [? _]]; congruence).
      unfold ls'. rewrite copy_inside by (unfold within; lia).
      replace (b_task B i + 4 * k' - b_task B i) with (4 * k') by lia.
      apply (so_tasks _ _ C1 j); try done.
      pose proof (C4 i j Hi (or_introl Htb)). pose proof (so_counts _ _ C1). lia.
    + unfold ls'. erewrite copy_apart; [| by apply (la_task B HL i i') | unfold within; lia].
      apply (C5 i' j' w); try done. destruct Ht as [? | [Ht Hnot]]; [by left | right].
      split; [done |]. intros Hmv. apply Hnot, Hin. split; [done |]. intros Heq.
      by injection Heq as _ _ ?.
  - intros i' j' Hi' Ha. specialize (C6 i' j' Hi' Ha).
    unfold ls'. erewrite copy_apart; [exact C6 | by apply (la_task_ack B HL i i') | unfold within; lia].
  - intros i' Hi'.
    unfold ls'. erewrite copy_apart; [by apply C9 | by apply (la_task_ack B HL i i') | unfold within; lia].
Qed.

Lemma busy_put tb ab m lv k i j :
  busy tb ab m lv -> lv_moving lv !! k = Some (put_of i j) -> 0 <= i < 4 -> ab i = Given j ->
  lv_released lv + Z.b2z (lv_cleared lv) <= j ->
  busy tb ab m (complete k lv).
Proof.
  intros [C1 C2 C3 C4 C5 C6 C7 C8 C9] Hk Hi Hab Hj. pose proof slots_range.
  destruct (delete_NoDup _ _ _ C3 Hk) as [Hnd Hin]. pose proof (C7 i j Hi Hab) as Hjm.
  pose proof (so_counts _ _ C1) as Hcnt.
  unfold complete. rewrite Hk. set (ts := delete k _) in *.
  unfold take_effect. cbn [put_of t_dir t_ls t_ea t_size]. set (m' := copy _ _ _ _ _).
  assert (forall a, (forall x, 0 <= x < 16 -> a <> ack_at j + x) -> m' a = lv_main lv a) as Hout.
  { intros a Ha. apply copy_outside. intros Hw. apply (Ha (a - ack_at j)); unfold within in *; lia. }
  assert (forall x, 0 <= x < 128 -> m' (atomic desc + x) = lv_main lv (atomic desc + x)) as Hline.
  { intros x Hx. apply Hout. intros y Hy. by apply not_eq_sym, ack_line_apart. }
  pose proof (Hline 0 ltac:(lia)) as Hline0. rewrite Z.add_0_r in Hline0.
  assert (forall j', j' mod N <> j mod N -> forall x, 0 <= x < 16 ->
    m' (ack_at j' + x) = lv_main lv (ack_at j' + x)) as Hother.
  { intros j' Hj' x Hx. apply Hout. intros y Hy. by apply ack_ack_apart. }
  split; cbn [lv_ls lv_main lv_moving lv_tasks lv_released lv_cleared set_main set_moving]; try done.
  - destruct C1 as [S1 S2 S3 S4 S5 S6 S7 S8 S9].
    split; cbn [lv_ring lv_released lv_cleared lv_writer lv_tasks lv_main set_main set_moving]; try done.
    + intros j' w Hj' Hw k' Hk'. rewrite Hout; [by apply (S6 j') |].
      intros x Hx. by apply task_ack_apart.
    + intros Hp. rewrite Hline, Hline0 by lia. by apply S7.
    + intros Hp. rewrite Hline, Hline0 by lia. by apply S8.
    + intros i' Hi'. destruct (decide (i' = j mod N)) as [-> | Hne].
      * intros _. exists j. split; [lia |]. split; [done |].
        assert (ack_at (j mod N) = ack_at j) as -> by (unfold ack_at; by rewrite Z.mod_mod by lia).
        unfold m'. rewrite copy_inside by (unfold within; lia).
        rewrite Z.add_simpl_l. apply C6; [done | by right].
      * pose proof (Hother i' ltac:(by rewrite (Z.mod_small i') by lia)) as Ho.
        pose proof (Ho 0 ltac:(lia)) as H0. rewrite Z.add_0_r in H0. rewrite H0, Ho by lia.
        apply S9; lia.
  - intros t [Ht Hne]%Hin. destruct (C2 t Ht) as (i' & j' & Hi' & [Hg | (-> & Hab' & Hj' & Hc)]).
    { exists i', j'. split; [done | by left]. }
    exists i', j'. split; [done |]. right. do 3 (split; [done |]).
    pose proof (C7 i' j' Hi' Hab'). assert (0 <= Z.b2z (lv_cleared lv)) by (by destruct (lv_cleared lv)).
    rewrite <- (Z.add_0_r (ack_at j')), Hother, Z.add_0_r; [done | | lia].
    apply mod_apart; [lia | | lia]. intros ->. by rewrite (C8 i' i j Hi' Hi Hab' Hab) in Hne.
  - intros i' j' w Hi' Ht Hw. apply (C5 i' j' w Hi'); [| done].
    destruct Ht as [? | [Ht Hnot]]; [by left | right]. split; [done |].
    intros Hmv. apply Hnot, Hin. split; [done |]. discriminate.
Qed.

Lemma busy_complete tb ab m lv k : busy tb ab m lv -> busy tb ab m (complete k lv).
Proof.
  intros Hb. destruct (lv_moving lv !! k) as [t |] eqn:Hk; [| by unfold complete; rewrite Hk].
  destruct (bu_moving _ _ _ _ Hb t) as (i & j & Hi & [[-> Htb] | (-> & Hab & Hj & _)]).
  - by eapply list_elem_of_lookup_2.
  - by eapply busy_get.
  - by eapply busy_put.
Qed.

Lemma busy_step tb ab m st lv : busy tb ab m lv -> busy tb ab m (host_step desc st lv).
Proof.
  intros Hb. pose proof (bu_sound _ _ _ _ Hb) as Hs.
  assert ((exists k, st = Complete k) \/ (forall k, st <> Complete k)) as [[k ->] | Hst].
  { destruct st; (by right) || (left; by eexists). }
  - by apply busy_complete.
  - eapply busy_host; [exact Hb | by apply sound_host_step | by eapply host_step_effect].
Qed.

Lemma busy_play tb ab m ss lv : busy tb ab m lv -> busy tb ab m (play desc ss lv).
Proof. apply play_ind. intros st lv'. apply busy_step. Qed.

(** ** What the host and the DMA engine leave alone *)

(** The words of local store at [a], away from the task buffers, the mask, and
    the tasks already published. *)
Definition steady_for (a : Z) lv lv' : Prop :=
  lv_ls lv' a = lv_ls lv a /\ lv_mask lv' = lv_mask lv /\
  exists ts, lv_tasks lv' = lv_tasks lv ++ ts.

Lemma steady_refl a lv : steady_for a lv lv.
Proof. split_and!; try done. exists []. by rewrite app_nil_r. Qed.

Lemma steady_trans a lv lv' lv'' :
  steady_for a lv lv' -> steady_for a lv' lv'' -> steady_for a lv lv''.
Proof.
  intros (Hl & Hm & ts & Ht) (Hl' & Hm' & ts' & Ht'). split_and!; [congruence | congruence |].
  exists (ts ++ ts'). by rewrite Ht', Ht, <- app_assoc.
Qed.

Lemma play_steady tb ab m a ss : forall lv,
  (forall i, 0 <= i < 4 -> ~ within a (b_task B i) 128) -> busy tb ab m lv ->
  steady_for a lv (play desc ss lv).
Proof.
  induction ss as [| st ss IH]; intros lv Ha Hb; [apply steady_refl |].
  change (play desc (st :: ss) lv) with (play desc ss (host_step desc st lv)).
  eapply steady_trans; [| by apply IH, busy_step].
  assert ((exists k, st = Complete k) \/ (forall k, st <> Complete k)) as [[k ->] | Hst].
  { destruct st; (by right) || (left; by eexists). }
  - at_step. unfold complete. destruct (lv_moving lv !! k) as [t |] eqn:Hk; [| apply steady_refl].
    destruct (bu_moving _ _ _ _ Hb t) as (i & j & Hi & [[-> _] | (-> & _)]).
    { by eapply list_elem_of_lookup_2. }
    + split_and!; [| done |]; cbn; [apply copy_outside; by apply Ha |].
      exists []. by rewrite app_nil_r.
    + split_and!; [done | done |]. exists []. by rewrite app_nil_r.
  - destruct (host_step_effect m st lv Hst (bu_sound _ _ _ _ Hb)) as [Hl _ Hm Ht _].
    split_and!; try done. by rewrite Hl.
Qed.

Lemma line_apart i a : 0 <= i < 4 -> within a (b_atomic B) 128 -> ~ within a (b_task B i) 128.
Proof. intros Hi. pose proof (la_line B HL i Hi). unfold within, apart in *. lia. Qed.

Lemma seen_play tb ab m F ss lv :
  busy tb ab m lv -> seen F lv -> seen F (play desc ss lv).
Proof.
  intros Hb (HF & H0 & H1).
  destruct (play_steady tb ab m (b_atomic B) ss lv) as (Hl & _ & ts & Ht); [| done |].
  { intros i Hi. apply line_apart; [done | unfold within; lia]. }
  destruct (play_steady tb ab m (b_atomic B + 4) ss lv) as (Hl4 & _); [| done |].
  { intros i Hi. apply line_apart; [done | unfold within; lia]. }
  unfold seen. rewrite Hl, Hl4. split_and!; try done.
  unfold published_tasks in *. rewrite Ht, length_app. lia.
Qed.

(** ** The events of the SPE *)

Definition upd {A : Type} (i : Z) (x : A) (f : Z -> A) : Z -> A :=
  fun j => if j =? i then x else f j.

Lemma busy_ls tb ab m f lv :
  busy tb ab m lv ->
  (forall i k, 0 <= i < 4 -> 0 <= k < 32 -> f (b_task B i + 4 * k) = lv_ls lv (b_task B i + 4 * k)) ->
  (forall i, 0 <= i < 4 -> f (b_ack B i) = lv_ls lv (b_ack B i) /\
     f (b_ack B i + 4) = lv_ls lv (b_ack B i + 4)) ->
  busy tb ab m (set_ls f lv).
Proof.
  intros [C1 C2 C3 C4 C5 C6 C7 C8 C9] Hf Ha. split; cbn [lv_ls set_ls]; try done.
  - by apply sound_ls.
  - intros i j w Hi Ht Hw k Hk. rewrite Hf by done. by apply (C5 i j w).
  - intros i j Hi Hj. destruct (Ha i Hi) as [_ ->]. by apply (C6 i).
  - intros i Hi. destruct (Ha i Hi) as [-> _]. by apply C9.
Qed.

Lemma busy_mask tb ab m v lv : busy tb ab m lv -> busy tb ab m (set_mask v lv).
Proof. intros []. split; try done. by apply sound_mask. Qed.

(** The copy of the line. *)
Lemma busy_poll tb ab m lv :
  busy tb ab m lv ->
  let lv' := issue (mfc_getllar (b_atomic B) (atomic desc)) lv in
  busy tb ab m lv' /\ seen (published_tasks lv) lv'.
Proof.
  intros Hb lv'. pose proof (bu_sound _ _ _ _ Hb) as Hs. split.
  - apply busy_ls; [done | |].
    + intros i k Hi Hk. eapply copy_apart; [| by instantiate (2 := b_task B i); instantiate (1 := 128);
        unfold within; lia].
      pose proof (la_line B HL i Hi). unfold apart in *. lia.
    + intros i Hi. pose proof (la_line B HL i Hi). unfold apart in *.
      split; apply copy_outside; unfold within; lia.
  - unfold seen, lv'. cbn [issue lv_ls set_ls].
    rewrite !copy_inside by (unfold within; lia). rewrite Z.add_simpl_l, Z.sub_diag, Z.add_0_r.
    split_and!; [done | apply Hs | apply Hs].
Qed.

Lemma get_of_fetch i n en :
  en = n mod N ->
  mfc In Plain (b_task B i) (task_ea B ((en - 1) mod N)) 128 i =
  let t := get_of i n in mfc (t_dir t) Plain (t_ls t) (t_ea t) (t_size t) (t_tag t).
Proof.
  intros ->. cbn. unfold task_at. rewrite (task_ea_eq B HL) by apply mod_N.
  by rewrite Zminus_mod_idemp_l.
Qed.

Lemma busy_fetch tb ab m lv i n :
  busy tb ab m lv -> 0 <= i < 4 -> tb i = Nothing -> m <= n < published_tasks lv ->
  busy (upd i (Coming n) tb) ab m (set_moving (lv_moving lv ++ [get_of i n]) lv).
Proof.
  intros [C1 C2 C3 C4 C5 C6 C7 C8 C9] Hi Htb Hn. unfold upd.
  assert (get_of i n ∉ lv_moving lv) as Hnew.
  { intros Hin. destruct (C2 _ Hin) as (i' & j' & _ & [[Heq Ht] | [Heq _]]); [| done].
    injection Heq as _ _ ->. congruence. }
  split; cbn [lv_moving lv_ls lv_tasks lv_main lv_released lv_cleared set_moving]; try done.
  - by apply sound_moving.
  - intros t [Ht | ->%list_elem_of_singleton]%elem_of_app.
    + destruct (C2 t Ht) as (i' & j' & Hi' & [[-> Ht'] | Hp]).
      * exists i', j'. split; [done |]. left. split; [done |].
        destruct (Z.eqb_spec i' i) as [-> |]; [congruence | done].
      * exists i', j'. split; [done | by right].
    + exists i, n. split; [done |]. left. by rewrite Z.eqb_refl.
  - apply NoDup_app. split_and!; [done | | by apply NoDup_singleton].
    intros t Ht ->%list_elem_of_singleton. done.
  - intros i' j' Hi'. destruct (Z.eqb_spec i' i); [| by apply C4].
    intros [[= <-] | ?]; [exact Hn | done].
  - intros i' j' w Hi' Ht. apply (C5 i' j' w Hi'). destruct (Z.eqb_spec i' i) as [-> |].
    + destruct Ht as [? | [[= <-] Hnot]]; [done |]. destruct Hnot. apply elem_of_app. right.
      by apply list_elem_of_singleton.
    + destruct Ht as [? | [? Hnot]]; [by left | right]. split; [done |].
      intros Hin. apply Hnot, elem_of_app. by left.
Qed.

(** A wait for the tag of context [i]. *)
Definition arrived (b : task_buffer) : task_buffer :=
  match b with Coming j => There j | b => b end.
Definition sent_off (b : ack_buffer) : ack_buffer :=
  match b with Given _ => NoResult | b => b end.

Lemma busy_settled tb ab m lv i :
  busy tb ab m lv -> 0 <= i < 4 -> (forall t, t ∈ lv_moving lv -> t_tag t <> i) ->
  busy (upd i (arrived (tb i)) tb) (upd i (sent_off (ab i)) ab) m lv.
Proof.
  intros [C1 C2 C3 C4 C5 C6 C7 C8 C9] Hi Hno. unfold upd.
  split; try done.
  - intros t Ht. destruct (C2 t Ht) as (i' & j' & Hi' & Hc). exists i', j'. split; [done |].
    assert (i' <> i) as Hne.
    { intros ->. by destruct Hc as [[-> _] | (-> & _)]; apply (Hno _ Ht). }
    by rewrite (proj2 (Z.eqb_neq _ _)).
  - intros i' j' Hi'. destruct (Z.eqb_spec i' i) as [-> |]; [| by apply C4].
    intros Ht. apply (C4 i); [done |]. destruct (tb i); cbn in Ht; intuition congruence.
  - intros i' j' w Hi' Ht. apply (C5 i' j' w Hi'). destruct (Z.eqb_spec i' i) as [-> |]; [| done].
    destruct (tb i) as [| j | j] eqn:Htb; cbn in Ht; [intuition congruence | | by left; intuition congruence].
    right. split; [intuition congruence |]. intros Hin. by apply (Hno _ Hin).
  - intros i' j' Hi' Ha. destruct (Z.eqb_spec i' i) as [-> |]; [| by apply C6].
    apply C6; [done |]. destruct (ab i); cbn in Ha; intuition congruence.
  - intros i' j' Hi' Ha. apply (C7 i' j' Hi'). destruct (Z.eqb_spec i' i) as [-> |]; [| done].
    by destruct (ab i).
  - intros i' i'' j' Hi' Hi'' Ha Hb. apply (C8 i' i'' j' Hi' Hi'').
    + destruct (Z.eqb_spec i' i) as [-> |]; [by destruct (ab i) | done].
    + destruct (Z.eqb_spec i'' i) as [-> |]; [by destruct (ab i) | done].
Qed.

Lemma busy_status tb ab m lv i :
  busy tb ab m lv -> 0 <= i < 4 -> lv_mask lv = 2 ^ i ->
  busy (upd i (arrived (tb i)) tb) (upd i (sent_off (ab i)) ab) m (issue mfc_read_tag_status_all lv).
Proof.
  intros Hb Hi Hmask. cbn [issue].
  destruct (settle_spec (fun t => Z.testbit (lv_mask lv) (t_tag t)) (busy tb ab m) lv Hb)
    as [Hb' Hno].
  { intros lv' k t Hb' _ _. by apply busy_complete. }
  apply busy_settled; [done | done |]. intros t Ht Htag. specialize (Hno t Ht).
  rewrite Hmask, Htag, Z.pow2_bits_true in Hno by lia. done.
Qed.

(** The result of stage3. *)
Lemma busy_store tb ab m lv i j v :
  busy tb ab m lv -> 0 <= i < 4 -> ab i = NoResult -> answered lv j v ->
  busy tb (upd i (Ready j) ab) m (issue (ls_store (b_ack B i) 1 v) lv).
Proof.
  intros [C1 C2 C3 C4 C5 C6 C7 C8 C9] Hi Hab Hv. unfold upd. cbn [issue].
  replace (b_ack B i + 4 * 1) with (b_ack B i + 4) by lia.
  assert (forall i', 0 <= i' < 4 -> i' <> i -> forall x, 0 <= x < 16 ->
    b_ack B i' + x <> b_ack B i + 4) as Hap.
  { intros i' Hi' Hne x Hx. pose proof (la_ack B HL i' i Hi' Hi Hne). unfold apart in *. lia. }
  split; cbn [lv_moving lv_ls lv_tasks lv_main lv_released lv_cleared set_ls]; try done.
  - by apply sound_ls.
  - intros t Ht. destruct (C2 t Ht) as (i' & j' & Hi' & [Hg | (-> & Hab' & Hr)]);
      exists i', j'; (split; [done |]); [by left | right].
    destruct (Z.eqb_spec i' i) as [-> |]; [congruence | done].
  - intros i' j' w Hi' Ht Hw k Hk. rewrite poke_ne; [by apply (C5 i' j' w) |].
    pose proof (la_task_ack B HL i' i Hi' Hi). unfold apart in *. lia.
  - intros i' j' Hi' Ha. destruct (Z.eqb_spec i' i) as [-> | Hne].
    + rewrite poke_eq. destruct Ha as [[= <-] | ?]; done.
    + rewrite poke_ne by (by apply Hap). by apply (C6 i').
  - intros i' j' Hi' Ha. apply (C7 i' j' Hi'). by destruct (Z.eqb_spec i' i).
  - intros i' i'' j' Hi' Hi'' Ha Hb. apply (C8 i' i'' j' Hi' Hi'').
    + by destruct (Z.eqb_spec i' i).
    + by destruct (Z.eqb_spec i'' i).
  - intros i' Hi'. destruct (decide (i' = i)) as [-> | Hne].
    + rewrite poke_ne by lia. by apply C9.
    + pose proof (Hap i' Hi' Hne 0). rewrite poke_ne by lia. by apply C9.
Qed.

(** The acknowledgement of the oldest task fetched. *)
Lemma busy_ack tb ab m lv i :
  busy tb ab m lv -> 0 <= i < 4 -> ab i = Ready m -> tb i = There m ->
  (forall i' j, 0 <= i' < 4 -> i' <> i -> tb i' = Coming j \/ tb i' = There j -> m < j) ->
  busy (upd i Nothing tb) (upd i (Given m) ab) (m + 1)
    (set_moving (lv_moving lv ++ [put_of i m]) lv).
Proof.
  intros [C1 C2 C3 C4 C5 C6 C7 C8 C9] Hi Hab Htb Hoth. unfold upd. pose proof slots_range.
  pose proof (C4 i m Hi (or_intror Htb)) as Hm. pose proof (so_counts _ _ C1) as Hcnt.
  assert (lv_released lv + Z.b2z (lv_cleared lv) <= m) as Hrel.
  { pose proof (so_cleared _ _ C1). destruct (lv_cleared lv); cbn; [| lia].
    specialize (H0 eq_refl). lia. }
  assert (put_of i m ∉ lv_moving lv) as Hnew.
  { intros Hin. destruct (C2 _ Hin) as (i' & j' & _ & [[Heq _] | (Heq & Ha & _)]); [done |].
    injection Heq as _ _ ->. congruence. }
  split; cbn [lv_moving lv_ls lv_tasks lv_main lv_released lv_cleared set_moving]; try done.
  - destruct C1 as [S1 S2 S3 S4 S5 S6 S7 S8 S9]. split; try done.
    + change (published_tasks (set_moving _ lv)) with (published_tasks lv). cbn. lia.
    + intros Hc. specialize (S3 Hc). cbn. lia.
    + intros i' Hi' Hv. destruct (S9 i' Hi' Hv) as (j & ? & ? & ?). exists j.
      split; [cbn in *; lia | done].
  - intros t [Ht | ->%list_elem_of_singleton]%elem_of_app.
    + destruct (C2 t Ht) as (i' & j' & Hi' & [[-> Ht'] | (-> & Hab' & Hr & Hc)]).
      * exists i', j'. split; [done |]. left. split; [done |].
        destruct (Z.eqb_spec i' i) as [-> |]; [congruence | done].
      * exists i', j'. split; [done |]. right. split; [done |].
        destruct (Z.eqb_spec i' i) as [-> |]; [congruence | done].
    + exists i, m. split; [done |]. right. rewrite Z.eqb_refl. do 3 (split; [done |]).
      destruct (decide (lv_main lv (ack_at m) = ACK_CLEAR)) as [| Hv]; [done |].
      assert (ack_at (m mod N) = ack_at m) as Hmod by (unfold ack_at; by rewrite Z.mod_mod by lia).
      destruct (so_acks _ _ C1 (m mod N)) as (j & Hj & Heq & _); [apply mod_N | by rewrite Hmod |].
      apply mod_near in Heq; [lia | lia |]. assert (0 <= Z.b2z (lv_cleared lv)) by (by destruct (lv_cleared lv)).
      lia.
  - apply NoDup_app. split_and!; [done | | by apply NoDup_singleton].
    intros t Ht ->%list_elem_of_singleton. done.
  - intros i' j' Hi'. destruct (Z.eqb_spec i' i); [by intros [? | ?] |].
    intros Ht. pose proof (Hoth i' j' Hi' n Ht). pose proof (C4 i' j' Hi' Ht).
    change (published_tasks (set_moving _ lv)) with (published_tasks lv). lia.
  - intros i' j' w Hi' Ht. apply (C5 i' j' w Hi'). destruct (Z.eqb_spec i' i) as [-> |]; [by intuition |].
    destruct Ht as [? | [? Hnot]]; [by left | right]. split; [done |].
    intros Hin. apply Hnot, elem_of_app. by left.
  - intros i' j' Hi' Ha. destruct (Z.eqb_spec i' i) as [-> |]; [| by apply (C6 i')].
    destruct Ha as [? | [= <-]]; [done |]. apply (C6 i); [done | by left].
  - intros i' j' Hi' Ha. destruct (Z.eqb_spec i' i) as [-> |]; [injection Ha as <-; lia |].
    pose proof (C7 i' j' Hi' Ha). lia.
  - intros i' i'' j' Hi' Hi'' Ha Hb.
    destruct (Z.eqb_spec i' i) as [-> |], (Z.eqb_spec i'' i) as [-> |]; try done.
    + injection Ha as <-. pose proof (C7 i'' m Hi'' Hb). lia.
    + injection Hb as <-. pose proof (C7 i' m Hi' Ha). lia.
    + by apply (C8 i' i'' j').
Qed.

End steps.
End queue.
