(* ===== verification/LiveRun.v ===== *)
(** The task program on the machine of Live.v, from its start on: the invariant
    of a cycle of the pipeline beside a host and a DMA engine that never wait for
    it. *)
From stdpp Require Import base list.
From Stdlib Require Import ZArith Lia.
From S2P Require Import Prelude.
From S2P Require Import Messages.
From S2P Require Import Ring.
From S2P Require Import HostFifo.
From S2P Require Import Dma.
From S2P Require Import TaskManager.
From S2P Require Import TaskPipeline.
From S2P Require Import TaskLoop.
From S2P Require Import Machine.
From S2P Require Import Live.
From S2P Require Import LiveInvariant.

(** [k] cycles of the pipeline: what the nested loops of [main] and [pipeline]
    amount to, since [main] calls [pipeline] for ever. *)
Fixpoint cycles `{Mfc} (fuel : nat) (indet : nat -> Z) (k : nat) : M spu unit :=
  match k with
  | O => mret tt
  | S k => stages fuel indet;; cycles fuel indet k
  end.

Lemma cycles_app `{Mfc} fuel indet j k s :
  cycles fuel indet (j + k) s = (cycles fuel indet j;; cycles fuel indet k) s.
Proof.
  revert s. induction j as [| j IH]; intros s; cbn [cycles Nat.add]; [done |].
  rewrite M_bind_assoc. apply M_bind_ext. intros _ s'. apply IH.
Qed.

Section run.
Context (init : live) (sched : list event -> list step)
  (heap message : list event -> Z) (B : buffers) (indet : nat -> Z).
Local Abbreviation desc := (b_desc B).
Local Abbreviation N := (max_entries desc).
Local Abbreviation at_ l := (live_after init sched desc l).
#[local] Instance alive : Mfc := live_machine init sched desc heap message.
Implicit Types (l : list event) (o : option Z) (s : spu).

(** The result of task number [j], which is executed in addition number [j]. *)
Definition reply_to l (j : Z) : option Z :=
  match lv_tasks (at_ l) !! Z.to_nat j with
  | Some w => match task_result w (indet (Z.to_nat j)) with Ok r => Some (u32 r) | _ => None end
  | None => None
  end.

(** What the contexts hold between two cycles: the tasks number [m] to [n - 1],
    the last one perhaps still on its way, the first one executed. *)
Record loaded (c m n : Z) o1 o2 o3 (tb : Z -> task_buffer) (ab : Z -> ack_buffer) : Prop := {
  ld_free : tb (c mod 4) = Nothing;
  ld_1 : tb ((c + 1) mod 4) = match o1 with Some _ => Coming (n - 1) | None => Nothing end;
  ld_2 : tb ((c + 2) mod 4) = match o2 with Some _ => There (m + bit o3) | None => Nothing end;
  ld_3 : tb ((c + 3) mod 4) = match o3 with Some _ => There m | None => Nothing end;
  ld_clear : o2 <> None -> ab ((c + 2) mod 4) = NoResult;
  ld_ready : o3 <> None -> ab ((c + 3) mod 4) = Ready m;
  ld_only i j : 0 <= i < 4 -> ab i = Ready j -> o3 <> None /\ i = (c + 3) mod 4 }.

(** The state of the program between two cycles, and of the machine with it. *)
Record running (fs ss : list Z) (m n F : Z) o1 o2 o3 s : Prop := {
  rn_piped : piped B (N - 1) fs ss m n o1 o2 o3 s;
  rn_busy : exists tb ab, busy B indet tb ab m (at_ (events s)) /\
    loaded (cycle s) m n o1 o2 o3 tb ab;
  rn_front : front (tstate s) = (F - 1) mod N;
  rn_additions : additions (events s) = Z.to_nat (m + bit o3);
  rn_polled : n <= F <= published_tasks (at_ (events s));
  rn_result : o3 <> None ->
    holds_result B (events s) ((cycle s + 3) mod 4) = reply_to (events s) m;
  rn_sent : sent (run_of B (events s)) =
    map (fun j => (ack_ea B (j mod N), reply_to (events s) j)) (seqZ 0 m) }.

Context (HL : layout B).

(** * The description of the queue stays *)

Definition shaped (t : xfer) : Prop :=
  t_dir t = Out \/ exists i, 0 <= i < 4 /\ t_dir t = In /\ t_ls t = b_task B i /\ t_size t = 128.

(** Local store at [a], outside of the buffers. *)
Definition untouched (a v : Z) (lv : live) : Prop :=
  (forall t, t ∈ lv_moving lv -> shaped t) /\ lv_ls lv a = v.
Definition outside (a : Z) : Prop :=
  (forall i, 0 <= i < 4 -> ~ within a (b_task B i) 128 /\ ~ within a (b_ack B i) 16) /\
  ~ within a (b_atomic B) 128.

Lemma untouched_complete a v k lv :
  outside a -> untouched a v lv -> untouched a v (complete k lv).
Proof.
  intros [Ha _] [Hs Hv]. split; [intros t Ht; by eapply Hs, complete_moving |].
  unfold complete. destruct (lv_moving lv !! k) as [t |] eqn:Hk; [| done].
  destruct (Hs t) as [Hd | (i & Hi & Hd & Hls & Hz)]; [by eapply list_elem_of_lookup_2 | |];
    cbn; unfold take_effect; rewrite Hd; [done |]. cbn. rewrite Hls, Hz.
  rewrite copy_outside; [done | by apply Ha].
Qed.

Lemma untouched_play a v ss lv :
  outside a -> untouched a v lv -> untouched a v (play desc ss lv).
Proof.
  intros Ha. apply play_ind. clear lv. intros st lv Hu.
  destruct st; at_step; try (by apply untouched_complete);
    repeat case_match; done.
Qed.

Lemma untouched_settle a v p lv :
  outside a -> untouched a v lv -> untouched a v (settle p lv).
Proof.
  intros Ha Hu. apply (settle_spec p (untouched a v) lv Hu).
  intros lv' k t Hu' _ _. by apply untouched_complete.
Qed.

Lemma untouched_issue a v e lv :
  outside a -> pipe_event B e -> untouched a v lv -> untouched a v (issue e lv).
Proof.
  intros Ha He [Hs Hv].
  destruct e as [[] [] ls ea size tag | | ls ea | | | | | | | | addr w x | | | | | | | | | |];
    try done; cbn [issue].
  - destruct He as (Ht & -> & -> & _). split; [| done]. intros t [? | ->%list_elem_of_singleton]%elem_of_app.
    + by apply Hs.
    + right. by exists tag.
  - split; [| done]. intros t [? | ->%list_elem_of_singleton]%elem_of_app; [by apply Hs | by left].
  - destruct He as [-> ->]. split; [done |]. cbn. rewrite copy_outside; [done | apply Ha].
  - by apply untouched_settle.
  - destruct He as (-> & i & Hi & ->). split; [done |]. cbn. rewrite poke_ne; [done |].
    intros ->. destruct Ha as [Ha _]. destruct (Ha i Hi) as [_ Hw]. apply Hw.
    unfold within. lia.
Qed.

Lemma untouched_grown a l :
  outside a -> (forall t, t ∈ lv_moving (at_ (b_start B)) -> shaped t) -> grown B l ->
  lv_ls (at_ l) a = lv_ls (at_ (b_start B)) a.
Proof.
  intros Ha Hs Hl. apply (proj2 (A := forall t, t ∈ lv_moving (at_ l) -> shaped t)).
  revert l Hl. apply (grown_ind B (fun l => untouched a _ (at_ l))); [done |].
  intros l e Hl He IH. rewrite live_snoc. by apply untouched_play, untouched_issue.
Qed.

Definition live_described (lv : live) : Prop :=
  let w k := u32 (lv_ls lv (b_fifo B + 4 * k)) in
  of_words (w 0) (w 1) = task_fifo desc /\ of_words (w 2) (w 3) = ack_fifo desc /\
  of_words (w 4) (w 5) = atomic desc /\ w 6 = N.

Lemma live_buffers_ok :
  (forall t, t ∈ lv_moving (at_ (b_start B)) -> shaped t) ->
  live_described (at_ (b_start B)) -> buffers_ok B.
Proof.
  intros Hs Hd. apply (layout_buffers_ok B HL). intros l Hl. cbn [ls_word alive live_machine].
  by rewrite !(untouched_grown _ l) by (done || (apply (fifo_outside B HL); lia)).
Qed.
(** * The history only grows *)

Lemma tasks_grow l es : exists ts, lv_tasks (at_ (l ++ es)) = lv_tasks (at_ l) ++ ts.
Proof.
  induction es as [| e es IH] using rev_ind.
  { exists []. by rewrite !app_nil_r. }
  destruct IH as [ts Hts]. rewrite app_assoc, live_snoc. set (lv := at_ (l ++ es)) in *.
  assert (forall k lv, lv_tasks (complete k lv) = lv_tasks lv) as Hc.
  { intros k lv'. unfold complete. destruct (_ !! k) as [[[] ? ? ? ?] |]; done. }
  assert (forall p lv, lv_tasks (settle p lv) = lv_tasks lv) as Hset.
  { intros p lv'. apply (settle_spec p (fun x => lv_tasks x = lv_tasks lv') lv'); [done |].
    intros lv'' k t Ht _ _. by rewrite Hc. }
  assert (exists ts, lv_tasks (play desc (sched ((l ++ es) ++ [e])) (issue e lv)) = lv_tasks lv ++ ts)
    as [ts' ->]; [| exists (ts ++ ts'); by rewrite Hts, <- app_assoc].
  apply (play_ind desc (fun x => exists ts, lv_tasks x = lv_tasks lv ++ ts)).
  - intros st lv' [ts1 H1]. destruct st; at_step; try (rewrite Hc);
      repeat case_match; try (by exists ts1).
    exists (ts1 ++ [words (lv_main lv') (task_fifo desc + 128 * ringGetFront (lv_ring lv'))]).
    cbn. by rewrite H1, <- app_assoc.
  - exists []. rewrite app_nil_r. destruct e; cbn [issue]; try done; apply Hset.
Qed.

Lemma published_grow l es : published_tasks (at_ l) <= published_tasks (at_ (l ++ es)).
Proof.
  destruct (tasks_grow l es) as [ts Hts]. unfold published_tasks.
  rewrite Hts, length_app. lia.
Qed.

Lemma reply_grow l es j :
  0 <= j <= published_tasks (at_ l) -> reply_to (l ++ es) j = reply_to l j.
Proof.
  intros Hj. destruct (tasks_grow l es) as [ts Hts]. unfold reply_to. rewrite Hts.
  unfold published_tasks in Hj. by rewrite lookup_app_l by lia.
Qed.

(** * One cycle *)

(** The tasks with smaller numbers than [J] are additions that do not overflow
    with what [res] holds when they are executed, as soon as they are published. *)
Definition good_until (J : Z) : Prop := forall l j w,
  0 <= j < J -> lv_tasks (at_ l) !! Z.to_nat j = Some w -> good (indet (Z.to_nat j)) w.

Section cycle.
Context (HB : buffers_ok B).

Lemma busy_event tb ab m l e :
  busy B indet tb ab m (issue e (at_ l)) -> busy B indet tb ab m (at_ (l ++ [e])).
Proof. rewrite live_snoc. by apply busy_play. Qed.

(** Polling reads the line as it is between two events. *)
Lemma busy_polled tb ab m l :
  busy B indet tb ab m (at_ l) ->
  busy B indet tb ab m (at_ (l ++ poll B)) /\ seen B (published_tasks (at_ l)) (at_ (l ++ poll B)).
Proof.
  intros Hb. unfold poll. change [?x; ?y] with ([x] ++ [y]). rewrite app_assoc.
  destruct (busy_poll B indet HL tb ab m _ Hb) as [Hb1 Hs1]. split.
  - by apply busy_event, busy_event.
  - rewrite live_snoc. eapply (seen_play B indet HL tb ab m); [by apply busy_event |].
    cbn [issue]. rewrite live_snoc. by eapply seen_play.
Qed.

Lemma polled_front tb ab m F s :
  busy B indet tb ab m (at_ (events s)) -> front (tstate s) = (F - 1) mod N ->
  0 <= F <= published_tasks (at_ (events s)) ->
  new_front B s = (published_tasks (at_ (events s)) - 1) mod N.
Proof.
  intros Hb Hf HF. destruct (busy_polled tb ab m _ Hb) as [_ (_ & H0 & H1)].
  set (P := published_tasks _) in *. pose proof (slots_range B HL).
  unfold new_front, poll_active, polled. cbn [ls_word alive live_machine].
  rewrite Z.mul_0_r, Z.add_0_r. change (4 * 1) with 4.
  destruct (decide (P = 0)) as [HP | HP].
  - rewrite (H0 HP). change (u32 0 =? 0) with true. cbn [negb]. rewrite Hf. f_equal. lia.
  - destruct (H1 ltac:(lia)) as [-> ->]. change (u32 1 =? 0) with false. cbn [negb].
    apply s32_small. pose proof (mod_N B HL (P - 1)). lia.
Qed.

Definition tb_fetched (c n : Z) o (tb : Z -> task_buffer) :=
  match o with Some _ => upd (c mod 4) (Coming n) tb | None => tb end.
Definition tb_waited (i : Z) o (tb : Z -> task_buffer) :=
  match o with Some _ => upd i (arrived (tb i)) tb | None => tb end.
Definition ab_waited (i : Z) o (ab : Z -> ack_buffer) :=
  match o with Some _ => upd i (sent_off (ab i)) ab | None => ab end.

Lemma in_context c k : 0 <= (c + k) mod 4 < 4.
Proof. by apply Z.mod_pos_bound. Qed.

Lemma context_cases c i :
  0 <= i < 4 -> i = c mod 4 \/ i = (c + 1) mod 4 \/ i = (c + 2) mod 4 \/ i = (c + 3) mod 4.
Proof. intros Hi. pose proof (Z.div_mod c 4). pose proof (Z.mod_pos_bound c 4).
  pose proof (Z.div_mod (c + 1) 4). pose proof (Z.mod_pos_bound (c + 1) 4).
  pose proof (Z.div_mod (c + 2) 4). pose proof (Z.mod_pos_bound (c + 2) 4).
  pose proof (Z.div_mod (c + 3) 4). pose proof (Z.mod_pos_bound (c + 3) 4). lia.
Qed.

(** After the fetch and the wait of a cycle. *)
Lemma busy_before tb ab m n c o0 o1 l :
  busy B indet tb ab m (at_ l) -> tb (c mod 4) = Nothing ->
  (forall en, o0 = Some en -> en = n mod N /\ m <= n < published_tasks (at_ l)) ->
  let i := (c + 1) mod 4 in
  busy B indet (tb_waited i o1 (tb_fetched c n o0 tb)) (ab_waited i o1 ab) m
    (at_ (((l ++ poll B) ++ fetched B c o0) ++ waited c o1)).
Proof.
  intros Hb Hfree Ho0 i. pose proof (in_context c 1 : 0 <= i < 4) as Hi.
  destruct (busy_polled tb ab m l Hb) as [Hb1 (Hp & _)]. set (l1 := l ++ poll B) in *.
  assert (busy B indet (tb_fetched c n o0 tb) ab m (at_ (l1 ++ fetched B c o0))) as Hb2.
  { destruct o0 as [en |]; cbn [tb_fetched fetched]; [| by rewrite app_nil_r].
    destruct (Ho0 en eq_refl) as [Hen Hn]. apply busy_event.
    rewrite (get_of_fetch B HL _ n) by done. cbn [issue].
    apply busy_fetch; [done | by apply Z.mod_pos_bound | done | lia]. }
  set (l2 := l1 ++ fetched B c o0) in *.
  destruct o1 as [e1 |]; cbn [tb_waited ab_waited waited]; [| by rewrite app_nil_r].
  unfold wait. fold i. change [?x; ?y] with ([x] ++ [y]). rewrite app_assoc.
  apply busy_event. apply busy_status; [done | | done |].
  - by apply busy_event, busy_mask.
  - rewrite live_snoc.
    destruct (play_steady B indet HL (tb_fetched c n o0 tb) ab m (b_atomic B)
      (sched (l2 ++ [mfc_write_tag_mask (2 ^ i)]))
      (issue (mfc_write_tag_mask (2 ^ i)) (at_ l2))) as (_ & -> & _).
    + intros i' Hi'. apply (line_apart B HL); [done | unfold within; lia].
    + by apply busy_mask.
    + cbn. apply mask_u32. lia.
Qed.

(** What the program reads in a buffer whose task is there. *)
Lemma held_there tb ab m l i j :
  busy B indet tb ab m (at_ l) -> 0 <= i < 4 -> tb i = There j ->
  exists w, lv_tasks (at_ l) !! Z.to_nat j = Some w /\ 0 <= j /\
    command B l i = s32 (w 0) /\ forall x, added B l i x = task_result w x.
Proof.
  intros Hb Hi Hj. pose proof (bu_range _ _ _ _ _ _ Hb i j Hi (or_intror Hj)) as Hr.
  pose proof (so_counts _ _ _ _ (bu_sound _ _ _ _ _ _ Hb)) as Hc.
  destruct (lookup_lt_is_Some_2 (lv_tasks (at_ l)) (Z.to_nat j)) as [w Hw].
  { unfold published_tasks in Hr. lia. }
  exists w. do 2 (split; [done || lia |]).
  pose proof (bu_task _ _ _ _ _ _ Hb i j w Hi (or_introl Hj) Hw) as Hk.
  unfold command, added. cbn [ls_word alive live_machine]. split; [| intros x]; by rewrite !Hk by lia.
Qed.

Lemma read_there J tb ab m l i j :
  good_until J -> j < J ->
  busy B indet tb ab m (at_ l) -> 0 <= i < 4 -> tb i = There j ->
  let x := indet (Z.to_nat j) in
  exists w r, lv_tasks (at_ l) !! Z.to_nat j = Some w /\ task_result w x = Ok r /\
    command B l i = s32 ADD /\ added B l i x = Ok r.
Proof.
  intros Hg HJ Hb Hi Hj x. destruct (held_there _ _ _ _ _ _ Hb Hi Hj) as (w & Hw & Hj0 & Hc & Ha).
  destruct (Hg l j w) as [Hcmd [r Hres]]; [lia | done |].
  exists w, r. by rewrite Hc, Ha.
Qed.

(** The contexts after a cycle. *)
Definition tb_after (c n : Z) o0 o1 o3 (tb : Z -> task_buffer) :=
  let tb := tb_waited ((c + 1) mod 4) o1 (tb_fetched c n o0 tb) in
  match o3 with Some _ => upd ((c + 3) mod 4) Nothing tb | None => tb end.
Definition ab_executed (c m : Z) o1 o2 o3 (ab : Z -> ack_buffer) :=
  let ab := ab_waited ((c + 1) mod 4) o1 ab in
  match o2 with Some _ => upd ((c + 2) mod 4) (Ready (m + bit o3)) ab | None => ab end.
Definition ab_after (c m : Z) o1 o2 o3 (ab : Z -> ack_buffer) :=
  let ab := ab_executed c m o1 o2 o3 ab in
  match o3 with Some _ => upd ((c + 3) mod 4) (Given m) ab | None => ab end.

Lemma upd_eq {A : Type} i (x : A) f : upd i x f i = x.
Proof. unfold upd. by rewrite Z.eqb_refl. Qed.
Lemma upd_ne {A : Type} i (x : A) f j : j <> i -> upd i x f j = f j.
Proof. intros Hj. unfold upd. by rewrite (proj2 (Z.eqb_neq _ _)). Qed.

Lemma tb_waited_other i j o tb : j <> i -> tb_waited i o tb j = tb j.
Proof. destruct o; [apply upd_ne | done]. Qed.
Lemma ab_waited_other i j o ab : j <> i -> ab_waited i o ab j = ab j.
Proof. destruct o; [apply upd_ne | done]. Qed.
Lemma tb_fetched_other c n j o tb : j <> c mod 4 -> tb_fetched c n o tb j = tb j.
Proof. destruct o; [apply upd_ne | done]. Qed.

Section contexts.
Context (c m n : Z) (o1 o2 o3 : option Z) (tb : Z -> task_buffer) (ab : Z -> ack_buffer).
Context (Hld : loaded c m n o1 o2 o3 tb ab) (Hn : n = m + bit o3 + bit o2 + bit o1).

(** The task buffers before the acknowledgement. *)
Lemma before_contexts o0 :
  let tb3 := tb_waited ((c + 1) mod 4) o1 (tb_fetched c n o0 tb) in
  tb3 (c mod 4) = match o0 with Some _ => Coming n | None => Nothing end /\
  tb3 ((c + 1) mod 4) = match o1 with Some _ => There (n - 1) | None => Nothing end /\
  tb3 ((c + 2) mod 4) = match o2 with Some _ => There (m + bit o3) | None => Nothing end /\
  tb3 ((c + 3) mod 4) = match o3 with Some _ => There m | None => Nothing end.
Proof.
  pose proof (contexts_apart0 c 1 ltac:(lia)). pose proof (contexts_apart0 c 2 ltac:(lia)).
  pose proof (contexts_apart0 c 3 ltac:(lia)).
  pose proof (contexts_apart c 2 1 ltac:(lia) ltac:(lia) ltac:(lia)).
  pose proof (contexts_apart c 3 1 ltac:(lia) ltac:(lia) ltac:(lia)).
  destruct Hld as [D0 D1 D2 D3 D4 D5 D6]. cbv zeta. split_and!.
  - rewrite tb_waited_other by (by apply not_eq_sym). destruct o0; [apply upd_eq | exact D0].
  - destruct o1; cbn [tb_waited]; [rewrite upd_eq |]; rewrite tb_fetched_other by done; by rewrite D1.
  - by rewrite tb_waited_other, tb_fetched_other.
  - by rewrite tb_waited_other, tb_fetched_other.
Qed.

Lemma ab_before :
  let ab2 := ab_waited ((c + 1) mod 4) o1 ab in
  (o1 <> None -> ab2 ((c + 1) mod 4) = NoResult) /\
  ab2 ((c + 2) mod 4) = ab ((c + 2) mod 4) /\ ab2 ((c + 3) mod 4) = ab ((c + 3) mod 4) /\
  (forall i j, 0 <= i < 4 -> ab2 i = Ready j -> ab i = Ready j).
Proof.
  destruct Hld as [D0 D1 D2 D3 D4 D5 D6]. cbv zeta.
  assert (forall j, ab ((c + 1) mod 4) <> Ready j) as Hnr.
  { intros j Hj. apply (D6 _ j) in Hj as [_ Heq]; [| by apply in_context].
    by apply (contexts_apart c 1 3) in Heq. }
  split_and!.
  - destruct o1; [| done]. intros _. cbn [ab_waited]. rewrite upd_eq.
    specialize (Hnr). destruct (ab ((c + 1) mod 4)) eqn:Ha; try done. by destruct (Hnr j).
  - apply ab_waited_other, contexts_apart; lia.
  - apply ab_waited_other, contexts_apart; lia.
  - intros i j Hi. destruct o1; [| done]. cbn [ab_waited]. unfold upd.
    destruct (Z.eqb_spec i ((c + 1) mod 4)) as [-> |]; [| done].
    by destruct (ab ((c + 1) mod 4)).
Qed.

Lemma loaded_next o0 :
  loaded (u32 (c - 1)) (m + bit o3) (n + bit o0) o0 o1 o2
    (tb_after c n o0 o1 o3 tb) (ab_after c m o1 o2 o3 ab).
Proof.
  destruct (before_contexts o0) as (T0 & T1 & T2 & T3).
  destruct ab_before as (A1 & A2 & A3 & A4).
  unfold tb_after, ab_after, ab_executed. cbv zeta in *.
  set (tb3 := tb_waited _ _ _) in *. set (ab2 := ab_waited _ _ _) in *.
  assert (forall j, 0 <= j < 3 -> match o3 with
    Some _ => upd ((c + 3) mod 4) Nothing tb3 | None => tb3 end ((c + j) mod 4) = tb3 ((c + j) mod 4)) as Htb.
  { intros j Hj. destruct o3; [| done]. apply upd_ne, contexts_apart; lia. }
  assert (forall j f, 0 <= j < 3 -> match o3 with
    Some _ => upd ((c + 3) mod 4) (Given m) f | None => f end ((c + j) mod 4) = f ((c + j) mod 4)) as Hab.
  { intros j f Hj. destruct o3; [| done]. apply upd_ne, contexts_apart; lia. }
  pose proof (Htb 0 ltac:(lia)) as Htb0. rewrite Z.add_0_r in Htb0.
  split; rewrite ?shift_context; change (1 - 1) with 0; change (2 - 1) with 1; change (3 - 1) with 2.
  - rewrite <- (Z.add_0_r (u32 (c - 1))), shift_context.
    replace ((c + (0 - 1)) mod 4) with ((c + 3) mod 4); cycle 1.
    { replace (c + 3) with (c + (0 - 1) + 1 * 4) by lia. apply Z.mod_add. lia. }
    destruct o3; [apply upd_eq | exact T3].
  - rewrite Z.add_0_r, Htb0, T0. destruct o0; cbn [bit]; [f_equal; lia | done].
  - rewrite (Htb 1), T1 by lia. destruct o1; [| done]. cbn [bit] in Hn. f_equal. lia.
  - rewrite (Htb 2), T2 by lia. done.
  - intros Ho. rewrite Hab by lia. destruct o2; [| by apply A1].
    rewrite upd_ne by (apply contexts_apart; lia). by apply A1.
  - intros Ho. rewrite Hab by lia. destruct o2; [apply upd_eq | done].
  - intros i j Hi Hr.
    assert (i <> (c + 3) mod 4 \/ o3 = None) as Hi3.
    { destruct o3; [| by right]. left. intros ->. by rewrite upd_eq in Hr. }
    assert (match o2 with Some _ => upd ((c + 2) mod 4) (Ready (m + bit o3)) ab2 | None => ab2 end i =
      Ready j) as Hr2.
    { destruct o3; [| exact Hr]. destruct Hi3 as [Hi3 |]; [| done]. by rewrite upd_ne in Hr. }
    destruct (decide (o2 <> None /\ i = (c + 2) mod 4)) as [| Hno]; [done |].
    assert (ab2 i = Ready j) as Hr3.
    { destruct o2; [| exact Hr2]. rewrite upd_ne in Hr2; [done |]. intros ->. by apply Hno. }
    apply A4 in Hr3; [| done]. destruct (ld_only _ _ _ _ _ _ _ _ Hld i j Hi Hr3) as [Ho3 ->].
    by destruct Hi3.
Qed.
End contexts.

(** The whole cycle. *)
Lemma busy_cycle tb ab m n c o0 o1 o2 o3 l l' :
  good_until n ->
  busy B indet tb ab m (at_ l) -> loaded c m n o1 o2 o3 tb ab -> n = m + bit o3 + bit o2 + bit o1 ->
  (forall en, o0 = Some en -> en = n mod N /\ m <= n < published_tasks (at_ l)) ->
  (forall en, o3 = Some en -> en = m mod N) ->
  cycle_log B (indet (Z.to_nat (m + bit o3))) c o0 o1 o2 o3 l l' ->
  busy B indet (tb_after c n o0 o1 o3 tb) (ab_after c m o1 o2 o3 ab) (m + bit o3) (at_ l').
Proof.
  intros Hg Hb Hld Hn Ho0 Ho3 (es & Hex & ->).
  pose proof (busy_before tb ab m n c o0 o1 l Hb (ld_free _ _ _ _ _ _ _ _ Hld) Ho0) as Hb3.
  cbv zeta in Hb3. destruct (before_contexts c m n o1 o2 o3 tb ab Hld Hn o0) as (T0 & T1 & T2 & T3).
  destruct (ab_before c m n o1 o2 o3 tb ab Hld Hn) as (A1 & A2 & A3 & _). cbv zeta in *.
  unfold tb_after, ab_after, ab_executed. cbv zeta.
  set (tb3 := tb_waited _ _ _) in *. set (ab2 := ab_waited _ _ _) in *.
  set (l3 := ((l ++ poll B) ++ fetched B c o0) ++ waited c o1) in *.
  set (ab3 := match o2 with Some _ => upd _ _ ab2 | None => ab2 end).
  assert (busy B indet tb3 ab3 m (at_ (l3 ++ es))) as Hb4.
  { destruct o2 as [e2 |]; cbn [executed] in Hex; [| by rewrite Hex, app_nil_r].
    destruct (read_there n tb3 ab2 m l3 ((c + 2) mod 4) (m + bit o3) Hg
      ltac:(cbn in Hn; destruct o1; cbn in *; lia) Hb3 (in_context _ _) T2) as (w & r & Hw & Hr & Hcmd & Hadd).
    destruct Hex as [[_ Hne] | (r' & _ & Hadd' & ->)]; [done |].
    rewrite Hadd in Hadd'. injection Hadd' as <-.
    apply busy_event. apply busy_store; [done | done | apply in_context | |].
    - rewrite A2. by apply (ld_clear _ _ _ _ _ _ _ _ Hld).
    - by exists w, r. }
  destruct o3 as [e3 |]; cbn [ack_put bit]; [| by rewrite app_nil_r, Z.add_0_r].
  rewrite (Ho3 e3 eq_refl). apply busy_event.
  assert (issue (mfc Out Plain (b_ack B ((c + 3) mod 4)) (ack_ea B (m mod N)) 16 ((c + 3) mod 4))
    (at_ (l3 ++ es)) = set_moving (lv_moving (at_ (l3 ++ es)) ++ [put_of B ((c + 3) mod 4) m])
    (at_ (l3 ++ es))) as ->.
  { cbn [issue]. unfold put_of, ack_at. by rewrite (ack_ea_eq B HL) by apply (mod_N B HL). }
  apply busy_ack; [done | done | apply in_context | | exact T3 |].
  - unfold ab3. destruct o2; [rewrite upd_ne by (apply contexts_apart; lia) |];
      rewrite A3; by apply (ld_ready _ _ _ _ _ _ _ _ Hld).
  - intros i j Hi Hne Ht. cbn [bit] in Hn.
    destruct (context_cases c i Hi) as [-> | [-> | [-> | ->]]]; [| | | done].
    + rewrite T0 in Ht. destruct o0; [| by destruct Ht]. destruct Ht as [[= <-] |]; [| done].
      destruct o1, o2; cbn in *; lia.
    + rewrite T1 in Ht. destruct o1; [| by destruct Ht]. destruct Ht as [| [= <-]]; [done |].
      destruct o2; cbn in *; lia.
    + rewrite T2 in Ht. destruct o2; [| by destruct Ht]. destruct Ht as [| [= <-]]; [done |].
      cbn in *; lia.
Qed.

(** The result stored in a cycle is that of the task executed in it. *)
Lemma result_after tb ab m n c o0 o1 o2 o3 l l' :
  good_until n -> busy B indet tb ab m (at_ l) -> loaded c m n o1 o2 o3 tb ab -> n = m + bit o3 + bit o2 + bit o1 ->
  grown B l -> (forall en, o0 = Some en -> en = n mod N /\ m <= n < published_tasks (at_ l)) ->
  cycle_log B (indet (Z.to_nat (m + bit o3))) c o0 o1 o2 o3 l l' -> o2 <> None ->
  holds_result B l' ((c + 2) mod 4) = reply_to l' (m + bit o3).
Proof.
  intros Hgn Hb Hld Hn Hl Ho0 (es & Hex & ->) Ho2. destruct o2 as [en |]; [| done]. clear Ho2.
  pose proof (busy_before tb ab m n c o0 o1 l Hb (ld_free _ _ _ _ _ _ _ _ Hld) Ho0) as Hb3.
  destruct (before_contexts c m n o1 (Some en) o3 tb ab Hld Hn o0) as (_ & _ & T2 & _). cbv zeta in *.
  pose proof (before_grown B HB c o0 o1 l Hl) as Hg. rewrite !app_assoc in Hg.
  set (l3 := ((l ++ poll B) ++ fetched B c o0) ++ waited c o1) in *.
  destruct (read_there n _ _ _ _ _ (m + bit o3) Hgn ltac:(cbn in Hn; destruct o1; cbn in *; lia) Hb3
    (in_context _ _) T2) as (w & r & Hw & Hr & Hcmd & Hadd).
  destruct Hex as [[_ Hne] | (r' & _ & Hr' & ->)]; [done |].
  rewrite Hadd in Hr'. injection Hr' as <-. rewrite <- app_assoc.
  pose proof (bu_range _ _ _ _ _ _ Hb3 _ _ (in_context _ _) (or_intror T2)) as Hrange.
  pose proof (so_counts _ _ _ _ (bu_sound _ _ _ _ _ _ Hb3)) as Hc.
  rewrite holds_result_app, fold_left_app, reply_grow by (done || lia).
  unfold reply_to. rewrite Hw, Hr. cbn [fold_left put_result]. rewrite Z.eqb_refl.
  by destruct o3.
Qed.

(** A cycle that executes a task is one more addition. *)
Lemma additions_after tb ab m n c o0 o1 o2 o3 l l' :
  good_until n -> busy B indet tb ab m (at_ l) -> loaded c m n o1 o2 o3 tb ab -> n = m + bit o3 + bit o2 + bit o1 ->
  grown B l -> (forall en, o0 = Some en -> en = n mod N /\ m <= n < published_tasks (at_ l)) ->
  cycle_log B (indet (Z.to_nat (m + bit o3))) c o0 o1 o2 o3 l l' ->
  additions l = Z.to_nat (m + bit o3) -> 0 <= m ->
  additions l' = Z.to_nat (m + bit o3 + bit o2).
Proof.
  intros Hgn Hb Hld Hn Hl Ho0 (es & Hex & ->) Ha Hm.
  rewrite !additions_app, additions_fetched, additions_waited, additions_ack, Ha.
  change (additions (poll B)) with O.
  destruct o2 as [en |]; cbn [executed bit] in *; [| rewrite Hex; cbn; destruct o3; cbn; lia].
  pose proof (busy_before tb ab m n c o0 o1 l Hb (ld_free _ _ _ _ _ _ _ _ Hld) Ho0) as Hb3.
  destruct (before_contexts c m n o1 (Some en) o3 tb ab Hld Hn o0) as (_ & _ & T2 & _). cbv zeta in *.
  destruct (read_there n _ _ _ _ _ (m + bit o3) Hgn ltac:(destruct o1; cbn in *; lia) Hb3
    (in_context _ _) T2) as (w & r & _ & _ & Hcmd & _).
  destruct Hex as [[_ Hne] | (r' & _ & _ & ->)]; [done |]. cbn. destruct o3; cbn; lia.
Qed.

(** What was sent. *)
Lemma sent_after x m c o0 o1 o2 o3 l l' :
  grown B l -> cycle_log B x c o0 o1 o2 o3 l l' -> 0 <= m -> m + bit o3 <= published_tasks (at_ l) ->
  (forall en, o3 = Some en -> en = m mod N) ->
  (o3 <> None -> holds_result B l ((c + 3) mod 4) = reply_to l m) ->
  sent (run_of B l) = map (fun j => (ack_ea B (j mod N), reply_to l j)) (seqZ 0 m) ->
  sent (run_of B l') = map (fun j => (ack_ea B (j mod N), reply_to l' j)) (seqZ 0 (m + bit o3)).
Proof.
  intros Hl Hlog Hm0 Hm Ho3 Hres Hs.
  assert (exists es', l' = l ++ es') as [es' Hl'].
  { destruct Hlog as (es & _ & ->). rewrite <- !app_assoc. by eexists. }
  rewrite (cycle_sent B HB _ _ _ _ _ _ _ _ Hlog Hl), Hs, Hl'.
  assert (forall k, 0 <= k <= m -> k <= published_tasks (at_ l)) as Hk.
  { intros k Hk. destruct o3; cbn in Hm; lia. }
  rewrite seqZ_app, map_app by (destruct o3; cbn; lia). f_equal.
  - apply map_ext_in. intros j Hj%list_elem_of_In%elem_of_seqZ. by rewrite reply_grow by (split; [lia | apply Hk; lia]).
  - destruct o3 as [en |]; [| done]. cbn. rewrite Hres, (Ho3 en eq_refl) by done.
    rewrite seqZ_cons by lia. cbn. by rewrite reply_grow by (split; [lia | apply Hk; lia]).
Qed.

(** The slot a cycle fetches, if the polled line says there is one. *)
Lemma slots_mod n : 0 < N -> (N - 1 + 1 + n) mod N = n mod N.
Proof. intros. replace (N - 1 + 1 + n) with (n + 1 * N) by lia. apply Z.mod_add. lia. Qed.

Lemma running_fetch fs ss m n F o1 o2 o3 s tb ab :
  piped B (N - 1) fs ss m n o1 o2 o3 s -> busy B indet tb ab m (at_ (events s)) ->
  front (tstate s) = (F - 1) mod N -> n <= F <= published_tasks (at_ (events s)) ->
  let P := published_tasks (at_ (events s)) in
  new_front B s = (P - 1) mod N /\
  forall o0, (o0 = None <-> new_front B s = in_back (tstate s)) ->
    (o0 = None <-> n = P) /\
    ((forall en, o0 = Some en -> en = (N - 1 + 1 + n) mod N) ->
     forall en, o0 = Some en -> en = n mod N /\ m <= n < P).
Proof.
  intros HP Hb Hfr HF P. pose proof (slots_range B HL) as HN.
  pose proof (pi_range _ _ _ _ _ _ _ _ _ _ HP) as Hmn.
  pose proof (so_counts _ _ _ _ (bu_sound _ _ _ _ _ _ Hb)) as Hcnt. fold P in Hcnt.
  assert (new_front B s = (P - 1) mod N) as Hnf
    by (apply (polled_front tb ab m F); [done | done | split; [lia | apply HF]]).
  split; [done |]. intros o0 Hi.
  assert (o0 = None <-> n = P) as Hiff.
  { rewrite Hi, Hnf, (pi_in _ _ _ _ _ _ _ _ _ _ HP).
    replace (N - 1 + n) with (n - 1 + 1 * N) by lia. rewrite Z.mod_add by lia. split.
    - intros Heq. apply mod_near in Heq; lia.
    - intros ->. done. }
  split; [done |]. intros Hen en ->. rewrite (Hen en eq_refl), slots_mod by lia. split; [done |].
  destruct Hiff as [_ Hi']. destruct (decide (n = P)) as [Heq | Hne]; [by specialize (Hi' Heq) | lia].
Qed.

(** A task that is not an addition stops the program in the cycle after its
    fetch. *)
Lemma running_bad fuel fs ss m n F e1 o2 o3 s :
  running fs ss m n F (Some e1) o2 o3 s ->
  (forall l w, lv_tasks (at_ l) !! Z.to_nat (n - 1) = Some w -> s32 (w 0) <> s32 ADD) ->
  exists f, stages fuel indet s = Fault f /\
    (f = NullDeref \/ f = SignedOverflow \/ f = OutOfBounds).
Proof.
  intros [HP (tb & ab & Hb & Hld) Hfr _ HF _ _] Hbad.
  apply (stages_fault B HB fuel indet (N - 1) fs ss m n e1 o2 o3 s HP).
  intros o0 Hi Hen. destruct (running_fetch _ _ _ _ _ _ _ _ _ _ _ HP Hb Hfr HF) as [_ Hf].
  destruct (Hf o0 Hi) as [_ Ho0].
  pose proof (busy_before tb ab m n (cycle s) o0 (Some e1) _ Hb (ld_free _ _ _ _ _ _ _ _ Hld)
    (Ho0 Hen)) as Hb3. cbv zeta in Hb3.
  destruct (before_contexts (cycle s) m n (Some e1) o2 o3 tb ab Hld
    ltac:(pose proof (piped_depth B _ _ _ _ _ _ _ _ _ HP); lia) o0) as (_ & T1 & _).
  destruct (held_there _ _ _ _ _ _ Hb3 (in_context _ _) T1) as (w & Hw & _ & -> & _).
  by eapply Hbad.
Qed.

Lemma running_cycle fuel fs ss m n F o1 o2 o3 s :
  good_until n -> running fs ss m n F o1 o2 o3 s ->
  exists s' o0, stages fuel indet s = Ok (tt, s') /\
    running fs ss (m + bit o3) (n + bit o0) (published_tasks (at_ (events s))) o0 o1 o2 s' /\
    (o0 = None -> n = published_tasks (at_ (events s))) /\
    current_task s' = current_task s /\ current_state s' = current_state s /\
    exists es, events s' = events s ++ es.
Proof.
  intros Hgn [HP (tb & ab & Hb & Hld) Hfr Hadds HF Hres Hsent].
  set (l := events s) in *. set (P := published_tasks (at_ l)) in *. set (c := cycle s) in *.
  pose proof (slots_range B HL) as HN.
  pose proof (pi_range _ _ _ _ _ _ _ _ _ _ HP) as Hmn.
  pose proof (fo_grown _ _ (pi_flights _ _ _ _ _ _ _ _ _ _ HP)) as Hl. fold l in Hl.
  pose proof (so_counts _ _ _ _ (bu_sound _ _ _ _ _ _ Hb)) as Hcnt. fold P in Hcnt.
  assert (n = m + bit o3 + bit o2 + bit o1) as Hn
    by (pose proof (piped_depth B _ _ _ _ _ _ _ _ _ HP); lia).
  destruct (running_fetch _ _ _ _ _ _ _ _ _ _ _ HP Hb Hfr HF) as [Hnf Hf]. fold l P in Hnf, Hf.
  pose proof (fun o0 Hi => proj1 (Hf o0 Hi)) as Hiff. pose proof (fun o0 Hi => proj2 (Hf o0 Hi)) as Ho0.
  destruct (stages_return B HB fuel indet (N - 1) fs ss m n o1 o2 o3 s HP) as [s' Hrun].
  { intros o0 Hi Hen. fold l c. rewrite Hadds.
    pose proof (busy_before tb ab m n c o0 o1 l Hb (ld_free _ _ _ _ _ _ _ _ Hld) (Ho0 o0 Hi Hen)) as Hb3.
    destruct (before_contexts c m n o1 o2 o3 tb ab Hld Hn o0) as (_ & T1 & T2 & _). cbv zeta in *.
    split; intros Ho.
    - destruct o1; [| done]. by destruct (read_there n _ _ _ _ _ (n - 1) Hgn ltac:(lia) Hb3 (in_context _ _) T1) as (w & r & _ & _ & ? & _).
    - destruct o2; [| done]. destruct (read_there n _ _ _ _ _ (m + bit o3) Hgn ltac:(destruct o1; cbn in *; lia) Hb3
        (in_context _ _) T2) as (w & r & _ & _ & ? & ?).
      eauto. }
  pose proof (run_stages B HB fuel indet _ _ _ _ _ _ _ _ _ HP) as Hs. rewrite Hrun in Hs.
  destruct Hs as (o0 & HP1 & Hfr1 & Hcyc & Hi & Htask & Hstate & Hlog). fold c l in Hcyc, Hlog.
  rewrite Hadds in Hlog.
  destruct (queue_step B (N - 1) m n None o1 o2 o3) as (_ & _ & Hen3); [lia | lia | apply HP | done |].
  assert (forall en, o0 = Some en -> en = (N - 1 + 1 + n) mod N) as Hen0.
  { intros en ->. pose proof (pi_queue _ _ _ _ _ _ _ _ _ _ HP1) as Hq. cbn [bit] in Hq.
    replace (n + 1 - (m + bit o3)) with (n - (m + bit o3) + 1) in Hq by lia.
    rewrite slots_snoc in Hq by (destruct o2, o1; cbn in *; lia).
    change [o2; o1; Some en] with ([o2; o1] ++ [Some en]) in Hq. rewrite omap_app in Hq.
    apply app_inj_tail in Hq as [_ ->]. f_equal. lia. }
  assert (forall en, o3 = Some en -> en = m mod N) as Ho3 by (intros en He; rewrite (Hen3 en He); apply slots_mod; lia).
  pose proof (busy_cycle tb ab m n c o0 o1 o2 o3 l (events s') Hgn Hb Hld Hn (Ho0 o0 Hi Hen0) Ho3 Hlog) as Hb'.
  pose proof (loaded_next c m n o1 o2 o3 tb ab Hld Hn o0) as Hld'. rewrite <- Hcyc in Hld'.
  assert (exists es, events s' = l ++ es) as [es Hes].
  { destruct Hlog as (es & _ & ->). rewrite <- !app_assoc. by eexists. }
  exists s', o0. split; [done |]. split; [| split_and!; try done; [by apply Hiff | by exists es]].
  split; [exact HP1 | by eexists _, _ | by rewrite Hfr1 | | | |].
  - apply (additions_after tb ab m n c o0 o1 o2 o3 l); try done; [by apply (Ho0 o0 Hi Hen0) | lia].
  - pose proof (published_grow l es) as Hg. rewrite <- Hes in Hg.
    destruct o0 as [en |]; cbn [bit]; [| lia].
    destruct (Ho0 _ Hi Hen0 en eq_refl). lia.
  - intros Ho2. rewrite Hcyc, shift_context.
    by apply (result_after tb ab m n c o0 o1 o2 o3 l (events s') Hgn Hb Hld Hn Hl (Ho0 o0 Hi Hen0) Hlog).
  - apply (sent_after (indet (Z.to_nat (m + bit o3))) m c o0 o1 o2 o3 l); try done; [lia |]. destruct o3, o2, o1; cbn in *; lia.
Qed.

(** * Many cycles *)

Section good.
Context (Hgood : forall l j w, lv_tasks (at_ l) !! j = Some w -> good (indet j) w).

Lemma all_good J : good_until J.
Proof. intros l j w _ Hw. by apply (Hgood l). Qed.

(** What was published before the cycles is fetched after as many. *)
Lemma running_cycles fuel fs ss T k : forall m n F o1 o2 o3 s,
  running fs ss m n F o1 o2 o3 s -> T <= published_tasks (at_ (events s)) -> T - n <= Z.of_nat k ->
  exists s' m' n' F' o1' o2' o3', cycles fuel indet k s = Ok (tt, s') /\
    running fs ss m' n' F' o1' o2' o3' s' /\ m <= m' /\ n <= n' /\ T <= n' /\
    exists es, events s' = events s ++ es.
Proof.
  induction k as [| k IH]; intros m n F o1 o2 o3 s HR HT Hk; cbn [cycles].
  { exists s, m, n, F, o1, o2, o3. split_and!; try done; [lia.. |]. exists []. by rewrite app_nil_r. }
  destruct (running_cycle fuel _ _ _ _ _ _ _ _ _ (all_good _) HR) as (s1 & o0 & Hrun & HR1 & Ho0 & _ & _ & es & Hes).
  erewrite M_bind_ok by exact Hrun.
  destruct (IH _ _ _ _ _ _ s1 HR1) as (s' & m' & n' & F' & p1 & p2 & p3 & Hrun' & HR' & ? & ? & ? & es' & Hes').
  - rewrite Hes. pose proof (published_grow (events s) es). lia.
  - destruct o0; cbn; [lia |]. specialize (Ho0 eq_refl). lia.
  - exists s', m', n', F', p1, p2, p3. split_and!; try done.
    + destruct o3; cbn in *; lia.
    + destruct o0; cbn in *; lia.
    + exists (es ++ es'). by rewrite Hes', Hes, app_assoc.
Qed.

(** What was fetched is acknowledged three cycles later. *)
Lemma running_drain fuel fs ss m n F o1 o2 o3 s :
  running fs ss m n F o1 o2 o3 s ->
  exists s' n' F' o1' o2' o3', cycles fuel indet 3 s = Ok (tt, s') /\
    running fs ss n n' F' o1' o2' o3' s'.
Proof.
  intros HR. pose proof (piped_depth B _ _ _ _ _ _ _ _ _ (rn_piped _ _ _ _ _ _ _ _ _ HR)) as Hd.
  destruct (running_cycle fuel _ _ _ _ _ _ _ _ _ (all_good _) HR) as (s1 & p1 & Hrun1 & HR1 & _).
  destruct (running_cycle fuel _ _ _ _ _ _ _ _ _ (all_good _) HR1) as (s2 & p2 & Hrun2 & HR2 & _).
  destruct (running_cycle fuel _ _ _ _ _ _ _ _ _ (all_good _) HR2) as (s3 & p3 & Hrun3 & HR3 & _).
  replace (m + bit o3 + bit o2 + bit o1) with n in HR3 by lia.
  exists s3. do 5 eexists. split; [| exact HR3]. cbn [cycles].
  erewrite M_bind_ok by exact Hrun1. erewrite M_bind_ok by exact Hrun2.
  by erewrite M_bind_ok by exact Hrun3.
Qed.

Lemma running_answered fuel fs ss T k m n F o1 o2 o3 s :
  running fs ss m n F o1 o2 o3 s -> T <= published_tasks (at_ (events s)) ->
  T - n + 3 <= Z.of_nat k -> (3 <= k)%nat ->
  exists s' m' n' F' o1' o2' o3', cycles fuel indet k s = Ok (tt, s') /\
    running fs ss m' n' F' o1' o2' o3' s' /\ T <= m'.
Proof.
  intros HR HT Hk Hk3.
  destruct (running_cycles fuel _ _ T (k - 3) _ _ _ _ _ _ s HR HT)
    as (s1 & m1 & n1 & F1 & p1 & p2 & p3 & Hrun1 & HR1 & _ & _ & Hn & _); [lia |].
  destruct (running_drain fuel _ _ _ _ _ _ _ _ _ HR1) as (s2 & n2 & F2 & q1 & q2 & q3 & Hrun2 & HR2).
  exists s2, n1, n2, F2, q1, q2, q3. split; [| done].
  replace k with (k - 3 + 3)%nat by lia. rewrite cycles_app.
  by erewrite M_bind_ok by exact Hrun1.
Qed.

(** ** The loops of the program *)

Definition going fs ss s : Prop :=
  current_task s = 0 /\ current_state s = WAIT /\
  exists m n F o1 o2 o3, running fs ss m n F o1 o2 o3 s.

Lemma going_cycle fuel fs ss s :
  going fs ss s -> exists s', stages fuel indet s = Ok (tt, s') /\ going fs ss s'.
Proof.
  intros (Ht & Hst & m & n & F & o1 & o2 & o3 & HR).
  destruct (running_cycle fuel _ _ _ _ _ _ _ _ _ (all_good _) HR) as (s' & o0 & Hrun & HR' & _ & Ht' & Hst' & _).
  exists s'. split; [done |]. split_and!; [congruence | congruence |]. by do 6 eexists.
Qed.

Lemma going_pipeline fuel k fs ss : forall s,
  going fs ss s ->
  match loop k (pipeline_round fuel indet) s with
  | Ok (_, s') => going fs ss s'
  | Fault _ => False
  | OutOfFuel => True
  end.
Proof.
  induction k as [| k IH]; intros s Hs; cbn [loop]; [done |].
  destruct (going_cycle fuel fs ss s Hs) as (s1 & Hrun & Hs1).
  unfold pipeline_round. erewrite M_bind_ok by exact Hrun. mstep. rewrite run_ret.
  destruct (negb _); [by apply IH | done].
Qed.

Lemma going_main fuel k fs ss : forall s,
  going fs ss s -> loop k (main_round fuel indet) s = OutOfFuel.
Proof.
  induction k as [| k IH]; intros s Hs; cbn [loop]; [done |].
  pose proof Hs as (_ & Hst & _). pose proof (going_pipeline fuel fuel fs ss s Hs) as Hp.
  unfold main_round. mstep. rewrite Hst. cbn [Z.eqb WAIT].
  change (WAIT =? WAIT) with true. cbv iota. unfold pipeline.
  unfold mbind at 1, M_bind at 1. destruct (loop fuel _ s) as [[[] s1] | |]; [| done..].
  mstep. pose proof Hp as (Ht & _). rewrite Ht. change (u32 0 =? STOP) with false. cbn [negb].
  rewrite run_ret. by apply IH.
Qed.

End good.

End cycle.

End run.
