(* ===== verification/LiveSpec.v ===== *)
(** Host, DMA engine and SPE together, from [fifoInit] and the start of the task
    program on: what becomes of the tasks when nothing waits for anything. *)
From stdpp Require Import base list.
From Stdlib Require Import ZArith Lia.
From S2P Require Import Prelude.
From S2P Require Import Messages.
From S2P Require Import Ring.
From S2P Require Import HostFifo.
From S2P Require Import HostQueue.
From S2P Require Import HostCalls.
From S2P Require Import Dma.
From S2P Require TaskManager.
From S2P Require Import TaskPipeline.
From S2P Require TaskLoop.
From S2P Require TaskSpec.
From S2P Require Import Machine.
From S2P Require Import System.
From S2P Require Import Live.
From S2P Require Import LiveInvariant.
From S2P Require Import LiveRun.
From S2P Require Import LiveHost.

(** The machine when the queue has been allocated and no task submitted. *)
Definition start_live (d : fifo_s) (main ls : memory) : live :=
  Live main ls 0 [] (Ring_context 0 0 (max_entries d)) Idle false
    [words main (task_fifo d + 128 * (max_entries d - 1))] 0.

Section boot.
Context (desc : fifo_s) (main ls : memory) (sched : list event -> list step)
  (heap message : list event -> Z) (argp : Z) (indet : nat -> Z).
#[local] Instance system : Mfc := live_machine (start_live desc main ls) sched desc heap message.
Local Abbreviation at_ l := (live_after (start_live desc main ls) sched desc l).
Local Abbreviation B := (TaskSpec.boot_buffers argp sizeof_fifo_s desc).
Local Abbreviation N := (max_entries desc).

(** Nobody writes over the description of the queue. *)
Definition minds (st : step) : Prop :=
  match st with
  | Elsewhere f => forall k, 0 <= k < 12 -> f (argp + 4 * k) = main (argp + 4 * k)
  | _ => True
  end.

(** What [fifoInit] leaves, where the compiler and [memalign] put it. *)
Record prepared (q : queue) : Prop := {
  pr_layout : layout B;
  pr_heap : heap (TaskSpec.boot_log argp sizeof_fifo_s) <> 0;
  pr_fresh : fresh_queue N q;
  pr_memory : in_memory B q main;
  pr_described : laid_out main argp 0 fifo_s_members (fifo_s_values desc);
  pr_line : 0 <= atomic desc < 2 ^ 64;
  pr_minds l : Forall minds (sched l);
  pr_apart : apart argp 48 (task_fifo desc) (128 * N) /\ apart argp 48 (ack_fifo desc) (16 * N) /\
    apart argp 48 (atomic desc) 128;
  pr_junk i : 0 <= i < 4 -> ls (b_ack B i) <> ACK_CLEAR }.

(** While [main] allocates, and fetches the description. *)
Record booting (issued : bool) (lv : live) : Prop := {
  bo_sound : sound B indet 0 lv;
  bo_moving t : t ∈ lv_moving lv -> issued = true /\ t = Xfer In (b_fifo B) argp 48 0;
  bo_main k : 0 <= k < 12 -> lv_main lv (argp + 4 * k) = main (argp + 4 * k);
  bo_words k : issued = true -> lv_moving lv = [] -> 0 <= k < 12 ->
    lv_ls lv (b_fifo B + 4 * k) = main (argp + 4 * k);
  bo_junk i : 0 <= i < 4 -> lv_ls lv (b_ack B i) = ls (b_ack B i) }.

Context (q : queue) (HP : prepared q).
Local Abbreviation HL := (pr_layout q HP).

Lemma start_sound : sound B indet 0 (start_live desc main ls).
Proof.
  destruct HP as [Hl _ Hf Hm _ _ _ _ _]. pose proof (slots_range B Hl) as HN. cbn in HN.
  destruct Hf as [Hq Hr Ha Hat]. destruct Hm as [Mt Ma Mc Ms]. rewrite Hr, Hat in *. cbn in *.
  split; cbn; try done; try (unfold published_tasks; cbn; lia).
  - intros j w Hj Hw k Hk. apply lookup_lt_Some in Hw as Hlt. cbn in Hlt.
    assert (j = 0) as -> by lia. injection Hw as <-. unfold words, task_at. cbn.
    replace (0 - 1) with (max_entries desc - 1 + -1 * max_entries desc) by lia.
    rewrite Z.mod_add, Z.mod_small by lia. done.
  - intros i Hi Hv. destruct (Ha i Hi). exists (main (ack_at B i)). split; [| done].
    rewrite Ma by lia. unfold ack_at. cbn. rewrite Z.mod_small by lia. do 2 f_equal. lia.
Qed.

Lemma booting_complete b k lv : booting b lv -> booting b (complete k lv).
Proof.
  intros [S1 S2 S3 S4 S5]. destruct (lv_moving lv !! k) as [t |] eqn:Hk;
    [| by unfold complete; rewrite Hk].
  destruct (S2 t) as [-> ->]; [by eapply list_elem_of_lookup_2 |].
  pose proof (complete_moving k lv) as Hmv. unfold complete in *. rewrite Hk in *.
  split; cbn in *; try done.
  - by apply sound_moving, sound_ls.
  - intros t Ht. by apply S2, Hmv.
  - intros j _ _ Hj. rewrite copy_inside by (unfold within; lia). rewrite Z.add_simpl_l. by apply S3.
  - intros i Hi. rewrite copy_outside; [by apply S5 |].
    pose proof (la_fifo _ HL i Hi) as (_ & Hap & _). unfold within, apart in *. cbn in *. lia.
Qed.

Lemma booting_step b st lv : minds st -> booting b lv -> booting b (host_step desc st lv).
Proof.
  intros Hmd Hb.
  assert ((exists k, st = Complete k) \/ (forall k, st <> Complete k)) as [[k ->] | Hst].
  { destruct st; (by right) || (left; by eexists). }
  { by apply booting_complete. }
  destruct Hb as [S1 S2 S3 S4 S5].
  destruct (host_step_effect B indet HL 0 st lv Hst S1) as [Hls Hmv _ _ _]. cbn in Hls, Hmv.
  split; rewrite ?Hls, ?Hmv; try done.
  - by apply (sound_host_step B indet HL).
  - intros k Hk. rewrite (host_step_main B st lv _ Hst (sound_ring_wf B indet HL 0 lv S1)).
    + destruct st; by (apply S3) || (apply Hmd).
    + by rewrite (so_ring _ _ _ _ S1).
    + destruct (pr_apart q HP) as (P1 & P2 & P3). unfold away, within, apart in *. cbn in *. lia.
Qed.

Lemma booting_play b l lv : booting b lv -> booting b (play desc (sched l) lv).
Proof.
  pose proof (pr_minds q HP l) as Hss. revert lv.
  induction Hss as [| st ss Hst _ IH]; intros lv Hb; [done |]. by apply IH, booting_step.
Qed.

Lemma booting_event b l e :
  booting b (issue e (at_ l)) -> booting b (at_ (l ++ [e])).
Proof. rewrite live_snoc. by apply booting_play. Qed.

(** The log of [main_start], event by event. *)
Lemma boot_allocs b l es :
  Forall (fun e => match e with ls_alloc _ => True | _ => False end) es ->
  booting b (at_ l) -> booting b (at_ (l ++ es)).
Proof.
  intros Hes. revert l. induction es as [| e es IH]; intros l Hb; [by rewrite app_nil_r |].
  apply Forall_cons in Hes as [He Hes]. change (e :: es) with ([e] ++ es). rewrite app_assoc.
  apply IH; [done |]. apply booting_event. by destruct e.
Qed.

Lemma booting_start : booting false (at_ []).
Proof.
  apply booting_play. split; try done; [apply start_sound |].
  intros t Ht. by apply elem_of_nil in Ht.
Qed.

Lemma booted :
  booting true (at_ (TaskSpec.fetched_log argp sizeof_fifo_s)) /\
  lv_moving (at_ (TaskSpec.fetched_log argp sizeof_fifo_s)) = [].
Proof.
  pose proof (boot_allocs false [] (TaskSpec.fifo_log sizeof_fifo_s) ltac:(by repeat constructor) booting_start)
    as H0. cbn [app] in H0.
  unfold TaskSpec.fetched_log. set (l := TaskSpec.fifo_log sizeof_fifo_s) in *.
  set (e := mfc _ _ _ _ _ _). change [e; ?x; ?y] with ([e] ++ [x] ++ [y]). rewrite !app_assoc.
  assert (booting true (at_ (l ++ [e]))) as H1.
  { apply booting_event. destruct H0 as [S1 S2 S3 S4 S5]. cbn [issue e].
    change (u32 sizeof_fifo_s) with 48.
    split; cbn [lv_moving lv_main lv_ls set_moving]; try done.
    - by apply sound_moving.
    - intros t [Ht | ->%list_elem_of_singleton]%elem_of_app; [by destruct (S2 t Ht) | done].
    - intros k _ Hmv. by destruct (lv_moving (at_ l)). }
  set (e2 := mfc_write_tag_mask 1). assert (booting true (at_ ((l ++ [e]) ++ [e2]))) as H2.
  { apply booting_event. destruct H1 as [S1 S2 S3 S4 S5]. by split; [apply sound_mask | ..]. }
  set (l2 := (l ++ [e]) ++ [e2]) in *.
  assert (lv_mask (at_ l2) = 1) as Hmask.
  { unfold l2. rewrite live_snoc. by destruct (play_dma desc (sched ((l ++ [e]) ++ [e2]))
      (issue e2 (at_ (l ++ [e])))) as [-> _]. }
  destruct (settle_spec (fun t => lv_mask (at_ l2) =? 2 ^ t_tag t) (booting true) (at_ l2) H2)
    as [H3 Hno].
  { intros lv k t Hb _ _. by apply booting_complete. }
  split; [by apply booting_event |].
  assert (forall t, t ∉ lv_moving (issue mfc_read_tag_status_any (at_ l2))) as Hnil.
  { intros t Ht. pose proof (Hno t Ht) as Htag. destruct (bo_moving _ _ H3 t Ht) as [_ ->].
    by rewrite Hmask in Htag. }
  apply elem_of_nil_inv. intros t. rewrite live_snoc.
  intros Ht%(proj2 (play_dma desc _ _)). by apply (Hnil t).
Qed.

Lemma boot_described : live_described B (at_ (TaskSpec.fetched_log argp sizeof_fifo_s)).
Proof.
  destruct booted as [Hb Hm]. pose proof (la_tasks _ HL). pose proof (la_acks _ HL).
  pose proof (la_entries _ HL) as HN. cbn in *.
  unfold live_described. rewrite !(bo_words _ _ Hb) by (done || lia).
  apply laid_out_reads; [apply HP | | cbn; lia].
  repeat (apply Forall_cons; split); try done; try apply HP; cbn; lia.
Qed.

Lemma boot_buffers_ok : buffers_ok B.
Proof.
  apply (live_buffers_ok (start_live desc main ls) sched heap message B HL); [| exact boot_described].
  intros t Ht. destruct booted as [_ Hm]. cbn [b_start TaskSpec.boot_buffers] in Ht. cbn in Hm, Ht.
  rewrite Hm in Ht. by apply elem_of_nil in Ht.
Qed.

Lemma boot_running :
  exists s, TaskManager.main_start argp sizeof_fifo_s TaskSpec.boot = Ok (tt, s) /\
    TaskManager.current_task s = 0 /\ TaskManager.current_state s = TaskManager.WAIT /\
    running (start_live desc main ls) sched B indet
      (fetches (TaskSpec.boot_log argp sizeof_fifo_s)) (stores (TaskSpec.boot_log argp sizeof_fifo_s))
      0 0 0 None None None s.
Proof.
  destruct (TaskSpec.run_main_start argp sizeof_fifo_s desc boot_buffers_ok (pr_heap q HP))
    as (s & Hrun & Ht & Hst & Hev & Hfr & _ & Hpiped).
  exists s. split; [exact Hrun |]. split; [exact Ht |]. split; [exact Hst |].
  pose proof (la_entries _ HL) as HN. cbn in HN.
  assert (booting true (at_ (TaskSpec.boot_log argp sizeof_fifo_s)) /\
    lv_moving (at_ (TaskSpec.boot_log argp sizeof_fifo_s)) = []) as [Hb Hm].
  { destruct booted as [Hb Hm]. unfold TaskSpec.boot_log. split; [by apply booting_event |].
    apply elem_of_nil_inv. intros t. rewrite live_snoc. intros Hin%(proj2 (play_dma desc _ _)).
    cbn [issue] in Hin. rewrite Hm in Hin. by apply elem_of_nil in Hin. }
  split.
  - exact Hpiped.
  - exists (fun _ => Nothing), (fun _ => NoResult). rewrite Hev. split.
    + destruct Hb as [S1 _ _ _ S5]. split; try done; try (by intros ? ? ? [? | ?]).
      * intros t Ht'. cbn in Hm, Ht'. rewrite Hm in Ht'. by apply elem_of_nil in Ht'.
      * cbn in Hm |- *. rewrite Hm. apply NoDup_nil_2.
      * intros i j w _ [? | [? _]]; done.
      * intros i Hi. rewrite S5 by done. by apply HP.
    + split; done.
  - rewrite Hfr. cbn [b_desc TaskSpec.boot_buffers]. replace (0 - 1) with (N - 1 + -1 * N) by lia.
    rewrite Z.mod_add, Z.mod_small by lia. done.
  - rewrite Hev. reflexivity.
  - rewrite Hev. split; [done |].
    pose proof (so_counts _ _ _ _ (bo_sound _ _ Hb)) as Hc. cbn in Hc |- *. lia.
  - done.
  - rewrite Hev. reflexivity.
Qed.
End boot.

Section properties.
Context (desc : fifo_s) (main ls : memory) (sched : list event -> list step)
  (heap message : list event -> Z) (argp : Z) (indet : nat -> Z) (q : queue).
#[local] Instance whole : Mfc := live_machine (start_live desc main ls) sched desc heap message.
Local Abbreviation at_ l := (live_after (start_live desc main ls) sched desc l).
Local Abbreviation B := (TaskSpec.boot_buffers argp sizeof_fifo_s desc).
Local Abbreviation N := (max_entries desc).
Context (HP : prepared desc main ls sched heap message argp q)
  (Hgood : forall l j w, lv_tasks (at_ l) !! j = Some w -> TaskLoop.good (indet j) w).

(** The states that some number of cycles reach. *)
Lemma run_cycles fuel k :
  exists s0 s m n F o1 o2 o3,
    TaskManager.main_start argp sizeof_fifo_s TaskSpec.boot = Ok (tt, s0) /\
    cycles fuel indet k s0 = Ok (tt, s) /\
    running (start_live desc main ls) sched B indet
      (fetches (TaskSpec.boot_log argp sizeof_fifo_s)) (stores (TaskSpec.boot_log argp sizeof_fifo_s))
      m n F o1 o2 o3 s.
Proof.
  destruct (boot_running desc main ls sched heap message argp indet q HP) as (s0 & Hrun & _ & _ & HR).
  destruct (running_cycles (start_live desc main ls) sched heap message B indet (pr_layout _ _ _ _ _ _ _ _ HP)
    (boot_buffers_ok desc main ls sched heap message argp indet q HP) Hgood fuel _ _ 0 k _ _ _ _ _ _ s0 HR)
    as (s & m & n & F & o1 & o2 & o3 & Hk & HR' & _).
  - pose proof (rn_polled _ _ _ _ _ _ _ _ _ _ _ _ _ HR). cbn in *. lia.
  - lia.
  - by exists s0, s, m, n, F, o1, o2, o3.
Qed.

Lemma run_latency fuel k s0 s m n F o1 o2 o3 fs ss :
  cycles fuel indet k s0 = Ok (tt, s) ->
  running (start_live desc main ls) sched B indet fs ss m n F o1 o2 o3 s ->
  exists s' m' n' F' o1' o2' o3',
    cycles fuel indet (k + Z.to_nat (N + 2)) s0 = Ok (tt, s') /\
    running (start_live desc main ls) sched B indet fs ss m' n' F' o1' o2' o3' s' /\
    published_tasks (at_ (TaskManager.events s)) <= m'.
Proof.
  intros Hk HR. pose proof (la_entries _ (pr_layout _ _ _ _ _ _ _ _ HP)) as HN. cbn in HN.
  destruct (rn_busy _ _ _ _ _ _ _ _ _ _ _ _ _ HR) as (tb & ab & Hb & _).
  pose proof (so_counts _ _ _ _ (bu_sound _ _ _ _ _ _ Hb)) as Hc. cbn in Hc.
  pose proof (pi_range _ _ _ _ _ _ _ _ _ _ (rn_piped _ _ _ _ _ _ _ _ _ _ _ _ _ HR)) as Hr.
  destruct (running_answered (start_live desc main ls) sched heap message B indet
    (pr_layout _ _ _ _ _ _ _ _ HP) (boot_buffers_ok desc main ls sched heap message argp indet q HP) Hgood
    fuel _ _ (published_tasks (at_ (TaskManager.events s))) (Z.to_nat (N + 2)) _ _ _ _ _ _ s HR)
    as (s' & m' & n' & F' & p1 & p2 & p3 & Hrun & HR' & Hm); [done | cbn; lia | lia |].
  exists s', m', n', F', p1, p2, p3. split; [| done]. rewrite cycles_app.
  by erewrite M_bind_ok by exact Hk.
Qed.

(** What the host finds, between two cycles. *)
Lemma running_answers fs ss m n F o1 o2 o3 s :
  running (start_live desc main ls) sched B indet fs ss m n F o1 o2 o3 s ->
  let l := TaskManager.events s in
  let v := at_ l in
  0 <= lv_released v <= m /\ m <= n <= published_tasks v /\ n - m <= 3 /\
  published_tasks v - lv_released v <= N - 1 /\
  TaskLoop.sent (TaskLoop.run_of B l) =
    map (fun j => (ack_ea B (j mod N), reply_to (start_live desc main ls) sched B indet l j)) (seqZ 0 m) /\
  (forall j, lv_released v <= j < published_tasks v -> lv_main v (ack_at B j) <> ACK_CLEAR ->
     j < m /\ reply_to (start_live desc main ls) sched B indet l j = Some (lv_main v (ack_at B j + 4))) /\
  (forall j w, lv_released v <= j -> lv_tasks v !! Z.to_nat j = Some w ->
     forall i, 0 <= i < 32 -> lv_main v (task_at B (j - 1) + 4 * i) = w i).
Proof.
  intros [Hpi (tb & ab & Hb & Hld) Hfr _ HF Hres Hsent].
  pose proof (bu_sound _ _ _ _ _ _ Hb) as Hs. pose proof (so_counts _ _ _ _ Hs) as Hc.
  pose proof (la_entries _ (pr_layout _ _ _ _ _ _ _ _ HP)) as HN.
  pose proof (pi_range _ _ _ _ _ _ _ _ _ _ Hpi). pose proof (piped_depth _ _ _ _ _ _ _ _ _ _ Hpi).
  cbn [b_desc TaskSpec.boot_buffers] in HN, Hc, HF. cbv zeta.
  set (v := live_after _ _ _ _) in *. assert (n <= published_tasks v) by lia.
  assert (sound B indet m v) as Hs' by exact Hs.
  split_and!; try lia; [destruct o1, o2, o3; cbn in *; lia | exact Hsent | | exact (so_tasks _ _ _ _ Hs)].
  intros j Hj Hv. assert (ack_at B (j mod max_entries desc) = ack_at B j) as Hmod.
  { unfold ack_at. cbn. by rewrite Z.mod_mod by lia. }
  destruct (so_acks _ _ _ _ Hs' (j mod max_entries desc)) as (j' & Hj' & Heq & w & r & Hw & Hr & Ha).
  { apply Z.mod_pos_bound. cbn. lia. } { by rewrite Hmod. }
  rewrite Hmod in Ha. fold v in Hj', Hw, Ha. assert (0 <= Z.b2z (lv_cleared v)).
  { by destruct (lv_cleared _). }
  assert (j = j') as <-.
  { apply (mod_near (max_entries desc)); [lia | exact Heq |]. lia. }
  split; [lia |]. unfold reply_to. change (live_after _ _ _ _) with v. by rewrite Hw, Hr, Ha.
Qed.
End properties.

(** * Properties *)

(** C5: tasks are answered in order and correctly when host, DMA engine and SPE run
    at the same time, if every task is an addition: whatever the schedule, when
    task number [j] (number 0 is what the last slot holds at first, the others
    are those published, in order) is an addition that does not overflow from the
    value [indet j] that the unassigned [res] holds in the call of [stage3] that
    executes it, the task program faults in no cycle.  After any number of cycles
    it has fetched [n] slots and acknowledged [m] of them, at most three behind
    and never beyond what was published; it has sent to slot [j mod N], in the
    order of [j], the result of task number [j], the one published before the
    task in that slot, computed from [indet j]; every acknowledgement the host
    finds at a pending slot is one of those, whole; and the words of a task that
    is pending, and of the one before, are those that were published. *)
Theorem live_tasks_answered (desc : fifo_s) (main ls : memory) (sched : list event -> list step)
    (heap message : list event -> Z) (argp : Z) (indet : nat -> Z) (q : queue) (fuel k : nat) :
  let M := live_machine (start_live desc main ls) sched desc heap message in
  let B := @TaskSpec.boot_buffers M argp sizeof_fifo_s desc in
  let at_ l := live_after (start_live desc main ls) sched desc l in
  let reply l := reply_to (start_live desc main ls) sched B indet l in
  let N := max_entries desc in
  prepared desc main ls sched heap message argp q ->
  (forall l j w, lv_tasks (at_ l) !! j = Some w -> TaskLoop.good (indet j) w) ->
  exists s0 s m n, @TaskManager.main_start M argp sizeof_fifo_s TaskSpec.boot = Ok (tt, s0) /\
    @cycles M fuel indet k s0 = Ok (tt, s) /\
    let l := TaskManager.events s in
    let v := at_ l in
    0 <= lv_released v <= m /\ m <= n <= published_tasks v /\ n - m <= 3 /\
    published_tasks v - lv_released v <= N - 1 /\
    TaskLoop.sent (TaskLoop.run_of B l) =
      map (fun j => (ack_ea B (j mod N), reply l j)) (seqZ 0 m) /\
    (forall j, lv_released v <= j < published_tasks v -> lv_main v (ack_at B j) <> ACK_CLEAR ->
       j < m /\ reply l j = Some (lv_main v (ack_at B j + 4))) /\
    (forall j w, lv_released v <= j -> lv_tasks v !! Z.to_nat j = Some w ->
       forall i, 0 <= i < 32 -> lv_main v (task_at B (j - 1) + 4 * i) = w i).
Proof.
  intros M B at_ reply N HP Hgood. subst at_ reply N. cbv beta zeta in *.
  destruct (run_cycles desc main ls sched heap message argp indet q HP Hgood fuel k)
    as (s0 & s & m & n & F & o1 & o2 & o3 & Hstart & Hk & HR).
  exists s0, s, m, n. split; [exact Hstart |]. split; [exact Hk |].
  exact (running_answers desc main ls sched heap message argp indet q HP _ _ m n F o1 o2 o3 s HR).
Qed.

(** C6: no addition waits for long when there are only additions: under a
    schedule whose every task (and what the last slot holds at first) is an
    addition that does not overflow from what [res] holds when it is executed,
    whatever is published when a cycle begins is acknowledged [N + 2] cycles
    later, with the result of the task before it, however many more such
    additions are published meanwhile.  (One other task stops the program, and
    everything behind it: [LiveFault].) *)
Theorem live_tasks_latency (desc : fifo_s) (main ls : memory) (sched : list event -> list step)
    (heap message : list event -> Z) (argp : Z) (indet : nat -> Z) (q : queue) (fuel k : nat) :
  let M := live_machine (start_live desc main ls) sched desc heap message in
  let B := @TaskSpec.boot_buffers M argp sizeof_fifo_s desc in
  let at_ l := live_after (start_live desc main ls) sched desc l in
  let N := max_entries desc in
  prepared desc main ls sched heap message argp q ->
  (forall l j w, lv_tasks (at_ l) !! j = Some w -> TaskLoop.good (indet j) w) ->
  exists s0 s s' m, @TaskManager.main_start M argp sizeof_fifo_s TaskSpec.boot = Ok (tt, s0) /\
    @cycles M fuel indet k s0 = Ok (tt, s) /\
    @cycles M fuel indet (k + Z.to_nat (N + 2)) s0 = Ok (tt, s') /\
    published_tasks (at_ (TaskManager.events s)) <= m /\
    TaskLoop.sent (TaskLoop.run_of B (TaskManager.events s')) =
      map (fun j => (ack_ea B (j mod N),
        reply_to (start_live desc main ls) sched B indet (TaskManager.events s') j)) (seqZ 0 m).
Proof.
  intros M B at_ N HP Hgood.
  destruct (run_cycles desc main ls sched heap message argp indet q HP Hgood fuel k)
    as (s0 & s & m & n & F & o1 & o2 & o3 & Hstart & Hk & HR).
  destruct (run_latency desc main ls sched heap message argp indet q HP Hgood fuel k s0 s _ _ _ _ _ _ _ _ Hk HR)
    as (s' & m' & n' & F' & p1 & p2 & p3 & Hk' & HR' & Hm).
  exists s0, s, s', m'. split_and!; try done. exact (rn_sent _ _ _ _ _ _ _ _ _ _ _ _ _ HR').
Qed.

(** C11: the program itself: under any schedule whose every task (and what the
    last slot holds at first) is an addition that does not overflow from what
    [res] holds in the call of [stage3] that executes it, [main] neither faults
    nor returns, whatever the fuel of its loops. *)
Theorem live_main_runs (desc : fifo_s) (main ls : memory) (sched : list event -> list step)
    (heap message : list event -> Z) (argp : Z) (indet : nat -> Z) (q : queue) (fuel : nat) :
  prepared desc main ls sched heap message argp q ->
  (forall l j w, lv_tasks (live_after (start_live desc main ls) sched desc l) !! j = Some w ->
     TaskLoop.good (indet j) w) ->
  @TaskManager.main (live_machine (start_live desc main ls) sched desc heap message)
    fuel indet argp sizeof_fifo_s TaskSpec.boot = OutOfFuel.
Proof.
  intros HP Hgood.
  destruct (boot_running desc main ls sched heap message argp indet q HP)
    as (s0 & Hrun & Ht & Hst & HR).
  unfold TaskManager.main. erewrite M_bind_ok by exact Hrun.
  eapply (going_main (start_live desc main ls) sched heap message _ indet (pr_layout _ _ _ _ _ _ _ _ HP)
    (boot_buffers_ok desc main ls sched heap message argp indet q HP) Hgood).
  split_and!; [exact Ht | exact Hst |]. by do 6 eexists.
Qed.

(** * Witnesses *)

(** Four slots, the last of which happens to hold an addition; the host submits
    two tasks while the SPE polls, and later transfers complete and the first
    slot is released, and somebody writes elsewhere. *)
Definition waiting : queue :=
  Queue (Ring_context 0 0 4) (repeat 0 96 ++ [ADD; 0; 3; 5; 7] ++ repeat 0 27)
    (repeat ACK_CLEAR 16) (Atomic_s 0 0).
Definition sample_desc : fifo_s := TaskSpec.board_desc 4.
Definition sample_main : memory := memory_of sample_desc waiting example_main.
Definition sample_sched (l : list event) : list step :=
  if (length l =? 12)%nat then
    submission [ADD; 1; 2; 10; 20] ++ submission [ADD; 2; 1; 30; 40]
  else if (length l =? 40)%nat then [Complete 0; Clear; Elsewhere (poke 0 77 sample_main); Release]
  else [].
Definition sample_heap (l : list event) : Z := 4096 * (1 + Z.of_nat (length l)).

Lemma sample_layout : layout (@TaskSpec.boot_buffers
  (live_machine (start_live sample_desc sample_main (fun _ => 0)) sample_sched sample_desc sample_heap
    (fun _ => 0)) 0x8000 sizeof_fifo_s sample_desc).
Proof. destruct (example_layout []). by split. Qed.

Lemma sample_prepared :
  prepared sample_desc sample_main (fun _ => 0) sample_sched sample_heap (fun _ => 0) 0x8000 waiting.
Proof.
  pose proof sample_layout as HL. split.
  - exact HL.
  - vm_compute. congruence.
  - split; try reflexivity.
    + split; try reflexivity. split_and!; cbn; lia.
    + intros i Hi (w & Hw & Hne). apply Hne. cbn in Hi. four_cases; vm_compute in Hw; by injection Hw as <-.
  - apply (memory_of_holds _ waiting example_main HL); [| reflexivity].
    split; try reflexivity. split_and!; cbn; lia.
  - cbn [laid_out fifo_s_members fifo_s_values].
    split_and!; try exact I; intros [| [| j]] w Hw; try discriminate Hw;
      injection Hw as <-; vm_compute; reflexivity.
  - cbn. lia.
  - intros l. unfold sample_sched. destruct (_ =? _)%nat; [| destruct (_ =? _)%nat];
      unfold submission; cbn [app writes]; repeat (apply Forall_cons; split; [try exact I |]);
      try apply Forall_nil_2.
    intros k Hk. apply poke_ne. lia.
  - unfold apart. cbn. lia.
  - intros i Hi. vm_compute. congruence.
Qed.

Lemma sample_good l j w :
  lv_tasks (live_after (start_live sample_desc sample_main (fun _ => 0)) sample_sched sample_desc l)
    !! j = Some w -> TaskLoop.good (TaskSpec.leftover j) w.
Proof.
  revert j w. apply (polite_published sample_desc TaskSpec.leftover).
  - intros l'. unfold sample_sched. destruct (_ =? _)%nat; [| destruct (_ =? _)%nat].
    + exists [submission [ADD; 1; 2; 10; 20]; submission [ADD; 2; 1; 30; 40]].
      split; [reflexivity |].
      apply Forall_cons; split; [| apply Forall_singleton]; right; eexists; (split; [reflexivity |]);
        (split; [cbn; lia |]); (split; [reflexivity |]); intros k;
        pose proof (TaskSpec.leftover_bound k);
        (apply small_addition; [by vm_compute | by vm_compute | by vm_compute | lia]).
    + exists [[Complete 0; Clear; Elsewhere (poke 0 77 sample_main); Release]]. split; [reflexivity |].
      constructor; [left; by repeat constructor | done].
    + by exists [].
  - split; [reflexivity |]. intros [| j] w Hw; [| discriminate Hw]. injection Hw as <-.
    split; [vm_compute; reflexivity |]. eexists. vm_compute. reflexivity.
Qed.

(** Ten cycles of it: the two acknowledgements carry the results of the addition
    that happened to be in the last slot (39), and of the first task: 61, and 13
    more that [res] held in that call. *)
Example sample_run :
  let M := live_machine (start_live sample_desc sample_main (fun _ => 0)) sample_sched
    sample_desc sample_heap (fun _ => 0) in
  match (TaskManager.main_start 0x8000 sizeof_fifo_s;; cycles 5 TaskSpec.leftover 10) TaskSpec.boot with
  | Ok (_, s) => TaskLoop.sent (TaskLoop.run_of (TaskSpec.boot_buffers 0x8000 sizeof_fifo_s sample_desc)
      (TaskManager.events s)) = [(0x20000, Some 39); (0x20010, Some 74)]
  | _ => False
  end.
Proof. vm_compute. reflexivity. Qed.

Lemma live_tasks_answered_witness :
  let M := live_machine (start_live sample_desc sample_main (fun _ => 0)) sample_sched
    sample_desc sample_heap (fun _ => 0) in
  exists s0 s m n, @TaskManager.main_start M 0x8000 sizeof_fifo_s TaskSpec.boot = Ok (tt, s0) /\
    @cycles M 5 TaskSpec.leftover 10 s0 = Ok (tt, s) /\ m <= n /\ n - m <= 3 /\
    Z.of_nat (length (TaskLoop.sent (TaskLoop.run_of
      (@TaskSpec.boot_buffers M 0x8000 sizeof_fifo_s sample_desc) (TaskManager.events s)))) = m.
Proof.
  intros M.
  destruct (live_tasks_answered sample_desc sample_main (fun _ => 0) sample_sched sample_heap
    (fun _ => 0) 0x8000 TaskSpec.leftover waiting 5 10 sample_prepared sample_good)
    as (s0 & s & m & n & Hstart & Hk & Hr & [Hmn _] & Hd & _ & Hs & _).
  exists s0, s, m, n. split; [exact Hstart |]. split; [exact Hk |]. split; [exact Hmn |].
  split; [exact Hd |]. apply (f_equal (fun x => Z.of_nat (length x))) in Hs.
  etransitivity; [exact Hs |]. rewrite length_map, length_seqZ. apply Z2Nat.id.
  destruct Hr. eapply Z.le_trans; eassumption.
Defined.

Lemma live_tasks_latency_witness :
  let M := live_machine (start_live sample_desc sample_main (fun _ => 0)) sample_sched
    sample_desc sample_heap (fun _ => 0) in
  exists s0 s s' m, @TaskManager.main_start M 0x8000 sizeof_fifo_s TaskSpec.boot = Ok (tt, s0) /\
    @cycles M 5 TaskSpec.leftover 3 s0 = Ok (tt, s) /\
    @cycles M 5 TaskSpec.leftover 9 s0 = Ok (tt, s') /\
    published_tasks (live_after (start_live sample_desc sample_main (fun _ => 0)) sample_sched
      sample_desc (TaskManager.events s)) <= m.
Proof.
  intros M.
  destruct (live_tasks_latency sample_desc sample_main (fun _ => 0) sample_sched sample_heap
    (fun _ => 0) 0x8000 TaskSpec.leftover waiting 5 3 sample_prepared sample_good)
    as (s0 & s & s' & m & Hstart & Hk & Hk' & Hm & _).
  exists s0, s, s', m. split; [exact Hstart |]. split; [exact Hk |]. split; [exact Hk' | exact Hm].
Defined.

Lemma live_main_runs_witness :
  @TaskManager.main (live_machine (start_live sample_desc sample_main (fun _ => 0)) sample_sched
    sample_desc sample_heap (fun _ => 0)) 100 TaskSpec.leftover 0x8000 sizeof_fifo_s TaskSpec.boot = OutOfFuel.
Proof.
  apply (live_main_runs sample_desc sample_main (fun _ => 0) sample_sched sample_heap
    (fun _ => 0) 0x8000 TaskSpec.leftover waiting 100 sample_prepared sample_good).
Defined.
