(* ===== verification/LiveFrame.v ===== *)
(** What a queue and its SPE leave alone.  Main memory outside of the queue is
    as the others left it, whatever the host does with the queue and the SPE
    with its tasks; and Live.v lets the others do anything there.  So queues that
    do not overlap can be taken one at a time. *)
From stdpp Require Import base list.
From Stdlib Require Import ZArith Lia.
From S2P Require Import Prelude.
From S2P Require Import Messages.
From S2P Require Import Ring.
From S2P Require Import HostFifo.
From S2P Require Import Dma.
From S2P Require TaskManager.
From S2P Require Import TaskPipeline.
From S2P Require TaskLoop.
From S2P Require TaskSpec.
From S2P Require Import Machine.
From S2P Require Import Live.
From S2P Require Import LiveInvariant.
From S2P Require Import LiveRun.
From S2P Require Import LiveSpec.

(** The word at [a] after the steps of others among [ss], if it was [v]. *)
Definition others (a : Z) (ss : list step) (v : Z) : Z :=
  fold_left (fun v st => match st with Elsewhere f => f a | _ => v end) ss v.
(** And after the log [l], if only the others had written. *)
Definition theirs (a : Z) (sched : list event -> list step) (v : Z) (l : list event) : Z :=
  (fold_left (fun st e => (st.1 ++ [e], others a (sched (st.1 ++ [e])) st.2)) l
     ([], others a (sched []) v)).2.

Lemma theirs_snoc a sched v l e :
  theirs a sched v (l ++ [e]) = others a (sched (l ++ [e])) (theirs a sched v l).
Proof.
  unfold theirs. set (f := fun st e => _). set (i := ([], _)).
  assert (forall l, (fold_left f l i).1 = l) as Hfst.
  { clear. intros l. induction l as [| e l IH] using rev_ind; [done |].
    rewrite fold_left_app. cbn. by rewrite IH. }
  rewrite fold_left_app. cbn. by rewrite Hfst.
Qed.

Section frame.
Context (B : buffers) (HL : layout B).
Local Abbreviation desc := (b_desc B).
Local Abbreviation N := (max_entries desc).
Implicit Types (lv : live).

(** An acknowledgement of this queue is all that a transfer may write. *)
Definition own (ea size : Z) : Prop := exists i, 0 <= i < N /\ ea = ack_fifo desc + 16 * i /\ size = 16.
Definition harmless (e : event) : Prop :=
  match e with
  | mfc Out _ _ ea size _ => own ea size
  | mfc_putlluc _ _ | mfc_putqlluc _ _ _ => False
  | _ => True
  end.

Record orderly lv : Prop := {
  od_ring : ring_wf (lv_ring lv);
  od_size : size (lv_ring lv) = N;
  od_puts t : t ∈ lv_moving lv -> t_dir t = Out -> own (t_ea t) (t_size t) }.

Lemma pipe_event_harmless e : pipe_event B e -> harmless e.
Proof.
  destruct e as [[] [] ? ? ? ? | | | | | | | | | | | | | | | | | | | |]; try done.
  intros (_ & _ & -> & i & Hi & ->). exists i. by rewrite (ack_ea_eq B HL).
Qed.

Lemma orderly_complete k lv : orderly lv -> orderly (complete k lv).
Proof.
  intros [T1 T2 T3]. pose proof (complete_moving k lv) as Hmv. unfold complete, take_effect in *.
  destruct (lv_moving lv !! k) as [t |] eqn:Hk; [| done].
  destruct (t_dir t); split; cbn in *; try done; intros t' Ht'; by apply T3, Hmv.
Qed.

Lemma orderly_step st lv : orderly lv -> orderly (host_step desc st lv).
Proof.
  intros Ho. assert ((exists k, st = Complete k) \/ (forall k, st <> Complete k)) as [[k ->] | Hst].
  { destruct st; (by right) || (left; by eexists). }
  { by apply orderly_complete. }
  destruct Ho as [T1 T2 T3].
  split; destruct st; try by destruct (Hst k).
  all: at_step; repeat case_match; try done; cbn.
  all: first [by apply ringIncFront_wf | by apply ringIncBack_wf
    | by rewrite ?ringIncFront_size, ?ringIncBack_size].
Qed.

Lemma orderly_play ss lv : orderly lv -> orderly (play desc ss lv).
Proof. apply play_ind. intros st lv'. apply orderly_step. Qed.

Lemma orderly_issue e lv : harmless e -> orderly lv -> orderly (issue e lv).
Proof.
  intros He Ho.
  assert (forall p, orderly (settle p lv)) as Hset.
  { intros p. apply (settle_spec p orderly lv Ho). intros lv' k t Ho' _ _. by apply orderly_complete. }
  pose proof Ho as [T1 T2 T3].
  destruct e as [dir o ls ea sz tag | | | | | | | | | | | | | | | | | | | |]; try done; cbn [issue];
    try apply Hset; split; try done.
  intros t [Hin | ->%list_elem_of_singleton]%elem_of_app; [by apply T3 |].
  cbn. intros ->. exact He.
Qed.

Section word.
Context (a : Z) (Ha : of_queue desc a = false).

Lemma own_away ea size : own ea size -> ~ within a ea size.
Proof.
  intros (i & Hi & -> & ->) Hw. apply away_spec in Ha as (_ & Hack & _).
  apply Hack. unfold within in *. lia.
Qed.

Lemma complete_leaves k lv : orderly lv -> lv_main (complete k lv) a = lv_main lv a.
Proof.
  intros [T1 T2 T3]. unfold complete, take_effect.
  destruct (lv_moving lv !! k) as [t |] eqn:Hk; [| done].
  destruct (t_dir t) eqn:Hd; cbn; [done |].
  rewrite copy_outside; [done |]. apply own_away, T3; [| done]. by eapply list_elem_of_lookup_2.
Qed.

Lemma step_leaves st lv :
  orderly lv -> lv_main (host_step desc st lv) a = others a [st] (lv_main lv a).
Proof.
  intros Ho. assert ((exists k, st = Complete k) \/ (forall k, st <> Complete k)) as [[k ->] | Hst].
  { destruct st; (by right) || (left; by eexists). }
  { by apply complete_leaves. }
  destruct Ho as [T1 T2 T3].
  rewrite (host_step_main B st lv a Hst T1 T2 (proj2 (away_spec B a) Ha)). by destruct st.
Qed.

Lemma play_leaves ss : forall lv,
  orderly lv -> lv_main (play desc ss lv) a = others a ss (lv_main lv a).
Proof.
  induction ss as [| st ss IH]; intros lv Ho; [done |].
  change (play desc (st :: ss) lv) with (play desc ss (host_step desc st lv)).
  rewrite IH by (by apply orderly_step). by rewrite step_leaves.
Qed.

Lemma issue_leaves e lv : harmless e -> orderly lv -> lv_main (issue e lv) a = lv_main lv a.
Proof.
  intros He Ho.
  assert (forall p, lv_main (settle p lv) a = lv_main lv a) as Hset.
  { intros p. apply (settle_spec p (fun x => orderly x /\ lv_main x a = lv_main lv a) lv); [done |].
    intros lv' k t [Ho' Hm] _ _. split; [by apply orderly_complete | by rewrite complete_leaves]. }
  destruct e; try done; cbn [issue]; apply Hset.
Qed.

Lemma log_leaves init sched l :
  Forall harmless l -> orderly init ->
  orderly (live_after init sched desc l) /\
  lv_main (live_after init sched desc l) a = theirs a sched (lv_main init a) l.
Proof.
  intros Hl Hi. induction l as [| e l IH] using rev_ind.
  - split; [by apply (orderly_play (sched [])) | by apply (play_leaves (sched []))].
  - apply Forall_app in Hl as [Hl [He _]%Forall_cons]. destruct (IH Hl) as [Ho Hm].
    rewrite theirs_snoc, live_snoc. split; [by apply orderly_play, orderly_issue |].
    by rewrite play_leaves, issue_leaves, Hm by (done || by apply orderly_issue).
Qed.
End word.
End frame.

Lemma start_orderly (B : buffers) main ls : layout B -> orderly B (start_live (b_desc B) main ls).
Proof.
  intros HL. pose proof (la_entries _ HL) as HN.
  split; cbn; [repeat split; cbn; lia | done |]. intros t Ht. by apply elem_of_nil in Ht.
Qed.

(** The program issues nothing else. *)
Lemma running_harmless (desc : fifo_s) (main ls : memory) (sched : list event -> list step)
    (heap message : list event -> Z) (argp : Z) (indet : nat -> Z) (q : HostQueue.queue) fs ss m n F o1 o2 o3 s :
  let B := TaskSpec.boot_buffers (H := live_machine (start_live desc main ls) sched desc heap message)
    argp sizeof_fifo_s desc in
  prepared desc main ls sched heap message argp q ->
  running (start_live desc main ls) sched B indet fs ss m n F o1 o2 o3 s ->
  Forall (harmless B) (TaskManager.events s).
Proof.
  intros B HP HR. pose proof (pr_layout _ _ _ _ _ _ _ _ HP) as HL.
  destruct (fo_grown _ _ (pi_flights _ _ _ _ _ _ _ _ _ _ (rn_piped _ _ _ _ _ _ _ _ _ _ _ _ _ HR)))
    as (es & -> & Hes).
  apply Forall_app. split; [by repeat constructor |].
  eapply Forall_impl; [exact Hes |]. by apply pipe_event_harmless.
Qed.

(** * Property *)

(** C12: the queue and its SPE mind their own business: under any schedule of tasks
    the SPE can execute, at every moment of a run of the task program, from its
    start on and for any number of cycles, main memory outside of the slots, the
    acknowledgements and the line of the queue holds what the others last wrote
    there, or what it held at first. *)
Theorem live_leaves_alone (desc : fifo_s) (main ls : memory) (sched : list event -> list step)
    (heap message : list event -> Z) (argp : Z) (indet : nat -> Z) (q : HostQueue.queue) (fuel k : nat) :
  let M := live_machine (start_live desc main ls) sched desc heap message in
  prepared desc main ls sched heap message argp q ->
  (forall l j w, lv_tasks (live_after (start_live desc main ls) sched desc l) !! j = Some w ->
     TaskLoop.good (indet j) w) ->
  exists s0 s, @TaskManager.main_start M argp sizeof_fifo_s TaskSpec.boot = Ok (tt, s0) /\
    @cycles M fuel indet k s0 = Ok (tt, s) /\
    forall l a, l `prefix_of` TaskManager.events s -> of_queue desc a = false ->
      lv_main (live_after (start_live desc main ls) sched desc l) a = theirs a sched (main a) l.
Proof.
  intros M HP Hgood.
  destruct (run_cycles desc main ls sched heap message argp indet q HP Hgood fuel k)
    as (s0 & s & m & n & F & o1 & o2 & o3 & Hstart & Hk & HR).
  exists s0, s. split; [exact Hstart |]. split; [exact Hk |].
  pose proof (pr_layout _ _ _ _ _ _ _ _ HP) as HL.
  set (B := @TaskSpec.boot_buffers M argp sizeof_fifo_s desc).
  pose proof (running_harmless desc main ls sched heap message argp indet q _ _ _ _ _ _ _ _ s HP HR) as Hall.
  intros l a [l' Hl] Ha. rewrite Hl in Hall. apply Forall_app in Hall as [Hall _].
  apply (log_leaves B a Ha (start_live desc main ls)); [done |]. by apply (start_orderly B).
Qed.

(** * Witness *)

(** The run of LiveSpec.v: the word at 0 is what somebody wrote there. *)
Lemma live_leaves_alone_witness :
  let M := live_machine (start_live sample_desc sample_main (fun _ => 0)) sample_sched
    sample_desc sample_heap (fun _ => 0) in
  exists s0 s, @TaskManager.main_start M 0x8000 sizeof_fifo_s TaskSpec.boot = Ok (tt, s0) /\
    @cycles M 5 TaskSpec.leftover 10 s0 = Ok (tt, s) /\
    lv_main (live_after (start_live sample_desc sample_main (fun _ => 0)) sample_sched sample_desc
      (TaskManager.events s)) 0 = theirs 0 sample_sched (sample_main 0) (TaskManager.events s).
Proof.
  intros M.
  destruct (live_leaves_alone sample_desc sample_main (fun _ => 0) sample_sched sample_heap
    (fun _ => 0) 0x8000 TaskSpec.leftover waiting 5 10 sample_prepared sample_good) as (s0 & s & Hstart & Hk & Hall).
  exists s0, s. split; [exact Hstart |]. split; [exact Hk |]. apply Hall.
  - exists []. symmetry. apply app_nil_r.
  - vm_compute. reflexivity.
Defined.
