(* ===== verification/LiveFault.v ===== *)
(** What becomes of the task program beside a host that submits something other
    than an addition: the cycles up to the fetch of that task, and the fault in
    the next one. *)
From stdpp Require Import base list.
From Stdlib Require Import ZArith Lia.
From S2P Require Import Prelude.
From S2P Require Import Messages.
From S2P Require Import Ring.
From S2P Require Import HostFifo.
From S2P Require Import HostQueue.
From S2P Require Import HostCalls.
From S2P Require Import Dma.
From S2P Require TaskManager.
From S2P Require Import TaskPipeline.
From S2P Require TaskLoop.
From S2P Require TaskSpec.
From S2P Require Import Machine.
From S2P Require Import System.
From S2P Require Import Live.
From S2P Require Import LiveInvariant.
From S2P Require Import LiveRun.
From S2P Require Import LiveHost.
From S2P Require Import LiveSpec.

(** The faults of stage2 on a task that is not an addition. *)
Definition stage2_fault (f : fault) : Prop :=
  f = NullDeref \/ f = SignedOverflow \/ f = OutOfBounds.

Section fault.
Context (desc : fifo_s) (main ls : memory) (sched : list event -> list step)
  (heap message : list event -> Z) (argp : Z) (indet : nat -> Z) (q : queue).
#[local] Instance entire : Mfc := live_machine (start_live desc main ls) sched desc heap message.
Local Abbreviation at_ l := (live_after (start_live desc main ls) sched desc l).
Local Abbreviation B := (TaskSpec.boot_buffers argp sizeof_fifo_s desc).
Local Abbreviation N := (max_entries desc).
Local Abbreviation run := (running (start_live desc main ls) sched B indet).
Context (HP : prepared desc main ls sched heap message argp q) (J : Z) (HJ : 0 <= J).
Context (Hgood : good_until (start_live desc main ls) sched B indet J).
Context (Hbad : forall l w, lv_tasks (at_ l) !! Z.to_nat J = Some w -> s32 (w 0) <> s32 ADD).

(** Before the task: not fetched yet, or fetched in the cycle before. *)
Definition towards (n : Z) (o1 : option Z) : Prop := n <= J \/ n = J + 1 /\ o1 <> None.

Lemma towards_cycle fuel fs ss m n F o1 o2 o3 s :
  run fs ss m n F o1 o2 o3 s -> towards n o1 ->
  (exists f, @TaskManager.stages entire fuel indet s = Fault f /\ stage2_fault f /\ n = J + 1) \/
  exists s' m' n' F' o1' o2' o3', @TaskManager.stages entire fuel indet s = Ok (tt, s') /\
    run fs ss m' n' F' o1' o2' o3' s' /\ towards n' o1' /\ n <= n' /\
    (J < published_tasks (at_ (TaskManager.events s)) -> n < n') /\
    published_tasks (at_ (TaskManager.events s)) <= published_tasks (at_ (TaskManager.events s')).
Proof.
  intros HR Ht. pose proof (pr_layout _ _ _ _ _ _ _ _ HP) as HL.
  pose proof (boot_buffers_ok desc main ls sched heap message argp indet q HP) as HB.
  destruct (decide (n = J + 1)) as [Hn | Hn].
  - left. destruct Ht as [| [_ Ho]]; [lia |]. destruct o1 as [e1 |]; [| done].
    destruct (running_bad (start_live desc main ls) sched heap message B indet HL HB
      fuel fs ss m n F e1 o2 o3 s HR) as (f & Hf & Hor).
    { rewrite Hn, Z.add_simpl_r. exact Hbad. }
    by exists f.
  - right. assert (n <= J) as Hle by (destruct Ht; lia).
    destruct (running_cycle (start_live desc main ls) sched heap message B indet HL HB
      fuel fs ss m n F o1 o2 o3 s) as (s' & o0 & Hrun & HR' & Ho0 & _ & _ & es & Hes); [| done |].
    { intros l j w Hj. apply Hgood. lia. }
    do 7 eexists. split; [exact Hrun |]. split; [exact HR' |]. split_and!.
    + destruct o0 as [en |]; cbn [bit]; [| left; lia].
      destruct (decide (n = J)); [right; split; [lia | done] | left; lia].
    + destruct o0; cbn; lia.
    + intros HT. destruct o0; cbn; [lia |]. specialize (Ho0 eq_refl). cbn in Ho0. lia.
    + rewrite Hes. apply (published_grow (start_live desc main ls) sched B).
Qed.

(** Any number of cycles: still before the task, or a fault. *)
Lemma towards_cycles fuel fs ss k : forall m n F o1 o2 o3 s,
  run fs ss m n F o1 o2 o3 s -> towards n o1 ->
  (exists f, @cycles entire fuel indet k s = Fault f /\ stage2_fault f) \/
  exists s' m' n' F' o1' o2' o3', @cycles entire fuel indet k s = Ok (tt, s') /\
    run fs ss m' n' F' o1' o2' o3' s' /\ towards n' o1' /\
    (J < published_tasks (at_ (TaskManager.events s)) -> n + Z.of_nat k <= n').
Proof.
  induction k as [| k IH]; intros m n F o1 o2 o3 s HR Ht; cbn [cycles].
  { right. exists s, m, n, F, o1, o2, o3. split_and!; try done. lia. }
  destruct (towards_cycle fuel _ _ _ _ _ _ _ _ s HR Ht)
    as [(f & Hf & Hor & _) | (s1 & m1 & n1 & F1 & p1 & p2 & p3 & Hrun & HR1 & Ht1 & Hle & Hlt & Hg)].
  { left. exists f. split; [by apply M_bind_fault | done]. }
  erewrite M_bind_ok by exact Hrun.
  destruct (IH _ _ _ _ _ _ s1 HR1 Ht1)
    as [| (s' & m' & n' & F' & q1 & q2 & q3 & Hrun' & HR' & Ht' & Hn')]; [by left | right].
  exists s', m', n', F', q1, q2, q3. split_and!; try done. lia.
Qed.

Lemma cycles_fault fuel fs ss k m n F o1 o2 o3 s :
  run fs ss m n F o1 o2 o3 s -> towards n o1 -> J < published_tasks (at_ (TaskManager.events s)) ->
  J + 1 - n < Z.of_nat k ->
  exists f, @cycles entire fuel indet k s = Fault f /\ stage2_fault f.
Proof.
  intros HR Ht HT Hk.
  destruct (towards_cycles fuel fs ss k _ _ _ _ _ _ s HR Ht)
    as [| (s' & m' & n' & F' & q1 & q2 & q3 & _ & _ & Ht' & Hn')]; [done |].
  specialize (Hn' HT). destruct Ht' as [| [? _]]; lia.
Qed.
End fault.

(** * Property *)

(** C13: one task that is not an addition stops the SPE: when it is published and
    all tasks before it are additions that do not overflow, the task program
    runs until it has fetched that task, at most [N + 1] cycles, and faults in
    stage2; it never gets further, and no cycle runs for ever.  Number [0] is
    what the last slot held when the queue was allocated: then the first
    submission has this effect. *)
Theorem live_bad_task_faults (desc : fifo_s) (main ls : memory) (sched : list event -> list step)
    (heap message : list event -> Z) (argp J : Z) (indet : nat -> Z) (q : queue) (fuel k : nat) :
  let M := live_machine (start_live desc main ls) sched desc heap message in
  let B := @TaskSpec.boot_buffers M argp sizeof_fifo_s desc in
  let at_ l := live_after (start_live desc main ls) sched desc l in
  prepared desc main ls sched heap message argp q -> 0 <= J ->
  (forall l j w, 0 <= j < J -> lv_tasks (at_ l) !! Z.to_nat j = Some w ->
     TaskLoop.good (indet (Z.to_nat j)) w) ->
  (forall l w, lv_tasks (at_ l) !! Z.to_nat J = Some w -> s32 (w 0) <> s32 ADD) ->
  exists s0, @TaskManager.main_start M argp sizeof_fifo_s TaskSpec.boot = Ok (tt, s0) /\
    match @cycles M fuel indet k s0 with
    | Ok (_, s) => J < published_tasks (at_ (TaskManager.events s)) ->
        exists f, @cycles M fuel indet (k + Z.to_nat (max_entries desc + 1)) s0 = Fault f /\
          stage2_fault f
    | Fault f => stage2_fault f
    | OutOfFuel => False
    end.
Proof.
  intros M B at_ HP HJ Hgood Hbad.
  destruct (boot_running desc main ls sched heap message argp indet q HP) as (s0 & Hstart & _ & _ & HR).
  exists s0. split; [exact Hstart |].
  destruct (towards_cycles desc main ls sched heap message argp indet q HP J Hgood Hbad
    fuel _ _ k _ _ _ _ _ _ s0 HR) as
    [(f & Hf & Hor) | (s & m & n & F & o1 & o2 & o3 & Hk & HR' & Ht & _)].
  { left. exact HJ. }
  { change (@cycles M) with (@cycles (entire desc main ls sched heap message)). by rewrite Hf. }
  change (@cycles M) with (@cycles (entire desc main ls sched heap message)). rewrite Hk. intros HT.
  setoid_rewrite cycles_app. setoid_rewrite (M_bind_ok _ _ _ _ _ Hk).
  apply (cycles_fault desc main ls sched heap message argp indet q HP J Hgood Hbad
    fuel _ _ _ m n F o1 o2 o3 s HR' Ht HT).
  pose proof (la_entries _ (pr_layout _ _ _ _ _ _ _ _ HP)) as HN. cbn in HN.
  destruct (rn_busy _ _ _ _ _ _ _ _ _ _ _ _ _ HR') as (tb & ab & Hb & _).
  pose proof (so_counts _ _ _ _ (bu_sound _ _ _ _ _ _ Hb)) as Hc. cbn in Hc.
  pose proof (pi_range _ _ _ _ _ _ _ _ _ _ (rn_piped _ _ _ _ _ _ _ _ _ _ _ _ _ HR')) as Hr.
  subst at_. cbv beta in HT. lia.
Qed.

(** * Witness *)

(** Four slots of zeroes, as fresh memory often is, so that the last holds no
    command of messages.h; the host submits an addition. *)
Definition zeroes : queue :=
  Queue (Ring_context 0 0 4) (repeat 0 128) (repeat ACK_CLEAR 16) (Atomic_s 0 0).
Definition zero_main : memory := memory_of sample_desc zeroes example_main.
Definition zero_sched (l : list event) : list step :=
  if (length l =? 12)%nat then submission [ADD; 1; 2; 10; 20] else [].
Local Abbreviation zero_machine :=
  (live_machine (start_live sample_desc zero_main (fun _ => 0)) zero_sched sample_desc sample_heap
    (fun _ => 0)).

Lemma zero_prepared :
  prepared sample_desc zero_main (fun _ => 0) zero_sched sample_heap (fun _ => 0) 0x8000 zeroes.
Proof.
  assert (layout (@TaskSpec.boot_buffers zero_machine 0x8000 sizeof_fifo_s sample_desc)) as HL.
  { destruct (example_layout []). by split. }
  split.
  - exact HL.
  - vm_compute. congruence.
  - split; try reflexivity.
    + split; try reflexivity. split_and!; cbn; lia.
    + intros i Hi (w & Hw & Hne). apply Hne. cbn in Hi. four_cases; vm_compute in Hw; by injection Hw as <-.
  - apply (memory_of_holds _ zeroes example_main HL); [| reflexivity].
    split; try reflexivity. split_and!; cbn; lia.
  - cbn [laid_out fifo_s_members fifo_s_values].
    split_and!; try exact I; intros [| [| j]] w Hw; try discriminate Hw;
      injection Hw as <-; vm_compute; reflexivity.
  - cbn. lia.
  - intros l. unfold zero_sched. destruct (_ =? _)%nat; [| done]. by repeat constructor.
  - unfold apart. cbn. lia.
  - intros i Hi. vm_compute. congruence.
Qed.

(** Task number 0 is the one in the last slot, after every log. *)
Lemma zero_first l w :
  lv_tasks (live_after (start_live sample_desc zero_main (fun _ => 0)) zero_sched sample_desc l)
    !! Z.to_nat 0 = Some w -> s32 (w 0) <> s32 ADD.
Proof.
  destruct (tasks_grow (start_live sample_desc zero_main (fun _ => 0)) zero_sched
    (@TaskSpec.boot_buffers zero_machine 0x8000 sizeof_fifo_s sample_desc) [] l) as [ts Hts].
  cbn [app b_desc TaskSpec.boot_buffers] in Hts. rewrite Hts. cbn. intros [= <-].
  vm_compute. congruence.
Qed.

Lemma live_bad_task_faults_witness :
  exists s0, @TaskManager.main_start zero_machine 0x8000 sizeof_fifo_s TaskSpec.boot = Ok (tt, s0) /\
    match @cycles zero_machine 5 TaskSpec.leftover 1 s0 with
    | Ok (_, s) => 0 < published_tasks (live_after (start_live sample_desc zero_main (fun _ => 0))
          zero_sched sample_desc (TaskManager.events s)) ->
        exists f, @cycles zero_machine 5 TaskSpec.leftover 6 s0 = Fault f /\ stage2_fault f
    | Fault f => stage2_fault f
    | OutOfFuel => False
    end.
Proof.
  apply (live_bad_task_faults sample_desc zero_main (fun _ => 0) zero_sched sample_heap
    (fun _ => 0) 0x8000 0 TaskSpec.leftover zeroes 5 1 zero_prepared); [lia | intros l j w Hj; lia | exact zero_first].
Defined.

(** It happens. *)
Example zero_run :
  match (@TaskManager.main_start zero_machine 0x8000 sizeof_fifo_s;; @cycles zero_machine 5 TaskSpec.leftover 6) TaskSpec.boot with
  | Fault f => f = NullDeref
  | _ => False
  end.
Proof. vm_compute. reflexivity. Qed.
