(* ===== verification/LiveMany.v ===== *)
(** Several queues, each with its SPE, in one main memory: [fifoInit] makes up to
    sixteen.  What each of them sees of the others is what Live.v lets others do,
    so that a run of all of them is, for each, a run beside others that the
    theorems of LiveSpec.v cover. *)
From stdpp Require Import base list.
From Stdlib Require Import ZArith Lia FunctionalExtensionality.
From S2P Require Import Prelude.
From S2P Require Import Messages.
From S2P Require Import Ring.
From S2P Require Import HostFifo.
From S2P Require Import HostQueue.
From S2P Require Import HostCalls.
From S2P Require Import Dma.
From S2P Require TaskManager.
From S2P Require Import TaskPipeline.
From S2P Require TaskLoop.
From S2P Require TaskSpec.
From S2P Require Import Machine.
From S2P Require Import System.
From S2P Require Import Live.
From S2P Require Import LiveHost.
From S2P Require Import LiveInvariant.
From S2P Require Import LiveRun.
From S2P Require Import LiveSpec.
From S2P Require Import LiveFrame.

(** * One machine, as a sequence of events and steps *)

Section trace.
Context (d : fifo_s).
Implicit Types (t : list (event + step)) (lv : live).

Definition trace_step lv (x : event + step) : live :=
  match x with inl e => issue e lv | inr st => host_step d st lv end.
Definition run_trace t lv : live := fold_left trace_step t lv.
Definition log_of t : list event := omap (fun x => match x with inl e => Some e | _ => None end) t.
(** The steps after event number [n] and before the next. *)
Fixpoint after_events (n : nat) t : list step :=
  match t, n with
  | [], _ => []
  | inl _ :: t, O => []
  | inl _ :: t, S n => after_events n t
  | inr st :: t, O => st :: after_events 0 t
  | inr _ :: t, S _ => after_events n t
  end.
Definition sched_of t (l : list event) : list step := after_events (length l) t.

Lemma log_of_snoc t x :
  log_of (t ++ [x]) = log_of t ++ match x with inl e => [e] | _ => [] end.
Proof. unfold log_of. rewrite omap_app. by destruct x. Qed.

Lemma after_events_event n t e : after_events n (t ++ [inl e]) = after_events n t.
Proof. revert n. induction t as [| [] t IH]; intros []; cbn; by rewrite ?IH. Qed.
Lemma after_events_step n t st :
  after_events n (t ++ [inr st]) =
  after_events n t ++ if (n =? length (log_of t))%nat then [st] else [].
Proof.
  revert n. induction t as [| [] t IH]; intros []; cbn; try done; by rewrite ?IH.
Qed.
Lemma after_events_end n t : (length (log_of t) < n)%nat -> after_events n t = [].
Proof.
  unfold log_of. revert n.
  induction t as [| [] t IH]; intros [] Hn; cbn in *; try done; try lia; apply IH; lia.
Qed.

(** The schedule is only asked about the prefixes of a log. *)
Lemma live_after_ext init sched sched' l :
  (forall l', (length l' <= length l)%nat -> sched l' = sched' l') ->
  live_after init sched d l = live_after init sched' d l.
Proof.
  induction l as [| e l IH] using rev_ind; intros Hs.
  - unfold live_after. cbn. by rewrite Hs.
  - rewrite !live_snoc, Hs, IH by (done || (intros; apply Hs; rewrite length_app; cbn; lia)). done.
Qed.
Lemma live_after_more init sched sched' l ss :
  (forall l', (length l' < length l)%nat -> sched' l' = sched l') -> sched' l = sched l ++ ss ->
  live_after init sched' d l = play d ss (live_after init sched d l).
Proof.
  intros Hs Hl. destruct l as [| e l _] using rev_ind.
  - unfold live_after. cbn. by rewrite Hl, play_app.
  - rewrite !live_snoc, Hl, play_app. do 2 f_equal. f_equal. apply live_after_ext.
    intros l' Hl'. apply Hs. rewrite length_app. cbn. lia.
Qed.

(** The steps between the events are a schedule. *)
Lemma live_trace init t :
  live_after init (sched_of t) d (log_of t) = run_trace t init.
Proof.
  induction t as [| [e | st] t IH] using rev_ind; [done | |];
    unfold run_trace; rewrite fold_left_app; fold (run_trace t init); rewrite <- IH, log_of_snoc.
  - rewrite live_snoc. unfold sched_of at 1. rewrite after_events_event, after_events_end.
    + cbn. f_equal. apply live_after_ext. intros l' _. apply after_events_event.
    + rewrite length_app. cbn. lia.
  - rewrite app_nil_r. cbn. apply (live_after_more _ _ _ _ [st]); unfold sched_of.
    + intros l' Hl'. rewrite after_events_step, (proj2 (Nat.eqb_neq _ _)) by lia. apply app_nil_r.
    + by rewrite after_events_step, Nat.eqb_refl.
Qed.

Lemma after_events_subset n t : forall st, st ∈ after_events n t -> inr st ∈ t.
Proof.
  revert n. induction t as [| [e | st'] t IH]; intros [| n] st Hst; cbn in Hst;
    try (by apply elem_of_nil in Hst); try (right; by eapply IH).
  apply elem_of_cons in Hst as [-> | Hst]; [left | right; by eapply IH].
Qed.
End trace.

(** * All machines *)

(** Queue number [i] is where [u i] says, its description at [su_argp], and local
    store holds [su_ls] when its SPE starts. *)
Record setup := Setup {
  su_desc : fifo_s; su_argp : Z; su_ls : memory;
  su_heap : list event -> Z; su_message : list event -> Z }.

(** What happens: an event of SPE [i], a step of the host or of the DMA engine at
    queue [i], or anything else outside of the queues. *)
Inductive action :=
| Spe (i : nat) (e : event)
| At (i : nat) (st : step)
| Outside (m : memory).

Section many.
Context (n : nat) (u : nat -> setup) (main : memory).
Implicit Types (f : nat -> live) (g : list action) (i j : nat).
Local Abbreviation d i := (su_desc (u i)).
Local Abbreviation described i a := (inside a (su_argp (u i)) 48).

(** One main memory: what component [i] makes of it is what all have. *)
Definition share i (lv : live) f : nat -> live := fun j =>
  if (j =? i)%nat then lv else set_main (lv_main lv) (f j).
Definition owned (a : Z) : bool :=
  existsb (fun i => of_queue (d i) a || described i a) (seq 0 n).
Definition act f (x : action) : nat -> live :=
  match x with
  | Spe i e => share i (issue e (f i)) f
  | At i st => share i (host_step (d i) st (f i)) f
  | Outside m => fun j => set_main (fun a => if owned a then lv_main (f j) a else m a) (f j)
  end.
Definition start i : live := start_live (d i) main (su_ls (u i)).
Definition after g : nat -> live := fold_left act g start.

(** What queue [i] sees: its own events and steps, and of everything else what it
    leaves in memory. *)
Definition seen_of i f : step :=
  Elsewhere (fun a => if described i a then main a else lv_main (f i) a).
Definition view i f (x : action) : event + step :=
  match x with
  | Spe j e => if (j =? i)%nat then inl e else inr (seen_of i f)
  | At j st => if (j =? i)%nat then inr st else inr (seen_of i f)
  | Outside _ => inr (seen_of i f)
  end.
Fixpoint views i f g : list (event + step) :=
  match g with
  | [] => []
  | x :: g => let f := act f x in view i f x :: views i f g
  end.
Definition trace_of i g : list (event + step) := views i start g.

Lemma views_snoc i f g x :
  views i f (g ++ [x]) = views i f g ++ [view i (fold_left act (g ++ [x]) f) x].
Proof. revert f. induction g as [| y g IH]; intros f; [done |]. cbn. by rewrite IH. Qed.

(** The queues and their descriptions do not overlap. *)
Record separate : Prop := {
  sp_queues i j a : (i < n)%nat -> (j < n)%nat -> i <> j ->
    of_queue (d i) a = true -> of_queue (d j) a = false;
  sp_described i j a : (i < n)%nat -> (j < n)%nat ->
    described i a = true -> of_queue (d j) a = false }.

(** Steps at a queue are those of its host threads and its DMA engine. *)
Definition allowed (x : action) : Prop :=
  match x with
  | Spe i _ => (i < n)%nat
  | At i st => (i < n)%nat /\ match st with Elsewhere _ => False | _ => True end
  | Outside _ => True
  end.

(** The buffers of SPE [i]; no schedule has a part in them. *)
Definition bufs i : buffers :=
  TaskSpec.boot_buffers (H := live_machine (start i) (fun _ => []) (d i) (su_heap (u i))
    (su_message (u i))) (su_argp (u i)) sizeof_fifo_s (d i).

Context (Hsep : separate).

(** Component [i] is the machine of Live.v after the trace [ts i]. *)
Record together f (ts : nat -> list (event + step)) : Prop := {
  tg_run i : (i < n)%nat -> f i = run_trace (d i) (ts i) (start i);
  tg_main i j : lv_main (f i) = lv_main (f j);
  tg_orderly i : (i < n)%nat -> orderly (bufs i) (f i);
  tg_described i a : (i < n)%nat -> described i a = true -> lv_main (f i) a = main a }.

Lemma seen_step j m lv :
  (forall a, of_queue (d j) a = true \/ described j a = true -> m a = lv_main lv a) ->
  (forall a, described j a = true -> lv_main lv a = main a) ->
  (j < n)%nat ->
  host_step (d j) (Elsewhere (fun a => if described j a then main a else m a)) lv = set_main m lv.
Proof.
  intros Hm Hd Hj. cbn. unfold do_elsewhere. f_equal. apply functional_extensionality. intros a.
  destruct (of_queue (d j) a) eqn:Hq; [by rewrite Hm by (by left) |].
  destruct (described j a) eqn:Ha; [| done]. by rewrite Hm, Hd by (done || by right).
Qed.

Lemma share_same i lv f : share i lv f i = lv.
Proof. unfold share. by rewrite Nat.eqb_refl. Qed.
Lemma share_main i lv f j : lv_main (share i lv f j) = lv_main lv.
Proof. unfold share. by destruct (j =? i)%nat. Qed.
Lemma orderly_set_main B m lv : orderly B lv -> orderly B (set_main m lv).
Proof. by intros []. Qed.

Lemma together_share i x f ts :
  together f ts -> (i < n)%nat ->
  (forall a, of_queue (d i) a = false -> lv_main (trace_step (d i) (f i) x) a = lv_main (f i) a) ->
  orderly (bufs i) (trace_step (d i) (f i) x) ->
  let f' := share i (trace_step (d i) (f i) x) f in
  together f' (fun j => ts j ++ [if (i =? j)%nat then x else inr (seen_of j f')]).
Proof.
  intros [T1 T2 T3 T4] Hi Hm Ho f'. set (lv := trace_step (d i) (f i) x) in *.
  assert (forall j a, (j < n)%nat -> j <> i -> of_queue (d j) a = true -> lv_main lv a = lv_main (f j) a) as Hq.
  { intros j a Hj Hne Ha. rewrite (T2 j i). by apply Hm, (sp_queues Hsep j i a). }
  assert (forall j a, (j < n)%nat -> described j a = true -> lv_main lv a = lv_main (f j) a) as Hd.
  { intros j a Hj Ha. rewrite (T2 j i). by apply Hm, (sp_described Hsep j i a). }
  split.
  - intros j Hj. unfold run_trace. rewrite fold_left_app. fold (run_trace (d j) (ts j) (start j)).
    rewrite <- T1 by done. destruct (Nat.eqb_spec i j) as [<- | Hne].
    + by unfold f'; rewrite share_same.
    + cbn [fold_left trace_step]. unfold seen_of, f'. rewrite share_main. rewrite seen_step; try done.
      * unfold share. by rewrite (proj2 (Nat.eqb_neq _ _)) by (by apply not_eq_sym).
      * intros a [Ha | Ha]; [apply Hq | apply Hd]; done.
      * intros a Ha. by apply T4.
  - intros j j'. unfold f'. by rewrite !share_main.
  - intros j Hj. unfold f', share. destruct (Nat.eqb_spec j i) as [-> |]; [done |].
    by apply orderly_set_main, T3.
  - intros j a Hj Ha. unfold f'. rewrite share_main, Hd with (j := j) by done. by apply T4.
Qed.

Lemma owned_spec i a :
  (i < n)%nat -> of_queue (d i) a = true \/ described i a = true -> owned a = true.
Proof.
  intros Hi Ha. apply existsb_exists. exists i. split; [apply in_seq; lia |].
  apply orb_true_iff. tauto.
Qed.

Lemma together_outside m f ts :
  together f ts ->
  let f' := act f (Outside m) in together f' (fun j => ts j ++ [inr (seen_of j f')]).
Proof.
  intros [T1 T2 T3 T4] f'. split.
  - intros j Hj. unfold run_trace. rewrite fold_left_app. fold (run_trace (d j) (ts j) (start j)).
    rewrite <- T1 by done. cbn [fold_left trace_step]. unfold seen_of, f'. cbn [act set_main lv_main].
    rewrite seen_step; try done.
    + intros a Ha. by rewrite (owned_spec j).
    + intros a Ha. by apply T4.
  - intros j j'. cbn. by rewrite (T2 j j').
  - intros j Hj. by apply orderly_set_main, T3.
  - intros j a Hj Ha. cbn. rewrite (owned_spec j) by (done || by right). by apply T4.
Qed.

(** What every machine sees of the others is what Live.v lets others do. *)
Lemma all_together g :
  (forall i, (i < n)%nat -> layout (bufs i)) -> Forall allowed g ->
  (forall i, (i < n)%nat -> Forall (harmless (bufs i)) (log_of (trace_of i g))) ->
  together (after g) (fun i => trace_of i g).
Proof.
  intros HL. induction g as [| x g IH] using rev_ind; intros Hg Hh.
  { split; try done. intros i Hi. by apply start_orderly, HL. }
  apply Forall_app in Hg as [Hg [Hx _]%Forall_cons].
  assert (forall i, trace_of i (g ++ [x]) = trace_of i g ++ [view i (after (g ++ [x])) x]) as Htr.
  { intros i. apply views_snoc. }
  assert (together (after g) (fun i => trace_of i g)) as Ht.
  { apply IH; [done |]. intros i Hi. specialize (Hh i Hi). rewrite Htr, log_of_snoc in Hh.
    by apply Forall_app in Hh as [Hh _]. }
  assert (after (g ++ [x]) = act (after g) x) as Hact.
  { unfold after. by rewrite fold_left_app. }
  assert (forall f ts ts', (forall i, ts i = ts' i) -> together f ts -> together f ts') as Hext.
  { intros f ts ts' He [T1 T2 T3 T4]. split; try done. intros i Hi. by rewrite <- He, T1. }
  eapply Hext; [intros i; symmetry; apply Htr |]. cbv beta. rewrite Hact.
  destruct x as [i e | i st | m].
  - assert (harmless (bufs i) e) as He.
    { specialize (Hh i Hx). rewrite Htr, log_of_snoc in Hh. cbn in Hh. rewrite Nat.eqb_refl in Hh.
      by apply Forall_app in Hh as [_ [Hh _]%Forall_cons]. }
    pose proof (tg_orderly _ _ Ht i Hx) as Ho.
    eapply Hext; [| apply (together_share i (inl e) _ _ Ht Hx)]; cycle 1.
    + intros a Ha. by apply (issue_leaves (bufs i)).
    + by apply orderly_issue.
    + intros j. cbn. by destruct (i =? j)%nat.
  - destruct Hx as [Hi Hst]. pose proof (tg_orderly _ _ Ht i Hi) as Ho.
    eapply Hext; [| apply (together_share i (inr st) _ _ Ht Hi)]; cycle 1.
    + intros a Ha. cbn [trace_step]. change (d i) with (b_desc (bufs i)).
      rewrite (step_leaves (bufs i)) by done. by destruct st.
    + by apply (orderly_step (bufs i)).
    + intros j. cbn. by destruct (i =? j)%nat.
  - by apply together_outside.
Qed.

(** SPE [i] beside all that happens in [g]. *)
Definition machine_of g i : Mfc :=
  live_machine (start i) (sched_of (trace_of i g)) (d i) (su_heap (u i)) (su_message (u i)).

(** Its log is one of the task program: it begins the log of a run of some
    cycles from its start on. *)
Definition runs_program (fuel : nat) (indet : nat -> Z) g i : Prop :=
  exists k s0 s, @TaskManager.main_start (machine_of g i) (su_argp (u i)) sizeof_fifo_s TaskSpec.boot =
      Ok (tt, s0) /\
    @cycles (machine_of g i) fuel indet k s0 = Ok (tt, s) /\
    log_of (trace_of i g) `prefix_of` TaskManager.events s.

(** Its queue is as [fifoInit] leaves it, and its tasks are additions that
    do not overflow from what its [res] holds when they are executed. *)
Definition ready i q : Prop :=
  prepared (d i) main (su_ls (u i)) (fun _ => []) (su_heap (u i)) (su_message (u i)) (su_argp (u i)) q.
Definition good_tasks (indet : nat -> Z) g i : Prop := forall l j w,
  lv_tasks (live_after (start i) (sched_of (trace_of i g)) (d i) l) !! j = Some w ->
  TaskLoop.good (indet j) w.

(** Nobody writes over the descriptions. *)
Lemma views_mind i f g st :
  Forall allowed g -> inr st ∈ views i f g -> minds main (su_argp (u i)) st.
Proof.
  intros Hg. revert f. induction Hg as [| x g Hx _ IH]; intros f Hst; cbn in Hst.
  { by apply elem_of_nil in Hst. }
  apply elem_of_cons in Hst as [Hst | Hst]; [| by eapply IH].
  assert (forall f, minds main (su_argp (u i)) (seen_of i f)) as Hs.
  { intros f' k Hk. assert (described i (su_argp (u i) + 4 * k) = true) as ->; [| done].
    apply inside_spec. unfold within. lia. }
  destruct x as [j e | j st' | m]; cbn in Hst; [destruct (j =? i)%nat.. |]; simplify_eq;
    try apply Hs.
  destruct Hx as [_ Hx]. by destruct st'.
Qed.

Lemma ready_prepared g i q :
  Forall allowed g -> ready i q ->
  prepared (d i) main (su_ls (u i)) (sched_of (trace_of i g)) (su_heap (u i)) (su_message (u i))
    (su_argp (u i)) q.
Proof.
  intros Hg [R1 R2 R3 R4 R5 R6 R7 R8 R9]. split; try done.
  intros l. apply Forall_forall. intros st Hst. eapply (views_mind i start g); [done |].
  by eapply after_events_subset.
Qed.

Lemma runs_harmless fuel indet g i q :
  Forall allowed g -> ready i q -> good_tasks indet g i -> runs_program fuel indet g i ->
  Forall (harmless (bufs i)) (log_of (trace_of i g)).
Proof.
  intros Hg Hr Hgood (k & s0 & s & Hstart & Hk & l & Hl).
  pose proof (ready_prepared g i q Hg Hr) as HP.
  destruct (run_cycles _ _ _ _ _ _ _ _ _ HP Hgood fuel k)
    as (s0' & s' & m & nf & F & o1 & o2 & o3 & Hstart' & Hk' & HR).
  pose proof (running_harmless _ _ _ _ _ _ _ _ _ _ _ _ _ _ _ _ _ s' HP HR) as Hall.
  unfold machine_of, start in Hstart, Hk. unfold whole in Hstart', Hk'. rewrite Hstart' in Hstart. injection Hstart as <-.
  rewrite Hk' in Hk. injection Hk as <-. rewrite Hl in Hall.
  by apply Forall_app in Hall as [Hall _].
Qed.

(** Each of them is the machine of Live.v, and all have one memory. *)
Lemma many_live fuel (indet : nat -> nat -> Z) g (qs : nat -> queue) :
  Forall allowed g ->
  (forall i, (i < n)%nat -> ready i (qs i) /\ good_tasks (indet i) g i /\
     runs_program fuel (indet i) g i) ->
  (forall i, (i < n)%nat -> after g i =
     live_after (start i) (sched_of (trace_of i g)) (d i) (log_of (trace_of i g))) /\
  (forall i j, lv_main (after g i) = lv_main (after g j)).
Proof.
  intros Hg Hall. destruct (all_together g) as [T1 T2 _ _]; [| done | | split; [| done]].
  - intros i Hi. destruct (Hall i Hi) as [[HL _ _ _ _ _ _ _ _] _]. exact HL.
  - intros i Hi. destruct (Hall i Hi) as (Hr & Hgood & Hrun). by eapply runs_harmless.
  - intros i Hi. rewrite live_trace. by apply T1.
Qed.
End many.

(** * Property *)


(** * Witness *)

(** ** Schedules of whole submissions *)

Section submissions.
Context (n : nat) (u : nat -> setup) (main : memory).
Implicit Types (t : list (event + step)) (g : list action).

Definition silent_trace t : Prop :=
  Forall (fun x => match x with inr st => silent st | _ => True end) t.

Lemma after_events_silent k t : silent_trace t -> Forall silent (after_events k t).
Proof.
  intros Ht. apply Forall_forall. intros st Hst%after_events_subset.
  unfold silent_trace in Ht. rewrite Forall_forall in Ht. by apply (Ht (inr st)).
Qed.
Lemma after_events_app k t t' :
  exists k', after_events k (t ++ t') = after_events k t ++ after_events k' t' \/
    after_events k (t ++ t') = after_events k t.
Proof.
  revert k. induction t as [| [e | st] t IH]; intros [| k]; cbn; try (exists 0%nat; by right).
  - exists 0%nat. by left.
  - exists (S k). by left.
  - apply IH.
  - destruct (IH 0%nat) as [k' [-> | ->]]; exists k'; (by left) || (by right).
  - apply IH.
Qed.
Lemma after_events_steps k ss t :
  after_events k (map inr ss ++ t) = match k with O => ss | _ => [] end ++ after_events k t.
Proof. destruct k; induction ss as [| st ss IH]; cbn; by rewrite ?IH. Qed.

(** One submission, with events and silent steps before and after it. *)
Lemma polite_trace indet t ws t' l :
  silent_trace t -> silent_trace t' -> adds_up indet ws ->
  polite indet (sched_of (t ++ map inr (submission ws) ++ t') l).
Proof.
  intros Ht Ht' Hws. unfold sched_of. set (k := length l).
  pose proof (after_events_silent k t Ht) as Hs.
  destruct (after_events_app k t (map inr (submission ws) ++ t')) as [k' [-> | ->]].
  - rewrite after_events_steps. pose proof (after_events_silent k' t' Ht') as Hs'. destruct k'.
    + exists [after_events k t; submission ws; after_events 0 t']. cbn. rewrite app_nil_r.
      split; [done |]. repeat (apply Forall_cons; split); try done; try (by left).
      right. by exists ws.
    + exists [after_events k t; after_events (S k') t']. cbn. rewrite app_nil_r.
      split; [done |]. repeat (apply Forall_cons; split); try done; by left.
  - exists [after_events k t]. cbn. rewrite app_nil_r. split; [done |].
    apply Forall_singleton. by left.
Qed.

Lemma views_app i f g g' :
  views n u main i f (g ++ g') =
  views n u main i f g ++ views n u main i (fold_left (act n u) g f) g'.
Proof. revert f. induction g as [| x g IH]; intros f; [done |]. cbn. by rewrite IH. Qed.
Lemma views_own i f ss : views n u main i f (map (At i) ss) = map inr ss.
Proof. revert f. induction ss as [| st ss IH]; intros f; [done |]. cbn. by rewrite Nat.eqb_refl, IH. Qed.
Lemma views_silent i f g :
  Forall (fun x => match x with At j st => j <> i \/ silent st | _ => True end) g ->
  silent_trace (views n u main i f g).
Proof.
  intros Hg. revert f. induction Hg as [| x g Hx _ IH]; intros f; constructor; [| apply IH].
  destruct x as [j e | j st | m]; cbn in *; [by destruct (j =? i)%nat | | done].
  destruct (Nat.eqb_spec j i); [by destruct Hx | done].
Qed.
End submissions.

(** ** Two SPEs *)

(** Two fresh queues of four slots, a mebibyte apart, and their descriptions. *)
Definition two (i : nat) : setup :=
  let o := 0x100000 * Z.of_nat i in
  Setup (Fifo_s (o + 0x10000) (o + 0x20000) (o + 0x30000) 4 1 0) (o + 0x8000) (fun _ => 0)
    sample_heap (fun _ => 0).
Definition two_main : memory := fun a =>
  if inside a 0x108000 48 then
    List.nth (Z.to_nat ((a - 0x108000) / 4)) [0; 0x110000; 0; 0x120000; 0; 0x130000; 4; 1] 0
  else poke 0x30000 0 (poke 0x30004 0 example_main) (a mod 0x100000).
Definition two_queues (i : nat) : queue :=
  let d := su_desc (two i) in
  Queue (Ring_context 0 0 4) (map (fun k => two_main (task_fifo d + 4 * k)) (seqZ 0 128))
    (map (fun k => two_main (ack_fifo d + 4 * k)) (seqZ 0 16)) (Atomic_s 0 0).

(** A task for each of them. *)
Definition two_task (i : nat) : list Z := [ADD; 1; 2; 10 * (1 + Z.of_nat i); 20].
(** What [res] holds on each of them. *)
Definition two_left (i k : nat) : Z := TaskSpec.leftover (i + k).
Definition two_log (i : nat) : list event :=
  let M := live_machine (start two two_main i)
    (fun l => match l with [] => submission (two_task i) | _ => [] end) (su_desc (two i))
    sample_heap (fun _ => 0) in
  match (@TaskManager.main_start M (su_argp (two i)) sizeof_fifo_s;; @cycles M 5 (two_left i) 5) TaskSpec.boot with
  | Ok (_, s) => TaskManager.events s
  | _ => []
  end.
(** SPE 1 makes all its cycles during the second of SPE 0; at the end the transfers
    of both acknowledgements take effect. *)
Definition two_run : list action :=
  map (At 0) (submission (two_task 0)) ++ map (Spe 0) (take 20 (two_log 0)) ++
  map (At 1) (submission (two_task 1)) ++ map (Spe 1) (two_log 1) ++
  Outside (poke 0 77 two_main) :: map (Spe 0) (drop 20 (two_log 0)) ++
  [At 0 (Complete 0); At 1 (Complete 0)].

Lemma two_cases i : (i < 2)%nat -> i = 0%nat \/ i = 1%nat.
Proof. lia. Qed.

Lemma two_layout i : (i < 2)%nat -> layout (bufs two two_main i).
Proof.
  intros Hi.
  destruct (two_cases i Hi) as [-> | ->];
  (split; try (intros j k Hj Hk Hne; four_cases; try congruence; vm_compute; intuition congruence);
    try (intros j k Hj Hk; four_cases; vm_compute; intuition congruence);
    try (intros j Hj; four_cases; vm_compute; intuition congruence);
    vm_compute; intuition congruence).
Qed.

Lemma two_queues_wf i : queue_wf (two_queues i).
Proof. split; try reflexivity. split_and!; cbn; lia. Qed.

Lemma two_ready i : (i < 2)%nat -> ready two two_main i (two_queues i).
Proof.
  intros Hi. split.
  - by apply two_layout.
  - vm_compute. congruence.
  - split; try reflexivity; [apply two_queues_wf |].
    intros j Hj (w & Hw & Hne). apply Hne. cbn in Hj.
    destruct (two_cases i Hi) as [-> | ->]; four_cases; vm_compute in Hw; by injection Hw as <-.
  - destruct (two_cases i Hi) as [-> | ->];
      (split; try reflexivity; intros k Hk; cbn [size q_ring two_queues] in Hk;
       [exact (lookup_map_seqZ _ 128 k Hk) | exact (lookup_map_seqZ _ 16 k Hk)]).
  - cbn [laid_out fifo_s_members fifo_s_values].
    destruct (two_cases i Hi) as [-> | ->];
      (split_and!; try exact I; intros [| [| j]] w Hw; try discriminate Hw;
       injection Hw as <-; vm_compute; reflexivity).
  - destruct (two_cases i Hi) as [-> | ->]; cbn; lia.
  - done.
  - unfold apart. destruct (two_cases i Hi) as [-> | ->]; cbn; lia.
  - intros j Hj. vm_compute. congruence.
Qed.

Lemma two_separate : separate 2 two.
Proof.
  split; intros i j a Hi Hj.
  - intros Hne Ha. apply of_queue_spec in Ha. apply not_true_iff_false. rewrite of_queue_spec.
    unfold within in *. cbn in *. lia.
  - intros Ha. apply inside_spec in Ha. apply not_true_iff_false. rewrite of_queue_spec.
    unfold within in *. cbn in *. lia.
Qed.

Lemma two_allowed : Forall (allowed 2) two_run.
Proof.
  assert (forall i ss, (i < 2)%nat -> Forall (fun st => match st with Elsewhere _ => False | _ => True end) ss ->
    Forall (allowed 2) (map (At i) ss)) as Hat.
  { intros i ss Hi Hss. apply Forall_map. by eapply Forall_impl. }
  assert (forall i l, (i < 2)%nat -> Forall (allowed 2) (map (Spe i) l)) as Hspe.
  { intros i l Hi. apply Forall_map. by apply Forall_true. }
  unfold two_run. rewrite !Forall_app, Forall_cons, Forall_app.
  split_and!; try apply Hspe; try apply Hat; try lia; by repeat constructor; cbn; lia.
Qed.

Lemma two_good i : (i < 2)%nat -> good_tasks 2 two two_main (two_left i) two_run i.
Proof.
  intros Hi l. refine (proj2 (polite_published (su_desc (two i)) (two_left i) (start two two_main i)
    (sched_of (trace_of 2 two two_main i two_run)) l _ _)).
  - assert (adds_up (two_left i) (two_task i)) as Ha.
    { split; [cbn; lia |]. split; [reflexivity |].
      intros k. pose proof (TaskSpec.leftover_bound (i + k)).
      destruct (two_cases i Hi) as [-> | ->];
        (apply small_addition; [by vm_compute | by vm_compute | by vm_compute | unfold two_left; lia]). }
    intros l'. unfold trace_of, two_run. destruct (two_cases i Hi) as [-> | ->].
    + rewrite views_app, views_own, <- (app_nil_l (map inr _ ++ _)). apply (polite_trace (two_left 0) []); [constructor | | exact Ha].
      apply views_silent. rewrite !Forall_app, Forall_cons, Forall_app.
      split_and!; try (apply Forall_map, Forall_true; done); try done.
      * apply Forall_map, Forall_true. intros st. by left.
      * repeat (apply Forall_cons; split); done || by right.
    + rewrite app_assoc, views_app, (views_app _ _ _ _ _ (map (At 1) _)), views_own.
      apply polite_trace; [| | exact Ha]; apply views_silent;
        rewrite ?Forall_app, ?Forall_cons, ?Forall_app; split_and!;
        try (apply Forall_map, Forall_true; done); try done.
      * apply Forall_map, Forall_true. intros st. by left.
      * repeat (apply Forall_cons; split); done || by right.
  - split; [reflexivity |]. intros [| j] w Hw; [| discriminate Hw]. injection Hw as <-.
    destruct (two_cases i Hi) as [-> | ->]; (split; [vm_compute; reflexivity |]);
      eexists; vm_compute; reflexivity.
Qed.

Lemma run_ok {S : Type} (r : res (unit * S)) (P : S -> Prop) :
  match r with Ok (_, s) => P s | _ => False end -> exists s, r = Ok (tt, s) /\ P s.
Proof. destruct r as [[[] s] | |]; by eauto. Qed.

(** The logs of the run are those of the program. *)
Lemma two_runs i : (i < 2)%nat -> exists s0 s,
  @TaskManager.main_start (machine_of 2 two two_main two_run i) (su_argp (two i)) sizeof_fifo_s
    TaskSpec.boot = Ok (tt, s0) /\
  @cycles (machine_of 2 two two_main two_run i) 5 (two_left i) 5 s0 = Ok (tt, s) /\
  TaskManager.events s = log_of (trace_of 2 two two_main i two_run).
Proof.
  intros Hi.
  destruct (run_ok ((@TaskManager.main_start (machine_of 2 two two_main two_run i) (su_argp (two i))
      sizeof_fifo_s;; @cycles (machine_of 2 two two_main two_run i) 5 (two_left i) 5) TaskSpec.boot)
    (fun s => TaskManager.events s = log_of (trace_of 2 two two_main i two_run)))
    as (s & Hrun & Hlog).
  { destruct (two_cases i Hi) as [-> | ->]; vm_compute; reflexivity. }
  apply M_bind_inv in Hrun as ([] & s0 & Hstart & Hk).
  exists s0, s. exact (conj Hstart (conj Hk Hlog)).
Qed.

Lemma two_program i : (i < 2)%nat -> runs_program 2 two two_main 5 (two_left i) two_run i.
Proof.
  intros Hi. destruct (two_runs i Hi) as (s0 & s & Hstart & Hk & Hlog).
  exists 5%nat, s0, s. refine (conj Hstart (conj Hk _)). rewrite Hlog. reflexivity.
Qed.

(** What the host finds at the end: the result of the addition that happened to be
    in the last slot of each queue. *)
Example two_answers :
  let m := lv_main (after 2 two two_main two_run 0) in
  (m 0x20004, m 0x120004, m 0) = (39, 52, 77).
Proof. vm_compute. reflexivity. Qed.

